(* ===== verification/_CoqProject ===== *)
-Q . S2P
Prelude.v
GoLib.v
Breaker.v
Stac.v
Fanout.v
Merger.v
Cursor.v
Store.v
PageCache.v
PageAdapter.v
Pagination.v
Session.v
Router.v
Httpx.v
Middleware.v
Auth.v
Cql2.v
Authz.v
Query.v
Cache.v
Remap.v
RateLimit.v
RedisLimiter.v
Edge.v
SearchHandler.v
Config.v
Validation.v
Jwks.v
AuthProviders.v
Parser.v
OriginAuth.v
TokenFlight.v
OriginClient.v
Transport.v
Proxy.v
Catalog.v
Opa.v
Pipeline.v
Wiring.v
Lifecycle.v
System.v
