(* ===== verification/Prelude.v ===== *)
(** * stac-proxy: verification development

    stac-proxy puts several STAC catalogues ("origins") behind one API.
    [cmd/stac-proxy/main.go] loads and validates a configuration and
    assembles the server from it.  A request passes the router of
    [internal/server] (body limit, classifier, search parser) and the
    middleware tiers of [internal/middleware] (logging, CORS,
    authentication, rate limiting, authorization, response cache, URL
    remapping) and reaches the federation layer of [internal/federation],
    which routes it to origins, fans it out, merges the answers and pages
    through them with signed cursors, or passes it through to one origin.
    Calls to an origin go through the authentication, retry and
    circuit-breaker transports of its client.

    ** Files

    Source paths are under [src/internal/].

    - [Prelude.v]: the [result] type of Go's [(value, error)] pairs and its
      monad, machine integers, stable sorting, first-occurrence lists,
      tactics ([bool_to_prop], [inv_ok], [split_cases]), the hint database
      [stac].
    - [GoLib.v]: what the code uses of Go's library: [strings], base64,
      generic JSON values, [http.Header], URLs, float conversions, map
      iteration in an unspecified order ([MapRange]).
    - Federation: [Stac.v] ([stac/types.go], [extras.go],
      [conformance.go]); [Fanout.v] ([federation/fanout.go], as a function
      and as a step relation over goroutines); [Merger.v] ([merger.go]);
      [Cursor.v] ([cursor.go]); [PageAdapter.v] ([pageadapter]);
      [Pagination.v] ([pagination.go], the failure accounting of
      [status.go]); [Session.v] (whole sessions over it, page after page); [Router.v] ([router.go], with the abstract registry it
      refines); [SearchHandler.v] ([search.go] and the rest of [status.go]:
      the handler that composes router, paginator, fan-out and merger);
      [Proxy.v] ([proxy.go], [assets.go]: the pass-through, link and asset
      rewriting); [Catalog.v] ([catalog.go], [handler.go]: construction,
      dispatch and the remaining handlers).
    - Origins: [Breaker.v] ([httpx/breaker.go]; state under one mutex, so
      [admit], called [admitRequest], and [record] are atomic, and requests
      in flight interleave in a step relation); [Httpx.v] ([capture.go],
      [hopbyhop.go], the retry decision of [transport.go],
      [logx/throttle.go]); [OriginAuth.v] ([federation/auth.go],
      [auth_providers.go]); [TokenFlight.v] (the OAuth2 provider under
      concurrent calls); [OriginClient.v] ([federation/origin.go]);
      [Transport.v] (the rest of [transport.go], and the stack of breaker,
      credentials and retries of a client, request by request).
    - Stores: [Store.v] (the [Store] interface of the caches as a class with
      its laws, and [middleware/cache/memory.go], [store/redis/kv.go],
      [NoOpStore]); [PageCache.v] ([federation/pagecache]), proved against
      the interface only.
    - Requests: [Query.v] ([net/url]'s query encoding and
      [normalizeQuery]); [Parser.v] ([stac/parser.go],
      [server/searchparser.go]); [Middleware.v] ([middleware/types.go],
      [server/classifier.go]).
    - Authentication: [Auth.v] ([middleware/auth/provider.go],
      [middleware.go], [apikey.go]); [Jwks.v] ([jwks.go], with all
      interleavings of callers and refreshes); [AuthProviders.v]
      ([basic.go], [bearer.go], [oidc.go], [mtls.go]).
    - Authorization: [Cql2.v] ([geo/geo.go], [stac/cql2_eval.go]);
      [Authz.v] ([middleware/authz/types.go], [cql2.go],
      [required_filters.go], [middleware.go]); [Opa.v] ([opa.go],
      [opa_embedded.go]).
    - Other tiers: [Cache.v] ([middleware/cache/middleware.go]); [Remap.v]
      ([middleware/remap]); [RateLimit.v] ([middleware/ratelimit/limiter.go],
      [middleware.go], [middleware/clientip.go]); [RedisLimiter.v]
      ([ratelimit/redis.go], an instance of the [Limiter] interface);
      [Edge.v] ([middleware/logging], [observability]).
    - Configuration: [Config.v] ([config/config.go]); [Validation.v]
      ([config/validation.go] and [Load]).
    - Composition: [Pipeline.v] ([server/router.go] and the chain of [run]);
      [Wiring.v] ([cmd/stac-proxy/main.go], [server/server.go],
      [store/redis/client.go], [middleware/cors], the constructors that read
      configuration blocks); [Lifecycle.v] ([server/server.go] and the ends
      of [run] and [main]: binding, serving, signal, shutdown and exit as a
      step relation); [System.v] (a deployment of [Wiring.v] behind the
      router of [Pipeline.v], with the handlers of [Catalog.v] and
      [Proxy.v] inside: one request from the socket to the origins and
      back).

    ** Conventions

    A Go function is a function; a method that mutates its receiver takes the
    receiver last or first and returns it.  A pointer the source shares and
    mutates is modelled by a heap (the buckets of [RateLimit.v]).  A panic is
    [None], a value of an error type or, for a handler, an outcome of its
    own, as is an aborted connection ([Pipeline.outcome]).  [time.Now] is an argument in
    nanoseconds, random draws are arguments.  Durations and counters are
    [Z]; [int64] and [uint64] wrap-around is written out where it matters
    ([Breaker.v], [OriginAuth.v], [Jwks.v]); float64 is [spec_float].
    Iterating over a Go map is [range], of which only that it is a
    permutation of the entries is known.  An [http.Handler] of the pipeline
    is a function of the headers on its writer, the request with its context
    values and the state of the tiers.

    Libraries the repository does not contain are parameters, as classes:
    hashing ([Crypto]), JSON codecs ([CursorCodec], [PageCodec], [JSON],
    [EntryCodec], [DocCodec], [BodyCodec], [SearchCodec], [InputCodec]),
    [net/url] and [netip] ([URL.GoURL], [URLRef], [URLPrint], [URLPrinter],
    [NetLib]), the LRU and Redis clients ([LRU], [RedisClient]), geometry
    ([GeoLib], [Cql2Geo]), the CQL2 library ([Cql2Lib]), token buckets
    ([RateLib]), times ([GoTime]), number parsing ([ParseFloat]), bcrypt,
    JWT, OIDC and X.509 ([Bcrypt], [JWT], [OIDC], [X509]), AWS signing
    ([Signer]), the Rego evaluator ([Rego]), the retry loop ([Retryable],
    with its documented contract as a law), chi's client addresses
    ([ClientIPLib]), the network of one origin ([World]).  The route matcher and the CORS
    handler of chi, regular expressions, durations, host files and the
    answers of origins are arguments.  What is relied on of them is a class
    of laws or a hypothesis of the theorem, and the [Witness] module of the
    file gives an instance.  Collision freedom of a hash is only assumed of
    the inputs that occur.

    ** What the theorems show

    - The whole server: no search outside what the policy released, in
      collections, limit or filter, reaches an origin or shows in a response
      ([origins_see_released]); every request is answered while the origins'
      answers stay within their limits and do not break off
      ([serve_answers]); every accepted request is
      accounted for until the process exits ([shutdown_contract]), although
      the drain is not awaited ([drain_not_awaited]).
    - Federation: a session loses no item and invents none
      ([session_complete]), and a client that follows the next tokens gets to
      its end with everything delivered ([session_terminates]); every page is
      bounded, ordered, counted and free of duplicates
      ([renderPage_contract]); merging is first-wins and
      independent of arrival order ([mergeItemsFirstWins_correct],
      [MergeSearchResults_order_independent],
      [MergeSearchResults_contract], [MergeCollections_correct]); the fan-out
      terminates under every schedule with results in order
      ([fanOut_schedules]); routing implements its registry
      ([Route_refines]); continuation links stay on the origin
      ([Capture_rooted]) and are read in the documented order
      ([auto_selects], [parseNext_renderLinks]); failures are reported and
      never cached ([search_partial_contract]); pagination links repeat the
      request ([cursorSearchLink_follow]); each origin is asked for its own
      collection names whatever the interleaving, when prefixes come with a
      mapping ([fanOutSearch_intended]); a constructed handler routes only to
      origins it has ([NewHandler_wired]); queryables and conformance are
      intersections ([intersectQueryables_spec]).
    - Pass-through: no inbound credential leaks ([no_credential_leak]);
      searches go out constrained ([outbound_search]); links are rewritten
      where they are links ([rewriteLinks_at]); asset references round-trip
      within the origin, up to dot segments ([asset_roundtrip]); an answer
      passes whole or closes the connection ([receive_whole]).
    - Cursors: acceptance is characterised exactly ([DecodeCursor_iff]),
      minted tokens come back ([Encode_DecodeCursor]), entries keep their
      invariant ([cursor_reachable_invariant], [ActiveOrigins_spec],
      [error_budget]); the retry bound is lost by cloning
      ([Clone_loses_error_budget], [dead_origin_never_retired]).
    - Origins: the breaker's counters match the requests in flight over
      all interleavings ([breaker_reachable_invariant]), stale outcomes are
      ignored, it opens at its threshold for a period computed without
      harmful overflow ([record_stale_ignored], [threshold_failures_open],
      [open_window], [openPeriod_exact]); searches go to the origin's search
      endpoint or to links that start like its base URL
      ([search_contained]); a request is one sample of the breaker, is
      refused without effect while it is open and is replayed only where
      that is safe, within bounds ([transport_contract]); tokens are fresh
      ([oauth_tokens_valid]), also when callers share a refresh, of which one
      at a time runs and which ends ([token_flights]); decoding is bounded ([decode_bounded]).
    - Caches: a hit is what was stored, for the same principal and still
      alive ([MemoryStore_sound], [PageCache_isolation], [cache_replay]),
      so that the cache cannot be noticed however requests overlap
      ([cache_transparent]);
      queries are compared in a canonical form
      ([normalizeQuery_canonical]); incomplete pages are not cached
      ([failed_page_not_cached]).
    - Security tiers: authentication fails closed
      ([authenticate_fails_closed], [chain_dispatch], [APIKey_refines],
      [basic_login], [bearer_authentic]), keys come from the newest document
      under every interleaving and lookups terminate ([jwks_reachable],
      [jwks_answers], [jwks_throttle]); authorization constrains the request
      and the response ([authzHandler_gate], [injectCQL2Filter_conj],
      [geofence_enforced], [validateSingleRecord_spec]), by what the policy
      said, read off the raw result ([opa_gate], [opa_roundtrip]); clients
      have separate quotas under every interleaving ([rate_isolation]), and
      shared buckets bound the rate, up to the calls a failing Redis lets
      through ([redis_rate_bound]); signed URLs round-trip ([Sign_Verify]); logs are
      redacted ([log_redaction]).
    - Parsing and configuration: searches round-trip
      ([parse_query_roundtrip], [searchParser_contract]); validation and
      loading are characterised ([Validate_iff], [Load_spec],
      [expandEnvStrict_spec]).
    - Composition: nothing reaches the handlers that a tier did not admit
      ([pipeline_gate]); constrained answers bypass the cache
      ([constrained_uncached]); a validated configuration builds a handler
      ([validated_boots]) and keeps in Redis what it should
      ([redis_stores]); the open-server warning is exact
      ([open_warning_exact]); filters are pushed down only where they are
      evaluated ([pushdown_gate]); single mode is a federation of one
      ([single_is_federation]).
    - Utilities: [ResponseCapture_bound], [StripHopByHopHeaders_spec],
      [Intersect_spec], [mergeResults_panics_iff].

    Lemmas of the [Witness] modules with no theorem of the same name show
    behaviour worth knowing on concrete inputs, such as
    [Opa.Witness.reload_drops_files].

    ** Bounds and fuel

    Recursion is structural, or well-founded on the length of the input
    ([Config.expandEnvStrict], with Equations), except for
    [Remap.showDigits], whose fuel is one more than the binary logarithm of
    the number (each step divides by ten), and [OriginClient.follow] and
    [Transport.following], whose fuel of nine is the redirect limit of the
    HTTP client: ten requests.
    Link rewriting and remapping descend a fixed number of levels, as the
    code does.  The breaker invariant is stated for fewer than 2^64
    transitions, the width of its generation counter.  The bound of the
    Redis limiter is proved over the rationals; the script runs on float64,
    whose rounding it leaves out.

    ** Not modelled

    Sockets, TLS and the timeouts of calls; the retry loop and the
    evaluators of the libraries; log output; the running and aggregation of
    health checks; the [Referer] header of redirects.  The step relation of
    [Lifecycle.v] takes requests as opaque, [System.v] one request at a time
    against the state the tiers keep: their interleaving is modelled where
    the code synchronises it (breaker, fan-out, JWKS, token refreshes,
    the response cache between lookup and store, the lookup, insertion and
    spending of the in-memory limiter; stores and the Redis script as atomic
    operations), not for the server as a whole.  Methods that only
    read a field, print a value for a log or convert between a type and its
    copy in another package have no definition of their own. *)

From stdpp Require Export strings gmap list sorting fin_maps.
From Stdlib Require Export ZArith Lia.
From Stdlib Require Import Ascii.

#[global] Arguments String.append !_ _ / : simpl nomatch.

(** ** Notation scope and hint databases of the development *)

Declare Scope go_scope.
Delimit Scope go_scope with go.
Create HintDb stac discriminated.

(** Go's [[]byte] and [string] are both byte sequences. *)
Abbreviation bytes := string.

(** ** Results: Go's [(value, error)] pairs *)

Inductive result (E A : Type) : Type :=
| Ok (a : A)
| Err (e : E).
Arguments Ok {E A} a.
Arguments Err {E A} e.

#[export] Instance result_ret {E} : MRet (result E) := λ A a, Ok a.
#[export] Instance result_bind {E} : MBind (result E) :=
  λ A B f r, match r with Ok a => f a | Err e => Err e end.
#[export] Instance result_fmap {E} : FMap (result E) :=
  λ A B f r, match r with Ok a => Ok (f a) | Err e => Err e end.

Definition is_ok {E A} (r : result E A) : bool :=
  match r with Ok _ => true | Err _ => false end.

(** Guard of an early return: [if cond { return err }]. *)
Definition check {E} (ok : bool) (e : E) : result E unit :=
  if ok then Ok () else Err e.

Lemma bind_ok {E A B} (r : result E A) (f : A → result E B) b :
  (r ≫= f) = Ok b ↔ ∃ a, r = Ok a ∧ f a = Ok b.
Proof. destruct r as [a'|e']; cbn; naive_solver. Qed.

Lemma bind_err {E A B} (r : result E A) (f : A → result E B) e :
  (r ≫= f) = Err e ↔ r = Err e ∨ ∃ a, r = Ok a ∧ f a = Err e.
Proof. destruct r as [a'|e']; cbn; naive_solver. Qed.

Lemma check_ok {E} (b : bool) (e : E) u : check b e = Ok u ↔ b = true.
Proof. destruct b, u; cbn; naive_solver. Qed.

(** ** Tactics *)

(** Case analysis on every [if]/[match] scrutinee of the goal. *)
Ltac split_cases :=
  repeat (case_match; simplify_eq/=).

(** Turns boolean tests of the code into propositions. *)
Ltac bool_to_prop :=
  repeat match goal with
  | H : (_ && _) = true |- _ => apply andb_prop in H as [? ?]
  | H : negb _ = true |- _ => apply negb_true_iff in H
  | H : negb _ = false |- _ => apply negb_false_iff in H
  | H : (_ || _) = false |- _ => apply orb_false_elim in H as [? ?]
  | H : (_ <? _)%Z = true |- _ => apply Z.ltb_lt in H
  | H : (_ <? _)%Z = false |- _ => apply Z.ltb_ge in H
  | H : (_ <=? _)%Z = true |- _ => apply Z.leb_le in H
  | H : (_ <=? _)%Z = false |- _ => apply Z.leb_gt in H
  | H : (_ =? _)%Z = true |- _ => apply Z.eqb_eq in H
  | H : (_ =? _)%Z = false |- _ => apply Z.eqb_neq in H
  | H : bool_decide _ = true |- _ => apply bool_decide_eq_true_1 in H
  | H : bool_decide _ = false |- _ => apply bool_decide_eq_false_1 in H
  end.

(** Peels the binds of a successful monadic computation. *)
Ltac inv_ok :=
  repeat match goal with
  | H : (_ ≫= _) = Ok _ |- _ => apply bind_ok in H as (? & ? & H)
  | H : check _ _ = Ok _ |- _ => apply check_ok in H
  | H : Ok _ = Ok _ |- _ => injection H as H
  | H : Err _ = Ok _ |- _ => discriminate H
  end; simplify_eq/=.

(** ** Fixed-width integers: Go's [int64] and [uint64] *)

Definition two64 : Z := 2 ^ 64.
Definition max_int64 : Z := 2 ^ 63 - 1.

(** Two's complement wrap-around of an arbitrary integer to [int64]. *)
Definition wrap64 (z : Z) : Z := ((z + 2 ^ 63) mod 2 ^ 64 - 2 ^ 63)%Z.
(** Wrap-around to [uint64]. *)
Definition wrapu64 (z : Z) : Z := (z mod two64)%Z.

#[global] Arguments wrap64 : simpl never.
#[global] Arguments wrapu64 : simpl never.

Lemma wrap64_range z : (- 2 ^ 63 ≤ wrap64 z < 2 ^ 63)%Z.
Proof. unfold wrap64. pose proof (Z.mod_pos_bound (z + 2^63) (2^64)). lia. Qed.

Lemma wrap64_id z : (- 2 ^ 63 ≤ z < 2 ^ 63)%Z → wrap64 z = z.
Proof. intros ?. unfold wrap64. rewrite Z.mod_small; lia. Qed.

Lemma wrapu64_id z : (0 ≤ z < two64)%Z → wrapu64 z = z.
Proof. intros ?. unfold wrapu64. by rewrite Z.mod_small. Qed.

Lemma wrapu64_succ_neq z : wrapu64 (z + 1) ≠ z.
Proof.
  unfold wrapu64, two64. intros H.
  pose proof (Z.mod_pos_bound (z + 1) (2^64)) as Hb.
  assert (0 ≤ z < 2^64)%Z by lia.
  destruct (decide (z = 2^64 - 1)%Z) as [->|].
  - rewrite (Z.sub_add 1), Z.mod_same in H; lia.
  - rewrite Z.mod_small in H; lia.
Qed.

(** ** Stable sorting: [sort.SliceStable], [sort.Strings]

    [sort.SliceStable(xs, less)] returns the unique stable permutation of
    [xs] ordered by [less]; insertion from the right computes it. *)

Section StableSort.
Context {A : Type} (less : A → A → bool).

Fixpoint insert_sorted (x : A) (l : list A) : list A :=
  match l with
  | [] => [x]
  | y :: l' => if less y x then y :: insert_sorted x l' else x :: y :: l'
  end.

Definition sort_stable (l : list A) : list A := foldr insert_sorted [] l.

Lemma insert_sorted_perm x l : insert_sorted x l ≡ₚ x :: l.
Proof.
  induction l as [|y l IH]; cbn; [done|].
  case_match; [|done]. rewrite IH. apply Permutation_swap.
Qed.

Lemma sort_stable_perm l : sort_stable l ≡ₚ l.
Proof. induction l; cbn; [done|]. by rewrite insert_sorted_perm; f_equiv. Qed.

Lemma sort_stable_elem x l : x ∈ sort_stable l ↔ x ∈ l.
Proof. by rewrite sort_stable_perm. Qed.

Lemma sort_stable_length l : length (sort_stable l) = length l.
Proof. by rewrite sort_stable_perm. Qed.

(** The order the sort establishes: no later element precedes an earlier
    one. *)
Definition sorted_by : list A → Prop := StronglySorted (λ x y, less y x = false).

Hypothesis less_asym : ∀ x y, less x y = true → less y x = false.
Hypothesis less_cotrans :
  ∀ x y z, less x y = false → less y z = false → less x z = false.

Lemma insert_sorted_sorted x l : sorted_by l → sorted_by (insert_sorted x l).
Proof.
  induction 1 as [|y l Hl IH Hy]; cbn; [repeat constructor|].
  destruct (less y x) eqn:E.
  - constructor; [done|]. rewrite insert_sorted_perm.
    constructor; [by apply less_asym|done].
  - constructor; [by constructor|]. constructor; [done|].
    eapply Forall_impl; [done|]. cbn. intros z Hz. by eapply less_cotrans.
Qed.

Lemma sort_stable_sorted l : sorted_by (sort_stable l).
Proof. induction l; cbn; [constructor|by apply insert_sorted_sorted]. Qed.

(** Stability: elements no two of which are ordered keep their order. *)
Lemma insert_sorted_filter (P : A → Prop) `{∀ x, Decision (P x)} x l :
  (∀ y z, P y → P z → less y z = false) →
  filter P (insert_sorted x l) = filter P (x :: l).
Proof.
  intros HP. induction l as [|y l IH]; cbn; [done|].
  destruct (less y x) eqn:E; [|done].
  rewrite (filter_cons _ y (insert_sorted x l)), IH, !filter_cons.
  repeat case_decide; try done.
  by rewrite HP in E.
Qed.

Lemma sort_stable_stable (P : A → Prop) `{∀ x, Decision (P x)} l :
  (∀ y z, P y → P z → less y z = false) →
  filter P (sort_stable l) = filter P l.
Proof.
  intros HP. induction l as [|x l IH]; cbn; [done|].
  fold (sort_stable l). rewrite insert_sorted_filter by done.
  by rewrite !filter_cons, IH.
Qed.
End StableSort.

#[export] Hint Resolve sort_stable_perm : stac.

(** ** Keep-first deduplication with a seen set

    The loop shape the merger uses twice: skip an element whose key is in
    the set, otherwise record the key and append. *)

Section Firsts.
Context {A : Type} (key : A → string).

(** Reference: the first element of every key not yet seen. *)
Fixpoint firsts (seen : gset string) (l : list A) : list A :=
  match l with
  | [] => []
  | x :: l =>
      if bool_decide (key x ∈ seen) then firsts seen l
      else x :: firsts ({[key x]} ∪ seen) l
  end.

Lemma firsts_sublist seen l : firsts seen l `sublist_of` l.
Proof.
  revert seen. induction l as [|x l IH]; intros seen; cbn; [done|].
  case_bool_decide; [by apply sublist_cons|by apply sublist_skip].
Qed.

Lemma firsts_unseen seen l x : x ∈ firsts seen l → key x ∉ seen.
Proof.
  revert seen. induction l as [|y l IH]; intros seen; cbn; [set_solver|].
  case_bool_decide; [by apply IH|]. rewrite elem_of_cons.
  intros [->|Hx%IH]; set_solver.
Qed.

Lemma firsts_NoDup seen l : NoDup (key <$> firsts seen l).
Proof.
  revert seen. induction l as [|y l IH]; intros seen; cbn; [constructor|].
  case_bool_decide; [done|]. cbn. constructor; [|done].
  intros (x & Hk & Hx)%list_elem_of_fmap. apply firsts_unseen in Hx. set_solver.
Qed.

Lemma firsts_find seen l k :
  List.find (λ x, String.eqb (key x) k) (firsts seen l) =
    if bool_decide (k ∈ seen) then None else List.find (λ x, String.eqb (key x) k) l.
Proof.
  revert seen. induction l as [|y l IH]; intros seen; cbn; [by case_bool_decide|].
  destruct (String.eqb_spec (key y) k) as [<-|Hne].
  - case_bool_decide as Hin; cbn.
    + rewrite IH. by rewrite bool_decide_true.
    + by rewrite String.eqb_refl.
  - case_bool_decide as Hin; cbn.
    + apply IH.
    + rewrite (proj2 (String.eqb_neq _ _)) by done. rewrite IH.
      repeat case_bool_decide; set_solver.
Qed.

Lemma find_key_Some (l : list A) k :
  k ∈ key <$> l ↔ is_Some (List.find (λ x, String.eqb (key x) k) l).
Proof.
  split.
  - intros (x & -> & Hx)%list_elem_of_fmap. destruct (List.find _ l) eqn:E; [done|].
    apply list_elem_of_In in Hx. pose proof (find_none _ _ E x Hx) as Hn. cbn in Hn.
    by rewrite String.eqb_refl in Hn.
  - intros [x Hx]. apply find_some in Hx as [Hin Hk]. apply String.eqb_eq in Hk as <-.
    apply list_elem_of_fmap. exists x. split; [done|]. by apply list_elem_of_In.
Qed.

Lemma firsts_keys l k : k ∈ key <$> firsts ∅ l ↔ k ∈ key <$> l.
Proof.
  rewrite !find_key_Some, firsts_find. by rewrite bool_decide_false by set_solver.
Qed.
End Firsts.

Section KeepFirst.
Context {A B : Type} (key : A → string) (tag : A → B).

Definition keepFirst (st : gset string * list B) (x : A) : gset string * list B :=
  if bool_decide (key x ∈ st.1) then st else ({[key x]} ∪ st.1, st.2 ++ [tag x]).

Lemma foldl_keepFirst l seen out :
  foldl keepFirst (seen, out) l =
    (list_to_set (key <$> l) ∪ seen, out ++ (tag <$> firsts key seen l)).
Proof.
  revert seen out. induction l as [|x l IH]; intros seen out; cbn.
  - f_equal; [set_solver|by rewrite app_nil_r].
  - unfold keepFirst at 2; cbn. case_bool_decide as Hin; rewrite IH; f_equal.
    + set_solver.
    + set_solver.
    + cbn. by rewrite <-app_assoc.
Qed.

End KeepFirst.
