(* ===== verification/GoLib.v ===== *)
(** * The parts of Go and its standard library the code uses

    Byte strings and the [strings] functions, header-name
    canonicalisation ([net/textproto]), [http.Header], unpadded URL-safe
    base64 ([encoding/base64]), and the dynamic values ([interface{}])
    that JSON documents decode to.

    [ToLower] and [EqualFold] fold ASCII letters only; the code applies them
    to URL schemes, hosts, methods and header values. *)

From S2P Require Import Prelude.
From Stdlib Require Import Ascii SpecFloat.

(** ** Strings *)

Module Strings.

Definition HasPrefix (s p : string) : bool := String.prefix p s.

Fixpoint drop_str (n : nat) (s : string) : string :=
  match n, s with
  | O, _ => s
  | S n, String _ s => drop_str n s
  | S _, EmptyString => EmptyString
  end.

Definition TrimPrefix (s p : string) : string :=
  if HasPrefix s p then drop_str (String.length p) s else s.

(** [strings.Split(s, sep)] for a one-byte separator. *)
Fixpoint Split (s : string) (sep : ascii) : list string :=
  match s with
  | EmptyString => [""]
  | String c s =>
      if Ascii.eqb c sep then "" :: Split s sep else
      match Split s sep with
      | [] => [String c ""]
      | w :: ws => String c w :: ws
      end
  end.

(** [strings.Contains]. *)
Fixpoint Contains (s sub : string) : bool :=
  HasPrefix s sub || match s with EmptyString => false | String _ s => Contains s sub end.

(** The text after the last occurrence of [c], if there is one. *)
Fixpoint after_last (c : ascii) (s : string) : option string :=
  match s with
  | EmptyString => None
  | String a s' =>
      match after_last c s' with
      | Some r => Some r
      | None => if Ascii.eqb a c then Some s' else None
      end
  end.

Definition ToLower1 (c : ascii) : ascii :=
  let n := N_of_ascii c in
  if (65 <=? n)%N && (n <=? 90)%N then ascii_of_N (n + 32) else c.
Definition ToUpper1 (c : ascii) : ascii :=
  let n := N_of_ascii c in
  if (97 <=? n)%N && (n <=? 122)%N then ascii_of_N (n - 32) else c.

Fixpoint ToLower (s : string) : string :=
  match s with EmptyString => EmptyString | String c s => String (ToLower1 c) (ToLower s) end.

Definition EqualFold (s t : string) : bool := String.eqb (ToLower s) (ToLower t).

(** [unicode.IsSpace] on ASCII. *)
Definition isSpace (c : ascii) : bool :=
  let n := N_of_ascii c in ((9 <=? n)%N && (n <=? 13)%N) || (n =? 32)%N.

Fixpoint TrimLeftSpace (s : string) : string :=
  match s with
  | String c s' => if isSpace c then TrimLeftSpace s' else s
  | EmptyString => EmptyString
  end.

Fixpoint TrimRightBy (p : ascii → bool) (s : string) : string :=
  match s with
  | EmptyString => EmptyString
  | String c s' =>
      match TrimRightBy p s' with
      | EmptyString => if p c then EmptyString else String c EmptyString
      | r => String c r
      end
  end.

Definition TrimSpace (s : string) : string := TrimRightBy isSpace (TrimLeftSpace s).
(** [strings.TrimRight(s, "/")]. *)
Definition TrimRightSlash (s : string) : string := TrimRightBy (Ascii.eqb "/") s.

(** [strings.TrimSuffix(s, "/")]: at most one slash. *)
Fixpoint TrimSuffixSlash (s : string) : string :=
  match s with
  | EmptyString => EmptyString
  | String "/" EmptyString => EmptyString
  | String c s' => String c (TrimSuffixSlash s')
  end.

Fixpoint join_sep (sep : string) (l : list string) : string :=
  match l with
  | [] => ""
  | [s] => s
  | s :: l => s +:+ sep +:+ join_sep sep l
  end.

(** Byte-wise lexicographic order: Go's [<] on strings. *)
Definition ltb (s t : string) : bool :=
  match String.compare s t with Lt => true | _ => false end.

(** [sort.Strings]. *)
Definition sort_Strings : list string → list string := sort_stable ltb.

Lemma HasPrefix_cons a p b s : HasPrefix (String b s) (String a p) = Ascii.eqb a b && HasPrefix s p.
Proof.
  unfold HasPrefix. cbn [String.prefix]. destruct (ascii_dec a b) as [->|Hne].
  - by rewrite Ascii.eqb_refl.
  - by rewrite (proj2 (Ascii.eqb_neq a b) Hne).
Qed.

Lemma HasPrefix_app p s : HasPrefix (p +:+ s) p = true.
Proof.
  unfold HasPrefix. induction p as [|a p IH]; cbn; [by destruct s|].
  by destruct (ascii_dec a a).
Qed.

Lemma HasPrefix_spec s p : HasPrefix s p = true ↔ ∃ r, s = p +:+ r.
Proof.
  split; [|intros [r ->]; apply HasPrefix_app].
  unfold HasPrefix.
  revert s. induction p as [|a p IH]; intros [|b s]; cbn; try done; try by eexists.
  destruct (ascii_dec a b) as [->|]; [|done]. intros [r ->]%IH. by exists r.
Qed.

Lemma drop_str_app p r : drop_str (String.length p) (p +:+ r) = r.
Proof. by induction p. Qed.

Lemma HasPrefix_drop s p : HasPrefix s p = true → p +:+ drop_str (String.length p) s = s.
Proof. intros [r ->]%HasPrefix_spec. by rewrite drop_str_app. Qed.

Lemma TrimPrefix_app p r : TrimPrefix (p +:+ r) p = r.
Proof. unfold TrimPrefix. by rewrite HasPrefix_app, drop_str_app. Qed.

Lemma ltb_irrefl s : ltb s s = false.
Proof. unfold ltb. pose proof (String.compare_antisym s s). by destruct (String.compare s s). Qed.

Lemma ltb_asym s t : ltb s t = true → ltb t s = false.
Proof. unfold ltb. rewrite (String.compare_antisym t s). by destruct (String.compare s t). Qed.

Lemma ltb_total s t : ltb s t = false → ltb t s = false → s = t.
Proof.
  unfold ltb. rewrite (String.compare_antisym t s).
  destruct (String.compare s t) eqn:E; try done. intros _ _. by apply String.compare_eq_iff.
Qed.

Lemma ltb_cons a s b t :
  ltb (String a s) (String b t) =
    match Ascii.compare a b with Lt => true | Eq => ltb s t | Gt => false end.
Proof. unfold ltb. cbn. by destruct (Ascii.compare a b). Qed.

Lemma ascii_compare_N a b : Ascii.compare a b = N.compare (N_of_ascii a) (N_of_ascii b).
Proof. done. Qed.

Lemma ltb_cotrans s t u : ltb s t = false → ltb t u = false → ltb s u = false.
Proof.
  revert t u. induction s as [|a s IH]; intros [|b t] [|c u]; try done.
  rewrite !ltb_cons, !ascii_compare_N.
  destruct (N.compare_spec (N_of_ascii a) (N_of_ascii b)) as [E1|E1|E1],
    (N.compare_spec (N_of_ascii b) (N_of_ascii c)) as [E2|E2|E2],
    (N.compare_spec (N_of_ascii a) (N_of_ascii c)) as [E3|E3|E3];
    try done; try lia. apply IH.
Qed.

Lemma sort_Strings_sorted l : sorted_by ltb (sort_Strings l).
Proof. apply sort_stable_sorted; [apply ltb_asym|apply ltb_cotrans]. Qed.

Lemma Split_cons_ne s sep : Split s sep ≠ [].
Proof. destruct s as [|c s]; cbn; [done|]. by repeat case_match. Qed.

(** Occurrence of a byte. *)
Fixpoint occurs (c : ascii) (s : string) : bool :=
  match s with EmptyString => false | String a s => Ascii.eqb a c || occurs c s end.

Lemma Split_app s t sep :
  occurs sep s = false → Split (s +:+ String sep t) sep = s :: Split t sep.
Proof.
  induction s as [|a s IH]; cbn.
  - by rewrite Ascii.eqb_refl.
  - intros [Ha Hs]%orb_false_elim. by rewrite Ha, IH.
Qed.

Lemma Split_single s sep : occurs sep s = false → Split s sep = [s].
Proof.
  induction s as [|a s IH]; cbn; [done|].
  intros [Ha Hs]%orb_false_elim. by rewrite Ha, IH.
Qed.

Lemma Split_join_sep sep segs :
  segs ≠ [] → Forall (λ s, occurs sep s = false) segs → Split (join_sep (String sep "") segs) sep = segs.
Proof.
  intros Hne Hf. induction Hf as [|s segs Hs Hf IH]; [done|].
  destruct segs as [|s' segs]; [by apply Split_single|].
  change (join_sep _ (s :: s' :: segs)) with (s +:+ String sep (join_sep (String sep "") (s' :: segs))).
  by rewrite Split_app, IH.
Qed.

Lemma after_last_none c s : occurs c s = false → after_last c s = None.
Proof.
  induction s as [|a s IH]; cbn; [done|].
  intros [Ha Hs]%orb_false_elim. by rewrite IH, Ha.
Qed.

Lemma after_last_app c s t : occurs c t = false → after_last c (s +:+ String c t) = Some t.
Proof.
  intros Ht. induction s as [|a s IH]; cbn; [|by rewrite IH].
  by rewrite after_last_none, Ascii.eqb_refl.
Qed.

Lemma app_sep_inj c s1 s2 t1 t2 :
  occurs c s1 = false → occurs c s2 = false →
  s1 +:+ String c t1 = s2 +:+ String c t2 → s1 = s2 ∧ t1 = t2.
Proof.
  revert s2. induction s1 as [|a s1 IH]; intros [|b s2]; cbn; intros H1 H2 Heq; simplify_eq.
  - done.
  - by rewrite Ascii.eqb_refl in H2.
  - by rewrite Ascii.eqb_refl in H1.
  - apply orb_false_elim in H1 as [_ H1]. apply orb_false_elim in H2 as [_ H2].
    destruct (IH s2); naive_solver.
Qed.

Lemma length_append s t : String.length (s +:+ t) = String.length s + String.length t.
Proof. induction s; cbn; congruence. Qed.

Lemma append_inj_r s1 s2 t : s1 +:+ t = s2 +:+ t → s1 = s2.
Proof.
  revert s2. induction s1 as [|a s1 IH]; intros [|b s2]; cbn; intros Heq; [done| | |].
  - apply (f_equal String.length) in Heq. cbn in Heq. rewrite length_append in Heq. lia.
  - apply (f_equal String.length) in Heq. cbn in Heq. rewrite length_append in Heq. lia.
  - simplify_eq. f_equal. by apply IH.
Qed.

Lemma app_sep_inj_r c s1 s2 t1 t2 :
  occurs c t1 = false → occurs c t2 = false →
  s1 +:+ String c t1 = s2 +:+ String c t2 → s1 = s2 ∧ t1 = t2.
Proof.
  intros H1 H2 Heq.
  assert (t1 = t2) as <-.
  { pose proof (after_last_app c s1 t1 H1) as E. rewrite Heq, after_last_app in E by done.
    congruence. }
  split; [|done]. by eapply append_inj_r.
Qed.

Lemma occurs_append c s t : occurs c (s +:+ t) = occurs c s || occurs c t.
Proof. induction s as [|a s IH]; cbn; [done|]. by rewrite IH, orb_assoc. Qed.

Lemma append_nil_r s : s +:+ "" = s.
Proof. induction s; cbn; congruence. Qed.

Lemma append_assoc s t u : (s +:+ t) +:+ u = s +:+ t +:+ u.
Proof. induction s; cbn; congruence. Qed.

Lemma append_inj_l p s t : p +:+ s = p +:+ t → s = t.
Proof. induction p; cbn; [done|]. intros [=]. auto. Qed.

(** [strings.Cut(s, sep)] with its found flag; [strings.Index] and slicing
    around the separator. *)
Fixpoint CutSub (sep s : string) : option (string * string) :=
  if HasPrefix s sep then Some ("", drop_str (String.length sep) s) else
  match s with
  | EmptyString => None
  | String c s' =>
      match CutSub sep s' with Some (a, b) => Some (String c a, b) | None => None end
  end.

Lemma CutSub_Some sep s a b : CutSub sep s = Some (a, b) → s = a +:+ sep +:+ b.
Proof.
  revert a b. induction s as [|c s IH]; intros a b; cbn [CutSub]; case_match; try done.
  - intros [= <- <-]. by rewrite HasPrefix_drop.
  - intros [= <- <-]. by rewrite HasPrefix_drop.
  - destruct (CutSub sep s) as [[x y]|]; [|done]. intros [= <- <-]. by rewrite (IH x y).
Qed.

Lemma CutSub_None sep s : CutSub sep s = None ↔ Contains s sep = false.
Proof.
  induction s as [|c s IH]; cbn [CutSub Contains]; destruct (HasPrefix _ sep); cbn [orb]; try done.
  rewrite <-IH. by destruct (CutSub sep s) as [[]|].
Qed.

(** A one-byte separator after a text without it. *)
Lemma CutSub_byte c s t :
  occurs c s = false → CutSub (String c "") (s +:+ String c t) = Some (s, t).
Proof.
  induction s as [|a s IH]; cbn.
  - intros _. destruct (ascii_dec c c); [|done]. by destruct t.
  - intros [Ha Hs]%orb_false_elim. rewrite (IH Hs). destruct (ascii_dec c a) as [->|]; [|done].
    by rewrite Ascii.eqb_refl in Ha.
Qed.

End Strings.

#[export] Hint Resolve Strings.HasPrefix_app Strings.ltb_irrefl Strings.ltb_asym
  Strings.ltb_cotrans Strings.sort_Strings_sorted : stac.

(** ** Base64: [base64.RawURLEncoding] (unpadded, URL-safe) and [StdEncoding] *)

Module Base64.
Local Open Scope N_scope.

(** The alphabet [A-Za-z0-9-_]. *)
Definition enc6 (n : N) : ascii :=
  if n <? 26 then ascii_of_N (65 + n)
  else if n <? 52 then ascii_of_N (97 + (n - 26))
  else if n <? 62 then ascii_of_N (48 + (n - 52))
  else if n =? 62 then "-"%char else "_"%char.

Definition dec6 (c : ascii) : option N :=
  let n := N_of_ascii c in
  if (65 <=? n) && (n <=? 90) then Some (n - 65)
  else if (97 <=? n) && (n <=? 122) then Some (n - 97 + 26)
  else if (48 <=? n) && (n <=? 57) then Some (n - 48 + 52)
  else if n =? 45 then Some 62
  else if n =? 95 then Some 63
  else None.

(** Three bytes become four characters; one or two left-over bytes become
    two or three. *)
Fixpoint EncodeToString (s : bytes) : string :=
  match s with
  | EmptyString => EmptyString
  | String a EmptyString =>
      let a := N_of_ascii a in
      String (enc6 (a / 4)) (String (enc6 (a mod 4 * 16)) EmptyString)
  | String a (String b EmptyString) =>
      let a := N_of_ascii a in let b := N_of_ascii b in
      String (enc6 (a / 4)) (String (enc6 (a mod 4 * 16 + b / 16))
        (String (enc6 (b mod 16 * 4)) EmptyString))
  | String a (String b (String c s)) =>
      let a := N_of_ascii a in let b := N_of_ascii b in let c := N_of_ascii c in
      String (enc6 (a / 4)) (String (enc6 (a mod 4 * 16 + b / 16))
        (String (enc6 (b mod 16 * 4 + c / 64)) (String (enc6 (c mod 64)) (EncodeToString s))))
  end.

(** The decoder skips carriage returns and line feeds. *)
Fixpoint skip_newlines (s : string) : string :=
  match s with
  | EmptyString => EmptyString
  | String c s =>
      if (N_of_ascii c =? 10) || (N_of_ascii c =? 13) then skip_newlines s
      else String c (skip_newlines s)
  end.

(** Not in strict mode: the unused low bits of a final short group are
    ignored. *)
Fixpoint decode_groups (s : string) : option bytes :=
  match s with
  | EmptyString => Some EmptyString
  | String _ EmptyString => None
  | String c0 (String c1 EmptyString) =>
      x0 ← dec6 c0; x1 ← dec6 c1;
      Some (String (ascii_of_N (x0 * 4 + x1 / 16)) EmptyString)
  | String c0 (String c1 (String c2 EmptyString)) =>
      x0 ← dec6 c0; x1 ← dec6 c1; x2 ← dec6 c2;
      Some (String (ascii_of_N (x0 * 4 + x1 / 16))
        (String (ascii_of_N (x1 mod 16 * 16 + x2 / 4)) EmptyString))
  | String c0 (String c1 (String c2 (String c3 s))) =>
      x0 ← dec6 c0; x1 ← dec6 c1; x2 ← dec6 c2; x3 ← dec6 c3;
      r ← decode_groups s;
      Some (String (ascii_of_N (x0 * 4 + x1 / 16))
        (String (ascii_of_N (x1 mod 16 * 16 + x2 / 4))
          (String (ascii_of_N (x2 mod 4 * 64 + x3)) r)))
  end.

Definition DecodeString (s : string) : option bytes := decode_groups (skip_newlines s).

Definition in_alphabet (c : ascii) : bool :=
  match dec6 c with Some _ => true | None => false end.

Lemma below_64 (P : N → bool) n : n < 64 → forallb P (map N.of_nat (seq 0 64)) = true → P n = true.
Proof.
  intros Hn Hall. rewrite forallb_forall in Hall. apply Hall.
  apply in_map_iff. exists (N.to_nat n). rewrite N2Nat.id. split; [done|].
  apply in_seq. lia.
Qed.

Lemma dec6_enc6 n : n < 64 → dec6 (enc6 n) = Some n.
Proof.
  intros Hn. apply (below_64 (λ n, match dec6 (enc6 n) with Some m => m =? n | None => false end))
    in Hn; [|by vm_compute].
  case_match; [|done]. f_equal. by apply N.eqb_eq.
Qed.

(** No character of the alphabet is a dot, a slash or a line break. *)
Definition clean6 (c : ascii) : bool :=
  negb (Ascii.eqb c ".") && negb (Ascii.eqb c "/") &&
  negb (N_of_ascii c =? 10) && negb (N_of_ascii c =? 13).

Lemma enc6_clean n : n < 64 → clean6 (enc6 n) = true.
Proof. intros Hn. apply (below_64 (λ n, clean6 (enc6 n))); [done|by vm_compute]. Qed.

Lemma byte_bound a : N_of_ascii a < 256.
Proof. apply N_ascii_bounded. Qed.

(** Induction three bytes at a time. *)
Lemma triple_ind (P : bytes → Prop) :
  P EmptyString → (∀ a, P (String a EmptyString)) →
  (∀ a b, P (String a (String b EmptyString))) →
  (∀ a b c s, P s → P (String a (String b (String c s)))) → ∀ s, P s.
Proof.
  intros H0 H1 H2 H3.
  cut (∀ n s, (String.length s < n)%nat → P s).
  { intros Hc s. apply (Hc (S (String.length s))). lia. }
  induction n as [|n IH]; [lia|].
  intros [|a [|b [|c s]]] Hn; auto. apply H3, IH. cbn in Hn. lia.
Qed.

(** [lia] with the equations of [/] and [mod]. *)
#[local] Ltac Zify.zify_post_hook ::= Z.to_euclidean_division_equations.

Ltac six_bits :=
  repeat match goal with
  | |- context [N_of_ascii ?a] =>
      lazymatch goal with
      | _ : N_of_ascii a < 256 |- _ => fail
      | _ => pose proof (byte_bound a)
      end
  end.

Lemma EncodeToString_clean s :
  Strings.occurs "." (EncodeToString s) = false ∧
  Strings.occurs "/" (EncodeToString s) = false ∧
  skip_newlines (EncodeToString s) = EncodeToString s.
Proof.
  assert (Hc : ∀ n r, n < 64 →
    (Strings.occurs "." r = false ∧ Strings.occurs "/" r = false ∧ skip_newlines r = r) →
    Strings.occurs "." (String (enc6 n) r) = false ∧
    Strings.occurs "/" (String (enc6 n) r) = false ∧
    skip_newlines (String (enc6 n) r) = String (enc6 n) r).
  { intros n r Hn (Hd & Hs & Hr). pose proof (enc6_clean n Hn) as Hn'.
    unfold clean6 in Hn'. bool_to_prop. cbn.
    destruct (N_of_ascii (enc6 n) =? 10), (N_of_ascii (enc6 n) =? 13); try done.
    cbn. rewrite Hr. repeat split; try done; by apply orb_false_intro. }
  induction s as [| | |] using triple_ind; cbn [EncodeToString]; [done|..]; six_bits;
    repeat (apply Hc; [lia|]); done.
Qed.

Lemma decode_encode_groups s : decode_groups (EncodeToString s) = Some s.
Proof.
  induction s as [|a|a b|a b c s IH] using triple_ind; cbn [EncodeToString decode_groups];
    [done|..]; six_bits; rewrite !dec6_enc6 by lia; cbn [mbind option_bind];
    rewrite ?IH; cbn [mbind option_bind];
    repeat f_equal; rewrite <-ascii_N_embedding; f_equal; lia.
Qed.

Lemma DecodeString_EncodeToString s : DecodeString (EncodeToString s) = Some s.
Proof.
  unfold DecodeString. destruct (EncodeToString_clean s) as (_ & _ & ->).
  apply decode_encode_groups.
Qed.

Lemma EncodeToString_empty s : EncodeToString s = "" ↔ s = "".
Proof. split; [|by intros ->]. destruct s as [|a [|b [|c s]]]; cbn; done. Qed.

Lemma EncodeToString_inj s t : EncodeToString s = EncodeToString t → s = t.
Proof.
  intros Heq. apply (f_equal DecodeString) in Heq.
  rewrite !DecodeString_EncodeToString in Heq. congruence.
Qed.

(** *** [base64.StdEncoding]: [+] and [/] in the alphabet, padded *)

Definition toStd (c : ascii) : ascii :=
  if Ascii.eqb c "-" then "+"%char else if Ascii.eqb c "_" then "/"%char else c.
Definition fromStd (c : ascii) : option ascii :=
  if Ascii.eqb c "+" then Some "-"%char else if Ascii.eqb c "/" then Some "_"%char
  else if Ascii.eqb c "-" || Ascii.eqb c "_" then None else Some c.
Definition std6 (c : ascii) : option N := c ← fromStd c; dec6 c.

(** Pads an unpadded encoding to a multiple of four characters. *)
Fixpoint pad (s : string) : string :=
  match s with
  | String c0 (String c1 EmptyString) => String c0 (String c1 "==")
  | String c0 (String c1 (String c2 EmptyString)) => String c0 (String c1 (String c2 "="))
  | String c0 (String c1 (String c2 (String c3 s))) => String c0 (String c1 (String c2 (String c3 (pad s))))
  | s => s
  end.
Fixpoint string_map (f : ascii → ascii) (s : string) : string :=
  match s with EmptyString => EmptyString | String c s => String (f c) (string_map f s) end.

Definition StdEncode (s : bytes) : string := pad (string_map toStd (EncodeToString s)).

(** Padding is required and ends the input; unused low bits are ignored. *)
Fixpoint std_groups (s : string) : option bytes :=
  match s with
  | EmptyString => Some EmptyString
  | String c0 (String c1 (String c2 (String c3 s))) =>
      x0 ← std6 c0; x1 ← std6 c1;
      if Ascii.eqb c3 "=" then
        if negb (String.eqb s "") then None
        else if Ascii.eqb c2 "=" then Some (String (ascii_of_N (x0 * 4 + x1 / 16)) EmptyString)
        else
          x2 ← std6 c2;
          Some (String (ascii_of_N (x0 * 4 + x1 / 16))
            (String (ascii_of_N (x1 mod 16 * 16 + x2 / 4)) EmptyString))
      else
        x2 ← std6 c2; x3 ← std6 c3;
        r ← std_groups s;
        Some (String (ascii_of_N (x0 * 4 + x1 / 16))
          (String (ascii_of_N (x1 mod 16 * 16 + x2 / 4))
            (String (ascii_of_N (x2 mod 4 * 64 + x3)) r)))
  | _ => None
  end.

Definition StdDecode (s : string) : option bytes := std_groups (skip_newlines s).

Definition std_ok (n : N) : bool :=
  let c := toStd (enc6 n) in
  match std6 c with Some m => m =? n | None => false end &&
  negb (Ascii.eqb c "=") && negb (N_of_ascii c =? 10) && negb (N_of_ascii c =? 13).

Lemma std6_enc6 n : n < 64 →
  std6 (toStd (enc6 n)) = Some n ∧ Ascii.eqb (toStd (enc6 n)) "=" = false ∧
  ∀ s, skip_newlines (String (toStd (enc6 n)) s) = String (toStd (enc6 n)) (skip_newlines s).
Proof.
  intros Hn. assert (H : std_ok n = true) by (by apply below_64; [|vm_compute]).
  unfold std_ok in H. bool_to_prop. split_and!.
  - case_match; [f_equal; by apply N.eqb_eq|done].
  - by destruct (Ascii.eqb _ _).
  - intros s. cbn [skip_newlines]. by destruct (N_of_ascii _ =? 10), (N_of_ascii _ =? 13).
Qed.

Lemma StdDecode_StdEncode s : StdDecode (StdEncode s) = Some s.
Proof.
  unfold StdDecode, StdEncode.
  induction s as [|a|a b|a b c s IH] using triple_ind; cbn [EncodeToString string_map pad]; [done|..];
    six_bits;
    repeat match goal with
    | |- context [toStd (enc6 ?n)] =>
        let H1 := fresh in let H2 := fresh in let H3 := fresh in
        destruct (std6_enc6 n) as (H1 & H2 & H3); [lia|]; rewrite ?H3;
        generalize dependent (toStd (enc6 n)); intros ? H1 H2 H3
    end.
  all: change (skip_newlines "==") with "=="; change (skip_newlines "=") with "="; cbn [std_groups];
    repeat match goal with H : std6 _ = _ |- _ => rewrite H end; cbn [mbind option_bind];
    repeat match goal with H : Ascii.eqb _ "=" = _ |- _ => rewrite H end; cbn; rewrite ?IH; cbn;
    repeat f_equal; rewrite <-ascii_N_embedding; f_equal; lia.
Qed.

End Base64.

(** ** Numbers and dynamic values *)

Module Values.

(** IEEE-754 binary64, as specified by the Standard Library. *)
Abbreviation float64 := spec_float.
Definition float64_of_int (z : Z) : float64 := binary_normalize 53 1024 z 0 false.

(** The integer part of a number, 0 for what is not finite. *)
Definition truncate (f : float64) : Z :=
  match f with
  | S754_finite s m e =>
      let z := if (0 <=? e)%Z then (Z.pos m * 2 ^ e)%Z else Z.quot (Z.pos m) (2 ^ (- e)) in
      if s then (- z)%Z else z
  | _ => 0
  end.

(** [int64(f)] and [int(f)]; a value out of range converts to the least integer, as on
    amd64. *)
Definition int64_of_float (f : float64) : Z :=
  let z := truncate f in if (- 2 ^ 63 <=? z)%Z && (z <? 2 ^ 63)%Z then z else (- 2 ^ 63)%Z.

(** A Go [interface{}] holding what JSON and YAML documents decode to.
    JSON numbers decode to [VFloat]; [VInt] is a Go integer.  An object is
    a [map[string]interface{}]: its keys are distinct. *)
Inductive value : Type :=
| VNil
| VBool (b : bool)
| VInt (z : Z)
| VFloat (f : float64)
| VStr (s : string)
| VArr (l : list value)
| VObj (kvs : list (string * value)).

(** [m[k]] with its comma-ok flag; [m[k]] alone yields [nil] when absent. *)
Fixpoint get {A} (k : string) (m : list (string * A)) : option A :=
  match m with
  | [] => None
  | (k', v) :: m => if String.eqb k k' then Some v else get k m
  end.

Definition index (k : string) (m : list (string * value)) : value :=
  default VNil (get k m).

(** [m[k] = v]. *)
Fixpoint put {A} (k : string) (v : A) (m : list (string * A)) : list (string * A) :=
  match m with
  | [] => [(k, v)]
  | (k', v') :: m => if String.eqb k k' then (k, v) :: m else (k', v') :: put k v m
  end.

Definition is_nil (v : value) : bool := match v with VNil => true | _ => false end.

Definition as_string (v : value) : option string :=
  match v with VStr s => Some s | _ => None end.
Definition as_object (v : value) : option (list (string * value)) :=
  match v with VObj m => Some m | _ => None end.
Definition as_array (v : value) : option (list value) :=
  match v with VArr l => Some l | _ => None end.

Lemma get_put {A} k k' (v : A) m :
  get k (put k' v m) = if String.eqb k k' then Some v else get k m.
Proof.
  induction m as [|[k0 v0] m IH]; cbn; [done|].
  destruct (String.eqb_spec k' k0) as [->|Hne]; cbn.
  - by destruct (String.eqb k k0).
  - rewrite IH. destruct (String.eqb_spec k k0) as [->|]; [|done].
    destruct (String.eqb_spec k0 k'); [by subst|done].
Qed.

Lemma get_In {A} k (v : A) m : get k m = Some v → In (k, v) m.
Proof.
  induction m as [|[k' v'] m IH]; cbn; [done|].
  destruct (String.eqb_spec k k') as [->|]; [intros [= ->]; by left|]. auto.
Qed.

End Values.

(** [encoding/json] between documents and generic values. *)
Class JSON := {
  value_Marshal : Values.value → option bytes;
  value_Unmarshal : bytes → option Values.value;
}.

(** ** HTTP headers *)

Module Header.
Import Strings.

(** Token characters of RFC 7230, the ones [CanonicalMIMEHeaderKey]
    accepts. *)
Definition isTokenChar (c : ascii) : bool :=
  let n := N_of_ascii c in
  (((48 <=? n) && (n <=? 57)) || ((65 <=? n) && (n <=? 90)) || ((97 <=? n) && (n <=? 122)))%N
  || existsb (Ascii.eqb c)
       ["!"; "#"; "$"; "%"; "&"; "'"; "*"; "+"; "-"; "."; "^"; "_"; "`"; "|"; "~"]%char.

Fixpoint all_chars (p : ascii → bool) (s : string) : bool :=
  match s with EmptyString => true | String c s => p c && all_chars p s end.

Fixpoint canon (upper : bool) (s : string) : string :=
  match s with
  | EmptyString => EmptyString
  | String c s =>
      String (if upper then ToUpper1 c else ToLower1 c) (canon (Ascii.eqb c "-") s)
  end.

(** [http.CanonicalHeaderKey]: a name with a byte outside the token
    characters is returned unchanged. *)
Definition CanonicalHeaderKey (s : string) : string :=
  if all_chars isTokenChar s then canon true s else s.

(** [http.Header] is [map[string][]string]; [Get], [Set], [Add] and [Del]
    canonicalise their key, indexing does not. *)
Abbreviation header := (gmap string (list string)).

Definition Values (h : header) (k : string) : list string :=
  default [] (h !! CanonicalHeaderKey k).
Definition Get (h : header) (k : string) : string :=
  match Values h k with [] => "" | v :: _ => v end.
Definition Set_ (k v : string) (h : header) : header := <[CanonicalHeaderKey k := [v]]> h.
Definition Del (k : string) (h : header) : header := delete (CanonicalHeaderKey k) h.
Definition Add (k v : string) (h : header) : header :=
  <[CanonicalHeaderKey k := Values h k ++ [v]]> h.

Lemma Get_Set_eq k v h : Get (Set_ k v h) k = v.
Proof. unfold Get, Values, Set_. by rewrite lookup_insert_eq. Qed.

End Header.

(** ** URLs

    [net/url] is a parameter: [url.Parse] and the query lookup
    [u.Query().Get].  [PlainURL] parses [scheme://host/path?query] without
    escapes and makes the parameter concrete where a URL is evaluated. *)

Module URL.
Import Strings.

Record URL := mkURL { Scheme : string; Host : string; Path : string; RawQuery : string }.

Class GoURL := {
  url_Parse : string → option URL;
  query_Get : string → string → string;   (* raw query, key *)
}.

Definition IsAbs (u : URL) : bool := negb (String.eqb (Scheme u) "").

(** Splits at the first occurrence of [c]; the second part keeps [c]. *)
Fixpoint break (c : ascii) (s : string) : string * string :=
  match s with
  | EmptyString => ("", "")
  | String a s' => if Ascii.eqb a c then ("", s) else let '(x, y) := break c s' in (String a x, y)
  end.

Definition parsePlain (s : string) : option URL :=
  let '(scheme, rest) := break ":" s in
  if HasPrefix rest "://" then
    let '(host, rest) := break "/" (drop_str 3 rest) in
    let '(path, query) := break "?" rest in
    Some (mkURL scheme host path (drop_str 1 query))
  else let '(path, query) := break "?" s in Some (mkURL "" "" path (drop_str 1 query)).

Definition getPlain (q k : string) : string :=
  match List.find (λ kv, String.eqb (break "=" kv).1 k) (Split q "&") with
  | Some kv => drop_str 1 (break "=" kv).2
  | None => ""
  end.

Definition PlainURL : GoURL := {| url_Parse := parsePlain; query_Get := getPlain |}.
End URL.

(** ** Iteration over maps

    [for k, v := range m] visits the entries of [m] in an unspecified order
    that differs from run to run: the order is a parameter, any
    permutation of the entries. *)

Class MapRange := {
  range : ∀ {A}, gmap string A → list (string * A);
  range_perm : ∀ {A} (m : gmap string A), range m ≡ₚ map_to_list m;
}.

#[export] Instance range_key_order : MapRange | 100.
Proof. refine {| range := λ A m, map_to_list m |}. done. Defined.

Section Range.
Context `{MapRange} {A : Type}.
Implicit Types (m : gmap string A).

Lemma elem_of_range m k v : (k, v) ∈ range m ↔ m !! k = Some v.
Proof. by rewrite range_perm, elem_of_map_to_list. Qed.

Lemma NoDup_range m : NoDup (range m).*1.
Proof. rewrite range_perm. apply NoDup_fst_map_to_list. Qed.

Lemma length_range m : length (range m) = size m.
Proof. rewrite range_perm. apply length_map_to_list. Qed.
End Range.
