(* ===== verification/Breaker.v ===== *)
(** * The per-origin circuit breaker ([internal/httpx/breaker.go])

    [BreakerTransport] keeps its state under one mutex; [admitRequest] and
    [record] are its two atomic transitions, and [RoundTrip] runs [admitRequest],
    the inner transport, then [record].  The inner call happens outside
    the mutex, so requests interleave: [step] below is the interleaving
    semantics, with the generation each in-flight request was admitted
    under.  Times and durations are nanoseconds; log calls have no effect
    on the state and are left out. *)

From S2P Require Import Prelude.
Local Open Scope Z_scope.

Module Breaker.

Record BreakerConfig := mkBreakerConfig {
  FailureThreshold : Z;
  OpenBase : Z;
  OpenMax : Z;
  HalfOpenProbes : Z;
}.

Definition Second : Z := 1000000000.

Definition withDefaults (c : BreakerConfig) : BreakerConfig :=
  let c_threshold := if FailureThreshold c <=? 0 then 5 else FailureThreshold c in
  let c_base := if OpenBase c <=? 0 then 10 * Second else OpenBase c in
  let c_max := if OpenMax c <=? 0 then 2 * 60 * Second else OpenMax c in
  let c_max := if c_max <? c_base then c_base else c_max in
  let c_probes := if HalfOpenProbes c <=? 0 then 1 else HalfOpenProbes c in
  mkBreakerConfig c_threshold c_base c_max c_probes.

Inductive breakerState := stateClosed | stateOpen | stateHalfOpen.

#[export] Instance breakerState_eq_dec : EqDecision breakerState.
Proof. solve_decision. Defined.

Definition isHalfOpen (s : breakerState) : bool :=
  match s with stateHalfOpen => true | _ => false end.

Record BreakerTransport := mkBreaker {
  cfg : BreakerConfig;
  state : breakerState;
  consecFails : Z;
  reopens : Z;
  openUntil : Z;
  probes : Z;
  gen : Z;
}.

(** The zero-valued fields of a Go struct literal. *)
Definition NewBreakerTransport (c : BreakerConfig) : BreakerTransport :=
  mkBreaker (withDefaults c) stateClosed 0 0 0 0 0.

(** [rand.N(n)] draws from [[0, n)]; the draw is an input of the model. *)
Definition rand_N (n draw : Z) : Z := draw mod n.

Definition fullJitter (d draw : Z) : Z :=
  if d <=? 0 then d else
  let half := d ÷ 2 in
  half + rand_N (half + 1) draw.

(** The period [open] computes before jitter: an [int64] shift that may
    overflow, capped at [OpenMax]. *)
Definition openPeriod (c : BreakerConfig) (reopens : Z) : Z :=
  let period := wrap64 (Z.shiftl (OpenBase c) reopens) in
  if (OpenMax c <? period) || (period <=? 0) then OpenMax c else period.

Definition open (now draw : Z) (b : BreakerTransport) : BreakerTransport :=
  let period := fullJitter (openPeriod (cfg b) (reopens b)) draw in
  mkBreaker (cfg b) stateOpen 0 (reopens b) (now + period) 0 (wrapu64 (gen b + 1)).

Inductive admitError := ErrCircuitOpen.

Definition admitRequest (now : Z) (b : BreakerTransport)
    : result admitError Z * BreakerTransport :=
  match state b with
  | stateClosed => (Ok (gen b), b)
  | stateOpen =>
      if now <? openUntil b then (Err ErrCircuitOpen, b) else
      (Ok (gen b), mkBreaker (cfg b) stateHalfOpen (consecFails b) (reopens b)
                     (openUntil b) 1 (gen b))
  | stateHalfOpen =>
      if HalfOpenProbes (cfg b) <=? probes b then (Err ErrCircuitOpen, b) else
      (Ok (gen b), mkBreaker (cfg b) stateHalfOpen (consecFails b) (reopens b)
                     (openUntil b) (probes b + 1) (gen b))
  end.

(** What the inner round trip returned: the error, if any, and whether it
    is (wraps) [context.Canceled]; the response's status code, if any. *)
Inductive roundTripError := ErrCanceled | ErrTransport.

Definition isFailure (err : option roundTripError) (resp : option Z) : bool :=
  match err with
  | Some _ => true
  | None => match resp with Some code => 500 <=? code | None => false end
  end.

Definition record (now draw g : Z) (resp : option Z) (err : option roundTripError)
    (b : BreakerTransport) : BreakerTransport :=
  if negb (g =? gen b) then b else
  match err with
  | Some ErrCanceled =>
      if isHalfOpen (state b) && (0 <? probes b)
      then mkBreaker (cfg b) (state b) (consecFails b) (reopens b) (openUntil b)
             (probes b - 1) (gen b)
      else b
  | _ =>
      if isFailure err resp then
        match state b with
        | stateClosed =>
            let fails := consecFails b + 1 in
            if FailureThreshold (cfg b) <=? fails
            then open now draw
                   (mkBreaker (cfg b) (state b) fails 0 (openUntil b) (probes b) (gen b))
            else mkBreaker (cfg b) (state b) fails (reopens b) (openUntil b) (probes b) (gen b)
        | stateHalfOpen =>
            open now draw
              (mkBreaker (cfg b) (state b) (consecFails b) (reopens b + 1)
                 (openUntil b) (probes b) (gen b))
        | stateOpen => b
        end
      else mkBreaker (cfg b) stateClosed 0 0 (openUntil b) 0 (gen b)
  end.

(** [RoundTrip] when no other request runs between its two transitions. *)
Definition RoundTrip (now now' draw : Z) (inner : option Z * option roundTripError)
    (b : BreakerTransport)
    : result admitError (option Z * option roundTripError) * BreakerTransport :=
  match admitRequest now b with
  | (Err e, b') => (Err e, b')
  | (Ok g, b') => (Ok inner, record now' draw g inner.1 inner.2 b')
  end.

(** ** Interleaving semantics *)

(** A breaker and the admission generations of the requests in flight. *)
Definition sys : Type := BreakerTransport * list Z.

Inductive step : sys → sys → Prop :=
| step_admit now b fl g b' :
    admitRequest now b = (Ok g, b') → step (b, fl) (b', g :: fl)
| step_reject now b fl e b' :
    admitRequest now b = (Err e, b') → step (b, fl) (b', fl)
| step_record now draw resp err b fl1 g fl2 :
    step (b, fl1 ++ g :: fl2) (record now draw g resp err b, fl1 ++ fl2).

Definition init (c : BreakerConfig) : sys := (NewBreakerTransport c, []).

(** Number of in-flight requests admitted under generation [g]. *)
Definition inflight (g : Z) (fl : list Z) : Z := Z.of_nat (length (filter (.= g) fl)).

(** ** Well-formedness *)

Record wf_config (c : BreakerConfig) : Prop := {
  wf_threshold : 0 < FailureThreshold c;
  wf_base : 0 < OpenBase c;
  wf_max : OpenBase c ≤ OpenMax c;
  wf_probes : 0 < HalfOpenProbes c;
}.

(** The consistency of the counters with the automaton's state and with
    the requests in flight. *)
Definition state_ok (b : BreakerTransport) (fl : list Z) : Prop :=
  match state b with
  | stateClosed => 0 ≤ consecFails b < FailureThreshold (cfg b) ∧ probes b = 0
  | stateOpen => consecFails b = 0 ∧ probes b = 0 ∧ inflight (gen b) fl = 0
  | stateHalfOpen =>
      consecFails b = 0 ∧ probes b = inflight (gen b) fl ∧
      0 ≤ probes b ≤ HalfOpenProbes (cfg b)
  end.

Record inv (n : Z) (s : sys) : Prop := {
  inv_cfg : wf_config (cfg s.1);
  inv_reopens : 0 ≤ reopens s.1;
  inv_gen : 0 ≤ gen s.1 ≤ n;
  inv_flight : Forall (λ g, g ≤ gen s.1) s.2;
  inv_state : state_ok s.1 s.2;
}.

Lemma withDefaults_wf c : wf_config (withDefaults c).
Proof. unfold withDefaults, Second. split; cbn; repeat case_match; bool_to_prop; lia. Qed.

Lemma withDefaults_wf_id c : wf_config c → withDefaults c = c.
Proof.
  intros [??]. destruct c as [t ba mx pr]; cbn in *. unfold withDefaults; cbn.
  rewrite !(proj2 (Z.leb_gt _ _)) by lia. by rewrite (proj2 (Z.ltb_ge _ _)) by lia.
Qed.

Lemma inflight_cons g x fl :
  inflight g (x :: fl) = (if decide (x = g) then 1 else 0) + inflight g fl.
Proof. unfold inflight. rewrite filter_cons. case_decide; cbn [length]; lia. Qed.

Lemma inflight_middle g x fl1 fl2 :
  inflight g (fl1 ++ x :: fl2) = (if decide (x = g) then 1 else 0) + inflight g (fl1 ++ fl2).
Proof.
  rewrite <-inflight_cons. unfold inflight.
  by rewrite (Permutation_middle fl1 fl2 x).
Qed.

Lemma inflight_nonneg g fl : 0 ≤ inflight g fl.
Proof. unfold inflight. lia. Qed.

Lemma inflight_fresh g fl : Forall (λ x, x < g) fl → inflight g fl = 0.
Proof.
  unfold inflight. induction 1 as [|x fl Hx _ IH]; [done|].
  rewrite filter_cons. case_decide; [lia|done].
Qed.

#[export] Hint Resolve withDefaults_wf inflight_nonneg : stac.

(** ** Open periods *)

Lemma openPeriod_range c r : wf_config c → 0 < openPeriod c r ≤ OpenMax c.
Proof.
  intros []. unfold openPeriod. case_match eqn:E; [lia|]. bool_to_prop. lia.
Qed.

Lemma fullJitter_range d draw : 0 < d → d ÷ 2 ≤ fullJitter d draw ≤ d.
Proof.
  intros Hd. unfold fullJitter, rand_N. rewrite (proj2 (Z.leb_gt _ _)) by lia.
  pose proof (Z.quot_pos d 2). pose proof (Z.mul_quot_le d 2).
  pose proof (Z.mod_pos_bound draw (d ÷ 2 + 1)). lia.
Qed.

Lemma wrap64_spec z : ∃ q, wrap64 z = z - 2 ^ 64 * q.
Proof.
  exists ((z + 2 ^ 63) / 2 ^ 64). unfold wrap64. rewrite Z.mod_eq by lia. lia.
Qed.

(** A shift that overflows leaves a multiple of [2^(k+t)]; when that is
    positive it is still above [x]. *)
Lemma shiftl_wrap_large base k t x :
  0 < base → 0 ≤ k → 0 ≤ t →
  (2 ^ t | base) → base * x < 2 ^ (63 + t) → 2 ^ 63 ≤ base * 2 ^ k →
  0 < wrap64 (base * 2 ^ k) → x < wrap64 (base * 2 ^ k).
Proof.
  intros Hb Hk Ht [m Hm] Hx Hov Hpos.
  assert (x < 2 ^ (k + t)).
  { apply (Z.mul_lt_mono_pos_l base); [done|]. rewrite Z.pow_add_r in * by lia. nia. }
  destruct (wrap64_spec (base * 2 ^ k)) as [q Hq].
  pose proof (wrap64_range (base * 2 ^ k)).
  assert (∃ y, wrap64 (base * 2 ^ k) = y * 2 ^ Z.min 64 (k + t)) as [y Hy].
  { exists (m * 2 ^ (k + t - Z.min 64 (k + t)) - 2 ^ (64 - Z.min 64 (k + t)) * q).
    rewrite Hq, Hm, Z.mul_sub_distr_r.
    rewrite (Z.mul_comm (2 ^ (64 - _)) q), <-!Z.mul_assoc, <-!Z.pow_add_r by lia.
    rewrite !Z.sub_add, (Z.add_comm t k). lia. }
  assert (0 < y) by (apply (Z.mul_pos_cancel_r _ (2 ^ Z.min 64 (k + t))); lia).
  assert (2 ^ Z.min 64 (k + t) ≤ wrap64 (base * 2 ^ k)) by nia.
  destruct (decide (k + t ≤ 63)).
  - rewrite Z.min_r in * by lia. lia.
  - assert (2 ^ 63 ≤ 2 ^ Z.min 64 (k + t)) by (apply Z.pow_le_mono_r; lia). lia.
Qed.

(** The capped exponential the breaker means to compute. *)
Definition backoff (c : BreakerConfig) (r : Z) : Z := Z.min (OpenMax c) (OpenBase c * 2 ^ r).

Lemma openPeriod_backoff c r t :
  wf_config c → 0 ≤ r → 0 ≤ t → OpenMax c < 2 ^ 63 →
  (2 ^ t | OpenBase c) → OpenBase c * OpenMax c < 2 ^ (63 + t) →
  openPeriod c r = backoff c r.
Proof.
  intros [? Hbase Hmax ?] Hr Ht Hmax' Hdiv Hprod. unfold openPeriod, backoff.
  rewrite Z.shiftl_mul_pow2 by done.
  pose proof (Z.pow_pos_nonneg 2 r).
  destruct (decide (2 ^ 63 ≤ OpenBase c * 2 ^ r)) as [Hov|Hov].
  - rewrite Z.min_l by lia. case_match eqn:E; [done|]. bool_to_prop.
    pose proof (shiftl_wrap_large _ _ _ _ Hbase Hr Ht Hdiv Hprod Hov). lia.
  - rewrite wrap64_id by nia. case_match eqn:E.
    + apply orb_prop in E as [E|E]; bool_to_prop; [lia|nia].
    + bool_to_prop. lia.
Qed.

(** ** Invariant of the interleaving semantics *)

Lemma inv_init c : inv 0 (init c).
Proof.
  pose proof (withDefaults_wf c) as Hc.
  split; cbn -[withDefaults]; auto with stac; try lia.
  unfold state_ok; cbn -[withDefaults]. destruct Hc. lia.
Qed.

Lemma inv_mono n n' s : n ≤ n' → inv n s → inv n' s.
Proof. intros ? [? ? ? ? ?]. split; try done. lia. Qed.

(** [open] re-establishes the invariant whatever was in flight: the new
    generation is one nothing was admitted under. *)
Lemma inv_open n now draw b fl :
  0 ≤ n < two64 - 1 → wf_config (cfg b) → 0 ≤ reopens b → 0 ≤ gen b ≤ n →
  Forall (λ g, g ≤ gen b) fl →
  inv (n + 1) (open now draw b, fl).
Proof.
  intros Hn Hc Hr Hg Hfl. unfold two64 in *.
  assert (wrapu64 (gen b + 1) = gen b + 1) as Hw by (apply wrapu64_id; unfold two64; lia).
  split; cbn; try done; rewrite ?Hw; try lia.
  - eapply Forall_impl; [done|]. cbn; lia.
  - unfold state_ok; cbn. repeat split. rewrite ?Hw. apply inflight_fresh.
    eapply Forall_impl; [done|]. cbn; lia.
Qed.

Lemma inv_admit n now b fl g b' :
  inv n (b, fl) → admitRequest now b = (Ok g, b') → inv n (b', g :: fl).
Proof.
  intros [Hc Hr Hg Hfl Hs] Ha. cbn in *. unfold admitRequest, state_ok in *.
  destruct (state b) eqn:E; repeat case_match; simplify_eq; bool_to_prop.
  - split; cbn; auto with lia. unfold state_ok. by rewrite E.
  - split; cbn; auto with lia. unfold state_ok; cbn.
    rewrite inflight_cons, decide_True by done. destruct Hc. lia.
  - split; cbn; auto with lia. unfold state_ok; cbn.
    rewrite inflight_cons, decide_True by done. lia.
Qed.

Lemma admit_reject now b e b' : admitRequest now b = (Err e, b') → b' = b.
Proof. unfold admitRequest. repeat case_match; naive_solver. Qed.

Lemma inv_drop_stale n b fl1 g fl2 :
  g ≠ gen b → inv n (b, fl1 ++ g :: fl2) → inv n (b, fl1 ++ fl2).
Proof.
  intros Hne [Hc Hr Hg Hfl Hs]. cbn in *. rewrite Forall_app, Forall_cons in Hfl.
  split; cbn; try done; [rewrite Forall_app; naive_solver|].
  unfold state_ok in *. rewrite inflight_middle, decide_False in Hs by done.
  case_match; lia.
Qed.

Lemma inv_record n now draw resp err b fl1 g fl2 :
  0 ≤ n < two64 - 1 → inv n (b, fl1 ++ g :: fl2) →
  inv (n + 1) (record now draw g resp err b, fl1 ++ fl2).
Proof.
  intros Hn Hinv. unfold record.
  case_match eqn:Eg; bool_to_prop.
  { apply (inv_mono n); [lia|]. by eapply inv_drop_stale. }
  destruct Hinv as [Hc Hr Hg Hfl Hs]; cbn in *.
  assert (Hfl' : Forall (λ x, x ≤ gen b) (fl1 ++ fl2))
    by (rewrite Forall_app, Forall_cons in *; naive_solver).
  pose proof Hc as [? ? ? ?]. unfold state_ok in Hs.
  rewrite inflight_middle, decide_True in Hs by done.
  pose proof (inflight_nonneg (gen b) (fl1 ++ fl2)).
  destruct err as [[]|].
  - destruct (state b) eqn:Es; cbn; [| |rewrite (proj2 (Z.ltb_lt _ _)) by lia];
      split; cbn; try done; try lia; unfold state_ok; cbn; rewrite ?Es; cbn; lia.
  - cbn [isFailure]. destruct (state b) eqn:Es; [case_match; bool_to_prop| |];
      try (apply inv_open; cbn; (done || lia)); try lia.
    split; cbn; try done; try lia; unfold state_ok; cbn; rewrite ?Es; lia.
  - destruct (isFailure _ _); [destruct (state b) eqn:Es; [case_match; bool_to_prop| |]|];
      try (apply inv_open; cbn; (done || lia)); try lia;
      split; cbn; try done; try lia; unfold state_ok; cbn; rewrite ?Es; lia.
Qed.

Lemma inv_step n s s' : 0 ≤ n < two64 - 1 → inv n s → step s s' → inv (n + 1) s'.
Proof.
  intros Hn Hinv Hstep. destruct Hstep as [now b fl g b' Ha|now b fl e b' Ha|].
  - apply (inv_mono n); [lia|]. by eapply inv_admit.
  - apply (inv_mono n); [lia|]. by apply admit_reject in Ha as ->.
  - by apply inv_record.
Qed.

Lemma inv_nsteps n m s s' :
  0 ≤ n → n + Z.of_nat m < two64 → inv n s → nsteps step m s s' → inv (n + Z.of_nat m) s'.
Proof.
  intros Hn Hm Hinv Hsteps. revert n Hn Hm Hinv.
  induction Hsteps as [|m s1 s2 s3 Hst _ IH]; intros n Hn Hm Hinv.
  - by rewrite Z.add_0_r.
  - replace (n + Z.of_nat (S m)) with (n + 1 + Z.of_nat m) by lia.
    apply IH; [lia|lia|]. eapply inv_step; [|done..]. lia.
Qed.

Lemma inv_reachable c m b fl :
  Z.of_nat m < two64 → nsteps step m (init c) (b, fl) → inv (Z.of_nat m) (b, fl).
Proof.
  intros Hm Hs. apply (inv_nsteps 0 m (init c)); [done|lia|apply inv_init|done].
Qed.

(** One outcome reported to the breaker under its current generation. *)
Record outcome := mkOutcome {
  o_now : Z; o_draw : Z; o_resp : option Z; o_err : option roundTripError;
}.

(** An outcome that speaks against the origin: a transport error other
    than a cancelled request, or a 5xx. *)
Definition genuineFailure (o : outcome) : bool :=
  match o_err o with
  | Some ErrCanceled => false
  | _ => isFailure (o_err o) (o_resp o)
  end.

Definition recordCurrent (b : BreakerTransport) (o : outcome) : BreakerTransport :=
  record (o_now o) (o_draw o) (gen b) (o_resp o) (o_err o) b.

Lemma recordCurrent_failure b o :
  state b = stateClosed → genuineFailure o = true →
  recordCurrent b o =
    if FailureThreshold (cfg b) <=? consecFails b + 1
    then open (o_now o) (o_draw o)
           (mkBreaker (cfg b) stateClosed (consecFails b + 1) 0 (openUntil b)
              (probes b) (gen b))
    else mkBreaker (cfg b) stateClosed (consecFails b + 1) (reopens b) (openUntil b)
           (probes b) (gen b).
Proof.
  intros Hs Ho. unfold recordCurrent, record. rewrite Z.eqb_refl; cbn.
  unfold genuineFailure in Ho. destruct (o_err o) as [[]|]; try done;
    rewrite Ho, Hs; done.
Qed.

Lemma failures_below_threshold b os :
  state b = stateClosed → Forall (λ o, genuineFailure o = true) os →
  consecFails b + Z.of_nat (length os) < FailureThreshold (cfg b) →
  foldl recordCurrent b os =
    mkBreaker (cfg b) stateClosed (consecFails b + Z.of_nat (length os)) (reopens b)
      (openUntil b) (probes b) (gen b).
Proof.
  intros Hs Hos. revert b Hs. induction Hos as [|o os Ho Hos IH]; intros b Hs Hlt; cbn in *.
  - destruct b; cbn in *; subst. by rewrite Z.add_0_r.
  - rewrite recordCurrent_failure by done.
    rewrite (proj2 (Z.leb_gt _ _)) by lia. rewrite IH; cbn; [|done|lia].
    f_equal. lia.
Qed.

(** ** Properties *)

(** C11: In every state reachable from a fresh breaker by fewer than 2^64
    interleaved transitions, the counters agree with the requests in
    flight: closed means fewer consecutive failures than the threshold;
    open means no request admitted under the current generation is in
    flight (so a same-generation outcome while open is impossible);
    half-open means the probe counter is exactly the number of trial
    requests in flight and never exceeds [HalfOpenProbes]. *)
Theorem breaker_reachable_invariant c m b fl :
  Z.of_nat m < two64 → nsteps step m (init c) (b, fl) →
  match state b with
  | stateClosed => 0 ≤ consecFails b < FailureThreshold (cfg b) ∧ probes b = 0
  | stateOpen => inflight (gen b) fl = 0 ∧ consecFails b = 0 ∧ probes b = 0
  | stateHalfOpen =>
      inflight (gen b) fl = probes b ∧ probes b ≤ HalfOpenProbes (cfg b)
  end.
Proof.
  intros Hm Hs. destruct (inv_reachable _ _ _ _ Hm Hs) as [_ _ _ _ Hok].
  unfold state_ok in Hok; cbn in Hok. case_match; naive_solver.
Qed.

(** Five failing requests trip the default breaker. *)
Definition default_cfg : BreakerConfig := mkBreakerConfig 0 0 0 0.

Lemma breaker_reachable_invariant_witness :
  inflight 0 [0] = 1 ∧
  0 ≤ consecFails (NewBreakerTransport default_cfg) < FailureThreshold (withDefaults default_cfg).
Proof.
  split; [reflexivity|].
  refine (proj1 (breaker_reachable_invariant default_cfg 1
            (NewBreakerTransport default_cfg) [0] _ _)); [reflexivity|].
  eapply nsteps_l; [|apply nsteps_O]. by apply (step_admit 0).
Defined.

(** An outcome recorded under an older generation changes nothing: a
    slow request admitted before the circuit opened can neither close it
    nor count towards the next threshold; and opening always changes the
    generation, even at the wrap-around of the counter. *)
Theorem record_stale_ignored now draw g resp err b :
  (g ≠ gen b → record now draw g resp err b = b) ∧
  gen (open now draw b) ≠ gen b.
Proof.
  split; [|apply wrapu64_succ_neq].
  intros Hg. unfold record. by rewrite (proj2 (Z.eqb_neq _ _) Hg).
Qed.

(** From the closed state, [k] consecutive genuine failures leave the
    circuit closed while the running count stays below the threshold, and
    the failure that reaches the threshold opens it, starts a new
    generation and zeroes the backoff exponent. *)
Theorem threshold_failures_open b os o :
  state b = stateClosed → Forall (λ o, genuineFailure o = true) os →
  genuineFailure o = true →
  consecFails b + Z.of_nat (length os) + 1 = FailureThreshold (cfg b) →
  state (foldl recordCurrent b os) = stateClosed ∧
  state (foldl recordCurrent b (os ++ [o])) = stateOpen ∧
  gen (foldl recordCurrent b (os ++ [o])) = wrapu64 (gen b + 1) ∧
  reopens (foldl recordCurrent b (os ++ [o])) = 0.
Proof.
  intros Hs Hos Ho Hk. rewrite foldl_app. cbn.
  rewrite failures_below_threshold by (done || lia). split; [done|].
  rewrite recordCurrent_failure by done. cbn.
  by rewrite (proj2 (Z.leb_le _ _)) by lia.
Qed.

Lemma threshold_failures_open_witness :
  state (foldl recordCurrent (NewBreakerTransport default_cfg)
    (replicate 4 (mkOutcome 0 7 (Some 503) None) ++ [mkOutcome 9 7 None (Some ErrTransport)]))
  = stateOpen.
Proof.
  apply (threshold_failures_open (NewBreakerTransport default_cfg)
    (replicate 4 (mkOutcome 0 7 (Some 503) None)) (mkOutcome 9 7 None (Some ErrTransport)));
    [reflexivity| |reflexivity|reflexivity].
  repeat constructor.
Defined.

(** Opening at time [now] fast-fails every request before [openUntil],
    the window lies between half and all of the capped period, and the
    first request at or after [openUntil] is admitted as the single probe
    of the half-open state. *)
Theorem open_window now draw now' b :
  wf_config (cfg b) →
  let b' := open now draw b in
  let p := openPeriod (cfg b) (reopens b) in
  0 < p ≤ OpenMax (cfg b) ∧
  p ÷ 2 ≤ openUntil b' - now ≤ p ∧
  (now' < openUntil b' → admitRequest now' b' = (Err ErrCircuitOpen, b')) ∧
  (openUntil b' ≤ now' →
   ∃ b'', admitRequest now' b' = (Ok (gen b'), b'') ∧ state b'' = stateHalfOpen ∧ probes b'' = 1).
Proof.
  intros Hc b' p. pose proof (openPeriod_range _ (reopens b) Hc) as Hp.
  pose proof (fullJitter_range p draw (proj1 Hp)) as Hj.
  split; [done|]. split; [unfold b', open; cbn; fold p; lia|].
  unfold admitRequest, b'; cbn. split; intros Hlt.
  - by rewrite (proj2 (Z.ltb_lt _ _)).
  - rewrite (proj2 (Z.ltb_ge _ _)) by done. eauto.
Qed.

Lemma open_window_witness :
  let b := NewBreakerTransport default_cfg in
  admitRequest (10 * Second - 1) (open 0 (5 * Second) b) =
    (Err ErrCircuitOpen, open 0 (5 * Second) b).
Proof.
  intros b. apply (open_window 0 (5 * Second) (10 * Second - 1) b);
    [apply withDefaults_wf|vm_compute; reflexivity].
Defined.

(** Despite the [int64] shift, the period is exactly
    [min(OpenMax, OpenBase * 2^reopens)] for every number of re-opens,
    whenever [OpenBase * OpenMax] is below [2^(63+t)] for the largest power
    [2^t] that divides [OpenBase]; the documented defaults satisfy this. *)
Theorem openPeriod_exact c r t :
  wf_config c → 0 ≤ r → 0 ≤ t → OpenMax c < 2 ^ 63 →
  (2 ^ t | OpenBase c) → OpenBase c * OpenMax c < 2 ^ (63 + t) →
  openPeriod c r = Z.min (OpenMax c) (OpenBase c * 2 ^ r).
Proof. apply openPeriod_backoff. Qed.

Lemma openPeriod_exact_witness :
  openPeriod (withDefaults default_cfg) 1000 =
  Z.min (2 * 60 * Second) (10 * Second * 2 ^ 1000).
Proof.
  apply (openPeriod_exact (withDefaults default_cfg) 1000 10);
    [apply withDefaults_wf|done|done|done| |done].
  by exists 9765625.
Defined.

(** The guard on the shifted value is a sign test, so it misses a shift
    that overflows to a small positive value: with a base of 8.589934597 s
    and a two minute cap the 31st re-open waits under 11 s. *)
Lemma openPeriod_overflow_miss :
  openPeriod (mkBreakerConfig 5 8589934597 (120 * Second) 1) 31 = 10737418240.
Proof. reflexivity. Qed.

End Breaker.
