(* ===== verification/Stac.v ===== *)
(** * STAC types, origin links and conformance ([internal/stac])

    The core document types come from a client library; [Item], [Link] and
    [Collection] keep the fields the proxy reads or writes, and hold the
    others in one opaque field.  [SearchRequest] and the response status
    types are the proxy's own.

    [time.Parse] and [time.Format] are parameters ([GoTime]): the code only
    relies on parsing the three layouts it lists and on formatting the
    result. *)

From S2P Require Import Prelude GoLib.
From Stdlib Require Import Ascii.
Import Strings Values.

Module Stac.

(** ** Documents *)

Record Link := mkLink {
  Href : string;
  Rel : string;
  Type_ : string;
  Title : string;
  LinkFields : list (string * value);
}.

Record Item := mkItem {
  ID : string;
  Collection_ : string;
  Links : list (option Link);
  Properties : option (list (string * value));
  ItemRest : value;
}.

Record Collection := mkCollection {
  CollID : string;
  CollLinks : list (option Link);
  CollRest : value;
}.

Record OriginStatus := mkOriginStatus {
  os_ID : string;
  os_Matched : Z;
  os_Returned : Z;
  os_Exhausted : bool;
  os_Error : string;
}.

(** [stac.SearchContext], the context object of a response body. *)
Record SearchContext := mkSearchContext {
  sc_Returned : Z;
  sc_Limit : Z;
  sc_Matched : Z;
  sc_Origins : list OriginStatus;
}.

(** What the context of a decoded feature collection holds. *)
Inductive contextValue := NoContext | Typed (c : SearchContext) | Decoded (m : list (string * value)) | Foreign.

Definition intMember (m : list (string * value)) (k : string) : Z :=
  match index k m with VFloat f => int64_of_float f | _ => 0 end.

Definition SearchContextOf (ctx : contextValue) : option SearchContext :=
  match ctx with
  | Typed c => Some c
  | Decoded m => Some (mkSearchContext (intMember m "returned") (intMember m "limit") (intMember m "matched") [])
  | NoContext | Foreign => None
  end.

(** The additional fields of an item or a collection, which may be a nil
    map, with a member added; on a nil document nothing happens. *)
Definition foreignMembers := option (gmap string value).
Definition SetForeignMember (fields : foreignMembers) (key : string) (v : value) : foreignMembers :=
  Some (<[key := v]> (default ∅ fields)).
Definition SetItemForeignMember (item : option foreignMembers) (key : string) (v : value) : option foreignMembers :=
  (λ fields, SetForeignMember fields key v) <$> item.
Definition SetCollectionForeignMember (coll : option foreignMembers) (key : string) (v : value) : option foreignMembers :=
  (λ fields, SetForeignMember fields key v) <$> coll.

Record SortSpec := mkSortSpec { Field : string; Direction : string }.
Record FieldsSpec := mkFieldsSpec { Include : list string; Exclude : list string }.

(** The request of a search.  [OverrideURL], [OverrideBody] and
    [AdapterName] never leave the proxy. *)
Record SearchRequest := mkSearchRequest {
  Collections : list string;
  IDs : list string;
  BBox : list float64;
  Intersects : bytes;
  Datetime : string;
  Limit : Z;
  Cursor : string;
  Token : string;
  Next : string;
  Sortby : list SortSpec;
  Filter : value;
  FilterLang : string;
  FilterCRS : string;
  Query : list (string * value);
  Fields : option FieldsSpec;
  OverrideURL : string;
  OverrideBody : bytes;
  AdapterName : string;
}.

(** The zero value [SearchRequest{}]. *)
Definition emptySearchRequest : SearchRequest :=
  mkSearchRequest [] [] [] "" "" 0 "" "" "" [] VNil "" "" [] None "" "" "".

(** ** Datetimes *)

Class GoTime := {
  Time : Type;
  time_Parse : string → string → option Time;
  time_Format : string → Time → string;
}.

Definition RFC3339 : string := "2006-01-02T15:04:05Z07:00".
Definition RFC3339Nano : string := "2006-01-02T15:04:05.999999999Z07:00".
Definition itemDatetimeFormats : list string := [RFC3339; RFC3339Nano; "2006-01-02"].

(** [for _, x := range xs { if y, ok := f(x); ok { return y, true } }]. *)
Fixpoint first_some {A B} (f : A → option B) (l : list A) : option B :=
  match l with
  | [] => None
  | x :: l => match f x with Some y => Some y | None => first_some f l end
  end.

Definition ItemDatetime `{GoTime} (item : option Item) : option Time :=
  match item with
  | None => None
  | Some it =>
      match Properties it with
      | None => None
      | Some props =>
          first_some (λ key,
            match get key props with
            | Some (VStr s) => first_some (λ layout, time_Parse layout s) itemDatetimeFormats
            | _ => None
            end) ["datetime"; "start_datetime"]
      end
  end.

(** ** Origin links *)

Definition OriginLinkRel : string := "stac_proxy:origin".

Definition OriginLink (originID originURL : string) : Link :=
  mkLink originURL OriginLinkRel "application/json" originID [].

Definition isOriginLink (l : option Link) : bool :=
  match l with Some l => String.eqb (Rel l) OriginLinkRel | None => false end.

Definition isOriginLinkOf (originID : string) (l : option Link) : bool :=
  match l with
  | Some l => String.eqb (Rel l) OriginLinkRel && String.eqb (Title l) originID
  | None => false
  end.

Definition withLinks (ls : list (option Link)) (it : Item) : Item :=
  mkItem (ID it) (Collection_ it) ls (Properties it) (ItemRest it).

Definition AddItemOriginLink (originID originURL : string) (it : Item) : Item :=
  if existsb (isOriginLinkOf originID) (Links it) then it
  else withLinks (Links it ++ [Some (OriginLink originID originURL)]) it.

Definition AddCollectionOriginLink (originID originURL : string) (c : Collection) : Collection :=
  if existsb (isOriginLinkOf originID) (CollLinks c) then c
  else mkCollection (CollID c) (CollLinks c ++ [Some (OriginLink originID originURL)]) (CollRest c).

Definition titleOf (l : option Link) : string :=
  match l with Some l => Title l | None => "" end.

Definition originIDOf (ls : list (option Link)) : string :=
  match List.find isOriginLink ls with Some l => titleOf l | None => "" end.

Definition ItemOriginID (item : option Item) : string :=
  match item with Some it => originIDOf (Links it) | None => "" end.

Definition CollectionOriginID (coll : option Collection) : string :=
  match coll with Some c => originIDOf (CollLinks c) | None => "" end.

Definition ExtractNextLink (links : list (option Link)) : option Link :=
  match List.find (λ l, match l with Some l => String.eqb (Rel l) "next" | None => false end)
          links with
  | Some l => l
  | None => None
  end.

(** ** Conformance *)

Definition FilterExtensionConformance : list string := [
  "https://api.stacspec.org/v1.0.0/item-search#filter";
  "https://api.stacspec.org/v1.0.0-rc.1/item-search#filter";
  "https://api.stacspec.org/v1.0.0-rc.2/item-search#filter";
  "http://www.opengis.net/spec/cql2/1.0/conf/cql2-text";
  "http://www.opengis.net/spec/cql2/1.0/conf/cql2-json";
  "http://www.opengis.net/spec/ogcapi-features-3/1.0/conf/filter";
  "https://api.stacspec.org/v1.0.0/collection-search#filter"].

Definition SpatialFilterConformance : list string := [
  "http://www.opengis.net/spec/cql2/1.0/conf/basic-spatial-functions";
  "http://www.opengis.net/spec/cql2/1.0/conf/basic-spatial-functions-plus";
  "http://www.opengis.net/spec/cql2/1.0/conf/spatial-functions";
  "http://www.opengis.net/spec/cql2/1.0/conf/basic-spatial-operators";
  "http://www.opengis.net/spec/cql2/1.0/conf/spatial-operators"].

Definition hasAny (classes wanted : list string) : bool :=
  existsb (λ c, existsb (String.eqb c) wanted) classes.

Definition HasFilterExtension (classes : list string) : bool :=
  hasAny classes FilterExtensionConformance.
Definition HasSpatialFunctions (classes : list string) : bool :=
  hasAny classes SpatialFilterConformance.

Definition ProxyConformanceCore : list string := [
  "https://api.stacspec.org/v1.0.0/core";
  "https://api.stacspec.org/v1.0.0/collections";
  "https://api.stacspec.org/v1.0.0/ogcapi-features";
  "https://api.stacspec.org/v1.0.0/item-search";
  "http://www.opengis.net/spec/ogcapi-common-1/1.0/conf/core";
  "http://www.opengis.net/spec/ogcapi-common-2/1.0/conf/collections";
  "http://www.opengis.net/spec/ogcapi-features-1/1.0/conf/core";
  "http://www.opengis.net/spec/ogcapi-features-1/1.0/conf/geojson"].

Record ConformanceCaps := mkCaps {
  CQL2InjectionEnabled : bool;
  AllOriginsSupportFilter : bool;
}.

Definition ProxyConformanceFor (caps : ConformanceCaps) : list string :=
  if CQL2InjectionEnabled caps && AllOriginsSupportFilter caps
  then ProxyConformanceCore ++ FilterExtensionConformance
  else ProxyConformanceCore.

(** [keep] is a Go map used as a set: each origin's set deletes from it
    what that origin does not list. *)
Definition Intersect (proxy : list string) (origins : list (list string)) : list string :=
  match origins with
  | [] => sort_Strings proxy
  | _ =>
      let keep : gset string := list_to_set proxy in
      let keep := foldl (λ keep set, keep ∩ list_to_set set) keep origins in
      sort_Strings (elements keep)
  end.

(** ** Lemmas *)

Lemma first_some_spec {A B} (f : A → option B) l y :
  first_some f l = Some y ↔ ∃ l1 x l2, l = l1 ++ x :: l2 ∧ f x = Some y ∧ Forall (λ z, f z = None) l1.
Proof.
  split.
  - induction l as [|x l IH]; cbn; [done|]. case_match eqn:E.
    + intros [= <-]. exists [], x, l. naive_solver.
    + intros (l1 & z & l2 & -> & Hz & Hl)%IH. exists (x :: l1), z, l2. naive_solver.
  - intros (l1 & x & l2 & -> & Hx & Hl). induction Hl as [|z l1 Hz _ IH]; cbn.
    + by rewrite Hx.
    + by rewrite Hz.
Qed.

Lemma AddItemOriginLink_ID oid url it : ID (AddItemOriginLink oid url it) = ID it.
Proof. unfold AddItemOriginLink. by case_match. Qed.

Lemma AddItemOriginLink_Collection oid url it :
  Collection_ (AddItemOriginLink oid url it) = Collection_ it.
Proof. unfold AddItemOriginLink. by case_match. Qed.

Lemma AddItemOriginLink_Properties oid url it :
  Properties (AddItemOriginLink oid url it) = Properties it.
Proof. unfold AddItemOriginLink. by case_match. Qed.

Lemma AddItemOriginLink_ItemRest oid url it :
  ItemRest (AddItemOriginLink oid url it) = ItemRest it.
Proof. unfold AddItemOriginLink. by case_match. Qed.

Lemma isOriginLinkOf_origin oid l : isOriginLinkOf oid l = true → isOriginLink l = true.
Proof. destruct l as [l|]; cbn; [|done]. by intros [? _]%andb_prop. Qed.

Lemma isOriginLinkOf_title oid l : isOriginLinkOf oid l = true → titleOf l = oid.
Proof. destruct l as [l|]; cbn; [|done]. intros [_ ?]%andb_prop. by apply String.eqb_eq. Qed.

Lemma isOriginLinkOf_OriginLink oid url : isOriginLinkOf oid (Some (OriginLink oid url)) = true.
Proof. unfold isOriginLinkOf; cbn. by rewrite String.eqb_refl. Qed.

(** A second attachment of the same origin changes nothing. *)
Lemma AddItemOriginLink_idemp oid url url' it :
  AddItemOriginLink oid url' (AddItemOriginLink oid url it) = AddItemOriginLink oid url it.
Proof.
  unfold AddItemOriginLink at 2 3. destruct (existsb _ (Links it)) eqn:E.
  - unfold AddItemOriginLink. by rewrite E.
  - unfold AddItemOriginLink. cbn [withLinks Links].
    rewrite existsb_app. cbn [existsb]. by rewrite isOriginLinkOf_OriginLink, orb_true_r.
Qed.

(** The links of a document an upstream sent without origin links of
    another proxy: every origin link names [oid]. *)
Definition ownLinks (oid : string) (ls : list (option Link)) : Prop :=
  Forall (λ l, isOriginLink l = true → titleOf l = oid) ls.

Lemma find_ownLinks oid ls l :
  ownLinks oid ls → List.find isOriginLink ls = Some l → titleOf l = oid.
Proof.
  intros Hls Hf. apply find_some in Hf as [Hin Hl].
  unfold ownLinks in Hls. rewrite Forall_forall in Hls. apply Hls; [|done].
  by apply list_elem_of_In.
Qed.

Lemma ItemOriginID_Add oid url it :
  ownLinks oid (Links it) → ItemOriginID (Some (AddItemOriginLink oid url it)) = oid.
Proof.
  intros Hls. unfold ItemOriginID, originIDOf, AddItemOriginLink.
  destruct (existsb _ _) eqn:E.
  - apply existsb_exists in E as (l & Hin & Hl).
    destruct (List.find isOriginLink (Links it)) as [l'|] eqn:Ef.
    + by eapply find_ownLinks.
    + eapply find_none in Ef; [|done]. apply isOriginLinkOf_origin in Hl. congruence.
  - cbn [withLinks Links]. destruct (List.find isOriginLink _) as [l'|] eqn:Ef.
    + eapply find_ownLinks; [|done]. apply Forall_app. split; [done|].
      by repeat constructor.
    + eapply find_none in Ef; [|apply in_app_iff; right; by left]. done.
Qed.

Lemma ownLinks_Add oid url it :
  ownLinks oid (Links it) → ownLinks oid (Links (AddItemOriginLink oid url it)).
Proof.
  intros Hls. unfold AddItemOriginLink. case_match; [done|].
  apply Forall_app. split; [done|]. by repeat constructor.
Qed.

Lemma hasAny_spec classes wanted :
  hasAny classes wanted = true ↔ ∃ c, c ∈ classes ∧ c ∈ wanted.
Proof.
  unfold hasAny. rewrite existsb_exists. setoid_rewrite existsb_exists.
  setoid_rewrite list_elem_of_In. setoid_rewrite String.eqb_eq. naive_solver.
Qed.

Lemma foldl_intersect (keep : gset string) origins c :
  c ∈ foldl (λ keep set, keep ∩ list_to_set set) keep origins ↔
  c ∈ keep ∧ ∀ o, o ∈ origins → c ∈ o.
Proof.
  revert keep. induction origins as [|o os IH]; intros keep; cbn; [set_solver|].
  rewrite IH. set_solver.
Qed.

(** ** Properties *)

(** A conformance class is kept exactly when the proxy supports
    it and every origin that answered lists it; the list is sorted, and
    has no duplicates once at least one origin answered. *)
Theorem Intersect_spec proxy origins :
  (∀ c, c ∈ Intersect proxy origins ↔ c ∈ proxy ∧ ∀ o, o ∈ origins → c ∈ o) ∧
  sorted_by ltb (Intersect proxy origins) ∧
  (origins ≠ [] → NoDup (Intersect proxy origins)).
Proof.
  unfold Intersect, sort_Strings. split; [intros c|split].
  - destruct origins; rewrite sort_stable_elem; [set_solver|].
    rewrite elem_of_elements, foldl_intersect. set_solver.
  - destruct origins; apply sort_Strings_sorted.
  - intros Ho. destruct origins; [done|]. rewrite sort_stable_perm. apply NoDup_elements.
Qed.

Lemma Intersect_spec_witness :
  NoDup (Intersect ProxyConformanceCore [ProxyConformanceCore; ["x"]]).
Proof.
  apply (Intersect_spec ProxyConformanceCore [ProxyConformanceCore; ["x"]]). discriminate.
Defined.

End Stac.
