(* ===== verification/Fanout.v ===== *)
(** * Bounded parallel fan-out ([internal/federation/fanout.go])

    [fanOut] starts one goroutine per input.  Each waits for a slot of the
    semaphore (when [maxConcurrent > 0]), runs [fn], converts a panic with
    [onPanic], writes its own result slot, releases the semaphore slot and
    signals the wait group.  [step] interleaves the goroutines; [fanOut]
    is the value [wg.Wait] leaves, and the theorems show that every
    schedule ends, never exceeds the bound, and produces that value. *)

From S2P Require Import Prelude.

Module Fanout.

(** What a call of [fn] does: return, or panic with a value. *)
Inductive call (T P : Type) : Type := Returned (t : T) | Panicked (p : P).
Arguments Returned {T P} t.
Arguments Panicked {T P} p.

Section FanOut.
Context {I T P : Type} (maxConcurrent : nat) (fn : I → call T P) (onPanic : I → P → T).

(** The slot one goroutine writes. *)
Definition slot (i : I) : T :=
  match fn i with Returned t => t | Panicked p => onPanic i p end.

Definition fanOut (inputs : list I) : list T := slot <$> inputs.

(** ** Interleaving semantics *)

Inductive goroutine := Waiting (i : I) | Running (i : I) | Done (t : T).

Definition isRunning (g : goroutine) : bool := match g with Running _ => true | _ => false end.
Definition isDone (g : goroutine) : bool := match g with Done _ => true | _ => false end.

Definition running (gs : list goroutine) : nat := length (List.filter isRunning gs).

(** [sem <- struct{}{}] proceeds when the channel has room. *)
Definition canAcquire (gs : list goroutine) : bool :=
  (maxConcurrent =? 0) || (running gs <? maxConcurrent).

Inductive step : list goroutine → list goroutine → Prop :=
| step_acquire gs1 i gs2 :
    canAcquire (gs1 ++ Waiting i :: gs2) = true →
    step (gs1 ++ Waiting i :: gs2) (gs1 ++ Running i :: gs2)
| step_finish gs1 i gs2 :
    step (gs1 ++ Running i :: gs2) (gs1 ++ Done (slot i) :: gs2).

Definition start (inputs : list I) : list goroutine := Waiting <$> inputs.

(** [wg.Wait] returns when every goroutine has finished. *)
Definition finished (gs : list goroutine) : Prop := Forall (λ g, isDone g = true) gs.

(** What each goroutine will have written. *)
Definition target (g : goroutine) : T :=
  match g with Waiting i | Running i => slot i | Done t => t end.

Definition work (g : goroutine) : nat :=
  match g with Waiting _ => 2 | Running _ => 1 | Done _ => 0 end.
Definition remaining (gs : list goroutine) : nat := sum_list (work <$> gs).

Lemma running_middle gs1 g gs2 :
  running (gs1 ++ g :: gs2) = (if isRunning g then 1 else 0) + running (gs1 ++ gs2).
Proof.
  unfold running. rewrite !List.filter_app, !length_app. cbn.
  destruct (isRunning g); cbn; lia.
Qed.

Lemma step_target gs gs' : step gs gs' → target <$> gs' = target <$> gs.
Proof. destruct 1; by rewrite !fmap_app. Qed.

Lemma step_remaining gs gs' : step gs gs' → S (remaining gs') = remaining gs.
Proof.
  unfold remaining. destruct 1; rewrite !fmap_app, !sum_list_with_app; cbn; lia.
Qed.

Lemma step_bound gs gs' :
  maxConcurrent ≠ 0 → step gs gs' → running gs ≤ maxConcurrent → running gs' ≤ maxConcurrent.
Proof.
  intros Hmax Hst. destruct Hst as [gs1 i gs2 Hc|gs1 i gs2];
    rewrite !running_middle in *; cbn in *; [|lia].
  unfold canAcquire in Hc. rewrite running_middle in Hc. cbn in Hc.
  apply orb_prop in Hc as [Hc|Hc]; [apply Nat.eqb_eq in Hc|apply Nat.ltb_lt in Hc]; lia.
Qed.

Lemma running_zero gs : running gs = 0 → Forall (λ g, isRunning g = false) gs.
Proof.
  unfold running. induction gs as [|g gs IH]; cbn; [constructor|].
  destruct (isRunning g) eqn:E; cbn; [lia|]. intros H. constructor; auto.
Qed.

Lemma exists_running gs : 0 < running gs → ∃ gs1 i gs2, gs = gs1 ++ Running i :: gs2.
Proof.
  unfold running. induction gs as [|g gs IH]; cbn; [lia|]. destruct g as [i|i|t]; cbn.
  - intros (gs1 & j & gs2 & ->)%IH. by exists (Waiting i :: gs1), j, gs2.
  - intros _. by exists [], i, gs.
  - intros (gs1 & j & gs2 & ->)%IH. by exists (Done t :: gs1), j, gs2.
Qed.

Lemma exists_waiting gs :
  running gs = 0 → ¬ finished gs → ∃ gs1 i gs2, gs = gs1 ++ Waiting i :: gs2.
Proof.
  intros Hr%running_zero. induction Hr as [|g gs Hg _ IH]; intros Hf.
  - destruct Hf. constructor.
  - destruct g as [i|i|t]; [by exists [], i, gs|done|].
    destruct IH as (gs1 & j & gs2 & ->).
    + intros H. apply Hf. by constructor.
    + by exists (Done t :: gs1), j, gs2.
Qed.

(** No goroutine is stuck for ever: an unfinished state always has a step. *)
Lemma progress gs : ¬ finished gs → ∃ gs', step gs gs'.
Proof.
  intros Hf. destruct (decide (0 < running gs)) as [Hr|Hr].
  - destruct (exists_running gs Hr) as (gs1 & i & gs2 & ->). eexists. constructor.
  - destruct (exists_waiting gs) as (gs1 & i & gs2 & ->); [lia|done|].
    eexists. apply step_acquire. unfold canAcquire.
    destruct maxConcurrent; [done|]. apply orb_true_intro. right. apply Nat.ltb_lt. lia.
Qed.

Lemma finished_target gs : finished gs → gs = Done <$> (target <$> gs).
Proof.
  induction 1 as [|g gs Hg _ IH]; [done|]. cbn. rewrite <-IH. by destruct g.
Qed.

Lemma target_start inputs : target <$> start inputs = fanOut inputs.
Proof. unfold start, fanOut. rewrite <-list_fmap_compose. done. Qed.

Lemma nsteps_target n gs gs' : nsteps step n gs gs' → target <$> gs' = target <$> gs.
Proof. induction 1 as [|n x y z Hxy _ IH]; [done|]. rewrite IH. by apply step_target. Qed.

Lemma nsteps_remaining n gs gs' : nsteps step n gs gs' → n + remaining gs' = remaining gs.
Proof.
  induction 1 as [|n x y z Hxy _ IH]; [done|]. apply step_remaining in Hxy. lia.
Qed.

Lemma remaining_start inputs : remaining (start inputs) = 2 * length inputs.
Proof. unfold remaining, start. induction inputs as [|i l IH]; cbn in *; lia. Qed.

Lemma running_start inputs : running (start inputs) = 0.
Proof. unfold running, start. by induction inputs. Qed.

Lemma nsteps_bound n gs gs' :
  maxConcurrent ≠ 0 → nsteps step n gs gs' →
  running gs ≤ maxConcurrent → running gs' ≤ maxConcurrent.
Proof. intros Hm. induction 1; eauto using step_bound. Qed.

(** ** Properties *)

(** C30: Under every interleaving of the goroutines: at most [maxConcurrent]
    calls of [fn] run at once (when the bound is set), an unfinished
    fan-out can always make progress, every schedule ends after exactly
    two steps per input, and what [wg.Wait] then leaves is the list of
    results in input order with panics converted by [onPanic]. *)
Theorem fanOut_schedules inputs n gs :
  nsteps step n (start inputs) gs →
  (maxConcurrent ≠ 0 → running gs ≤ maxConcurrent) ∧
  n ≤ 2 * length inputs ∧
  (finished gs ∨ ∃ gs', step gs gs') ∧
  (finished gs → n = 2 * length inputs ∧ gs = Done <$> fanOut inputs).
Proof.
  intros Hn. pose proof (nsteps_remaining _ _ _ Hn) as Hr.
  rewrite remaining_start in Hr. split; [|split; [lia|split]].
  - intros Hm. eapply nsteps_bound; [done..|]. rewrite running_start. lia.
  - destruct (decide (finished gs)) as [|Hf]; [by left|]. right. by apply progress.
  - intros Hf. rewrite (finished_target gs Hf), (nsteps_target _ _ _ Hn), target_start.
    split; [|done]. assert (remaining gs = 0); [|lia].
    clear -Hf. unfold remaining. induction Hf as [|g gs Hg _ IH]; cbn; [done|].
    by destruct g.
Qed.
End FanOut.

(** Two origins, one of which panics, under a bound of one. *)
Lemma fanOut_schedules_witness :
  let fn (i : nat) : call nat string := if i =? 1 then Panicked "boom" else Returned (10 + i) in
  let onPanic (i : nat) (_ : string) := 100 + i in
  ∃ gs, nsteps (step 1 fn onPanic) 4 (start [0; 1]) gs ∧ gs = Done <$> [10; 101].
Proof.
  intros fn onPanic.
  assert (Hrun : nsteps (step 1 fn onPanic) 4 (start [0; 1])
                   [Done (slot fn onPanic 0); Done (slot fn onPanic 1)]).
  { eapply nsteps_l; [by apply (step_acquire _ _ _ [] 0 [Waiting 1])|].
    eapply nsteps_l; [by apply (step_finish _ _ _ [] 0 [Waiting 1])|].
    eapply nsteps_l; [by apply (step_acquire _ _ _ [Done (slot fn onPanic 0)] 1 [])|].
    eapply nsteps_l; [by apply (step_finish _ _ _ [Done (slot fn onPanic 0)] 1 [])|].
    apply nsteps_O. }
  eexists. split; [exact Hrun|].
  eapply (fanOut_schedules 1 fn onPanic [0; 1] 4 _ Hrun). repeat constructor.
Defined.

End Fanout.
