(* ===== verification/Merger.v ===== *)
(** * Merging the results of several origins ([internal/federation/merger.go])

    [mergeItemsFirstWins] deduplicates the origins' items with a [seen]
    set and tags what it keeps; [MergeSearchResults] orders the origins by
    priority before merging; [MergeCollections] does the same for
    collections.  An item or collection pointer that is [nil] is [None].

    Errors are the ones the merger distinguishes: the breaker's
    [ErrCircuitOpen] and any other failure ([internal/federation/status.go]
    classifies them). *)

From S2P Require Import Prelude GoLib Stac.
From Stdlib Require Import Ascii.
Import Strings Stac.

Module Merger.

(** ** First-wins deduplication *)

Record itemSource := mkSource {
  src_OriginID : string;
  src_OriginURL : string;
  src_Items : list (option Item);
}.

Definition dedupKey (it : Item) : string := Collection_ it +:+ ":" +:+ ID it.

(** The loop state: the keys seen, and the output so far. *)
Definition mergeItem (src : itemSource) (st : gset string * list Item) (item : option Item)
    : gset string * list Item :=
  match item with
  | None => st
  | Some it =>
      if bool_decide (dedupKey it ∈ st.1) then st else
      ({[dedupKey it]} ∪ st.1,
       st.2 ++ [AddItemOriginLink (src_OriginID src) (src_OriginURL src) it])
  end.

Definition mergeSource (st : gset string * list Item) (src : itemSource)
    : gset string * list Item :=
  foldl (mergeItem src) st (src_Items src).

Definition mergeItemsFirstWins (sources : list itemSource) : list Item :=
  (foldl mergeSource (∅, []) sources).2.

(** ** Merging search results *)

Inductive originError := ErrCircuitOpen | ErrFetch (msg : string).

Definition classifyOriginError (err : originError) : string :=
  match err with ErrCircuitOpen => "circuit_open" | ErrFetch _ => "fetch_failed" end.

Record OriginSearchResult := mkResult {
  r_OriginID : string;
  r_OriginURL : string;
  r_Priority : Z;
  r_Items : list (option Item);
  r_Matched : option Z;          (* [Context.Matched] when [Context] is set *)
  r_Error : option originError;
}.

Record FeatureCollection := mkFC {
  Features : list Item;
  Context_ : SearchContext;
}.

Definition resultLess (x y : OriginSearchResult) : bool :=
  if negb (r_Priority x =? r_Priority y)%Z then (r_Priority x <? r_Priority y)%Z
  else ltb (r_OriginID x) (r_OriginID y).

(** The body of the loop over the sorted results. *)
Definition mergeStep (st : list itemSource * list OriginStatus * Z) (r : OriginSearchResult)
    : list itemSource * list OriginStatus * Z :=
  let '(sources, statuses, totalMatched) := st in
  match r_Error r with
  | Some e =>
      (sources,
       statuses ++ [mkOriginStatus (r_OriginID r) 0 0 false (classifyOriginError e)],
       totalMatched)
  | None =>
      let matched := default 0%Z (r_Matched r) in
      (sources ++ [mkSource (r_OriginID r) (r_OriginURL r) (r_Items r)],
       statuses ++ [mkOriginStatus (r_OriginID r) matched (Z.of_nat (length (r_Items r))) false ""],
       (totalMatched + matched)%Z)
  end.

Definition MergeSearchResults (results : list OriginSearchResult) (req : SearchRequest)
    : FeatureCollection :=
  let results := sort_stable resultLess results in
  let '(sources, statuses, totalMatched) := foldl mergeStep ([], [], 0%Z) results in
  let items := mergeItemsFirstWins sources in
  let items :=
    if (0 <? Limit req)%Z && (Limit req <? Z.of_nat (length items))%Z
    then take (Z.to_nat (Limit req)) items else items in
  mkFC items
    (mkSearchContext (Z.of_nat (length items)) (if (0 <? Limit req)%Z then Limit req else 0)
       totalMatched statuses).

(** ** Collections *)

Definition dedupCollection (st : gset string * list Collection) (coll : option Collection)
    : gset string * list Collection :=
  match coll with
  | None => st
  | Some c =>
      if bool_decide (CollID c ∈ st.1) then st else ({[CollID c]} ∪ st.1, st.2 ++ [c])
  end.

Definition DeduplicateCollections (collections : list (option Collection)) : list Collection :=
  sort_stable (λ x y, ltb (CollID x) (CollID y))
    (foldl dedupCollection (∅, []) collections).2.

Record OriginCollectionsResult := mkCollResult {
  c_OriginID : string;
  c_OriginURL : string;
  c_Collections : list (option Collection);
  c_Error : option originError;
}.

Definition tagCollections (r : OriginCollectionsResult) : list (option Collection) :=
  match c_Error r with
  | Some _ => []
  | None =>
      Some <$> (AddCollectionOriginLink (c_OriginID r) (c_OriginURL r) <$> omap id (c_Collections r))
  end.

Definition MergeCollections (results : list OriginCollectionsResult) : list Collection :=
  DeduplicateCollections (results ≫= tagCollections).

(** ** Statistics *)

Record MergeStats := mkStats {
  TotalItems : Z;
  UniqueItems : Z;
  DuplicatesFound : Z;
  OriginsUsed : Z;
  OriginsFailed : Z;
}.

Definition statStep (s : MergeStats) (r : OriginSearchResult) : MergeStats :=
  match r_Error r with
  | Some _ => mkStats (TotalItems s) (UniqueItems s) 0 (OriginsUsed s) (OriginsFailed s + 1)
  | None => mkStats (TotalItems s + Z.of_nat (length (r_Items r))) (UniqueItems s) 0
              (OriginsUsed s + 1) (OriginsFailed s)
  end.

Definition CalculateMergeStats (results : list OriginSearchResult) (mergedCount : Z) : MergeStats :=
  let s := foldl statStep (mkStats 0 mergedCount 0 0 0) results in
  mkStats (TotalItems s) (UniqueItems s) (TotalItems s - mergedCount)
    (OriginsUsed s) (OriginsFailed s).

(** ** Reference definitions and lemmas *)

(** All items of all origins, in iteration order, with their origin. *)
Definition entries (sources : list itemSource) : list (itemSource * Item) :=
  sources ≫= λ src, pair src <$> omap id (src_Items src).

Definition entryKey (e : itemSource * Item) : string := dedupKey e.2.
Definition tagEntry (e : itemSource * Item) : Item :=
  AddItemOriginLink (src_OriginID e.1) (src_OriginURL e.1) e.2.

Lemma dedupKey_tag e : dedupKey (tagEntry e) = entryKey e.
Proof.
  unfold dedupKey, tagEntry, entryKey.
  by rewrite AddItemOriginLink_Collection, AddItemOriginLink_ID.
Qed.

Lemma mergeSource_keepFirst st src :
  mergeSource st src =
    foldl (keepFirst entryKey tagEntry) st (pair src <$> omap id (src_Items src)).
Proof.
  unfold mergeSource. revert st.
  induction (src_Items src) as [|[it|] items IH]; intros st; cbn; [done| |apply IH].
  apply IH.
Qed.

(** The [seen]-set loop computes the reference deduplication. *)
Lemma mergeItemsFirstWins_firsts sources :
  mergeItemsFirstWins sources = tagEntry <$> firsts entryKey ∅ (entries sources).
Proof.
  unfold mergeItemsFirstWins.
  assert (Hf : ∀ st, foldl mergeSource st sources =
                     foldl (keepFirst entryKey tagEntry) st (entries sources)).
  { induction sources as [|src sources IH]; intros st; cbn; [done|].
    by rewrite foldl_app, IH, mergeSource_keepFirst. }
  by rewrite Hf, foldl_keepFirst.
Qed.

Lemma merge_keys_NoDup sources : NoDup (dedupKey <$> mergeItemsFirstWins sources).
Proof.
  rewrite mergeItemsFirstWins_firsts, <-list_fmap_compose.
  rewrite (list_fmap_ext _ entryKey); [apply firsts_NoDup|]. intros. apply dedupKey_tag.
Qed.

Lemma elem_of_entries sources src it :
  (src, it) ∈ entries sources ↔ src ∈ sources ∧ Some it ∈ src_Items src.
Proof.
  unfold entries. rewrite list_elem_of_bind. setoid_rewrite list_elem_of_fmap.
  setoid_rewrite list_elem_of_omap. unfold id. naive_solver.
Qed.

Lemma merge_elem sources it :
  it ∈ mergeItemsFirstWins sources →
  ∃ src x, src ∈ sources ∧ Some x ∈ src_Items src ∧ it = tagEntry (src, x).
Proof.
  rewrite mergeItemsFirstWins_firsts. intros ([src x] & -> & He)%list_elem_of_fmap.
  eapply elem_of_sublist in He; [|apply firsts_sublist].
  apply elem_of_entries in He. naive_solver.
Qed.

Lemma merge_keys sources k :
  k ∈ dedupKey <$> mergeItemsFirstWins sources ↔
  ∃ src it, src ∈ sources ∧ Some it ∈ src_Items src ∧ k = dedupKey it.
Proof.
  rewrite mergeItemsFirstWins_firsts, <-list_fmap_compose.
  rewrite (list_fmap_ext _ entryKey) by (intros; apply dedupKey_tag).
  rewrite firsts_keys, list_elem_of_fmap. unfold entryKey. split.
  - intros ([src it] & -> & He). apply elem_of_entries in He. naive_solver.
  - intros (src & it & Hs & Hi & ->). exists (src, it). by rewrite elem_of_entries.
Qed.

Lemma find_tag (l : list (itemSource * Item)) k :
  List.find (λ it, String.eqb (dedupKey it) k) (tagEntry <$> l) =
  tagEntry <$> List.find (λ e, String.eqb (entryKey e) k) l.
Proof.
  induction l as [|e l IH]; cbn; [done|]. rewrite dedupKey_tag. by case_match.
Qed.

Lemma resultLess_asym x y : resultLess x y = true → resultLess y x = false.
Proof.
  unfold resultLess. destruct (Z.eqb_spec (r_Priority x) (r_Priority y)) as [E|E]; cbn.
  - rewrite E, Z.eqb_refl. cbn. apply ltb_asym.
  - rewrite (proj2 (Z.eqb_neq _ _)) by lia. cbn. intros ?. bool_to_prop. apply Z.ltb_ge. lia.
Qed.

Lemma resultLess_cotrans x y z :
  resultLess x y = false → resultLess y z = false → resultLess x z = false.
Proof.
  unfold resultLess.
  destruct (Z.eqb_spec (r_Priority x) (r_Priority y)) as [E1|E1],
    (Z.eqb_spec (r_Priority y) (r_Priority z)) as [E2|E2],
    (Z.eqb_spec (r_Priority x) (r_Priority z)) as [E3|E3]; cbn; intros; bool_to_prop;
    try (apply Z.ltb_ge); try lia. by eapply ltb_cotrans.
Qed.

Lemma resultLess_tie x y :
  resultLess x y = false → resultLess y x = false → r_OriginID x = r_OriginID y.
Proof.
  unfold resultLess. destruct (Z.eqb_spec (r_Priority x) (r_Priority y)) as [E|E]; cbn.
  - rewrite E, Z.eqb_refl. cbn. apply ltb_total.
  - rewrite (proj2 (Z.eqb_neq _ _)) by lia. cbn. intros. bool_to_prop. lia.
Qed.

(** Sorting by a key that identifies the elements forgets their order. *)
Lemma sort_results_perm rs rs' :
  rs ≡ₚ rs' → NoDup (r_OriginID <$> rs) →
  sort_stable resultLess rs = sort_stable resultLess rs'.
Proof.
  intros Hp Hnd. eapply (StronglySorted_unique_strong (λ x y, resultLess y x = false)).
  - intros x y Hx Hy H1 H2. rewrite sort_stable_elem in Hx, Hy. rewrite <-Hp in Hy.
    assert (r_OriginID x = r_OriginID y) as Hid by by apply resultLess_tie.
    apply list_elem_of_lookup in Hx as [i Hi]. apply list_elem_of_lookup in Hy as [k Hk].
    assert (i = k) as ->; [|congruence].
    apply (NoDup_lookup _ i k (r_OriginID x) Hnd); rewrite list_lookup_fmap, ?Hi, ?Hk; cbn; congruence.
  - apply sort_stable_sorted; [apply resultLess_asym|apply resultLess_cotrans].
  - apply sort_stable_sorted; [apply resultLess_asym|apply resultLess_cotrans].
  - by rewrite !sort_stable_perm.
Qed.

(** What the loop over the results accumulates. *)
Definition statusOf (r : OriginSearchResult) : OriginStatus :=
  match r_Error r with
  | Some e => mkOriginStatus (r_OriginID r) 0 0 false (classifyOriginError e)
  | None => mkOriginStatus (r_OriginID r) (default 0%Z (r_Matched r))
              (Z.of_nat (length (r_Items r))) false ""
  end.
Definition sourceOf (r : OriginSearchResult) : option itemSource :=
  match r_Error r with
  | Some _ => None
  | None => Some (mkSource (r_OriginID r) (r_OriginURL r) (r_Items r))
  end.

Lemma foldl_mergeStep rs sources statuses n :
  ∃ m, foldl mergeStep (sources, statuses, n) rs =
    (sources ++ omap sourceOf rs, statuses ++ (statusOf <$> rs), m).
Proof.
  revert sources statuses n. induction rs as [|r rs IH]; intros sources statuses n; cbn.
  - exists n. by rewrite !app_nil_r.
  - unfold statusOf at 1, sourceOf at 1. destruct (r_Error r);
      edestruct IH as [m ->]; exists m; by rewrite <-?app_assoc.
Qed.

(** ** Properties *)

(** The merged list has no two items with the same dedup key, every
    key that any origin returned appears in it, the item kept for a key
    is the first one in iteration order tagged with that origin's link,
    and the kept items stay in iteration order. *)
Theorem mergeItemsFirstWins_correct sources :
  let out := mergeItemsFirstWins sources in
  NoDup (dedupKey <$> out) ∧
  (∀ k, List.find (λ it, String.eqb (dedupKey it) k) out =
        tagEntry <$> List.find (λ e, String.eqb (entryKey e) k) (entries sources)) ∧
  (∀ src it, src ∈ sources → Some it ∈ src_Items src → dedupKey it ∈ dedupKey <$> out) ∧
  (dedupKey <$> out) `sublist_of` (entryKey <$> entries sources).
Proof.
  intros out. split; [apply merge_keys_NoDup|]. split; [|split].
  - intros k. unfold out. rewrite mergeItemsFirstWins_firsts, find_tag, firsts_find.
    by rewrite bool_decide_false by set_solver.
  - intros src it Hs Hi. apply merge_keys. eauto.
  - unfold out. rewrite mergeItemsFirstWins_firsts, <-list_fmap_compose.
    rewrite (list_fmap_ext _ entryKey) by (intros; apply dedupKey_tag).
    apply fmap_sublist, firsts_sublist.
Qed.

(** The key joins collection and ID with a colon, so it confuses item
    [c] of collection [a:b] with item [b:c] of collection [a]. *)
Lemma dedupKey_ambiguous :
  let x := mkItem "c" "a:b" [] None Values.VNil in
  let y := mkItem "b:c" "a" [] None Values.VNil in
  (ID x, Collection_ x) ≠ (ID y, Collection_ y) ∧
  mergeItemsFirstWins [mkSource "o" "u" [Some x]; mkSource "p" "v" [Some y]] =
    [AddItemOriginLink "o" "u" x].
Proof. split; [discriminate|]. vm_compute. reflexivity. Qed.

(** The merge does not depend on the order in which the origins'
    answers arrived: any reordering of the results of distinct origins
    gives the same response. *)
Theorem MergeSearchResults_order_independent results results' req :
  results ≡ₚ results' → NoDup (r_OriginID <$> results) →
  MergeSearchResults results req = MergeSearchResults results' req.
Proof.
  intros Hp Hnd. unfold MergeSearchResults. by rewrite (sort_results_perm _ _ Hp Hnd).
Qed.

Definition resA : OriginSearchResult :=
  mkResult "a" "http://a" 2 [Some (mkItem "1" "c" [] None Values.VNil)] (Some 7%Z) None.
Definition resB : OriginSearchResult :=
  mkResult "b" "http://b" 1 [Some (mkItem "1" "c" [] None Values.VNil); None] None None.
Definition resC : OriginSearchResult := mkResult "c" "http://c" 1 [] None (Some ErrCircuitOpen).

Lemma MergeSearchResults_order_independent_witness :
  MergeSearchResults [resA; resB; resC] emptySearchRequest =
  MergeSearchResults [resC; resB; resA] emptySearchRequest.
Proof.
  apply (MergeSearchResults_order_independent [resA; resB; resC] [resC; resB; resA]).
  - apply (Permutation_rev [resA; resB; resC]).
  - apply NoDup_cons. repeat (split || constructor || set_solver).
Defined.

(** C31: A merged response never exceeds a positive limit, its [returned]
    count is the number of features, no key repeats, every feature was
    returned by an origin that answered (and carries that origin's link),
    and the status block has exactly one entry per origin result, in
    priority order, with the error class of those that failed. *)
Theorem MergeSearchResults_contract results req :
  let fc := MergeSearchResults results req in
  sc_Returned (Context_ fc) = Z.of_nat (length (Features fc)) ∧
  ((0 < Limit req)%Z → (Z.of_nat (length (Features fc)) ≤ Limit req)%Z) ∧
  NoDup (dedupKey <$> Features fc) ∧
  (∀ it, it ∈ Features fc → ∃ r x, r ∈ results ∧ r_Error r = None ∧ Some x ∈ r_Items r ∧
     it = AddItemOriginLink (r_OriginID r) (r_OriginURL r) x) ∧
  sc_Origins (Context_ fc) = statusOf <$> sort_stable resultLess results.
Proof.
  intros fc. unfold fc, MergeSearchResults.
  destruct (foldl_mergeStep (sort_stable resultLess results) [] [] 0%Z) as [m ->].
  cbn [app Context_ sc_Returned Features sc_Origins].
  set (items := mergeItemsFirstWins _).
  assert (Hsub : (if (0 <? Limit req)%Z && (Limit req <? Z.of_nat (length items))%Z
                  then take (Z.to_nat (Limit req)) items else items) `sublist_of` items).
  { case_match; [apply sublist_take|done]. }
  split; [done|]. split; [|split; [|split; [|done]]].
  - intros Hl. case_match eqn:E; bool_to_prop; [rewrite length_take; lia|].
    apply andb_false_iff in E as [E|E]; bool_to_prop; lia.
  - eapply sublist_NoDup; [apply merge_keys_NoDup|apply fmap_sublist, Hsub].
  - intros it Hit. eapply elem_of_sublist in Hit; [|exact Hsub].
    apply merge_elem in Hit as (src & x & (r & Hr & Hs)%list_elem_of_omap & Hx & ->).
    rewrite sort_stable_elem in Hr. unfold sourceOf in Hs.
    destruct (r_Error r) eqn:Er; [done|]. injection Hs as <-. by exists r, x.
Qed.

Lemma dedupCollection_keepFirst st l :
  foldl dedupCollection st l = foldl (keepFirst CollID id) st (omap id l).
Proof. revert st. induction l as [|[c|] l IH]; intros st; cbn; auto. Qed.

Lemma DeduplicateCollections_firsts l :
  DeduplicateCollections l ≡ₚ firsts CollID ∅ (omap id l).
Proof.
  unfold DeduplicateCollections. rewrite sort_stable_perm, dedupCollection_keepFirst.
  rewrite foldl_keepFirst. cbn. by rewrite list_fmap_id.
Qed.

Lemma sorted_strict (l : list Collection) :
  NoDup (CollID <$> l) → sorted_by (λ x y, ltb (CollID x) (CollID y)) l →
  StronglySorted (λ x y, ltb (CollID x) (CollID y) = true) l.
Proof.
  intros Hnd Hs. induction Hs as [|x l Hs IH Hx]; [constructor|].
  cbn in Hnd. apply NoDup_cons in Hnd as [Hni Hnd]. constructor; [by apply IH|].
  rewrite Forall_forall in *. intros y Hy. specialize (Hx y Hy). cbn in Hx.
  destruct (ltb (CollID x) (CollID y)) eqn:E; [done|].
  exfalso. apply Hni. apply list_elem_of_fmap. exists y. split; [|done].
  by apply ltb_total.
Qed.

(** The merged collection list is strictly ordered by ID (so stable and
    duplicate-free); its IDs are exactly those of the collections of the
    origins that answered; and every entry is one of those collections
    carrying the link of the origin it came from. *)
Theorem MergeCollections_correct results :
  let out := MergeCollections results in
  StronglySorted (λ x y, ltb (CollID x) (CollID y) = true) out ∧
  (∀ c, c ∈ out → ∃ r c0, r ∈ results ∧ c_Error r = None ∧ Some c0 ∈ c_Collections r ∧
     c = AddCollectionOriginLink (c_OriginID r) (c_OriginURL r) c0) ∧
  (∀ r c0, r ∈ results → c_Error r = None → Some c0 ∈ c_Collections r →
     CollID c0 ∈ CollID <$> out).
Proof.
  intros out. pose proof (DeduplicateCollections_firsts (results ≫= tagCollections)) as Hp.
  fold (MergeCollections results) in Hp. fold out in Hp.
  assert (Hall : ∀ c, c ∈ omap id (results ≫= tagCollections) ↔
    ∃ r c0, r ∈ results ∧ c_Error r = None ∧ Some c0 ∈ c_Collections r ∧
     c = AddCollectionOriginLink (c_OriginID r) (c_OriginURL r) c0).
  { intros c. rewrite list_elem_of_omap. setoid_rewrite list_elem_of_bind. unfold id, tagCollections.
    split.
    - intros (oc & (r & Hoc & Hr) & ->). destruct (c_Error r) eqn:E; [set_solver|].
      rewrite list_elem_of_fmap in Hoc. destruct Hoc as (c1 & [= <-] & Hc1).
      apply list_elem_of_fmap in Hc1 as (c0 & -> & Hc0). apply list_elem_of_omap in Hc0.
      unfold id in Hc0. naive_solver.
    - intros (r & c0 & Hr & E & Hc0 & ->). eexists. split; [|done]. exists r. split; [|done].
      rewrite E. apply list_elem_of_fmap. eexists; split; [done|].
      apply list_elem_of_fmap. eexists; split; [done|]. apply list_elem_of_omap. eauto. }
  split; [|split].
  - apply sorted_strict.
    + rewrite Hp. apply firsts_NoDup.
    + apply sort_stable_sorted; intros *; [apply ltb_asym|apply ltb_cotrans].
  - intros c Hc. apply Hall. rewrite Hp in Hc.
    eapply elem_of_sublist; [done|apply firsts_sublist].
  - intros r c0 Hr E Hc0. rewrite Hp, firsts_keys.
    apply list_elem_of_fmap. exists (AddCollectionOriginLink (c_OriginID r) (c_OriginURL r) c0).
    split; [unfold AddCollectionOriginLink; by case_match|]. apply Hall. by exists r, c0.
Qed.

End Merger.
