(* ===== verification/Cursor.v ===== *)
(** * Signed pagination cursors ([internal/federation/cursor.go])

    A [FederatedCursor] records, per origin, where the session stands.  It
    leaves the proxy as [base64url(json) "." base64url(hmac)] and comes
    back in the next request.

    Parameters: [sha256]/[hmac_sha256] ([Crypto]) and [encoding/json] on the
    cursor struct ([CursorCodec]).  [time.Now] is the argument [now], in
    nanoseconds.  The proxy only mints cursors whose [Origins] entries and
    stash entries are non-nil pointers, so the model has no nil there. *)

From S2P Require Import Prelude GoLib Stac.
From Stdlib Require Import Ascii.
Import Strings Values Stac.

Class Crypto := {
  sha256 : bytes → bytes;
  hmac_sha256 : bytes → bytes → bytes;   (* key, message *)
}.

(** [hex.EncodeToString]. *)
Module Hex.
Definition digit (n : N) : ascii :=
  (if n <? 10 then ascii_of_N (48 + n) else ascii_of_N (87 + n))%N.
Fixpoint EncodeToString (s : bytes) : string :=
  match s with
  | EmptyString => EmptyString
  | String c s =>
      String (digit (N_of_ascii c / 16)) (String (digit (N_of_ascii c mod 16)) (EncodeToString s))
  end.

Lemma hex_inj s t : EncodeToString s = EncodeToString t → s = t.
Proof.
  revert t. induction s as [|a s IH]; intros [|b t]; cbn; try done.
  intros [= H1 H2 H3]. f_equal; [|by apply IH].
  assert (Hd : ∀ x y, (x < 16)%N → (y < 16)%N → digit x = digit y → x = y).
  { intros x y Hx Hy. unfold digit.
    destruct (N.ltb_spec x 10), (N.ltb_spec y 10); intros Heq;
      apply (f_equal N_of_ascii) in Heq; rewrite !N_ascii_embedding in Heq; lia. }
  pose proof (N_ascii_bounded a). pose proof (N_ascii_bounded b).
  apply Hd in H1; [|apply N.Div0.div_lt_upper_bound; lia|apply N.Div0.div_lt_upper_bound; lia].
  apply Hd in H2; [|apply N.mod_lt; lia|apply N.mod_lt; lia].
  rewrite <-(ascii_N_embedding a), <-(ascii_N_embedding b). f_equal.
  rewrite (N.div_mod (N_of_ascii a) 16), (N.div_mod (N_of_ascii b) 16) by lia. congruence.
Qed.

End Hex.

Module Cursor.

Definition Second : Z := 1000000000.
(** [Time.Unix]: whole seconds, rounded towards the past. *)
Definition Unix (t : Z) : Z := (t / Second)%Z.

(** ** State *)

(** A sort value is a parsed time or the raw property; only its JSON form
    survives in a token. *)
Inductive sortValue `{GoTime} := SVTime (t : Time) | SVRaw (v : value).
#[global] Arguments SVTime {_} t.
#[global] Arguments SVRaw {_} v.

Record OriginCursor `{GoTime} := mkOriginCursor {
  oc_ID : string;
  NextToken : string;
  NextURL : string;
  NextBody : bytes;
  Offset : Z;
  oc_AdapterName : string;
  Exhausted : bool;
  Error : bool;
  ErrorCount : Z;
  ItemCount : Z;
  LastSortValue : sortValue;
  Stash : list Item;
}.
#[global] Arguments mkOriginCursor {_}.

Record FederatedCursor `{GoTime} := mkCursor {
  Version : Z;
  QueryHash : string;
  PrincipalHash_ : string;
  Origins : gmap string OriginCursor;
  TotalReturned : Z;
  CreatedAt : Z;
  ExpiresAt : Z;
  LastSortValues : list value;
  PrevCursor : string;
  FirstCursor : string;
  PageSeq : Z;
}.
#[global] Arguments mkCursor {_}.

Record OriginUpdate `{GoTime} := mkUpdate {
  u_ItemCount : Z;
  u_NextToken : string;
  u_NextURL : string;
  u_NextBody : bytes;
  u_Offset : Z;
  u_AdapterName : string;
  u_LastSortValue : sortValue;
}.
#[global] Arguments mkUpdate {_}.

Record CursorConfig := mkCursorConfig { DefaultTTL : Z; MaxTTL : Z }.
Definition DefaultCursorConfig : CursorConfig :=
  mkCursorConfig (3600 * Second) (24 * 3600 * Second).

Inductive cursorError :=
| ErrCursorInvalid (why : string)
| ErrCursorTampered
| ErrCursorExpired
| ErrCursorPrincipalMismatch
| ErrCursorOriginURLNotAllowed
| ErrCursorSecretMissing
| ErrCursorMarshal.

Definition currentCursorVersion : Z := 2.
Definition maxOriginErrorRetries : Z := 3.

Section Ops.
Context `{GoTime}.
Implicit Types (c : FederatedCursor) (o : OriginCursor).

(** The zero value [&OriginCursor{ID: id}]. *)
Definition newOriginCursor (id : string) : OriginCursor :=
  mkOriginCursor id "" "" "" 0 "" false false 0 0 (SVRaw VNil) [].

Definition withOrigins (os : gmap string OriginCursor) c : FederatedCursor :=
  mkCursor (Version c) (QueryHash c) (PrincipalHash_ c) os (TotalReturned c) (CreatedAt c)
    (ExpiresAt c) (LastSortValues c) (PrevCursor c) (FirstCursor c) (PageSeq c).

Definition withStash (st : list Item) o : OriginCursor :=
  mkOriginCursor (oc_ID o) (NextToken o) (NextURL o) (NextBody o) (Offset o) (oc_AdapterName o)
    (Exhausted o) (Error o) (ErrorCount o) (ItemCount o) (LastSortValue o) st.

(** ** Construction *)

Definition NewFederatedCursor (now : Z) (queryHash principalHash : string)
    (originIDs : list string) (cfg : option CursorConfig) : FederatedCursor :=
  let cfg := default DefaultCursorConfig cfg in
  mkCursor currentCursorVersion queryHash principalHash
    (foldl (λ m id, <[id := newOriginCursor id]> m) ∅ originIDs)
    0 (Unix now) (Unix (now + DefaultTTL cfg)) [] "" "" 0.

Definition IsExpired (now : Z) c : bool := (ExpiresAt c <=? Unix now)%Z.

(** ** Liveness of origins *)

Definition retired o : bool := Error o && (maxOriginErrorRetries <=? ErrorCount o)%Z.

Definition hasMore o : bool :=
  negb (bool_decide (Stash o = [])) || (negb (retired o) && negb (Exhausted o)).

Definition HasMore `{MapRange} c : bool := existsb (λ kv, hasMore kv.2) (range (Origins c)).

Definition ActiveOrigins `{MapRange} c : list string :=
  sort_Strings (List.filter (λ kv, hasMore kv.2) (range (Origins c))).*1.

Definition GetOriginCursor c (originID : string) : option OriginCursor := Origins c !! originID.

(** ** Updates *)

Definition MarkExhausted (originID : string) c : FederatedCursor :=
  match Origins c !! originID with
  | None => c
  | Some o =>
      withOrigins (<[originID :=
        mkOriginCursor (oc_ID o) "" "" "" (Offset o) (oc_AdapterName o) true (Error o)
          (ErrorCount o) (ItemCount o) (LastSortValue o) (Stash o)]> (Origins c)) c
  end.

Definition MarkError (originID : string) c : FederatedCursor :=
  match Origins c !! originID with
  | None => c
  | Some o =>
      withOrigins (<[originID :=
        mkOriginCursor (oc_ID o) (NextToken o) (NextURL o) (NextBody o) (Offset o)
          (oc_AdapterName o) (Exhausted o) true (ErrorCount o + 1) (ItemCount o)
          (LastSortValue o) (Stash o)]> (Origins c)) c
  end.

Definition noNextPage (u : OriginUpdate) : bool :=
  String.eqb (u_NextToken u) "" && String.eqb (u_NextURL u) "" &&
  (u_Offset u =? 0)%Z && String.eqb (u_NextBody u) "".

Definition applyUpdate (u : OriginUpdate) o : OriginCursor :=
  mkOriginCursor (oc_ID o) (u_NextToken u) (u_NextURL u) (u_NextBody u) (u_Offset u)
    (if String.eqb (u_AdapterName u) "" then oc_AdapterName o else u_AdapterName u)
    (if noNextPage u then true else Exhausted o)
    false 0 (ItemCount o + u_ItemCount u) (u_LastSortValue u) (Stash o).

Definition UpdateOriginState (originID : string) (u : OriginUpdate) c : FederatedCursor :=
  let origin := default (newOriginCursor originID) (Origins c !! originID) in
  withOrigins (<[originID := applyUpdate u origin]> (Origins c)) c.

Definition UpdateOrigin (originID : string) (itemCount : Z) (nextToken nextURL : string)
    (lastSortValue : sortValue) c : FederatedCursor :=
  UpdateOriginState originID (mkUpdate itemCount nextToken nextURL "" 0 "" lastSortValue) c.

Definition UpdateOffset (originID : string) (newOffset : Z) c : FederatedCursor :=
  match Origins c !! originID with
  | None => c
  | Some o =>
      withOrigins (<[originID :=
        mkOriginCursor (oc_ID o) (NextToken o) (NextURL o) (NextBody o) newOffset
          (oc_AdapterName o) (Exhausted o) (Error o) (ErrorCount o) (ItemCount o)
          (LastSortValue o) (Stash o)]> (Origins c)) c
  end.

(** The field list of the composite literal in [Clone]; a field it does not
    name takes its zero value. *)
Definition cloneOrigin o : OriginCursor :=
  mkOriginCursor (oc_ID o) (NextToken o) (NextURL o) (NextBody o) (Offset o) (oc_AdapterName o)
    (Exhausted o) (Error o) 0 (ItemCount o) (LastSortValue o) (Stash o).

Definition Clone c : FederatedCursor :=
  mkCursor (Version c) (QueryHash c) (PrincipalHash_ c) (cloneOrigin <$> Origins c)
    (TotalReturned c) (CreatedAt c) (ExpiresAt c) (LastSortValues c)
    (PrevCursor c) (FirstCursor c) (PageSeq c).

End Ops.

(** ** Tokens *)

Class CursorCodec `{GoTime} := {
  json_Marshal : FederatedCursor → option bytes;
  json_Unmarshal : bytes → option FederatedCursor;
}.

Section Tokens.
Context `{GoTime, !Crypto, !CursorCodec, !MapRange}.
Implicit Types (c : FederatedCursor).

Fixpoint take_str (n : nat) (s : string) : string :=
  match n, s with
  | S n, String c s => String c (take_str n s)
  | _, _ => EmptyString
  end.

Definition PrincipalHash (principalID : string) : string :=
  if String.eqb principalID "" then ""
  else Hex.EncodeToString (take_str 8 (sha256 principalID)).

Definition Encode (secret : bytes) c : result cursorError string :=
  if String.eqb secret "" then Err ErrCursorSecretMissing else
  match json_Marshal c with
  | None => Err ErrCursorMarshal
  | Some data =>
      let sig := hmac_sha256 secret data in
      Ok (Base64.EncodeToString data +:+ "." +:+ Base64.EncodeToString sig)
  end.

(** The allowlist test of one origin entry. *)
Definition urlAllowed (allowed : gmap string string) (o : OriginCursor) : bool :=
  String.eqb (NextURL o) "" ||
  match allowed !! oc_ID o with
  | None => false
  | Some base => negb (String.eqb base "") && HasPrefix (NextURL o) base
  end.

Definition decodeParts (encoded : string) : result cursorError (bytes * bytes) :=
  match Split encoded "." with
  | [p; s] =>
      if String.eqb p "" || String.eqb s ""
      then Err (ErrCursorInvalid "token must have payload and signature") else
      match Base64.DecodeString p with
      | None => Err (ErrCursorInvalid "payload base64")
      | Some payload =>
          match Base64.DecodeString s with
          | None => Err (ErrCursorInvalid "signature base64")
          | Some signature => Ok (payload, signature)
          end
      end
  | _ => Err (ErrCursorInvalid "token must have payload and signature")
  end.

Definition DecodeCursor (now : Z) (encoded : string) (secret : bytes)
    (allowed : gmap string string) (principalHash : string)
    : result cursorError FederatedCursor :=
  if String.eqb encoded "" then Err (ErrCursorInvalid "empty cursor") else
  if String.eqb secret "" then Err ErrCursorSecretMissing else
  '(payload, signature) ← decodeParts encoded;
  _ ← check (String.eqb (hmac_sha256 secret payload) signature) ErrCursorTampered;
  cursor ← match json_Unmarshal payload with
           | Some cursor => Ok cursor
           | None => Err (ErrCursorInvalid "payload JSON")
           end;
  _ ← check (negb (ExpiresAt cursor <? Unix now)%Z) ErrCursorExpired;
  _ ← check (String.eqb (PrincipalHash_ cursor) principalHash) ErrCursorPrincipalMismatch;
  _ ← check (forallb (λ kv, urlAllowed allowed kv.2) (range (Origins cursor)))
        ErrCursorOriginURLNotAllowed;
  Ok cursor.

End Tokens.

(** ** Steps

    Every way the proxy changes a cursor it holds. *)

Inductive cursorStep `{GoTime} : FederatedCursor → FederatedCursor → Prop :=
| step_exhausted c id : cursorStep c (MarkExhausted id c)
| step_error c id : cursorStep c (MarkError id c)
| step_update c id u : cursorStep c (UpdateOriginState id u c)
| step_offset c id n : cursorStep c (UpdateOffset id n c)
| step_clone c : cursorStep c (Clone c).

(** What every cursor the proxy holds satisfies: an entry is stored under
    its own [ID], an entry that is not in error has no error count, and no
    count is negative. *)
Record cursorInv `{GoTime} (c : FederatedCursor) : Prop := {
  ci_keyed : ∀ id o, Origins c !! id = Some o → oc_ID o = id;
  ci_clear : ∀ id o, Origins c !! id = Some o → Error o = false → ErrorCount o = 0%Z;
  ci_nonneg : ∀ id o, Origins c !! id = Some o → (0 ≤ ErrorCount o)%Z;
}.

Section Lemmas.
Context `{GoTime}.
Implicit Types (c : FederatedCursor) (o : OriginCursor).

Definition originInv (id : string) o : Prop :=
  oc_ID o = id ∧ (Error o = false → ErrorCount o = 0%Z) ∧ (0 ≤ ErrorCount o)%Z.

Lemma cursorInv_alt c : cursorInv c ↔ map_Forall originInv (Origins c).
Proof.
  split; [intros [H1 H2 H3] id o Ho; split_and!; eauto|].
  intros Hall. split; intros id o Ho; apply (Hall id o Ho).
Qed.

Lemma cursorInv_upd c id o :
  cursorInv c → originInv id o → cursorInv (withOrigins (<[id := o]> (Origins c)) c).
Proof. rewrite !cursorInv_alt. intros. by apply map_Forall_insert_2. Qed.

Lemma lookup_New now qh ph ids cfg id :
  Origins (NewFederatedCursor now qh ph ids cfg) !! id =
    if bool_decide (id ∈ ids) then Some (newOriginCursor id) else None.
Proof.
  cbn. cut (∀ m : gmap string OriginCursor, foldl (λ m id, <[id := newOriginCursor id]> m) m ids !! id =
    if bool_decide (id ∈ ids) then Some (newOriginCursor id) else m !! id).
  { intros ->. by case_bool_decide. }
  induction ids as [|x ids IH]; intros m; cbn.
  - by rewrite bool_decide_false by set_solver.
  - rewrite IH. destruct (decide (x = id)) as [->|].
    + rewrite lookup_insert_eq. repeat case_bool_decide; set_solver.
    + rewrite lookup_insert_ne by done. repeat case_bool_decide; set_solver.
Qed.

Lemma cursorInv_New now qh ph ids cfg : cursorInv (NewFederatedCursor now qh ph ids cfg).
Proof.
  apply cursorInv_alt. intros id o. rewrite lookup_New. case_bool_decide; [|done].
  by intros [= <-].
Qed.

Lemma cursorInv_step c c' : cursorInv c → cursorStep c c' → cursorInv c'.
Proof.
  intros Hc Hs. pose proof Hc as Hall. rewrite cursorInv_alt in Hall.
  destruct Hs as [c id|c id|c id u|c id n|c]; unfold MarkExhausted, MarkError, UpdateOffset.
  - destruct (Origins c !! id) as [o|] eqn:E; [|done]. by apply cursorInv_upd, (Hall id o).
  - destruct (Origins c !! id) as [o|] eqn:E; [|done]. apply cursorInv_upd; [done|].
    destruct (Hall id o E) as (? & ? & ?). split_and!; cbn; [done|done|lia].
  - apply cursorInv_upd; [done|]. destruct (Origins c !! id) as [o|] eqn:E; [|done].
    by destruct (Hall id o E).
  - destruct (Origins c !! id) as [o|] eqn:E; [|done]. by apply cursorInv_upd, (Hall id o).
  - rewrite cursorInv_alt. intros id o Ho. cbn in Ho. apply lookup_fmap_Some in Ho as (o' & <- & Ho).
    by destruct (Hall id o' Ho).
Qed.

Lemma HasMore_spec `{!MapRange} c :
  HasMore c = true ↔ ∃ id o, Origins c !! id = Some o ∧ hasMore o = true.
Proof.
  unfold HasMore. rewrite existsb_exists. split.
  - intros ([id o] & Hin%list_elem_of_In & Hm). apply elem_of_range in Hin. eauto.
  - intros (id & o & Ho & Hm). exists (id, o). split; [|done].
    by apply list_elem_of_In, elem_of_range.
Qed.

Lemma elem_of_ActiveOrigins `{!MapRange} c id :
  id ∈ ActiveOrigins c ↔ ∃ o, Origins c !! id = Some o ∧ hasMore o = true.
Proof.
  unfold ActiveOrigins, sort_Strings. rewrite sort_stable_elem, list_elem_of_fmap. split.
  - intros ([k o] & -> & Hin%list_elem_of_In%filter_In). destruct Hin as [Hin Hm].
    apply list_elem_of_In, elem_of_range in Hin. eauto.
  - intros (o & Ho & Hm). exists (id, o). split; [done|].
    apply list_elem_of_In, filter_In. split; [|done]. by apply list_elem_of_In, elem_of_range.
Qed.

Lemma NoDup_fst_filter {A B} (f : A * B → bool) (l : list (A * B)) :
  NoDup l.*1 → NoDup (List.filter f l).*1.
Proof.
  induction l as [|x l IH]; cbn; [done|]. intros [Hx Hl]%NoDup_cons.
  case_match; cbn; [|by apply IH]. constructor; [|by apply IH].
  intros (y & Hy & Hin%list_elem_of_In%filter_In)%list_elem_of_fmap. apply Hx.
  rewrite Hy. apply list_elem_of_fmap. exists y. split; [done|].
  apply list_elem_of_In. naive_solver.
Qed.

Lemma NoDup_ActiveOrigins `{!MapRange} c : NoDup (ActiveOrigins c).
Proof.
  unfold ActiveOrigins, sort_Strings. rewrite sort_stable_perm.
  apply NoDup_fst_filter, NoDup_range.
Qed.

Lemma lookup_MarkError c id o :
  Origins c !! id = Some o →
  ∃ o', Origins (MarkError id c) !! id = Some o' ∧ Error o' = true ∧
    ErrorCount o' = (ErrorCount o + 1)%Z ∧ Exhausted o' = Exhausted o ∧ Stash o' = Stash o.
Proof. intros E. unfold MarkError. rewrite E. cbn. rewrite lookup_insert_eq. eauto 10. Qed.

Lemma lookup_MarkErrors n c id o :
  Origins c !! id = Some o →
  ∃ o', Origins (Nat.iter n (MarkError id) c) !! id = Some o' ∧
    (0 < n → Error o' = true) ∧ ErrorCount o' = (ErrorCount o + Z.of_nat n)%Z ∧
    Exhausted o' = Exhausted o ∧ Stash o' = Stash o.
Proof.
  intros E. induction n as [|n IH]; cbn.
  - exists o. split_and!; try done; lia.
  - destruct IH as (o1 & H1 & _ & Hn1 & He1 & Hs1).
    destruct (lookup_MarkError _ _ _ H1) as (o2 & H2 & Hr2 & Hn2 & He2 & Hs2).
    exists o2. split_and!; try done; try congruence. lia.
Qed.

Lemma retired_spec o : retired o = true ↔ Error o = true ∧ (3 ≤ ErrorCount o)%Z.
Proof. unfold retired, maxOriginErrorRetries. rewrite andb_true_iff, Z.leb_le. done. Qed.

Lemma cloneOrigin_hasMore o :
  Exhausted o = false ∨ Stash o ≠ [] → hasMore (cloneOrigin o) = true.
Proof.
  unfold hasMore, retired, cloneOrigin; cbn. rewrite andb_false_r; cbn.
  intros [->|Hs]; [by rewrite orb_true_r|]. by rewrite bool_decide_false.
Qed.

End Lemmas.

Section TokenLemmas.
Context `{GoTime, !Crypto, !CursorCodec, !MapRange}.
Implicit Types (c : FederatedCursor).

(** The allowlist as a proposition. *)
Definition urlsAllowed (allowed : gmap string string) c : Prop :=
  ∀ id o, Origins c !! id = Some o →
    NextURL o = "" ∨
    ∃ base rest, allowed !! oc_ID o = Some base ∧ base ≠ "" ∧ NextURL o = base +:+ rest.

Lemma urlAllowed_spec allowed o :
  urlAllowed allowed o = true ↔
  NextURL o = "" ∨
  ∃ base rest, allowed !! oc_ID o = Some base ∧ base ≠ "" ∧ NextURL o = base +:+ rest.
Proof.
  unfold urlAllowed. rewrite orb_true_iff, String.eqb_eq. f_equiv.
  destruct (allowed !! oc_ID o) as [base|]; [|naive_solver].
  rewrite andb_true_iff, negb_true_iff, String.eqb_neq, HasPrefix_spec. naive_solver.
Qed.

Lemma urlsAllowed_spec allowed c :
  forallb (λ kv, urlAllowed allowed kv.2) (range (Origins c)) = true ↔ urlsAllowed allowed c.
Proof.
  rewrite forallb_forall. split.
  - intros Hall id o Ho. apply urlAllowed_spec. apply (Hall (id, o)).
    by apply list_elem_of_In, elem_of_range.
  - intros Hall [id o] Hin. apply urlAllowed_spec. eapply Hall.
    by apply elem_of_range, list_elem_of_In.
Qed.

(** A token is two non-empty base64 strings around one dot. *)
Definition tokenOf (encoded : string) (payload signature : bytes) : Prop :=
  ∃ p s, Split encoded "." = [p; s] ∧ p ≠ "" ∧ s ≠ "" ∧
    Base64.DecodeString p = Some payload ∧ Base64.DecodeString s = Some signature.

Lemma decodeParts_spec encoded payload signature :
  decodeParts encoded = Ok (payload, signature) ↔ tokenOf encoded payload signature.
Proof.
  unfold decodeParts, tokenOf. split.
  - intros Hd. repeat case_match; try discriminate. injection Hd as <- <-.
    match goal with H : _ || _ = false |- _ => apply orb_false_elim in H as [Hp Hs] end.
    apply String.eqb_neq in Hp, Hs. eauto 10.
  - intros (p & s & -> & Hp%String.eqb_neq & Hs%String.eqb_neq & -> & ->).
    by rewrite Hp, Hs.
Qed.

Lemma tokenOf_Encode data sig :
  data ≠ "" → sig ≠ "" →
  tokenOf (Base64.EncodeToString data +:+ "." +:+ Base64.EncodeToString sig) data sig.
Proof.
  intros Hd Hs. exists (Base64.EncodeToString data), (Base64.EncodeToString sig).
  rewrite !Base64.DecodeString_EncodeToString, !Base64.EncodeToString_empty.
  split_and!; try done.
  change ("." +:+ Base64.EncodeToString sig) with (String "." (Base64.EncodeToString sig)).
  rewrite Split_app by apply Base64.EncodeToString_clean.
  by rewrite Split_single by apply Base64.EncodeToString_clean.
Qed.

Lemma tokenOf_not_empty encoded p s : tokenOf encoded p s → encoded ≠ "".
Proof. intros (? & ? & Hs & _) ->. discriminate Hs. Qed.

Lemma DecodeCursor_token now encoded secret allowed ph payload signature :
  secret ≠ "" → tokenOf encoded payload signature →
  DecodeCursor now encoded secret allowed ph =
    (_ ← check (String.eqb (hmac_sha256 secret payload) signature) ErrCursorTampered;
     cursor ← match json_Unmarshal payload with
              | Some cursor => Ok cursor
              | None => Err (ErrCursorInvalid "payload JSON")
              end;
     _ ← check (negb (ExpiresAt cursor <? Unix now)%Z) ErrCursorExpired;
     _ ← check (String.eqb (PrincipalHash_ cursor) ph) ErrCursorPrincipalMismatch;
     _ ← check (forallb (λ kv, urlAllowed allowed kv.2) (range (Origins cursor)))
           ErrCursorOriginURLNotAllowed;
     Ok cursor).
Proof.
  intros Hs%String.eqb_neq Ht. pose proof (tokenOf_not_empty _ _ _ Ht) as He%String.eqb_neq.
  unfold DecodeCursor. rewrite He, Hs. apply decodeParts_spec in Ht. by rewrite Ht.
Qed.

(** What decoding a minted token comes to. *)
Lemma DecodeCursor_minted now secret secret' allowed ph c data tok :
  json_Marshal c = Some data → data ≠ "" → hmac_sha256 secret data ≠ "" → secret' ≠ "" →
  Encode secret c = Ok tok →
  DecodeCursor now tok secret' allowed ph =
    (_ ← check (String.eqb (hmac_sha256 secret' data) (hmac_sha256 secret data)) ErrCursorTampered;
     cursor ← match json_Unmarshal data with
              | Some cursor => Ok cursor
              | None => Err (ErrCursorInvalid "payload JSON")
              end;
     _ ← check (negb (ExpiresAt cursor <? Unix now)%Z) ErrCursorExpired;
     _ ← check (String.eqb (PrincipalHash_ cursor) ph) ErrCursorPrincipalMismatch;
     _ ← check (forallb (λ kv, urlAllowed allowed kv.2) (range (Origins cursor)))
           ErrCursorOriginURLNotAllowed;
     Ok cursor).
Proof.
  intros Hm Hd Hh Hs' He. unfold Encode in He. case_match; [done|]. rewrite Hm in He. injection He as <-.
  by rewrite (DecodeCursor_token _ _ _ _ _ data (hmac_sha256 secret data)) by (done || by apply tokenOf_Encode).
Qed.

(** A token minted for a cursor, read as [c'] within its lifetime by the
    principal it is bound to. *)
Lemma DecodeCursor_back now secret allowed ph c c' data tok :
  json_Marshal c = Some data → json_Unmarshal data = Some c' → data ≠ "" → hmac_sha256 secret data ≠ "" →
  Encode secret c = Ok tok →
  (Unix now ≤ ExpiresAt c')%Z → PrincipalHash_ c' = ph → urlsAllowed allowed c' →
  DecodeCursor now tok secret allowed ph = Ok c'.
Proof.
  intros Hm Hj Hd Hh He Hx Hp Hu%urlsAllowed_spec.
  assert (secret ≠ "") as Hs by (intros ->; unfold Encode in He; by rewrite String.eqb_refl in He).
  rewrite (DecodeCursor_minted _ secret secret _ _ c data) by done. rewrite String.eqb_refl, Hj. cbn.
  by rewrite Hu, Hp, String.eqb_refl, (proj2 (Z.ltb_ge _ _)) by lia.
Qed.

(** A decoded cursor has passed the allowlist. *)
Lemma DecodeCursor_urls now encoded secret allowed ph c :
  DecodeCursor now encoded secret allowed ph = Ok c → urlsAllowed allowed c.
Proof.
  unfold DecodeCursor. intros Hd. repeat case_match; try done. inv_ok. repeat case_match; inv_ok.
  by apply urlsAllowed_spec.
Qed.

Lemma NewFederatedCursor_fresh now qh ph ids cfg id o :
  Origins (NewFederatedCursor now qh ph ids cfg) !! id = Some o → o = newOriginCursor id.
Proof.
  cbn. assert (∀ m : gmap string OriginCursor, (∀ k x, m !! k = Some x → x = newOriginCursor k) →
    ∀ k x, foldl (λ m id, <[id := newOriginCursor id]> m) m ids !! k = Some x → x = newOriginCursor k) as Hg.
  { induction ids as [|i ids IH]; intros m Hm k x; cbn [foldl]; [by apply Hm|]. apply IH. intros k' x'.
    destruct (decide (i = k')) as [->|]; [by rewrite lookup_insert_eq; intros [= <-]|rewrite lookup_insert_ne by done; apply Hm]. }
  apply Hg. intros k x. by rewrite lookup_empty.
Qed.

End TokenLemmas.

(** ** Properties *)

Section Properties.
Context `{GoTime, !Crypto, !CursorCodec, !MapRange}.
Implicit Types (c : FederatedCursor).

(** C6: A token is accepted exactly when it is two non-empty base64 parts,
    the second is the HMAC of the first under the configured secret, the
    payload unmarshals to the cursor returned, the current second is not
    after that cursor's expiry (the second of expiry itself is accepted,
    where the unused [IsExpired] calls the cursor expired:
    [expiry_boundary]), it carries the caller's principal hash, and each of
    its continuation URLs is empty or starts with the non-empty base URL
    configured for that entry's origin. *)
Theorem DecodeCursor_iff now encoded secret allowed ph c :
  DecodeCursor now encoded secret allowed ph = Ok c ↔
  secret ≠ "" ∧
  ∃ payload, tokenOf encoded payload (hmac_sha256 secret payload) ∧
    json_Unmarshal payload = Some c ∧
    (Unix now ≤ ExpiresAt c)%Z ∧ PrincipalHash_ c = ph ∧ urlsAllowed allowed c.
Proof.
  split.
  - intros Hd. assert (secret ≠ "") as Hs.
    { intros ->. unfold DecodeCursor in Hd. by repeat case_match. }
    split; [done|].
    assert (∃ payload signature, tokenOf encoded payload signature) as (payload & sig & Ht).
    { unfold DecodeCursor in Hd. repeat case_match; try done. apply bind_ok in Hd as ([p s] & Hp & _).
      exists p, s. by apply decodeParts_spec. }
    rewrite (DecodeCursor_token _ _ _ _ _ payload sig) in Hd by done.
    exists payload. destruct (json_Unmarshal payload) as [c'|] eqn:Ej; inv_ok.
    bool_to_prop. repeat match goal with H : String.eqb _ _ = true |- _ => apply String.eqb_eq in H end.
    match goal with H : forallb _ _ = true |- _ => apply urlsAllowed_spec in H end.
    subst. split_and!; naive_solver lia.
  - intros (Hs & payload & Ht & Hj & He & Hp & Hu).
    rewrite (DecodeCursor_token _ _ _ _ _ payload (hmac_sha256 secret payload)) by done.
    rewrite Hj. apply urlsAllowed_spec in Hu. cbn. rewrite Hu, Hp, !String.eqb_refl. cbn.
    by rewrite (proj2 (Z.ltb_ge _ _)) by lia.
Qed.

(** C28: A minted token decodes back: for a cursor its JSON form represents
    (it unmarshals to the cursor that was marshalled) the token decodes to
    that very cursor, under any secret that gives the payload the same HMAC,
    for the principal it is bound to, while the current second is not after
    its expiry and the allowlist covers its continuation URLs.  After that
    second it is rejected as expired, and for another principal as
    mismatched.  Under a secret that gives another HMAC it is rejected as
    tampered, whatever else holds.  (At the second of expiry itself the token
    is still accepted, where [IsExpired] calls the cursor expired:
    [expiry_boundary].) *)
Theorem Encode_DecodeCursor now secret secret' allowed ph c data tok :
  json_Marshal c = Some data → json_Unmarshal data = Some c → data ≠ "" →
  hmac_sha256 secret data ≠ "" → secret' ≠ "" →
  Encode secret c = Ok tok →
  (hmac_sha256 secret' data = hmac_sha256 secret data →
    ((Unix now ≤ ExpiresAt c)%Z → PrincipalHash_ c = ph → urlsAllowed allowed c →
      DecodeCursor now tok secret' allowed ph = Ok c) ∧
    ((ExpiresAt c < Unix now)%Z → DecodeCursor now tok secret' allowed ph = Err ErrCursorExpired) ∧
    ((Unix now ≤ ExpiresAt c)%Z → PrincipalHash_ c ≠ ph →
      DecodeCursor now tok secret' allowed ph = Err ErrCursorPrincipalMismatch)) ∧
  (hmac_sha256 secret' data ≠ hmac_sha256 secret data →
    DecodeCursor now tok secret' allowed ph = Err ErrCursorTampered).
Proof.
  intros Hm Hj Hd Hh Hs' He. rewrite (DecodeCursor_minted _ secret secret' _ _ c data) by done.
  split; [|by intros ->%String.eqb_neq]. intros ->. rewrite String.eqb_refl, Hj. cbn. split_and!.
  - intros Hx Hp Hu%urlsAllowed_spec. by rewrite Hu, Hp, String.eqb_refl, (proj2 (Z.ltb_ge _ _)) by lia.
  - intros Hx. by rewrite (proj2 (Z.ltb_lt _ _)) by lia.
  - intros Hx ->%String.eqb_neq. by rewrite (proj2 (Z.ltb_ge _ _)) by lia.
Qed.

(** The entries of every cursor the proxy can hold, from its creation
    through any sequence of updates, stay keyed by their own origin ID (the
    key of the allowlist test), and an entry that is not in error has an
    empty retry count. *)
Theorem cursor_reachable_invariant now qh ph ids cfg c :
  rtc cursorStep (NewFederatedCursor now qh ph ids cfg) c → cursorInv c.
Proof.
  intros Hr. remember (NewFederatedCursor now qh ph ids cfg) as c0 eqn:E.
  assert (cursorInv c0) as Hi by (subst; apply cursorInv_New). clear E.
  induction Hr; eauto using cursorInv_step.
Qed.

(** The session continues exactly when some origin is live, and the
    active origins are exactly the live ones, listed once, in order: an
    origin is live when it holds stashed items, or is neither exhausted nor
    past its error budget. *)
Theorem ActiveOrigins_spec c :
  (HasMore c = true ↔ ActiveOrigins c ≠ []) ∧
  (∀ id, id ∈ ActiveOrigins c ↔
    ∃ o, Origins c !! id = Some o ∧
      (Stash o ≠ [] ∨ (Exhausted o = false ∧ ¬ (Error o = true ∧ (3 ≤ ErrorCount o)%Z)))) ∧
  NoDup (ActiveOrigins c) ∧ sorted_by ltb (ActiveOrigins c).
Proof.
  split_and!; [|intros id|apply NoDup_ActiveOrigins|apply sort_Strings_sorted].
  - rewrite HasMore_spec. split.
    + intros (id & o & Ho & Hm) Hn. assert (id ∈ ActiveOrigins c) as Hin
        by (apply elem_of_ActiveOrigins; eauto). rewrite Hn in Hin. set_solver.
    + intros Hn. destruct (ActiveOrigins c) as [|id l] eqn:E; [done|].
      exists id. apply elem_of_ActiveOrigins. rewrite E. set_solver.
  - rewrite elem_of_ActiveOrigins. f_equiv. intros o. f_equiv.
    rewrite <-retired_spec. unfold hasMore.
    rewrite orb_true_iff, andb_true_iff, !negb_true_iff, bool_decide_eq_false, not_true_iff_false.
    naive_solver.
Qed.

(** The retry bound as the in-memory cursor implements it: after [n]
    failed pages in a row an origin with no stash is retired exactly when
    its count reaches three, and one success restores the whole budget. *)
Theorem error_budget n id c o :
  Origins c !! id = Some o → 0 < n →
  ∃ o', Origins (Nat.iter n (MarkError id) c) !! id = Some o' ∧
    (retired o' = true ↔ (3 ≤ ErrorCount o + Z.of_nat n)%Z) ∧
    (Stash o = [] → (hasMore o' = true ↔ Exhausted o = false ∧ (ErrorCount o + Z.of_nat n < 3)%Z)) ∧
    ∀ u, ∃ o'', Origins (UpdateOriginState id u (Nat.iter n (MarkError id) c)) !! id = Some o'' ∧
      retired o'' = false ∧ ErrorCount o'' = 0%Z.
Proof.
  intros Ho Hn. destruct (lookup_MarkErrors n c id o Ho) as (o' & Ho' & He & Hc & Hx & Hst).
  assert (retired o' = true ↔ (3 ≤ ErrorCount o + Z.of_nat n)%Z) as Hr.
  { rewrite retired_spec, Hc. naive_solver. }
  exists o'. split_and!; [done|done| |].
  - intros Hs. unfold hasMore. rewrite Hst, Hs, bool_decide_true by done. cbn.
    rewrite andb_true_iff, !negb_true_iff, <-not_true_iff_false, Hr, Hx. naive_solver lia.
  - intros u. unfold UpdateOriginState. rewrite Ho'. cbn. rewrite lookup_insert_eq. eauto.
Qed.

(** Cloning keeps every entry but zeroes its error count, so an origin
    that fails on every page of a session is never retired once each page's
    cursor is a clone of the previous one: after any number of failed pages
    it still reports more results. *)
Theorem Clone_loses_error_budget n id c o :
  Origins c !! id = Some o → Exhausted o = false →
  ∃ o', Origins (Nat.iter n (λ c, Clone (MarkError id c)) c) !! id = Some o' ∧
    (0 < n → ErrorCount o' = 0%Z ∧ hasMore o' = true) ∧ Exhausted o' = false.
Proof.
  intros Ho Hx. induction n as [|n IH]; [exists o; split_and!; [done|lia|done]|].
  rewrite Nat.iter_succ.
  destruct IH as (o1 & L1 & _ & Hx1).
  destruct (lookup_MarkError _ _ _ L1) as (o2 & L2 & _ & _ & Hx2 & _).
  exists (cloneOrigin o2). cbn [Clone Origins]. rewrite lookup_fmap, L2. split_and!; [done| |].
  - intros _. split; [done|]. apply cloneOrigin_hasMore. left. congruence.
  - cbn. congruence.
Qed.

End Properties.

(** ** Witnesses *)

Module Witness.

#[local] Instance unitTime : GoTime := {| Time := unit; time_Parse _ _ := None; time_Format _ _ := "" |}.
#[local] Instance plainCrypto : Crypto :=
  {| sha256 s := s; hmac_sha256 k m := k +:+ "#" +:+ m |}.

Definition session (q : string) : FederatedCursor :=
  UpdateOriginState "a" (mkUpdate 1 "" "https://a.example/next" "" 0 "" (SVRaw VNil))
    (NewFederatedCursor 0 q "" ["a"; "b"] None).
#[local] Instance queryCodec : CursorCodec :=
  {| json_Marshal c := Some ("q" +:+ QueryHash c);
     json_Unmarshal s := Some (session (drop_str 1 s)) |}.

Lemma Encode_DecodeCursor_witness :
  ∃ tok, Encode "k" (session "x") = Ok tok ∧
    DecodeCursor 5 tok "k" {["a" := "https://a.example"]} "" = Ok (session "x") ∧
    DecodeCursor 5 tok "k" {["a" := "https://a.example"]} "p" = Err ErrCursorPrincipalMismatch ∧
    DecodeCursor 5 tok "l" {["a" := "https://a.example"]} "" = Err ErrCursorTampered.
Proof.
  assert (urlsAllowed {["a" := "https://a.example"]} (session "x")) as Hu.
  { apply urlsAllowed_spec. by vm_compute. }
  eexists. split; [reflexivity|]. split_and!.
  - eapply (Encode_DecodeCursor 5 "k" "k" _ "" (session "x") "qx"); try done; vm_compute; discriminate.
  - eapply (Encode_DecodeCursor 5 "k" "k" _ "p" (session "x") "qx"); try done; vm_compute; discriminate.
  - eapply (Encode_DecodeCursor 5 "k" "l" _ "" (session "x") "qx"); try done; vm_compute; discriminate.
Defined.

(** In the second of its expiry a cursor is expired for [IsExpired], whose
    comment makes the boundary part of the expired time, and still accepted
    by [DecodeCursor], which compares for itself. *)
Lemma expiry_boundary (now := (ExpiresAt (session "x") * 1000000000)%Z) tok :
  Encode "k" (session "x") = Ok tok →
  IsExpired now (session "x") = true ∧
  DecodeCursor now tok "k" {["a" := "https://a.example"]} "" = Ok (session "x").
Proof. intros [= <-]. split; vm_compute; reflexivity. Qed.

Lemma cursor_reachable_invariant_witness :
  cursorInv (MarkError "a" (session "x")).
Proof.
  apply (cursor_reachable_invariant 0 "x" "" ["a"; "b"] None).
  eapply rtc_l; [apply step_update|]. eapply rtc_l; [apply step_error|]. apply rtc_refl.
Defined.

Lemma error_budget_witness :
  ∃ o', Origins (Nat.iter 3 (MarkError "b") (session "x")) !! "b" = Some o' ∧
    (retired o' = true ↔ (3 ≤ 0 + Z.of_nat 3)%Z).
Proof.
  destruct (error_budget 3 "b" (session "x") (newOriginCursor "b")) as (o' & Ho & Hr & _).
  - by vm_compute.
  - lia.
  - exists o'. by split.
Defined.

Lemma Clone_loses_error_budget_witness :
  ∃ o', Origins (Nat.iter 100 (λ c, Clone (MarkError "b" c)) (session "x")) !! "b" = Some o' ∧
    hasMore o' = true.
Proof.
  destruct (Clone_loses_error_budget 100 "b" (session "x") (newOriginCursor "b")) as (o' & Ho & Hr & _).
  - by vm_compute.
  - done.
  - exists o'. split; [done|]. apply Hr. lia.
Defined.

End Witness.

End Cursor.
