(* ===== verification/Store.v ===== *)
(** * Byte stores: [internal/middleware/cache/memory.go],
      [internal/store/redis/kv.go], [NoOpStore]

    The response cache and the page cache both talk to a [Store]: [Get] and
    [Set] with a time to live.  [Store] is that interface and [StoreLaws]
    what its clients rely on: a store may forget, but a hit is a value that
    was set under the same key and has not expired.  The in-memory store is
    built over an LRU library and the Redis store over a client library;
    both libraries are parameters ([LRU], [RedisClient]) with the behaviour
    they document ([LRULaws], [RedisLaws]).

    Time is [now], in nanoseconds. *)

From S2P Require Import Prelude GoLib.

(** ** The interface *)

(** [Set] returns whether it succeeded; every caller ignores the error. *)
Class Store (St : Type) := {
  store_Get : Z → string → St → option bytes * St;
  store_Set : Z → string → bytes → Z → St → bool * St;
}.

(** [serves s k v exp]: [s] may answer [v] for [k] until [exp]. *)
Class StoreLaws (St : Type) `{Store St} := {
  serves : St → string → bytes → Z → Prop;
  get_hit : ∀ s now k v s', store_Get now k s = (Some v, s') →
    ∃ exp, serves s k v exp ∧ (now ≤ exp)%Z;
  get_serves : ∀ s now k r s', store_Get now k s = (r, s') →
    ∀ k' v exp, serves s' k' v exp → serves s k' v exp;
  set_serves : ∀ s now k v ttl ok s', (0 < ttl)%Z → store_Set now k v ttl s = (ok, s') →
    ∀ k' v' exp, serves s' k' v' exp →
      serves s k' v' exp ∨ (k' = k ∧ v' = v ∧ exp = (now + ttl)%Z);
}.

(** ** Sequences of operations *)

Inductive storeOp := OGet (now : Z) (k : string) | OSet (now : Z) (k : string) (v : bytes) (ttl : Z).

Definition execOp `{Store St} (s : St) (o : storeOp) : St :=
  match o with
  | OGet now k => (store_Get now k s).2
  | OSet now k v ttl => (store_Set now k v ttl s).2
  end.

Definition positiveTTL (o : storeOp) : Prop :=
  match o with OGet _ _ => True | OSet _ _ _ ttl => (0 < ttl)%Z end.

Section Traces.
Context `{StoreLaws St}.

Lemma exec_serves s ops k v exp :
  Forall positiveTTL ops → serves (foldl execOp s ops) k v exp →
  serves s k v exp ∨ ∃ t ttl, OSet t k v ttl ∈ ops ∧ exp = (t + ttl)%Z.
Proof.
  revert s. induction ops as [|o ops IH]; intros s Hp Hs; cbn in *; [by left|].
  apply Forall_cons in Hp as [Ho Hp].
  destruct (IH _ Hp Hs) as [Hs'|(t & ttl & Hin & ->)]; [|right; exists t, ttl; set_solver].
  destruct o as [now k0|now k0 v0 ttl0]; cbn in *.
  - left. eapply get_serves; [apply surjective_pairing|done].
  - eapply set_serves in Hs'; [|done|apply surjective_pairing].
    destruct Hs' as [?|(-> & -> & ->)]; [by left|]. right. exists now, ttl0. set_solver.
Qed.

(** A hit after any sequence of operations on a store that held nothing. *)
Lemma hit_was_set s0 ops now k v :
  (∀ k v exp, ¬ serves s0 k v exp) → Forall positiveTTL ops →
  (store_Get now k (foldl execOp s0 ops)).1 = Some v →
  ∃ t ttl, OSet t k v ttl ∈ ops ∧ (now ≤ t + ttl)%Z.
Proof.
  intros He Hp Hg. destruct (store_Get now k _) as [r s'] eqn:E. cbn in Hg; subst r.
  apply get_hit in E as (exp & Hs & Hle).
  destruct (exec_serves _ _ _ _ _ Hp Hs) as [?|(t & ttl & Hin & ->)]; [naive_solver|eauto].
Qed.
End Traces.

(** ** The in-memory store *)

Module Memory.

(** The LRU library: a bounded map that evicts on [Add]. *)
Class LRU (L : Type → Type) := {
  lru_New : ∀ {E}, Z → L E;
  lru_Get : ∀ {E}, string → L E → option E * L E;
  lru_Add : ∀ {E}, string → E → L E → L E;
  lru_Remove : ∀ {E}, string → L E → L E;
}.

(** What the library documents: [Get] answers what is stored and only
    changes recency; [Add] stores the pair, evicting others if full;
    [Remove] drops the key. *)
Class LRULaws (L : Type → Type) `{LRU L} := {
  contents : ∀ {E}, L E → gmap string E;
  contents_New : ∀ {E} n, contents (lru_New (E:=E) n) = ∅;
  contents_Get : ∀ {E} k (l : L E),
    (lru_Get k l).1 = contents l !! k ∧ contents (lru_Get k l).2 = contents l;
  contents_Add_eq : ∀ {E} k (e : E) l, contents (lru_Add k e l) !! k = Some e;
  contents_Add_sub : ∀ {E} k (e : E) l, contents (lru_Add k e l) ⊆ <[k := e]> (contents l);
  contents_Remove : ∀ {E} k (l : L E), contents (lru_Remove k l) = delete k (contents l);
}.

Record entry := mkEntry { value : bytes; expiresAt : Z }.

Section MemoryStore.
Context `{LRU L}.

Record MemoryStore := mkMemoryStore { lru : L entry }.

Definition defaultMaxSize : Z := 10000.

Definition NewMemoryStore (maxSize : Z) : MemoryStore :=
  let size := if (maxSize <=? 0)%Z then defaultMaxSize else maxSize in
  mkMemoryStore (lru_New size).

Definition MemoryStore_Get (now : Z) (key : string) (s : MemoryStore) : option bytes * MemoryStore :=
  let '(r, l) := lru_Get key (lru s) in
  match r with
  | None => (None, mkMemoryStore l)
  | Some e =>
      if (expiresAt e <? now)%Z then (None, mkMemoryStore (lru_Remove key l))
      else (Some (value e), mkMemoryStore l)
  end.

Definition MemoryStore_Set (now : Z) (key : string) (v : bytes) (ttl : Z) (s : MemoryStore)
    : bool * MemoryStore :=
  (true, mkMemoryStore (lru_Add key (mkEntry v (now + ttl)) (lru s))).

#[global] Instance MemoryStore_Store : Store MemoryStore :=
  {| store_Get := MemoryStore_Get; store_Set := MemoryStore_Set |}.

Context `{!LRULaws L}.

Definition held (s : MemoryStore) : gmap string entry := contents (lru s).

Lemma Get_cases now k s r s' :
  MemoryStore_Get now k s = (r, s') →
  match held s !! k with
  | Some e =>
      if (expiresAt e <? now)%Z then r = None ∧ held s' = delete k (held s)
      else r = Some (value e) ∧ held s' = held s
  | None => r = None ∧ held s' = held s
  end.
Proof.
  unfold MemoryStore_Get, held. destruct (contents_Get k (lru s)) as [<- Hc].
  destruct (lru_Get k (lru s)) as [r0 l]; cbn in *.
  destruct r0 as [e|]; [destruct (expiresAt e <? now)%Z|]; intros [= <- <-]; cbn;
    by rewrite ?contents_Remove, ?Hc.
Qed.

#[global] Program Instance MemoryStore_Laws : StoreLaws MemoryStore :=
  {| serves s k v exp := held s !! k = Some (mkEntry v exp) |}.
Next Obligation.
  intros s now k v s' Hg%Get_cases. destruct (held s !! k) as [[v0 e0]|] eqn:El; [|naive_solver].
  cbn in Hg. destruct (Z.ltb_spec e0 now); [naive_solver|].
  destruct Hg as [[= ->] _]. exists e0. split; [by cbn|lia].
Qed.
Next Obligation.
  intros s now k r s' Hg%Get_cases k' v exp. cbn.
  destruct (held s !! k) as [e|]; [destruct (_ <? _)%Z|]; destruct Hg as [_ ->]; [|done..].
  by intros [_ ?]%lookup_delete_Some.
Qed.
Next Obligation.
  intros s now k v ttl ok s' _ [= <- <-] k' v' exp Hl.
  eapply lookup_weaken in Hl; [|apply contents_Add_sub].
  apply lookup_insert_Some in Hl. naive_solver.
Qed.

(** A value just stored is served until its expiry, then dropped. *)
Lemma Get_Set now now' k v ttl s :
  (MemoryStore_Get now' k (MemoryStore_Set now k v ttl s).2).1 = if (now + ttl <? now')%Z then None else Some v.
Proof.
  destruct (MemoryStore_Get now' k _) as [r s'] eqn:E. apply Get_cases in E. cbn in *.
  unfold held in E; cbn in E. rewrite contents_Add_eq in E. cbn in E.
  by destruct (_ <? _)%Z; destruct E as [-> _].
Qed.

(** A [Set] of another key never brings a key to life. *)
Lemma Get_Set_ne now now' k k' v ttl s v' :
  k ≠ k' → (MemoryStore_Get now' k' (MemoryStore_Set now k v ttl s).2).1 = Some v' → (MemoryStore_Get now' k' s).1 = Some v'.
Proof.
  intros Hne. destruct (MemoryStore_Get now' k' (MemoryStore_Set _ _ _ _ _).2) as [r s'] eqn:E,
    (MemoryStore_Get now' k' s) as [r2 s2] eqn:E2. cbn. intros ->.
  apply Get_cases in E, E2. unfold held in E; cbn in E.
  destruct (contents _ !! k') as [e|] eqn:El; [|naive_solver].
  eapply lookup_weaken in El; [|apply contents_Add_sub]. rewrite lookup_insert_ne in El by done.
  unfold held in E2. rewrite El in E2. destruct (_ <? _)%Z; naive_solver.
Qed.
End MemoryStore.
End Memory.

(** ** The Redis store *)

Module KV.

Inductive redisError := Nil | Timeout | Other.

(** The client library on a server state [R]; a call can fail or time
    out. *)
Class RedisClient (R : Type) := {
  redis_Get : Z → string → R → result redisError bytes * R;
  redis_Set : Z → string → bytes → Z → R → bool * R;
}.

Class RedisLaws (R : Type) `{RedisClient R} := {
  rserves : R → string → bytes → Z → Prop;
  rget_hit : ∀ r now k v r', redis_Get now k r = (Ok v, r') →
    ∃ exp, rserves r k v exp ∧ (now ≤ exp)%Z;
  rget_serves : ∀ r now k x r', redis_Get now k r = (x, r') →
    ∀ k' v exp, rserves r' k' v exp → rserves r k' v exp;
  rset_serves : ∀ r now k v ttl ok r', redis_Set now k v ttl r = (ok, r') →
    ∀ k' v' exp, rserves r' k' v' exp →
      rserves r k' v' exp ∨ (k' = k ∧ v' = v ∧ exp = (now + ttl)%Z);
}.

Section KV.
Context `{RedisClient R}.

Record KV := mkKV { rdb : R; prefix : string }.

Definition KV_Get (now : Z) (key : string) (s : KV) : option bytes * KV :=
  let '(val, r) := redis_Get now (prefix s +:+ key) (rdb s) in
  (match val with Ok v => Some v | Err _ => None end, mkKV r (prefix s)).

Definition KV_Set (now : Z) (key : string) (v : bytes) (ttl : Z) (s : KV) : bool * KV :=
  if (ttl <=? 0)%Z then (true, s) else
  let '(ok, r) := redis_Set now (prefix s +:+ key) v ttl (rdb s) in (ok, mkKV r (prefix s)).

#[global] Instance KV_Store : Store KV := {| store_Get := KV_Get; store_Set := KV_Set |}.

Context `{!RedisLaws R}.

#[global] Program Instance KV_Laws : StoreLaws KV :=
  {| serves s k v exp := rserves (rdb s) (prefix s +:+ k) v exp |}.
Next Obligation.
  intros [r p] now k v s'. cbn. unfold KV_Get; cbn.
  destruct (redis_Get _ _ _) as [[x|e] r'] eqn:E; intros [= <- <-]. by eapply rget_hit.
Qed.
Next Obligation.
  intros [r p] now k x s'. cbn. unfold KV_Get; cbn.
  destruct (redis_Get _ _ _) as [y r'] eqn:E; intros [= <- <-] k' v exp; cbn.
  by eapply rget_serves.
Qed.
Next Obligation.
  intros [r p] now k v ttl ok s' Ht. cbn. unfold KV_Set; cbn.
  rewrite (proj2 (Z.leb_gt _ _)) by done.
  destruct (redis_Set _ _ _ _ _) as [y r'] eqn:E; intros [= <- <-] k' v' exp; cbn. intros Hs.
  eapply rset_serves in Hs as [?|(Hk%Strings.append_inj_l & -> & ->)]; [by left|by right|done].
Qed.
End KV.
End KV.

(** ** The store of a disabled cache *)

Module NoOp.
Inductive NoOpStore := noop.

#[global] Instance NoOp_Store : Store NoOpStore :=
  {| store_Get _ _ s := (None, s); store_Set _ _ _ _ s := (true, s) |}.

#[global] Program Instance NoOp_Laws : StoreLaws NoOpStore := {| serves _ _ _ _ := False |}.
Next Obligation. naive_solver. Qed.
Next Obligation. naive_solver. Qed.
Next Obligation. naive_solver. Qed.
End NoOp.

(** ** Properties *)

Module StoreProperties.
Import Memory.

(** A bounded LRU as an association list, most recent first. *)
Record assocLRU (E : Type) := mkAssoc { cap : nat; pairs : list (string * E) }.
Arguments mkAssoc {E}. Arguments cap {E}. Arguments pairs {E}.

Definition without {E} (k : string) (l : list (string * E)) : list (string * E) :=
  List.filter (λ p, negb (String.eqb k p.1)) l.

#[local] Instance assoc_LRU : LRU assocLRU := {
  lru_New E n := mkAssoc (Z.to_nat n) [];
  lru_Get E k l :=
    match Values.get k (pairs l) with
    | Some e => (Some e, mkAssoc (cap l) ((k, e) :: without k (pairs l)))
    | None => (None, l)
    end;
  lru_Add E k e l := mkAssoc (cap l) ((k, e) :: take (pred (cap l)) (without k (pairs l)));
  lru_Remove E k l := mkAssoc (cap l) (without k (pairs l));
}.

Lemma get_list_to_map {E} k (l : list (string * E)) :
  (list_to_map l : gmap string E) !! k = Values.get k l.
Proof.
  induction l as [|[k' e] l IH]; cbn; [done|].
  destruct (String.eqb_spec k k') as [->|]; [by rewrite lookup_insert_eq|].
  by rewrite lookup_insert_ne.
Qed.

Lemma get_without {E} k k' (l : list (string * E)) :
  Values.get k' (without k l) = if String.eqb k k' then None else Values.get k' l.
Proof.
  unfold without. induction l as [|[k0 e] l IH]; cbn; [by case_match|].
  destruct (String.eqb_spec k k0) as [->|]; cbn; rewrite IH.
  - rewrite (String.eqb_sym k' k0). by destruct (String.eqb k0 k').
  - destruct (String.eqb_spec k' k0) as [->|]; [|done].
    by rewrite (proj2 (String.eqb_neq _ _)).
Qed.

Lemma get_take {E} n k (l : list (string * E)) e :
  Values.get k (take n l) = Some e → Values.get k l = Some e.
Proof.
  revert l. induction n as [|n IH]; intros [|[k0 e0] l]; cbn; try done. case_match; [done|apply IH].
Qed.

#[local] Program Instance assoc_LRULaws : LRULaws assocLRU := {
  contents E l := list_to_map (pairs l);
}.
Next Obligation. done. Qed.
Next Obligation.
  intros E k l. cbn. rewrite get_list_to_map.
  destruct (Values.get k (pairs l)) as [e|] eqn:Eg; cbn; [|done]. split; [done|].
  apply map_eq. intros k'. rewrite lookup_insert, !get_list_to_map, get_without.
  destruct (String.eqb_spec k k') as [->|]; case_decide; congruence.
Qed.
Next Obligation. intros. cbn. by rewrite lookup_insert_eq. Qed.
Next Obligation.
  intros E k e l. cbn. apply insert_mono. apply map_subseteq_spec. intros k' e'.
  rewrite !get_list_to_map. intros Hg%get_take. rewrite get_without in Hg. by case_match.
Qed.
Next Obligation.
  intros E k l. cbn. apply map_eq. intros k'. rewrite lookup_delete, !get_list_to_map, get_without.
  destruct (String.eqb_spec k k'); by case_decide.
Qed.

(** Whatever sequence of reads and writes a fresh in-memory store goes
    through, a hit is a value written under that very key whose time to
    live has not run out; and a value just written is served up to its
    expiry and not after. *)
Theorem MemoryStore_sound `{LRULaws L} maxSize ops now k v :
  Forall positiveTTL ops →
  let s := foldl execOp (NewMemoryStore (L:=L) maxSize) ops in
  ((MemoryStore_Get now k s).1 = Some v → ∃ t ttl, OSet t k v ttl ∈ ops ∧ (now ≤ t + ttl)%Z) ∧
  (∀ now' ttl, (MemoryStore_Get now' k (MemoryStore_Set now k v ttl s).2).1 =
     if (now + ttl <? now')%Z then None else Some v).
Proof.
  intros Hp s. split; [|intros; apply Get_Set].
  intros Hg. refine (hit_was_set (NewMemoryStore (L:=L) maxSize) ops now k v _ Hp Hg).
  intros k' v' exp. cbn. unfold held; cbn.
  by rewrite contents_New, lookup_empty.
Qed.

Lemma MemoryStore_sound_witness :
  let ops := [OSet 0 "a" "1" 10; OSet 1 "b" "2" 10; OGet 2 "a"; OSet 3 "c" "3" 10] in
  (MemoryStore_Get 5 "a" (foldl execOp (NewMemoryStore (L:=assocLRU) 2) ops)).1 = Some "1" ∧
  (∃ t ttl, OSet t "a" "1" ttl ∈ ops ∧ (5 ≤ t + ttl)%Z).
Proof.
  split; [reflexivity|].
  apply (MemoryStore_sound (L:=assocLRU) 2
    [OSet 0 "a" "1" 10; OSet 1 "b" "2" 10; OGet 2 "a"; OSet 3 "c" "3" 10] 5 "a" "1"); [|reflexivity].
  repeat constructor.
Defined.

End StoreProperties.
