(* ===== verification/PageCache.v ===== *)
(** * The page cache ([internal/federation/pagecache/pagecache.go])

    Rendered pages are stored under an HMAC of the cursor's signature and
    the principal hash.  The store is any [Store]; what the cache promises
    its client is proved from [StoreLaws] alone.

    Parameters: [Crypto], and [encoding/json] on the page struct
    ([PageCodec]). *)

From S2P Require Import Prelude GoLib Stac Store Cursor.
From Stdlib Require Import Ascii.
Import Strings Stac.

Module PageCache.

(** [Context] is a raw JSON message. *)
Record SearchResult := mkPage {
  p_Items : list Item;
  p_TotalCount : Z;
  p_NextCursor : string;
  p_PrevCursor : string;
  p_FirstCursor : string;
  p_SelfCursor : string;
  p_Context : bytes;
}.

Class PageCodec := {
  page_Marshal : SearchResult → option bytes;
  page_Unmarshal : bytes → option SearchResult;
}.

Record Cache := mkCache { ttl : Z; secret : bytes }.

Inductive cacheError := ErrSecretRequired | ErrTTLNotPositive.

Section PageCache.
Context `{!Crypto, !PageCodec, Store St}.

(** The cache is a pointer to its configuration, or [nil] when the feature
    is off; [store = false] stands for a nil store. *)
Definition New (store : bool) (ttl : Z) (secret : bytes) : result cacheError (option Cache) :=
  if negb store then Ok None
  else if String.eqb secret "" then Err ErrSecretRequired
  else if (ttl <=? 0)%Z then Err ErrTTLNotPositive
  else Ok (Some (mkCache ttl secret)).

Definition TTL (c : option Cache) : Z := match c with None => 0 | Some c => ttl c end.

Definition NUL : ascii := Ascii.zero.

Definition key (c : Cache) (cursorSig principalHash : string) : string :=
  "pg:" +:+ Base64.EncodeToString
    (hmac_sha256 (secret c) (cursorSig +:+ String NUL principalHash)).

#[local] Arguments key : simpl never.

Definition SignatureOf (encoded : string) : string := default "" (after_last "." encoded).

Definition Get (now : Z) (c : option Cache) (cursorSig principalHash : string) (s : St)
    : option SearchResult * St :=
  match c with
  | None => (None, s)
  | Some c =>
      let '(raw, s) := store_Get now (key c cursorSig principalHash) s in
      match raw with
      | None => (None, s)
      | Some raw => (page_Unmarshal raw, s)
      end
  end.

Definition Put (now : Z) (c : option Cache) (cursorSig principalHash : string)
    (r : SearchResult) (remaining : Z) (s : St) : St :=
  match c with
  | None => s
  | Some c =>
      if (remaining <=? 0)%Z then s else
      let ttl := if (remaining <? ttl c)%Z then remaining else ttl c in
      match page_Marshal r with
      | None => s
      | Some raw => (store_Set now (key c cursorSig principalHash) raw ttl s).2
      end
  end.

(** ** Sequences of cache operations *)

Inductive pageOp :=
| PGet (now : Z) (sig ph : string)
| PPut (now : Z) (sig ph : string) (r : SearchResult) (remaining : Z).

Definition execPage (c : Cache) (s : St) (o : pageOp) : St :=
  match o with
  | PGet now sig ph => (Get now (Some c) sig ph s).2
  | PPut now sig ph r remaining => Put now (Some c) sig ph r remaining s
  end.

Lemma SignatureOf_token p s : occurs "." s = false → SignatureOf (p +:+ "." +:+ s) = s.
Proof.
  intros Hs. unfold SignatureOf. change ("." +:+ s) with (String "." s).
  by rewrite after_last_app.
Qed.

(** Distinct (signature, principal) pairs have distinct HMAC inputs. *)
Lemma key_input_inj sig ph sig' ph' :
  occurs NUL sig = false → occurs NUL sig' = false →
  sig +:+ String NUL ph = sig' +:+ String NUL ph' → sig = sig' ∧ ph = ph'.
Proof. apply app_sep_inj. Qed.

Lemma key_inj c sig ph sig' ph' :
  (let m := sig +:+ String NUL ph in let m' := sig' +:+ String NUL ph' in
   hmac_sha256 (secret c) m = hmac_sha256 (secret c) m' → m = m') →
  occurs NUL sig = false → occurs NUL sig' = false →
  key c sig ph = key c sig' ph' → sig = sig' ∧ ph = ph'.
Proof.
  intros Hinj Hs Hs' Hk. unfold key in Hk. cbn in Hk. injection Hk as Hk.
  apply Base64.EncodeToString_inj, Hinj in Hk. by apply key_input_inj.
Qed.

Context `{!StoreLaws St}.

Lemma Get_hit now c sig ph s r :
  (Get now (Some c) sig ph s).1 = Some r →
  ∃ raw exp, page_Unmarshal raw = Some r ∧ serves s (key c sig ph) raw exp ∧ (now ≤ exp)%Z.
Proof.
  unfold Get. destruct (store_Get _ _ s) as [[raw|] s'] eqn:E; cbn; [|done].
  intros Hr. apply get_hit in E as (exp & Hs & Hle). eauto.
Qed.

Lemma exec_serves_page c s ops k raw exp :
  (0 < ttl c)%Z → serves (foldl (execPage c) s ops) k raw exp →
  serves s k raw exp ∨
  ∃ t sig ph r remaining,
    PPut t sig ph r remaining ∈ ops ∧ page_Marshal r = Some raw ∧ k = key c sig ph ∧
    (exp ≤ t + remaining)%Z ∧ (exp ≤ t + ttl c)%Z.
Proof.
  intros Ht. revert s. induction ops as [|o ops IH]; intros s Hs; cbn in *; [by left|].
  destruct (IH _ Hs) as [Hs'|(t & sig & ph & r & rem & Hin & Hm & -> & Hx)];
    [|right; exists t, sig, ph, r, rem; set_solver].
  destruct o as [now sig ph|now sig ph r rem]; cbn in Hs'.
  - left. destruct (store_Get now (key c sig ph) s) as [x s'] eqn:E.
    eapply get_serves; [done|]. by destruct x.
  - destruct (Z.leb_spec rem 0) as [|Hrem]; [by left|].
    destruct (page_Marshal r) as [raw'|] eqn:Em; [|by left].
    destruct (store_Set _ _ _ _ s) as [ok s'] eqn:E. cbn in Hs'.
    assert (0 < if (rem <? ttl c)%Z then rem else ttl c)%Z as Hpos by (case_match; lia).
    destruct (set_serves _ _ _ _ _ _ _ Hpos E _ _ _ Hs') as [?|(-> & -> & ->)]; [by left|]. right. exists now, sig, ph, r, rem.
    split_and!; [set_solver|done|done|..]; destruct (Z.ltb_spec rem (ttl c)); lia.
Qed.

End PageCache.

(** ** Properties *)

(** Whatever sequence of lookups and stores the page cache goes
    through, a hit for a cursor signature and principal decodes the JSON of
    a page that was put under that same signature and that same principal,
    before the lifetime its cursor had left, and the configured time to
    live, ran out: one principal's pages are never served to another.  The
    MAC is assumed to have no collision between the pair looked up and the
    pairs put. *)
Theorem PageCache_isolation `{!Crypto, !PageCodec, StoreLaws St} c (s0 : St) ops now sig ph r :
  (∀ t sig' ph' r' rem, PPut t sig' ph' r' rem ∈ ops →
     let m := sig +:+ String NUL ph in let m' := sig' +:+ String NUL ph' in
     hmac_sha256 (secret c) m = hmac_sha256 (secret c) m' → m = m') →
  (∀ k v exp, ¬ serves s0 k v exp) → (0 < ttl c)%Z →
  occurs NUL sig = false →
  (∀ t sig' ph' r' rem, PPut t sig' ph' r' rem ∈ ops → occurs NUL sig' = false) →
  (Get now (Some c) sig ph (foldl (execPage c) s0 ops)).1 = Some r →
  ∃ t r' rem raw, PPut t sig ph r' rem ∈ ops ∧ page_Marshal r' = Some raw ∧
    page_Unmarshal raw = Some r ∧ (now ≤ t + rem)%Z ∧ (now ≤ t + ttl c)%Z.
Proof.
  intros Hinj He Ht Hsig Hsigs Hg.
  apply Get_hit in Hg as (raw & exp & Hr & Hs & Hle).
  apply exec_serves_page in Hs as [Hs|Hs]; [by destruct (He _ _ _ Hs)| |done].
  destruct Hs as (t & sig' & ph' & r' & rem & Hin & Hm & Hk & Hx1 & Hx2).
  apply key_inj in Hk as [<- <-]; [|by eapply Hinj|done|by eapply Hsigs].
  exists t, r', rem, raw. split_and!; [done..|lia|lia].
Qed.

(** A store that keeps everything, an injective stand-in for the MAC and a
    codec for empty pages make the hypotheses concrete. *)
Module Witness.

Definition plainStore : Type := gmap string (bytes * Z).
#[local] Instance plain_Store : Store plainStore := {
  store_Get now k s :=
    (match s !! k with Some (v, e) => if (now <=? e)%Z then Some v else None | None => None end, s);
  store_Set now k v ttl s := (true, <[k := (v, (now + ttl)%Z)]> s);
}.
#[local] Program Instance plain_Laws : StoreLaws plainStore :=
  {| serves s k v e := s !! k = Some (v, e) |}.
Next Obligation.
  intros s now k v s' [= Hv <-]. repeat case_match; simplify_eq. bool_to_prop. eauto.
Qed.
Next Obligation. naive_solver. Qed.
Next Obligation.
  intros s now k v ttl ok s' _ [= <- <-] k' v' e Hl. apply lookup_insert_Some in Hl. naive_solver.
Qed.

#[local] Instance plainMac : Crypto := {| sha256 s := s; hmac_sha256 k m := k +:+ m |}.
#[local] Instance nextOnly : PageCodec :=
  {| page_Marshal p := Some (p_NextCursor p);
     page_Unmarshal s := Some (mkPage [] 0 s "" "" "" "") |}.

Definition page (n : string) : SearchResult := mkPage [] 0 n "" "" "" "".
Definition ops : list pageOp := [PPut 0 "s1" "alice" (page "n1") 50; PPut 1 "s1" "bob" (page "n2") 500].

Lemma PageCache_isolation_witness :
  ∃ t r' rem raw, PPut t "s1" "alice" r' rem ∈ ops ∧ page_Marshal r' = Some raw ∧
    page_Unmarshal raw = Some (page "n1") ∧ (20 ≤ t + rem)%Z ∧ (20 ≤ t + 100)%Z.
Proof.
  apply (PageCache_isolation (mkCache 100 "k") (∅ : plainStore) ops 20 "s1" "alice" (page "n1")).
  - intros t sig' ph' r' rem _. cbn. naive_solver.
  - intros k v exp Hl. cbn in Hl. discriminate (eq_trans (eq_sym (lookup_empty k)) Hl).
  - done.
  - done.
  - intros t sig' ph' r' rem Hin. unfold ops in Hin. set_solver.
  - by vm_compute.
Defined.
End Witness.

End PageCache.
