(* ===== verification/PageAdapter.v ===== *)
(** * Pagination adapters ([internal/federation/pageadapter])

    An adapter reads the continuation of an upstream response in one
    convention; [auto] probes them all and locks the best match.
    Parameters: [net/url] ([URL.GoURL]) and [json.Marshal] of a link's
    [body] ([BodyCodec]).  Confidences are in hundredths. *)

From S2P Require Import Prelude GoLib Stac.
From Stdlib Require Import Ascii.
Import Strings Values Stac URL.

Module PageAdapter.

(** ** Interface data *)

(** [FC] keeps the part of the feature collection adapters read. *)
Record UpstreamResponse := mkUpstream {
  FC : option (list (option Link));
  Header_ : Header.header;
  BaseURL : string;
  Status : Z;
}.

Record NextState := mkState {
  st_Token : string;
  st_URL : string;
  st_Body : bytes;
  st_Offset : Z;
  Done : bool;
  st_AdapterName : string;
}.

Definition zeroState : NextState := mkState "" "" "" 0 false "".
Definition doneState : NextState := mkState "" "" "" 0 true "".
Definition doneIf (b : bool) : NextState := mkState "" "" "" 0 b "".
Definition lockName (name : string) (st : NextState) : NextState :=
  mkState (st_Token st) (st_URL st) (st_Body st) (st_Offset st) (Done st) name.

Inductive adapterError :=
| NotRooted (href base : string)
| MarshalBody
| UnknownAdapter (name : string).

Class BodyCodec := { body_Marshal : value → option bytes }.

Record Config := mkConfig { Adapter : string; OffsetParam : string; TokenParam : string }.

(** The concrete types behind the [Adapter] interface. *)
Inductive named :=
| postBody
| token (tokenParam : string)
| offset (param : string)
| linkHeader
| nextURL.
Inductive adapter := Named (a : named) | auto (inner : list named).

Definition NameOf (a : named) : string :=
  match a with
  | postBody => "post_body" | token _ => "token" | offset _ => "offset"
  | linkHeader => "link_header" | nextURL => "next_url"
  end.
Definition Name (a : adapter) : string :=
  match a with Named a => NameOf a | auto _ => "auto" end.

Definition newToken (cfg : Config) : named :=
  token (if String.eqb (TokenParam cfg) "" then "token" else TokenParam cfg).
Definition newOffset (cfg : Config) : named :=
  offset (if String.eqb (OffsetParam cfg) "" then "offset" else OffsetParam cfg).
Definition newAuto (cfg : Config) : adapter :=
  auto [postBody; newToken cfg; newOffset cfg; linkHeader; nextURL].

Definition New (cfg : Config) : result adapterError adapter :=
  let name := if String.eqb (Adapter cfg) "" then "auto" else Adapter cfg in
  if String.eqb name "auto" then Ok (newAuto cfg)
  else if String.eqb name "token" then Ok (Named (newToken cfg))
  else if String.eqb name "next_url" then Ok (Named nextURL)
  else if String.eqb name "post_body" then Ok (Named postBody)
  else if String.eqb name "offset" then Ok (Named (newOffset cfg))
  else if String.eqb name "link_header" then Ok (Named linkHeader)
  else Err (UnknownAdapter name).

Definition KnownAdapters : list string :=
  ["auto"; "token"; "next_url"; "post_body"; "offset"; "link_header"].

(** ** Links *)

Definition nextLinkOf (r : UpstreamResponse) : option Link :=
  match FC r with
  | None => None
  | Some links =>
      match List.find (λ l, match l with Some l => String.eqb (Rel l) "next" | None => false end)
              links with
      | Some l => l
      | None => None
      end
  end.

Definition hasNextLink (r : UpstreamResponse) : bool :=
  match nextLinkOf r with Some _ => true | None => false end.

(** [method, _ := link.AdditionalFields["method"].(string)]. *)
Definition methodOf (link : Link) : string :=
  default "" (as_string (index "method" (LinkFields link))).

(** ** The RFC 5988 [Link] header *)

(** The loop of [splitLinkValues]; [buf] is reversed.  Bytes stand for
    runes: the three characters it looks for are ASCII. *)
Fixpoint rev_onto (s acc : string) : string :=
  match s with EmptyString => acc | String c s => rev_onto s (String c acc) end.

Fixpoint splitLoop (s : string) (depth : nat) (buf : string) : list string :=
  match s with
  | EmptyString => if String.eqb buf "" then [] else [TrimSpace (rev_onto buf "")]
  | String c s =>
      if Ascii.eqb c "<" then splitLoop s (S depth) (String c buf)
      else if Ascii.eqb c ">" then splitLoop s (pred depth) (String c buf)
      else if Ascii.eqb c "," && (depth =? 0)
      then TrimSpace (rev_onto buf "") :: splitLoop s depth ""
      else splitLoop s depth (String c buf)
  end.

Definition splitLinkValues (s : string) : list string := splitLoop s 0 "".

(** [strings.Index(s, string(c))] and the text after it. *)
Definition cut (c : ascii) (s : string) : option (string * string) :=
  let '(x, y) := break c s in
  match y with EmptyString => None | String _ y => Some (x, y) end.

(** [strings.Trim(s, q)] for the quote character. *)
Definition isQuote (c : ascii) : bool := (N_of_ascii c =? 34)%N.
Fixpoint TrimLeftBy (p : ascii → bool) (s : string) : string :=
  match s with
  | String c s' => if p c then TrimLeftBy p s' else s
  | EmptyString => EmptyString
  end.
Definition TrimQuotes (s : string) : string := TrimRightBy isQuote (TrimLeftBy isQuote s).

(** The first [rel] parameter that has an equals sign. *)
Fixpoint relOf (parts : list string) : string :=
  match parts with
  | [] => ""
  | part :: parts =>
      let part := TrimSpace part in
      if negb (HasPrefix part "rel") then relOf parts else
      match cut "=" part with
      | None => relOf parts
      | Some (_, val) => TrimQuotes (TrimSpace val)
      end
  end.

Definition parseLinkValue (link : string) : string * string :=
  match TrimSpace link with
  | String "<" link' =>
      match cut ">" link' with
      | None => ("", "")
      | Some (href, rest) => (href, relOf (Split rest ";"))
      end
  | _ => ("", "")
  end.

(** [strings.Fields] on ASCII. *)
Fixpoint fieldsLoop (s word : string) : list string :=
  match s with
  | EmptyString => if String.eqb word "" then [] else [rev_onto word ""]
  | String c s =>
      if isSpace c
      then (if String.eqb word "" then [] else [rev_onto word ""]) ++ fieldsLoop s ""
      else fieldsLoop s (String c word)
  end.
Definition Fields (s : string) : list string := fieldsLoop s "".

Definition containsRel (relValue target : string) : bool :=
  existsb (λ tok, EqualFold tok target) (Fields relValue).

Definition isNextValue (link : string) : bool :=
  let '(href, rel) := parseLinkValue link in
  negb (String.eqb href "") && containsRel rel "next".

Definition parseNextFromLinkHeader (values : list string) : string :=
  match List.find isNextValue (values ≫= splitLinkValues) with
  | Some link => (parseLinkValue link).1
  | None => ""
  end.

Section Adapters.
Context `{!GoURL, !BodyCodec}.

(** ** The origin test *)

Definition SameOrigin (rawURL baseURL : string) : bool :=
  if String.eqb rawURL "" then true else
  match url_Parse rawURL with
  | None => false
  | Some u =>
      if negb (IsAbs u) then false else
      match url_Parse baseURL with
      | None => false
      | Some b =>
          if negb (EqualFold (Scheme u) (Scheme b)) then false
          else if negb (EqualFold (Host u) (Host b)) then false
          else HasPrefix (Path u) (TrimSuffixSlash (Path b))
      end
  end.

(** ** Capturing the continuation *)

Definition extractTokenFromNextLink (r : UpstreamResponse) (paramName : string) : string :=
  match nextLinkOf r with
  | None => ""
  | Some link =>
      let fromHref :=
        if String.eqb (Href link) "" then "" else
        match url_Parse (Href link) with
        | Some u => query_Get (RawQuery u) paramName
        | None => ""
        end in
      if negb (String.eqb fromHref "") then fromHref else
      match as_object (index "body" (LinkFields link)) with
      | Some body => default "" (as_string (index paramName body))
      | None => ""
      end
  end.

(** [strconv.Atoi], base 10 with an optional sign. *)
Fixpoint digits (s : string) (acc : Z) : option Z :=
  match s with
  | EmptyString => Some acc
  | String c s =>
      let n := N_of_ascii c in
      if ((48 <=? n) && (n <=? 57))%N then digits s (acc * 10 + Z.of_N (n - 48)) else None
  end.
Definition in_int64 (z : Z) : option Z :=
  if ((- 2 ^ 63 <=? z) && (z <? 2 ^ 63))%Z then Some z else None.
Definition Atoi (s : string) : option Z :=
  match s with
  | EmptyString => None
  | String "+" s => if String.eqb s "" then None else digits s 0 ≫= in_int64
  | String "-" s => if String.eqb s "" then None else z ← digits s 0; in_int64 (- z)
  | s => digits s 0 ≫= in_int64
  end.

Definition captureToken (param : string) (r : UpstreamResponse) : result adapterError NextState :=
  let tok := extractTokenFromNextLink r param in
  if String.eqb tok "" then Ok (doneIf (negb (hasNextLink r)))
  else Ok (mkState tok "" "" 0 false "").

Definition captureNextURL (r : UpstreamResponse) : result adapterError NextState :=
  match nextLinkOf r with
  | None => Ok doneState
  | Some link =>
      if String.eqb (Href link) "" then Ok doneState
      else if EqualFold (methodOf link) "POST" then Ok (doneIf (negb (hasNextLink r)))
      else if negb (SameOrigin (Href link) (BaseURL r))
      then Err (NotRooted (Href link) (BaseURL r))
      else Ok (mkState "" (Href link) "" 0 false "")
  end.

Definition captureOffset (param : string) (r : UpstreamResponse) : result adapterError NextState :=
  match nextLinkOf r with
  | None => Ok doneState
  | Some link =>
      if String.eqb (Href link) "" then Ok doneState else
      match url_Parse (Href link) with
      | None => Ok doneState
      | Some u =>
          let v := query_Get (RawQuery u) param in
          if String.eqb v "" then Ok doneState else
          match Atoi v with
          | None => Ok doneState
          | Some off =>
              if negb (SameOrigin (Href link) (BaseURL r)) then Ok doneState
              else Ok (mkState "" (Href link) "" off false "")
          end
      end
  end.

Definition capturePostBody (r : UpstreamResponse) : result adapterError NextState :=
  match nextLinkOf r with
  | None => Ok doneState
  | Some link =>
      if negb (EqualFold (methodOf link) "POST") then Ok (doneIf (negb (hasNextLink r)))
      else if String.eqb (Href link) "" then Ok doneState
      else if negb (SameOrigin (Href link) (BaseURL r))
      then Err (NotRooted (Href link) (BaseURL r))
      else match get "body" (LinkFields link) with
           | None => Ok (doneIf (negb (hasNextLink r)))
           | Some rawBody =>
               match body_Marshal rawBody with
               | None => Err MarshalBody
               | Some bodyJSON => Ok (mkState "" (Href link) bodyJSON 0 false "")
               end
           end
  end.

Definition captureLinkHeader (r : UpstreamResponse) : result adapterError NextState :=
  let href := parseNextFromLinkHeader (Header.Values (Header_ r) "Link") in
  if String.eqb href "" then Ok doneState
  else if negb (SameOrigin href (BaseURL r)) then Err (NotRooted href (BaseURL r))
  else Ok (mkState "" href "" 0 false "").

Definition CaptureNamed (a : named) (r : UpstreamResponse) : result adapterError NextState :=
  match a with
  | token param => captureToken param r
  | nextURL => captureNextURL r
  | offset param => captureOffset param r
  | postBody => capturePostBody r
  | linkHeader => captureLinkHeader r
  end.

(** The value a Go call leaves in [st] when it also returns an error. *)
Definition orZero (x : result adapterError NextState) : NextState :=
  match x with Ok st => st | Err _ => zeroState end.

Definition probeToken (param : string) (r : UpstreamResponse) : Z * NextState :=
  let st := orZero (captureToken param r) in
  if negb (String.eqb (st_Token st) "") then (90%Z, st) else (0%Z, st).

Definition probeNextURL (r : UpstreamResponse) : Z * NextState :=
  match captureNextURL r with
  | Err _ => (0%Z, zeroState)
  | Ok st => if String.eqb (st_URL st) "" then (0%Z, st) else (60%Z, st)
  end.

Definition probeOffset (param : string) (r : UpstreamResponse) : Z * NextState :=
  let st := orZero (captureOffset param r) in
  if (0 <? st_Offset st)%Z || (negb (String.eqb (st_URL st) "") && negb (Done st))
  then (70%Z, st) else (0%Z, st).

Definition probePostBody (r : UpstreamResponse) : Z * NextState :=
  match capturePostBody r with
  | Err _ => (0%Z, zeroState)
  | Ok st => if String.eqb (st_Body st) "" then (0%Z, zeroState) else (95%Z, st)
  end.

Definition probeLinkHeader (r : UpstreamResponse) : Z * NextState :=
  match captureLinkHeader r with
  | Err _ => (0%Z, zeroState)
  | Ok st => if String.eqb (st_URL st) "" then (0%Z, st) else (50%Z, st)
  end.

Definition ProbeNamed (a : named) (r : UpstreamResponse) : Z * NextState :=
  match a with
  | token param => probeToken param r
  | nextURL => probeNextURL r
  | offset param => probeOffset param r
  | postBody => probePostBody r
  | linkHeader => probeLinkHeader r
  end.

(** [auto]'s loop keeps the first strictly best probe. *)
Definition probeStep (r : UpstreamResponse) (best : NextState * Z * string) (a : named)
    : NextState * Z * string :=
  let '(_, bestConf, _) := best in
  let '(conf, st) := ProbeNamed a r in
  if (bestConf <? conf)%Z then (st, conf, NameOf a) else best.

Definition Capture (a : adapter) (r : UpstreamResponse) : result adapterError NextState :=
  match a with
  | Named a => CaptureNamed a r
  | auto inner =>
      let '(best, bestConf, bestName) := foldl (probeStep r) (zeroState, 0%Z, "") inner in
      if (bestConf =? 0)%Z then Ok doneState else Ok (lockName bestName best)
  end.

Definition Probe (a : adapter) (r : UpstreamResponse) : Z * NextState :=
  match a with
  | Named a => ProbeNamed a r
  | auto _ => let st := orZero (Capture a r) in if Done st then (0%Z, st) else (100%Z, st)
  end.

(** ** Lemmas on capture and probe *)

(** Opens the adapter a goal is about. *)
Ltac open_adapter a :=
  destruct a; cbn [ProbeNamed CaptureNamed] in *;
  unfold probePostBody, probeToken, probeOffset, probeLinkHeader, probeNextURL in *.
Ltac open_capture a :=
  open_adapter a;
  unfold capturePostBody, captureToken, captureOffset, captureLinkHeader, captureNextURL in *.

Lemma ProbeNamed_capture a r c st :
  ProbeNamed a r = (c, st) → (0 < c)%Z → CaptureNamed a r = Ok st.
Proof.
  open_adapter a;
    match goal with |- _ → _ → ?x = _ => destruct x end; cbn;
    repeat case_match; intros [= <- <-] Hc; try done; lia.
Qed.

Lemma ProbeNamed_nonneg a r : (0 ≤ (ProbeNamed a r).1)%Z.
Proof.
  open_adapter a;
    repeat case_match; cbn; lia.
Qed.

Lemma CaptureNamed_rooted a r st :
  CaptureNamed a r = Ok st → SameOrigin (st_URL st) (BaseURL r) = true.
Proof.
  open_capture a; intros Hc; repeat case_match; simplify_eq/=; bool_to_prop; done.
Qed.

Lemma CaptureNamed_done a r st :
  CaptureNamed a r = Ok st → Done st = true →
  st_Token st = "" ∧ st_URL st = "" ∧ st_Body st = "" ∧ st_Offset st = 0%Z.
Proof. open_capture a; intros Hc Hd; repeat case_match; simplify_eq/=; done. Qed.

(** What the loop of [auto] maintains: the best probe so far is a
    successful capture. *)
Lemma probe_fold r inner best :
  (let '(st, conf, name) := best in
   conf = 0%Z ∨ (0 < conf)%Z ∧ ∃ a, CaptureNamed a r = Ok st ∧ name = NameOf a) →
  let '(st, conf, name) := foldl (probeStep r) best inner in
  conf = 0%Z ∨ (0 < conf)%Z ∧ ∃ a, CaptureNamed a r = Ok st ∧ name = NameOf a.
Proof.
  revert best. induction inner as [|a inner IH]; intros [[st conf] name] Hb; cbn; [done|].
  apply IH. destruct (ProbeNamed a r) as [c st'] eqn:Ep.
  destruct (Z.ltb_spec conf c); [|done]. right.
  assert (0 < c)%Z by (destruct Hb; lia). split; [done|].
  exists a. split; [|done]. by eapply ProbeNamed_capture.
Qed.

Lemma Capture_auto_inv inner r st :
  Capture (auto inner) r = Ok st →
  st = doneState ∨ ∃ a st', CaptureNamed a r = Ok st' ∧ st = lockName (NameOf a) st'.
Proof.
  cbn. pose proof (probe_fold r inner (zeroState, 0%Z, "")) as Hf.
  destruct (foldl _ _ inner) as [[best conf] name].
  destruct (Z.eqb_spec conf 0) as [|Hne]; intros [= <-]; [by left|right].
  destruct Hf as [?|(? & a & Ha & ->)]; [by left|done|eauto].
Qed.

(** The confidence of a probe is its adapter's constant or zero. *)
Definition rank (a : named) : Z :=
  match a with
  | postBody => 95 | token _ => 90 | offset _ => 70 | nextURL => 60 | linkHeader => 50
  end.

Definition matches (r : UpstreamResponse) (a : named) : bool := (0 <? (ProbeNamed a r).1)%Z.

Lemma ProbeNamed_rank a r :
  (ProbeNamed a r).1 = if matches r a then rank a else 0%Z.
Proof.
  unfold matches. open_adapter a;
    repeat case_match; cbn in *; try done; lia.
Qed.

Lemma matches_capture a r :
  matches r a = true → CaptureNamed a r = Ok (ProbeNamed a r).2.
Proof.
  unfold matches. rewrite Z.ltb_lt. destruct (ProbeNamed a r) as [c st] eqn:E; cbn.
  by apply ProbeNamed_capture.
Qed.

End Adapters.

(** ** Rendering and parsing [Link] headers *)

Definition quote : ascii := "034"%char.

Definition renderLink (link : string * string) : string :=
  "<" +:+ link.1 +:+ ">; rel=" +:+ String quote (link.2 +:+ String quote "").

#[local] Arguments renderLink : simpl never.

(** Characters a rendered component must not contain. *)
Definition cleanHref (h : string) : Prop :=
  occurs "<" h = false ∧ occurs ">" h = false ∧ h ≠ "".
Definition cleanRel (r : string) : Prop :=
  occurs "<" r = false ∧ occurs ">" r = false ∧ occurs "," r = false ∧
  occurs ";" r = false ∧ occurs quote r = false.

Lemma rev_onto_rev s b acc : rev_onto (rev_onto s b) acc = rev_onto b (s +:+ acc).
Proof. revert b acc. induction s as [|c s IH]; intros b acc; cbn; [done|]. by rewrite IH. Qed.

Lemma splitLoop_skip s rest d buf :
  occurs "<" s = false → occurs ">" s = false → (d ≠ 0 ∨ occurs "," s = false) →
  splitLoop (s +:+ rest) d buf = splitLoop rest d (rev_onto s buf).
Proof.
  revert buf. induction s as [|c s IH]; intros buf; cbn; [done|].
  intros [-> Hl]%orb_false_elim [-> Hg]%orb_false_elim Hd.
  assert (Ascii.eqb c "," && (d =? 0) = false) as ->.
  { destruct Hd as [Hd|[-> _]%orb_false_elim]; [|done].
    by rewrite (proj2 (Nat.eqb_neq _ _)), andb_false_r. }
  apply IH; [done..|]. destruct Hd as [|[_ ?]%orb_false_elim]; auto.
Qed.

Lemma splitLoop_render link rest buf :
  cleanHref link.1 → cleanRel link.2 →
  splitLoop (renderLink link +:+ rest) 0 buf = splitLoop rest 0 (rev_onto (renderLink link) buf).
Proof.
  destruct link as [h r]; cbn. intros (Hl & Hg & _) (Hrl & Hrg & Hrc & _).
  unfold renderLink; cbn. rewrite append_assoc.
  rewrite splitLoop_skip by auto. cbn. rewrite append_assoc.
  rewrite splitLoop_skip by auto. cbn.
  f_equal. rewrite <-(append_nil_r h) at 2. rewrite !append_nil_r.
  assert (Happ : ∀ s t b, rev_onto (s +:+ t) b = rev_onto t (rev_onto s b)).
  { intros s t. induction s; intros b; cbn; [done|]. by rewrite IHs. }
  rewrite !Happ. cbn. rewrite Happ. done.
Qed.

Lemma TrimRightBy_last p s c :
  p c = false → TrimRightBy p (s +:+ String c "") = s +:+ String c "".
Proof.
  intros Hp. induction s as [|a s IH]; cbn; [by rewrite Hp|]. rewrite IH. by destruct s.
Qed.

Lemma renderLink_last link : ∃ s, renderLink link = String "<" (s +:+ String quote "").
Proof.
  destruct link as [h r]. unfold renderLink; cbn.
  exists (h +:+ ">; rel=" +:+ String quote r). f_equal. by rewrite append_assoc.
Qed.

Lemma TrimSpace_render link : TrimSpace (renderLink link) = renderLink link.
Proof.
  destruct (renderLink_last link) as [s ->]. unfold TrimSpace.
  change (TrimLeftSpace (String "<" (s +:+ String quote ""))) with (String "<" s +:+ String quote "").
  by rewrite TrimRightBy_last.
Qed.

Lemma TrimSpace_space s : TrimSpace (String " " s) = TrimSpace s.
Proof. done. Qed.

Lemma splitLinkValues_render links :
  Forall (λ l, cleanHref l.1 ∧ cleanRel l.2) links →
  splitLinkValues (join_sep ", " (renderLink <$> links)) = renderLink <$> links.
Proof.
  unfold splitLinkValues. intros Hall.
  assert (Hgen : ∀ l links buf, Forall (λ l, cleanHref l.1 ∧ cleanRel l.2) (l :: links) →
    (buf = "" ∨ buf = " ") →
    splitLoop (join_sep ", " (renderLink <$> l :: links)) 0 buf = renderLink <$> l :: links).
  { clear. intros l links. revert l.
    induction links as [|l' links IH]; intros l buf [[Hh Hr] Hall]%Forall_cons Hb.
    - cbn. rewrite <-(append_nil_r (renderLink l)) at 1.
      rewrite splitLoop_render by done. cbn.
      assert (TrimSpace (rev_onto (rev_onto (renderLink l) buf) "") = renderLink l) as Ht.
      { rewrite rev_onto_rev, append_nil_r. destruct Hb as [->| ->]; apply TrimSpace_render. }
      destruct (String.eqb_spec (rev_onto (renderLink l) buf) "") as [E|].
      + rewrite E in Ht. by destruct (renderLink_last l) as [s Es]; rewrite Es in Ht.
      + by rewrite Ht.
    - change (join_sep ", " (renderLink <$> l :: l' :: links)) with
        (renderLink l +:+ ", " +:+ join_sep ", " (renderLink <$> l' :: links)).
      rewrite splitLoop_render by done. cbn [splitLoop String.append].
      change (Ascii.eqb "," "<") with false. change (Ascii.eqb "," ">") with false.
      change (Ascii.eqb "," "," && (0 =? 0)) with true. cbn match.
      rewrite (fmap_cons renderLink l (l' :: links)). f_equal.
      + rewrite rev_onto_rev, append_nil_r. destruct Hb as [->| ->]; apply TrimSpace_render.
      + change (Ascii.eqb " " "<") with false. change (Ascii.eqb " " ">") with false.
        change (Ascii.eqb " " "," && (0 =? 0)) with false. cbn match.
        apply IH; [done|by right]. }
  destruct links as [|l links]; [done|]. apply Hgen; auto.
Qed.

Lemma break_app c s t : occurs c s = false → break c (s +:+ String c t) = (s, String c t).
Proof.
  induction s as [|a s IH]; cbn; [by rewrite Ascii.eqb_refl|].
  intros [Ha Hs]%orb_false_elim. by rewrite Ha, IH.
Qed.

Lemma cut_app c s t : occurs c s = false → cut c (s +:+ String c t) = Some (s, t).
Proof. intros Hs. unfold cut. by rewrite break_app. Qed.

Lemma TrimLeftBy_clean p s c : p c = false → TrimLeftBy p (String c s) = String c s.
Proof. cbn. by intros ->. Qed.

Lemma TrimRightBy_id s : occurs quote s = false → TrimRightBy isQuote s = s.
Proof.
  induction s as [|c s IH]; cbn; [done|]. intros [Hc Hs]%orb_false_elim. rewrite (IH Hs).
  assert (isQuote c = false) as ->; [|by destruct s].
  unfold isQuote. apply N.eqb_neq. intros Heq. apply Ascii.eqb_neq in Hc. apply Hc.
  by rewrite <-(ascii_N_embedding c), Heq.
Qed.

Lemma TrimQuotes_quoted r :
  occurs quote r = false → TrimQuotes (String quote (r +:+ String quote "")) = r.
Proof.
  intros Hr. unfold TrimQuotes. change (TrimLeftBy isQuote (String quote ?x)) with (TrimLeftBy isQuote x).
  assert (Hl : TrimLeftBy isQuote (r +:+ String quote "") =
    if String.eqb r "" then "" else r +:+ String quote "").
  { destruct r as [|c r]; [done|]. cbn. cbn in Hr. apply orb_false_elim in Hr as [Hc _].
    assert (isQuote c = false) as ->; [|done].
    unfold isQuote. apply N.eqb_neq. intros Heq. apply Ascii.eqb_neq in Hc. apply Hc.
    by rewrite <-(ascii_N_embedding c), Heq. }
  rewrite Hl. destruct (String.eqb_spec r "") as [->|]; [done|].
  assert (Ht : ∀ s, TrimRightBy isQuote (s +:+ String quote "") = TrimRightBy isQuote s).
  { induction s as [|c s IH]; cbn; [done|]. by rewrite IH. }
  rewrite Ht. by apply TrimRightBy_id.
Qed.

Lemma parseLinkValue_render link :
  cleanHref link.1 → cleanRel link.2 → parseLinkValue (renderLink link) = link.
Proof.
  destruct link as [h r]; cbn. intros (_ & Hg & _) (_ & _ & _ & Hs & Hq).
  unfold parseLinkValue. rewrite TrimSpace_render. unfold renderLink; cbn [fst snd String.append].
  change (h +:+ String ">" ?x) with (h +:+ String ">" x).
  rewrite cut_app by done. f_equal.
  change (String ";" ?x) with ("" +:+ String ";" x). rewrite Split_app by done.
  rewrite Split_single.
  2: { cbn. assert (Hoa : ∀ s t, occurs ";" (s +:+ t) = occurs ";" s || occurs ";" t).
       { intros s t. induction s as [|c s IH]; cbn; [done|]. by rewrite IH, orb_assoc. }
       by rewrite Hoa, Hs. }
  cbn [relOf]. change (TrimSpace "") with "". cbn [HasPrefix String.prefix negb].
  assert (TrimSpace (String " " (String "r" (String "e" (String "l" (String "=" (String quote
    (r +:+ String quote ""))))))) = "rel" +:+ String "=" (String quote (r +:+ String quote ""))) as ->.
  { rewrite TrimSpace_space. unfold TrimSpace.
    change (TrimLeftSpace (String "r" ?x)) with (String "r" x).
    change (String "r" (String "e" (String "l" (String "=" (String quote (r +:+ String quote ""))))))
      with (("rel=" +:+ String quote r) +:+ String quote "").
    by rewrite TrimRightBy_last. }
  rewrite HasPrefix_app. cbn [negb]. rewrite cut_app by done.
  assert (TrimSpace (String quote (r +:+ String quote "")) = String quote (r +:+ String quote "")) as ->.
  { unfold TrimSpace. change (TrimLeftSpace (String quote ?x)) with (String quote x).
    change (String quote (r +:+ String quote "")) with (String quote r +:+ String quote "").
    by rewrite TrimRightBy_last. }
  by apply TrimQuotes_quoted.
Qed.

(** ** Properties *)

Section Properties.
Context `{!GoURL, !BodyCodec}.

(** C32: Whatever adapter reads a response, [auto] included, a continuation
    URL it captures passes the same-origin test against the origin's base
    URL: an upstream cannot make the proxy follow a link to another host. *)
Theorem Capture_rooted a r st :
  Capture a r = Ok st → SameOrigin (st_URL st) (BaseURL r) = true.
Proof.
  destruct a as [a|inner]; [apply CaptureNamed_rooted|].
  intros [->|(a & st' & Ha & ->)]%Capture_auto_inv; [done|]. by apply CaptureNamed_rooted in Ha.
Qed.

(** The default adapter reads a response in the first convention that
    matches in the order POST body, token, offset, next URL, Link header,
    returns exactly what that adapter captures with its name locked in, and
    reports the end of pagination when none matches; it never fails. *)
Theorem auto_selects cfg r :
  Capture (newAuto cfg) r =
    match List.find (matches r) [postBody; newToken cfg; newOffset cfg; nextURL; linkHeader] with
    | Some a => lockName (NameOf a) <$> CaptureNamed a r
    | None => Ok doneState
    end.
Proof.
  assert (Hp : ∀ a, ProbeNamed a r = (if matches r a then rank a else 0%Z, (ProbeNamed a r).2)).
  { intros a. rewrite <-ProbeNamed_rank. apply surjective_pairing. }
  unfold newAuto, Capture. cbn [foldl List.find]. unfold probeStep.
  rewrite (Hp postBody), (Hp (newToken cfg)), (Hp (newOffset cfg)), (Hp linkHeader), (Hp nextURL).
  destruct (matches r postBody) eqn:E1, (matches r (newToken cfg)) eqn:E2,
    (matches r (newOffset cfg)) eqn:E3, (matches r linkHeader) eqn:E4, (matches r nextURL) eqn:E5;
    cbn -[CaptureNamed ProbeNamed];
    repeat match goal with
    | |- context [CaptureNamed ?a r] =>
        rewrite (matches_capture a r) by done
    end; done.
Qed.

(** Parsing inverts rendering: the [Link] header built from any list of
    (href, rel) pairs, commas in the hrefs included, yields the href of the
    first pair whose relation set contains [next], or nothing. *)
Theorem parseNext_renderLinks links :
  Forall (λ l, cleanHref l.1 ∧ cleanRel l.2) links →
  parseNextFromLinkHeader [join_sep ", " (renderLink <$> links)] =
    match List.find (λ l, containsRel l.2 "next") links with
    | Some l => l.1
    | None => ""
    end.
Proof.
  intros Hall. unfold parseNextFromLinkHeader. cbn. rewrite app_nil_r, splitLinkValues_render by done.
  induction Hall as [|l links [Hh Hr] Hall IH]; [done|]. rewrite fmap_cons. cbn [List.find].
  assert (isNextValue (renderLink l) = containsRel l.2 "next") as ->.
  { unfold isNextValue. rewrite parseLinkValue_render by done. destruct l as [h rel]; cbn in *.
    destruct Hh as (_ & _ & Hne%String.eqb_neq). by rewrite Hne. }
  destruct (containsRel l.2 "next"); [|done]. by rewrite parseLinkValue_render.
Qed.

End Properties.

Module Witness.

#[local] Existing Instance PlainURL.
#[local] Instance noBody : BodyCodec := {| body_Marshal _ := None |}.

Definition response (href : string) : UpstreamResponse :=
  mkUpstream (Some [Some (mkLink href "next" "" "" [])]) ∅ "https://api.example.com/v1" 200.

Lemma Capture_rooted_witness :
  Capture (newAuto (mkConfig "" "" "")) (response "https://api.example.com/v1/search?next=x") =
    Ok (mkState "" "https://api.example.com/v1/search?next=x" "" 0 false "next_url") ∧
  SameOrigin "https://api.example.com/v1/search?next=x" "https://api.example.com/v1" = true.
Proof.
  split; [reflexivity|].
  apply (Capture_rooted (newAuto (mkConfig "" "" ""))
    (response "https://api.example.com/v1/search?next=x")
    (mkState "" "https://api.example.com/v1/search?next=x" "" 0 false "next_url")).
  reflexivity.
Defined.

Lemma parseNext_renderLinks_witness :
  parseNextFromLinkHeader
    [join_sep ", " (renderLink <$> [("https://a/?b=1,2", "prev"); ("https://a/?c=3,4", "self next")])] =
  "https://a/?c=3,4".
Proof.
  rewrite (parseNext_renderLinks [("https://a/?b=1,2", "prev"); ("https://a/?c=3,4", "self next")]);
    [reflexivity|].
  repeat constructor; cbn; done.
Defined.

(** The path test of [SameOrigin] has no segment boundary: a link into a
    sibling tenant whose name extends the configured one passes. *)
Lemma SameOrigin_sibling :
  SameOrigin "https://api.example.com/tenant2/search" "https://api.example.com/tenant" = true.
Proof. reflexivity. Qed.

End Witness.

End PageAdapter.
