(* ===== verification/Pagination.v ===== *)
(** * Paginated federated search ([internal/federation/pagination.go])

    One page of a session: decode or create the cursor, pick the origins to
    ask, ask them in parallel, merge what they returned with what previous
    pages left in the stashes, emit the first [limit] items, stash the
    rest, and mint the next cursor.

    A [Searcher] is an origin behind its client: a function of the request
    (what it answers this time) and its base URL.  One request happens at
    one instant [now].  A null feature in an upstream response is [None];
    dereferencing it panics, which is [None] of [mergeResults] and
    [NilDereference] of [Search].

    Parameters: the codecs of the cursor, of the page and of the hashed
    query fields, [Crypto], the page store and the map iteration order. *)

From S2P Require Import Prelude GoLib Stac Fanout Merger Store Cursor PageCache PageAdapter.
From Stdlib Require Import Ascii.
Import Strings Values Stac Merger Cursor.

Module Pagination.

(** ** Origins behind the [Searcher] interface *)

Record searchReply := mkReply {
  rep_Items : list (option Item);
  rep_NextToken : string;
  rep_NextURL : string;
  rep_NextBody : bytes;
  rep_AdapterName : string;
  rep_Error : option originError;
}.

Record Searcher := mkSearcher {
  srch_Search : SearchRequest → searchReply;
  srch_BaseURL : string;
}.

(** What [OriginClient.Search] returns: an error, or a feature collection
    (possibly nil) and the response headers. *)
Record upstreamFC := mkUpstreamFC { fc_Features : list (option Item); fc_Links : list (option Link) }.
Record OriginClient := mkClient {
  client_Search : SearchRequest → result originError (option upstreamFC * Header.header);
  client_BaseURL : string;
}.

Record OriginClientSearcher := mkOCS {
  ocs_Client : OriginClient;
  ocs_Adapter : PageAdapter.adapter;
  ocs_Registry : option (gmap string PageAdapter.adapter);
}.

Definition registryNames : list string := ["token"; "next_url"; "offset"; "link_header"].

Definition NewOriginClientSearcher (client : OriginClient) (cfg : PageAdapter.Config)
    : result PageAdapter.adapterError OriginClientSearcher :=
  adapter ← PageAdapter.New cfg;
  if String.eqb (PageAdapter.Adapter cfg) "" || String.eqb (PageAdapter.Adapter cfg) "auto" then
    registry ← foldl (λ acc name,
        m ← acc;
        sub ← PageAdapter.New (PageAdapter.mkConfig name (PageAdapter.OffsetParam cfg)
                                 (PageAdapter.TokenParam cfg));
        Ok (<[name := sub]> m)) (Ok ∅) registryNames;
    Ok (mkOCS client adapter (Some registry))
  else Ok (mkOCS client adapter None).

Definition pickAdapter (o : OriginClientSearcher) (req : SearchRequest) : PageAdapter.adapter :=
  if negb (String.eqb (AdapterName req) "") then
    match ocs_Registry o ≫= (.!! AdapterName req) with
    | Some a => a
    | None => ocs_Adapter o
    end
  else ocs_Adapter o.

(** The message of a capture error does not matter to any caller. *)
Definition captureFailed : originError := ErrFetch "capture".

Definition OriginClientSearcher_Search `{!URL.GoURL, !PageAdapter.BodyCodec}
    (o : OriginClientSearcher) (req : SearchRequest) : searchReply :=
  match client_Search (ocs_Client o) req with
  | Err e => mkReply [] "" "" "" "" (Some e)
  | Ok (None, _) => mkReply [] "" "" "" "" None
  | Ok (Some fc, hdr) =>
      let items := fc_Features fc in
      match PageAdapter.Capture (pickAdapter o req)
              (PageAdapter.mkUpstream (Some (fc_Links fc)) hdr (client_BaseURL (ocs_Client o)) 0) with
      | Err _ => mkReply items "" "" "" "" (Some captureFailed)
      | Ok st =>
          if PageAdapter.Done st then mkReply items "" "" "" "" None
          else mkReply items (PageAdapter.st_Token st) (PageAdapter.st_URL st)
                 (PageAdapter.st_Body st) (PageAdapter.st_AdapterName st) None
      end
  end.

(** ** The paginator *)

Record PaginatedSearcher := mkPaginator {
  origins : gmap string Searcher;
  originBaseURLs : gmap string string;
  pageSize : Z;
  maxPageSize : Z;
  cursorSecret : bytes;
  pageCache : option PageCache.Cache;
}.

Definition NewPaginatedSearcher (os : gmap string Searcher) (defaultPageSize maxPageSize : Z)
    (secret : bytes) (cache : option PageCache.Cache) : option PaginatedSearcher :=
  if String.eqb secret "" then None else
  Some (mkPaginator os (srch_BaseURL <$> os)
    (if (defaultPageSize <=? 0)%Z then 100 else defaultPageSize)
    (if (maxPageSize <=? 0)%Z then 1000 else maxPageSize) secret cache).

Record SearchResult := mkSearchResult {
  res_Items : list Item;
  res_TotalCount : Z;
  res_NextCursor : string;
  res_PrevCursor : string;
  res_FirstCursor : string;
  res_SelfCursor : string;
  res_Context : option SearchContext;
}.

Inductive searchError := CursorError (e : cursorError) | NilDereference.

(** The struct [hashSearchRequest] marshals. *)
Record hashedQuery := mkHashed {
  h_Collections : list string; h_IDs : list string; h_BBox : list float64;
  h_Intersects : bytes; h_Datetime : string; h_Limit : Z; h_Filter : value;
  h_FilterLang : string; h_FilterCRS : string; h_Query : list (string * value);
  h_Sortby : list SortSpec;
}.

Class QueryCodec := { query_Marshal : hashedQuery → option bytes }.

Class ContextCodec := {
  ctx_Marshal : SearchContext → option bytes;
  ctx_Unmarshal : bytes → option SearchContext;
}.

Definition hashedOf (req : SearchRequest) : hashedQuery :=
  mkHashed (Collections req) (IDs req) (BBox req) (Intersects req) (Datetime req) (Limit req)
    (Filter req) (FilterLang req) (FilterCRS req) (Query req) (Sortby req).

Definition hashSearchRequest `{!Crypto, !QueryCodec} (req : option SearchRequest) : string :=
  let req := default emptySearchRequest req in
  Hex.EncodeToString (sha256 (default "" (query_Marshal (hashedOf req)))).

Definition principalHashFromContext `{!Crypto} (principal : option string) : string :=
  match principal with None => "" | Some id => PrincipalHash id end.

(** ** Fetching *)

Record originFetchResult := mkFetch {
  f_OriginID : string;
  f_Items : list (option Item);
  f_NextToken : string;
  f_NextURL : string;
  f_NextBody : bytes;
  f_AdapterName : string;
  f_Error : option originError;
}.

Section Fetch.
Context `{GoTime}.
Implicit Types (c : FederatedCursor).

Definition withLimit (n : Z) (req : SearchRequest) : SearchRequest :=
  mkSearchRequest (Collections req) (IDs req) (BBox req) (Intersects req) (Datetime req) n
    (Stac.Cursor req) (Token req) (Next req) (Sortby req) (Filter req) (FilterLang req)
    (FilterCRS req) (Query req) (Stac.Fields req) (OverrideURL req) (OverrideBody req) (AdapterName req).

(** The continuation of an origin entry written over the request. *)
Definition withContinuation (o : OriginCursor) (req : SearchRequest) : SearchRequest :=
  mkSearchRequest (Collections req) (IDs req) (BBox req) (Intersects req) (Datetime req) (Limit req)
    (Stac.Cursor req) (if String.eqb (NextToken o) "" then Token req else NextToken o) (Next req)
    (Sortby req) (Filter req) (FilterLang req) (FilterCRS req) (Query req) (Stac.Fields req)
    (if String.eqb (NextURL o) "" then OverrideURL req else NextURL o)
    (if String.eqb (NextBody o) "" then OverrideBody req else NextBody o)
    (oc_AdapterName o).

(** [cloneSearchRequest] copies slices so that origins do not share them; on
    values it is the identity. *)
Definition cloneSearchRequest (req : SearchRequest) : SearchRequest := req.

Definition originRequest (req : SearchRequest) c (limit : Z) (id : string) : SearchRequest :=
  let originReq := withLimit limit (cloneSearchRequest req) in
  match GetOriginCursor c id with
  | Some o => withContinuation o originReq
  | None => originReq
  end.

Definition fetchOne (s : PaginatedSearcher) (req : SearchRequest) c (limit : Z) (id : string)
    : originFetchResult :=
  match origins s !! id with
  | None => mkFetch id [] "" "" "" "" (Some (ErrFetch "origin not found"))
  | Some origin =>
      let r := srch_Search origin (originRequest req c limit id) in
      mkFetch id (rep_Items r) (rep_NextToken r) (rep_NextURL r) (rep_NextBody r)
        (rep_AdapterName r) (rep_Error r)
  end.

Definition fetchFromOrigins (s : PaginatedSearcher) (req : SearchRequest) c
    (originIDs : list string) (limit : Z) : list originFetchResult :=
  Fanout.fanOut (P:=Empty_set) (λ id, Fanout.Returned (fetchOne s req c limit id))
    (λ _ p, match p with end) originIDs.

(** The origins a page asks: not exhausted, not retired, stash not full. *)
Definition shouldFetch c (limit : Z) (id : string) : bool :=
  match GetOriginCursor c id with
  | None => false
  | Some o =>
      negb (Exhausted o) && negb (retired o) && (Z.of_nat (length (Stash o)) <? limit)%Z
  end.

Definition toFetch `{!MapRange} c (limit : Z) : list string :=
  List.filter (shouldFetch c limit) (ActiveOrigins c).

(** ** Merging a page *)

Definition getDatetime (item : Item) : string :=
  match ItemDatetime (Some item) with
  | Some t => time_Format RFC3339 t
  | None =>
      match Properties item with
      | Some props => default "" (as_string (index "datetime" props))
      | None => ""
      end
  end.

Definition itemLess (x y : Item) : bool :=
  let ti := getDatetime x in let tj := getDatetime y in
  if negb (String.eqb ti tj) then ltb tj ti else ltb (ID x) (ID y).

(** Phase 1. *)
Definition indexFetch (st : FederatedCursor * gmap string originFetchResult)
    (r : originFetchResult) : FederatedCursor * gmap string originFetchResult :=
  match f_Error r with
  | Some _ => (MarkError (f_OriginID r) st.1, st.2)
  | None => (st.1, <[f_OriginID r := r]> st.2)
  end.

Definition freshItems (fresh : gmap string originFetchResult) (id : string) : list (option Item) :=
  match fresh !! id with Some r => f_Items r | None => [] end.

(** Phase 2. *)
Definition pageSource (s : PaginatedSearcher) c (fresh : gmap string originFetchResult)
    (id : string) : option itemSource :=
  match GetOriginCursor c id with
  | None => None
  | Some o =>
      match (Some <$> Stash o) ++ freshItems fresh id with
      | [] => None
      | combined => Some (mkSource id (default "" (originBaseURLs s !! id)) combined)
      end
  end.

(** Phase 4. *)
Definition stashItem (m : gmap string (list Item)) (item : Item) : gmap string (list Item) :=
  let originID := ItemOriginID (Some item) in
  if String.eqb originID "" then m
  else <[originID := default [] (m !! originID) ++ [item]]> m.

(** The sort value recorded for an origin; [None] is the panic on a null
    last feature. *)
Definition lastSortOf (items : list (option Item)) : option sortValue :=
  match last items with
  | None => Some (SVRaw VNil)
  | Some lastItem =>
      match ItemDatetime lastItem with
      | Some t => Some (SVTime t)
      | None =>
          it ← lastItem;
          match Properties it with
          | Some props => Some (SVRaw (index "datetime" props))
          | None => Some (SVRaw VNil)
          end
      end
  end.

(** Phase 5, one origin. *)
Definition advanceOrigin (fresh : gmap string originFetchResult)
    (newStash : gmap string (list Item)) (c : option FederatedCursor) (id : string)
    : option FederatedCursor :=
  c ← c;
  match GetOriginCursor c id with
  | None => Some c
  | Some _ =>
      c ← match fresh !! id with
          | None => Some c
          | Some r =>
              lastSort ← lastSortOf (f_Items r);
              Some (UpdateOriginState id
                (mkUpdate (Z.of_nat (length (f_Items r))) (f_NextToken r) (f_NextURL r)
                   (f_NextBody r) 0 (f_AdapterName r) lastSort) c)
          end;
      let stash := default [] (newStash !! id) in
      Some (withOrigins (alter (withStash stash) id (Origins c)) c)
  end.

Definition mergeResults `{!MapRange} (s : PaginatedSearcher) (results : list originFetchResult)
    (c : FederatedCursor) (limit : Z) : option (list Item * FederatedCursor) :=
  let '(c, fresh) := foldl indexFetch (c, ∅) results in
  let activeOrigins := ActiveOrigins c in
  let sources := omap (pageSource s c fresh) activeOrigins in
  let merged := sort_stable itemLess (mergeItemsFirstWins sources) in
  let emitted := take (Z.to_nat limit) merged in
  let remainder := drop (Z.to_nat limit) merged in
  let newStash := foldl stashItem ∅ remainder in
  c ← foldl (advanceOrigin fresh newStash) (Some c) activeOrigins;
  Some (emitted, c).

End Fetch.

(** ** Searching *)

(** [originFailures] and [failedFromStatuses] of [status.go]. *)
Definition originFailures {T} (results : list T) (status : T → string * bool) : list string :=
  sort_Strings (omap (λ r, let '(id, f) := status r in if f then Some id else None) results).

Definition failedFromStatuses (statuses : list OriginStatus) : list string :=
  originFailures statuses (λ s, (os_ID s, negb (String.eqb (os_Error s) ""))).

Section Search.
Context `{GoTime, !Crypto, !CursorCodec, !PageCache.PageCodec, !QueryCodec, !ContextCodec,
  !MapRange, Store St}.

Definition pageLimit (s : PaginatedSearcher) (req : SearchRequest) : Z :=
  if ((0 <? Limit req) && (Limit req <=? maxPageSize s))%Z then Limit req else pageSize s.

Definition addErrKind (m : gmap string string) (r : originFetchResult) : gmap string string :=
  match f_Error r with
  | Some e => <[f_OriginID r := classifyOriginError e]> m
  | None => m
  end.

Definition errKindsOf (results : list originFetchResult) : gmap string string :=
  foldl addErrKind ∅ results.

Definition statusOfOrigin (errKinds : gmap string string) (kv : string * OriginCursor)
    : OriginStatus :=
  mkOriginStatus kv.1 0 (ItemCount kv.2) (Exhausted kv.2)
    (if Error kv.2 then default "fetch_failed" (errKinds !! kv.1) else "").

Definition statusLess (x y : OriginStatus) : bool := ltb (os_ID x) (os_ID y).

Definition originStatuses (errKinds : gmap string string) (c : FederatedCursor)
    : list OriginStatus :=
  sort_stable statusLess (statusOfOrigin errKinds <$> range (Origins c)).

(** The cursor of the next page. *)
Definition nextCursorOf (cursorStr : string) (c : FederatedCursor) : FederatedCursor :=
  let n := Clone c in
  mkCursor (Version n) (QueryHash n) (PrincipalHash_ n) (Origins n) (TotalReturned n)
    (CreatedAt n) (ExpiresAt n) (LastSortValues n) cursorStr
    (if (PageSeq c =? 0)%Z then cursorStr else FirstCursor c) (PageSeq c + 1).

Definition addReturned (n : nat) (c : FederatedCursor) : FederatedCursor :=
  mkCursor (Version c) (QueryHash c) (PrincipalHash_ c) (Origins c)
    (TotalReturned c + Z.of_nat n) (CreatedAt c) (ExpiresAt c) (LastSortValues c)
    (PrevCursor c) (FirstCursor c) (PageSeq c).

Definition putToPageCache (now : Z) (s : PaginatedSearcher) (cursorStr principalHash : string)
    (c : FederatedCursor) (r : SearchResult) (st : St) : St :=
  match pageCache s with
  | None => st
  | Some _ =>
      let sig := PageCache.SignatureOf cursorStr in
      if String.eqb sig "" then st else
      let remaining := (ExpiresAt c * Second - now)%Z in
      if (remaining <=? 0)%Z then st else
      PageCache.Put now (pageCache s) sig principalHash
        (PageCache.mkPage (res_Items r) (res_TotalCount r) (res_NextCursor r) (res_PrevCursor r)
           (res_FirstCursor r) (res_SelfCursor r)
           (default "" (res_Context r ≫= ctx_Marshal))) remaining st
  end.

Definition fromCachedResult (p : PageCache.SearchResult) : SearchResult :=
  mkSearchResult (PageCache.p_Items p) (PageCache.p_TotalCount p) (PageCache.p_NextCursor p)
    (PageCache.p_PrevCursor p) (PageCache.p_FirstCursor p) (PageCache.p_SelfCursor p)
    (if String.eqb (PageCache.p_Context p) "" then None else ctx_Unmarshal (PageCache.p_Context p)).

(** The cursor a request starts from, or the cached page it hits. *)
Definition openCursor (now : Z) (s : PaginatedSearcher) (principalHash : string)
    (req : SearchRequest) (cursorStr : string) (st : St)
    : result searchError (FederatedCursor + SearchResult) * St :=
  if negb (String.eqb cursorStr "") then
    match DecodeCursor now cursorStr (cursorSecret s) (originBaseURLs s) principalHash with
    | Err e => (Err (CursorError e), st)
    | Ok c =>
        if negb (String.eqb (QueryHash c) (hashSearchRequest (Some req)))
        then (Err (CursorError (ErrCursorInvalid "cursor does not match search parameters")), st)
        else
          let '(cached, st) := PageCache.Get now (pageCache s) (PageCache.SignatureOf cursorStr)
                                 principalHash st in
          match cached with
          | Some p => (Ok (inr (fromCachedResult p)), st)
          | None => (Ok (inl c), st)
          end
    end
  else
    (Ok (inl (NewFederatedCursor now (hashSearchRequest (Some req)) principalHash
                (range (origins s)).*1 None)), st).

(** What a page that is not served from the cache returns, and the cursor
    after it. *)
Definition renderPage (s : PaginatedSearcher) (req : SearchRequest) (cursorStr : string)
    (limit : Z) (c : FederatedCursor) : option (SearchResult * FederatedCursor) :=
  let results := fetchFromOrigins s req c (toFetch c limit) limit in
  let errKinds := errKindsOf results in
  '(items, c) ← mergeResults s results c limit;
  let c := addReturned (length items) c in
  let next :=
    if HasMore c then
      match Encode (cursorSecret s) (nextCursorOf cursorStr c) with Ok t => t | Err _ => "" end
    else "" in
  Some (mkSearchResult items (TotalReturned c) next (PrevCursor c) (FirstCursor c) cursorStr
          (Some (mkSearchContext (Z.of_nat (length items)) limit 0 (originStatuses errKinds c))), c).

Definition statusesOf (r : SearchResult) : list OriginStatus :=
  match res_Context r with Some ctx => sc_Origins ctx | None => [] end.

Definition Search (now : Z) (s : PaginatedSearcher) (principal : option string)
    (req : SearchRequest) (cursorStr : string) (st : St)
    : result searchError SearchResult * St :=
  let limit := pageLimit s req in
  let principalHash := principalHashFromContext principal in
  let '(opened, st) := openCursor now s principalHash req cursorStr st in
  match opened with
  | Err e => (Err e, st)
  | Ok (inr cached) => (Ok cached, st)
  | Ok (inl c) =>
      match ActiveOrigins c with
      | [] =>
          (Ok (mkSearchResult [] 0 "" "" "" "" (Some (mkSearchContext 0 limit 0 []))), st)
      | _ :: _ =>
          match renderPage s req cursorStr limit c with
          | None => (Err NilDereference, st)
          | Some (r, c') =>
              let st :=
                if negb (String.eqb cursorStr "") &&
                   bool_decide (failedFromStatuses (statusesOf r) = [])
                then putToPageCache now s cursorStr principalHash c' r st else st in
              (Ok r, st)
          end
      end
  end.

End Search.

(** ** Exchanging the origins *)

(** What the paginator may ask an origin for a search: the search itself, its
    limit included, at the origin's endpoint or continued at a URL below a
    configured base; only the pagination fields are the paginator's. *)
Record derived (s : PaginatedSearcher) (req sr : SearchRequest) : Prop := {
  dv_query : (Collections sr, IDs sr, BBox sr, Intersects sr, Datetime sr, Limit sr, Sortby sr, Filter sr, FilterLang sr,
              FilterCRS sr, Query sr, Stac.Fields sr, Next sr, Stac.Cursor sr) =
             (Collections req, IDs req, BBox req, Intersects req, Datetime req, Limit req, Sortby req, Filter req, FilterLang req,
              FilterCRS req, Query req, Stac.Fields req, Next req, Stac.Cursor req);
  dv_url : OverrideURL sr = OverrideURL req ∨
    ∃ id base rest, originBaseURLs s !! id = Some base ∧ base ≠ "" ∧ OverrideURL sr = base +:+ rest;
}.

(** Two paginators that differ in nothing but what their origins answer, and
    there only outside the requests derived from a search of [P]. *)
Record sameOrigins `{GoTime, !MapRange} (P : SearchRequest → Prop) (s s' : PaginatedSearcher) : Prop := {
  so_urls : originBaseURLs s' = originBaseURLs s;
  so_pageSize : pageSize s' = pageSize s;
  so_maxPageSize : maxPageSize s' = maxPageSize s;
  so_secret : cursorSecret s' = cursorSecret s;
  so_cache : pageCache s' = pageCache s;
  so_order : (range (origins s')).*1 = (range (origins s)).*1;
  so_search : ∀ id o o', origins s !! id = Some o → origins s' !! id = Some o' →
    ∀ req sr, P req → derived s req sr → srch_Search o' sr = srch_Search o sr;
}.

Section Exchange.
Context `{GoTime, !Crypto, !CursorCodec, !PageCache.PageCodec, !QueryCodec, !ContextCodec,
  !MapRange, Store St}.
Variables (P : SearchRequest → Prop) (s s' : PaginatedSearcher) (Hs : sameOrigins P s s').

Lemma same_dom id : is_Some (origins s' !! id) ↔ is_Some (origins s !! id).
Proof.
  assert (∀ (m : gmap string Searcher), is_Some (m !! id) ↔ id ∈ (range m).*1) as Hin.
  { intros m. rewrite list_elem_of_fmap. split.
    - intros [o Ho]. exists (id, o). split; [done|]. by apply elem_of_range.
    - intros ([k o] & -> & Ho%elem_of_range). by eexists. }
  by rewrite !Hin, (so_order _ _ _ Hs).
Qed.

(** Every cursor a search starts from names continuations below the
    configured base URLs only. *)
Lemma openCursor_allowed now ph req cursorStr (st : St) c st' :
  openCursor now s ph req cursorStr st = (Ok (inl c), st') → urlsAllowed (originBaseURLs s) c.
Proof.
  unfold openCursor. destruct (negb (String.eqb cursorStr "")).
  - destruct (DecodeCursor _ _ _ _ _) as [c'|] eqn:Ed; [|done]. case_match; [done|].
    destruct (PageCache.Get _ _ _ _ _) as [[p|] st0]; [done|]. intros [= <- <-]. by eapply DecodeCursor_urls.
  - intros [= <- <-] id o Ho. left. by apply NewFederatedCursor_fresh in Ho as ->.
Qed.

Lemma originRequest_derived req c id : urlsAllowed (originBaseURLs s) c → derived s req (originRequest req c (Limit req) id).
Proof.
  intros Hu. unfold originRequest, cloneSearchRequest. destruct (GetOriginCursor c id) as [o|] eqn:Eo; [|split; [done|by left]].
  split; [done|]. cbn. destruct (String.eqb_spec (NextURL o) ""); [by left|]. right.
  destruct (Hu id o Eo) as [?|(base & rest & ? & ? & ?)]; [done|]. by exists (oc_ID o), base, rest.
Qed.

Lemma fetchOne_same req c id : P req → urlsAllowed (originBaseURLs s) c →
  fetchOne s' req c (Limit req) id = fetchOne s req c (Limit req) id.
Proof.
  intros HP Hu. unfold fetchOne. pose proof (same_dom id) as Hd.
  destruct (origins s !! id) as [o|] eqn:Eo, (origins s' !! id) as [o'|] eqn:Eo'; [| | |done].
  - by rewrite (so_search _ _ _ Hs id o o' Eo Eo' req) by (done || by apply originRequest_derived).
  - by destruct (proj2 Hd) as [? ?].
  - by destruct (proj1 Hd) as [? ?].
Qed.

Lemma renderPage_same req cursorStr c :
  P req → urlsAllowed (originBaseURLs s) c →
  renderPage s' req cursorStr (Limit req) c = renderPage s req cursorStr (Limit req) c.
Proof.
  intros HP Hu. set (limit := Limit req). unfold renderPage, mergeResults, pageSource.
  rewrite (so_secret _ _ _ Hs), (so_urls _ _ _ Hs).
  assert (fetchFromOrigins s' req c (toFetch c limit) limit = fetchFromOrigins s req c (toFetch c limit) limit) as ->;
    [|done].
  apply list_fmap_ext. intros i id _. unfold Fanout.slot. by rewrite fetchOne_same.
Qed.

(** A search within the page limit is a function of what the origins answer
    to the requests derived from it. *)
Lemma Search_same now principal req cursorStr (st : St) :
  P req → (0 < Limit req ≤ maxPageSize s)%Z →
  Search now s' principal req cursorStr st = Search now s principal req cursorStr st.
Proof.
  intros HP Hl. assert (pageLimit s req = Limit req ∧ pageLimit s' req = Limit req) as [E E'].
  { unfold pageLimit. rewrite (so_maxPageSize _ _ _ Hs). by rewrite (proj2 (Z.ltb_lt _ _)), (proj2 (Z.leb_le _ _)) by lia. }
  pose proof (openCursor_allowed now (principalHashFromContext principal) req cursorStr st) as Hopen.
  unfold Search. rewrite E, E'. unfold openCursor, putToPageCache in *.
  rewrite (so_secret _ _ _ Hs), (so_urls _ _ _ Hs),
    (so_cache _ _ _ Hs), (so_order _ _ _ Hs).
  match goal with |- (let '(opened, st) := ?x in _) = _ => destruct x as [[[c|cached]|e] st'] end; [|done|done].
  destruct (ActiveOrigins c); [done|]. by rewrite renderPage_same by (done || by eapply Hopen).
Qed.
End Exchange.

(** ** Lemmas *)

Section Lemmas.
Context `{GoTime, !MapRange}.
Implicit Types (c : FederatedCursor) (o : OriginCursor) (results : list originFetchResult).

(** Items the cursor holds in hand, and the ones a page fetched, by key. *)
Definition stashedKey c (k : string) : Prop :=
  ∃ id o it, Origins c !! id = Some o ∧ it ∈ Stash o ∧ k = dedupKey it.
Definition fetchedKey results (k : string) : Prop :=
  ∃ r it, r ∈ results ∧ f_Error r = None ∧ Some it ∈ f_Items r ∧ k = dedupKey it.

(** Every stashed item belongs to the origin it is stashed under, and no
    origin has the empty ID. *)
Definition stashOwned c : Prop :=
  Origins c !! "" = None ∧
  ∀ id o it, Origins c !! id = Some o → it ∈ Stash o → ownLinks id (Links it).

(** The results of one page: at most one per origin, successes only from
    live origins. *)
Definition pageResults c results : Prop :=
  NoDup (f_OriginID <$> results) ∧
  ∀ r, r ∈ results → f_Error r = None →
    ∃ o, Origins c !! f_OriginID r = Some o ∧ hasMore o = true.

Definition freshOwned results : Prop :=
  ∀ r it, r ∈ results → f_Error r = None → Some it ∈ f_Items r → ownLinks (f_OriginID r) (Links it).

Lemma itemLess_asym x y : itemLess x y = true → itemLess y x = false.
Proof.
  unfold itemLess. rewrite (String.eqb_sym (getDatetime y)).
  destruct (String.eqb_spec (getDatetime x) (getDatetime y)); cbn; apply ltb_asym.
Qed.

Lemma itemLess_cotrans x y z : itemLess x y = false → itemLess y z = false → itemLess x z = false.
Proof.
  unfold itemLess.
  destruct (String.eqb_spec (getDatetime x) (getDatetime y)) as [E1|E1],
    (String.eqb_spec (getDatetime y) (getDatetime z)) as [E2|E2],
    (String.eqb_spec (getDatetime x) (getDatetime z)) as [E3|E3]; cbn; try congruence;
    rewrite ?E1, ?E2; eauto using ltb_cotrans.
  - rewrite <-E3. intros Ha Hb. destruct E1. rewrite E3 in *. by apply ltb_total.
Qed.

Lemma MarkError_lookup c id id' :
  Origins (MarkError id c) !! id' =
    match Origins c !! id' with
    | None => None
    | Some o => Some (if String.eqb id id'
        then mkOriginCursor (oc_ID o) (NextToken o) (NextURL o) (NextBody o) (Offset o)
               (oc_AdapterName o) (Exhausted o) true (ErrorCount o + 1) (ItemCount o)
               (LastSortValue o) (Stash o)
        else o)
    end.
Proof.
  unfold MarkError. destruct (String.eqb_spec id id') as [->|Hne].
  - destruct (Origins c !! id') as [o|] eqn:E; [|by rewrite E]. cbn. by rewrite lookup_insert_eq.
  - destruct (Origins c !! id) as [o|] eqn:E; cbn; [rewrite lookup_insert_ne by done|];
      by destruct (Origins c !! id').
Qed.

(** Phase 1 leaves every entry that did not fail as it was, and no stash
    changes. *)
Lemma index_lookup results c fresh c1 fresh1 id :
  foldl indexFetch (c, fresh) results = (c1, fresh1) →
  match Origins c !! id with
  | None => Origins c1 !! id = None
  | Some o => ∃ o1, Origins c1 !! id = Some o1 ∧ Stash o1 = Stash o ∧
      ((∀ r, r ∈ results → f_OriginID r = id → f_Error r = None) → o1 = o)
  end.
Proof.
  revert c fresh. induction results as [|r results IH]; intros c fresh; cbn.
  - intros [= <- <-]. destruct (Origins c !! id); eauto.
  - intros Hf. unfold indexFetch at 2 in Hf. cbn in Hf. destruct (f_Error r) as [e|] eqn:Er.
    + specialize (IH _ _ Hf). rewrite MarkError_lookup in IH.
      destruct (Origins c !! id) as [o|]; [|done]. destruct IH as (o1 & Ho1 & Hs & Heq).
      exists o1. split; [done|]. destruct (String.eqb_spec (f_OriginID r) id) as [Hid|Hid].
      * split; [done|]. intros Hall. rewrite (Hall r) in Er by set_solver. done.
      * split; [done|]. intros Hall. apply Heq. intros r' Hr'. apply Hall. set_solver.
    + specialize (IH _ _ Hf). destruct (Origins c !! id) as [o|]; [|done].
      destruct IH as (o1 & Ho1 & Hs & Heq). exists o1. split_and!; [done..|].
      intros Hall. apply Heq. intros r' Hr'. apply Hall. set_solver.
Qed.

Lemma index_fresh results c fresh c1 fresh1 id :
  foldl indexFetch (c, fresh) results = (c1, fresh1) → NoDup (f_OriginID <$> results) →
  ∀ r, fresh1 !! id = Some r ↔
    (r ∈ results ∧ f_OriginID r = id ∧ f_Error r = None) ∨
    (fresh !! id = Some r ∧ ∀ r', r' ∈ results → f_OriginID r' = id → f_Error r' ≠ None).
Proof.
  revert c fresh. induction results as [|r0 results IH]; intros c fresh; cbn.
  - intros [= <- <-] _ r. set_solver.
  - intros Hf [Hni Hnd]%NoDup_cons r. unfold indexFetch at 2 in Hf. cbn in Hf.
    assert (∀ r', r' ∈ results → f_OriginID r' ≠ f_OriginID r0) as Hne.
    { intros r' Hr' Heq. apply Hni. rewrite <-Heq. by apply list_elem_of_fmap_2. }
    destruct (f_Error r0) as [e|] eqn:Er; rewrite (IH _ _ Hf Hnd).
    + set_solver.
    + destruct (decide (f_OriginID r0 = id)) as [<-|Hid].
      * rewrite lookup_insert_eq. set_solver.
      * rewrite lookup_insert_ne by done. set_solver.
Qed.

(** What phase 1 computes for a page's results. *)
Lemma index_page results c c1 fresh :
  foldl indexFetch (c, ∅) results = (c1, fresh) → pageResults c results →
  (∀ id r, fresh !! id = Some r ↔ r ∈ results ∧ f_OriginID r = id ∧ f_Error r = None) ∧
  (∀ id, is_Some (fresh !! id) → id ∈ ActiveOrigins c1) ∧
  (∀ id o1, Origins c1 !! id = Some o1 → ∃ o, Origins c !! id = Some o ∧ Stash o1 = Stash o) ∧
  (∀ id o, Origins c !! id = Some o → ∃ o1, Origins c1 !! id = Some o1 ∧ Stash o1 = Stash o).
Proof.
  intros Hf [Hnd Hlive].
  assert (∀ id r, fresh !! id = Some r ↔ r ∈ results ∧ f_OriginID r = id ∧ f_Error r = None) as Hfr.
  { intros id r. rewrite (index_fresh _ _ _ _ _ id Hf Hnd). rewrite lookup_empty. naive_solver. }
  split_and!; [done|..].
  - intros id [r (Hr & <- & Er)%Hfr]. apply elem_of_ActiveOrigins.
    destruct (Hlive r Hr Er) as (o & Ho & Hm).
    pose proof (index_lookup _ _ _ _ _ (f_OriginID r) Hf) as Hl. rewrite Ho in Hl.
    destruct Hl as (o1 & Ho1 & _ & Heq). exists o1. split; [done|].
    rewrite Heq; [done|]. intros r' Hr' Hid.
    apply list_elem_of_lookup in Hr as [i Hi]. apply list_elem_of_lookup in Hr' as [j Hj].
    assert (i = j) as ->; [|congruence].
    apply (NoDup_lookup _ i j (f_OriginID r) Hnd); rewrite list_lookup_fmap, ?Hi, ?Hj; cbn; congruence.
  - intros id o1 Ho1. pose proof (index_lookup _ _ _ _ _ id Hf) as Hl.
    destruct (Origins c !! id) as [o|]; [|congruence]. exists o. split; [done|].
    destruct Hl as (o2 & ? & ? & _). congruence.
  - intros id o Ho. pose proof (index_lookup _ _ _ _ _ id Hf) as Hl. rewrite Ho in Hl. naive_solver.
Qed.

Lemma foldl_stashItem items m id :
  id ≠ "" →
  default [] (foldl stashItem m items !! id) =
    default [] (m !! id) ++ filter (λ it, ItemOriginID (Some it) = id) items.
Proof.
  intros Hid. revert m. induction items as [|it items IH]; intros m; cbn [foldl].
  - by rewrite app_nil_r.
  - rewrite IH, filter_cons. unfold stashItem.
    destruct (String.eqb_spec (ItemOriginID (Some it)) "") as [E|E].
    + rewrite decide_False by congruence. done.
    + destruct (decide (ItemOriginID (Some it) = id)) as [->|Hne].
      * rewrite lookup_insert_eq. cbn [from_option]. unfold Datatypes.id. by rewrite <-app_assoc.
      * by rewrite lookup_insert_ne.
Qed.

Lemma advance_None fresh ns ids : foldl (advanceOrigin fresh ns) None ids = None.
Proof. by induction ids. Qed.

Lemma advance_one fresh ns c c' id id' :
  advanceOrigin fresh ns (Some c) id = Some c' →
  match Origins c !! id' with
  | None => Origins c' !! id' = None
  | Some o => ∃ o', Origins c' !! id' = Some o' ∧
      Stash o' = if String.eqb id id' then default [] (ns !! id) else Stash o
  end.
Proof.
  unfold advanceOrigin, GetOriginCursor. cbn.
  destruct (Origins c !! id) as [o|] eqn:Eo.
  2: { intros [= <-]. destruct (Origins c !! id') as [o'|] eqn:E'; [|done].
       destruct (String.eqb_spec id id'); [congruence|]. eauto. }
  intros Ha. destruct (fresh !! id) as [r|]; cbn in Ha.
  - destruct (lastSortOf (f_Items r)) as [ls|]; cbn in Ha; [|done]. injection Ha as <-. cbn.
    rewrite Eo. destruct (String.eqb_spec id id') as [<-|Hne].
    + rewrite lookup_alter_eq, lookup_insert_eq, Eo. eauto.
    + rewrite lookup_alter_ne, lookup_insert_ne by done. destruct (Origins c !! id'); eauto.
  - injection Ha as <-. cbn. destruct (String.eqb_spec id id') as [<-|Hne].
    + rewrite lookup_alter_eq, Eo. eauto.
    + rewrite lookup_alter_ne by done. destruct (Origins c !! id'); eauto.
Qed.

Lemma advance_all fresh ns ids c c' id' :
  foldl (advanceOrigin fresh ns) (Some c) ids = Some c' → NoDup ids →
  match Origins c !! id' with
  | None => Origins c' !! id' = None
  | Some o => ∃ o', Origins c' !! id' = Some o' ∧
      Stash o' = if bool_decide (id' ∈ ids) then default [] (ns !! id') else Stash o
  end.
Proof.
  revert c. induction ids as [|id ids IH]; intros c; cbn [foldl].
  - intros [= <-] _. destruct (Origins c !! id'); eauto.
  - intros Hf [Hni Hnd]%NoDup_cons.
    destruct (advanceOrigin fresh ns (Some c) id) as [c1|] eqn:E1; [|by rewrite advance_None in Hf].
    specialize (IH _ Hf Hnd). apply (advance_one _ _ _ _ _ id') in E1.
    destruct (Origins c !! id') as [o|]; [|by rewrite E1 in IH].
    destruct E1 as (o1 & Ho1 & Hs1). rewrite Ho1 in IH. destruct IH as (o' & Ho' & Hs').
    exists o'. split; [done|]. rewrite Hs', Hs1.
    destruct (String.eqb_spec id id') as [->|]; repeat case_bool_decide; set_solver.
Qed.

(** The panic of phase 5 happens exactly on a null last feature. *)
Lemma lastSortOf_None items : lastSortOf items = None ↔ last items = Some None.
Proof.
  unfold lastSortOf. destruct (last items) as [[it|]|]; [|done..].
  destruct (ItemDatetime (Some it)); cbn [mbind option_bind]; [done|]. by destruct (Properties it).
Qed.

Lemma advance_panics fresh ns ids c :
  (∀ id, id ∈ ids → is_Some (Origins c !! id)) → NoDup ids →
  foldl (advanceOrigin fresh ns) (Some c) ids = None ↔
  ∃ id r, id ∈ ids ∧ fresh !! id = Some r ∧ last (f_Items r) = Some None.
Proof.
  revert c. induction ids as [|id ids IH]; intros c Hin; cbn [foldl]; [set_solver|].
  intros [Hni Hnd]%NoDup_cons.
  destruct (Hin id) as [o Ho]; [set_solver|].
  destruct (advanceOrigin fresh ns (Some c) id) as [c1|] eqn:E1.
  - rewrite IH; [|intros id' Hid'|done].
    + split; [set_solver|]. intros (id' & r & Hid' & Hr & Hl).
      apply elem_of_cons in Hid' as [->|]; [|set_solver].
      exfalso. unfold advanceOrigin, GetOriginCursor in E1. cbn in E1. rewrite Ho, Hr in E1.
      apply lastSortOf_None in Hl. by rewrite Hl in E1.
    + destruct (Hin id') as [o' Ho']; [set_solver|].
      apply (advance_one _ _ _ _ _ id') in E1. rewrite Ho' in E1. naive_solver.
  - rewrite advance_None. split; [|done]. intros _.
    unfold advanceOrigin, GetOriginCursor in E1. cbn in E1. rewrite Ho in E1.
    destruct (fresh !! id) as [r|] eqn:Er; [|done]. exists id, r.
    destruct (lastSortOf (f_Items r)) eqn:El; [done|]. apply lastSortOf_None in El. set_solver.
Qed.

Lemma pageSource_spec s c fresh id src :
  pageSource s c fresh id = Some src →
  src_OriginID src = id ∧ ∃ o, Origins c !! id = Some o ∧
    src_Items src = (Some <$> Stash o) ++ freshItems fresh id.
Proof.
  unfold pageSource, GetOriginCursor. destruct (Origins c !! id) as [o|]; [|done].
  case_match eqn:E; [done|]. intros [= <-]. cbn. eauto.
Qed.

Lemma pageSource_some s c fresh id o x :
  Origins c !! id = Some o → x ∈ (Some <$> Stash o) ++ freshItems fresh id →
  ∃ src, pageSource s c fresh id = Some src ∧ x ∈ src_Items src.
Proof.
  intros Ho Hx. unfold pageSource, GetOriginCursor. rewrite Ho.
  destruct (_ ++ _) as [|y l]; [set_solver|]. eauto.
Qed.

(** The pieces [mergeResults] computes. *)
Lemma mergeResults_inv s results c limit emitted c' :
  mergeResults s results c limit = Some (emitted, c') →
  ∃ c1 fresh merged,
    foldl indexFetch (c, ∅) results = (c1, fresh) ∧
    merged = sort_stable itemLess (mergeItemsFirstWins (omap (pageSource s c1 fresh) (ActiveOrigins c1))) ∧
    emitted = take (Z.to_nat limit) merged ∧
    foldl (advanceOrigin fresh (foldl stashItem ∅ (drop (Z.to_nat limit) merged))) (Some c1)
      (ActiveOrigins c1) = Some c'.
Proof.
  unfold mergeResults. destruct (foldl indexFetch _ _) as [c1 fresh]. intros Hm.
  apply bind_Some in Hm as (c2 & Hf & [= <- <-]). eauto 10.
Qed.

(** The merged items and the origin each is tagged with. *)
Lemma merged_owned s results c c1 fresh it :
  foldl indexFetch (c, ∅) results = (c1, fresh) → pageResults c results →
  stashOwned c → freshOwned results →
  it ∈ mergeItemsFirstWins (omap (pageSource s c1 fresh) (ActiveOrigins c1)) →
  ∃ id, id ∈ ActiveOrigins c1 ∧ id ≠ "" ∧ ItemOriginID (Some it) = id ∧ ownLinks id (Links it) ∧
    ∃ o1, Origins c1 !! id = Some o1 ∧ (Some <$> Stash o1) ++ freshItems fresh id ≠ [].
Proof.
  intros Hf Hp [H0' Hst] Hfo Hit. destruct (index_page _ _ _ _ Hf Hp) as (Hfr & _ & Hs1 & _).
  apply merge_elem in Hit as (src & x & (id & Hid & Hsrc)%list_elem_of_omap & Hx & ->).
  apply pageSource_spec in Hsrc as (<- & o1 & Ho1 & Hi). rewrite Hi in Hx.
  destruct (Hs1 _ _ Ho1) as (o & Ho & Hso).
  assert (ownLinks (src_OriginID src) (Links x)) as Hown.
  { apply elem_of_app in Hx as [(y & [= <-] & Hy)%list_elem_of_fmap|Hx].
    - rewrite Hso in Hy. by eapply Hst.
    - unfold freshItems in Hx. destruct (fresh !! src_OriginID src) as [r|] eqn:Er; [|set_solver].
      apply Hfr in Er as (Hr & <- & He). by eapply Hfo. }
  exists (src_OriginID src). split_and!; [done| |by apply ItemOriginID_Add|by apply ownLinks_Add|].
  - intros E. rewrite E in Ho. congruence.
  - exists o1. split; [done|]. intros E. rewrite E in Hx. set_solver.
Qed.

Lemma merged_keys s results c c1 fresh k :
  foldl indexFetch (c, ∅) results = (c1, fresh) → pageResults c results →
  k ∈ dedupKey <$> mergeItemsFirstWins (omap (pageSource s c1 fresh) (ActiveOrigins c1)) ↔
  stashedKey c k ∨ fetchedKey results k.
Proof.
  intros Hf Hp. destruct (index_page _ _ _ _ Hf Hp) as (Hfr & Hact & Hs1 & Hs2).
  rewrite merge_keys. split.
  - intros (src & it & (id & Hid & Hsrc)%list_elem_of_omap & Hit & ->).
    apply pageSource_spec in Hsrc as (<- & o1 & Ho1 & Hi). rewrite Hi in Hit.
    destruct (Hs1 _ _ Ho1) as (o & Ho & Hso).
    apply elem_of_app in Hit as [(y & [= <-] & Hy)%list_elem_of_fmap|Hit].
    + left. rewrite Hso in Hy. by exists (src_OriginID src), o, it.
    + right. unfold freshItems in Hit. destruct (fresh !! src_OriginID src) as [r|] eqn:Er; [|set_solver].
      apply Hfr in Er as (Hr & _ & He). by exists r, it.
  - intros [(id & o & it & Ho & Hit & ->)|(r & it & Hr & He & Hit & ->)].
    + destruct (Hs2 _ _ Ho) as (o1 & Ho1 & Hso).
      destruct (pageSource_some s c1 fresh id o1 (Some it)) as (src & Hsrc & Hin); [done| |].
      { apply elem_of_app. left. rewrite Hso. by apply list_elem_of_fmap_2. }
      exists src, it. split_and!; [|done|done]. apply list_elem_of_omap. exists id. split; [|done].
      apply elem_of_ActiveOrigins. exists o1. split; [done|]. unfold hasMore.
      rewrite bool_decide_false; [done|]. rewrite Hso. intros E. rewrite E in Hit. set_solver.
    + assert (fresh !! f_OriginID r = Some r) as Er by by apply Hfr.
      assert (f_OriginID r ∈ ActiveOrigins c1) as Ha by eauto.
      pose proof Ha as (o1 & Ho1 & _)%elem_of_ActiveOrigins.
      destruct (pageSource_some s c1 fresh (f_OriginID r) o1 (Some it)) as (src & Hsrc & Hin); [done| |].
      { apply elem_of_app. right. unfold freshItems. by rewrite Er. }
      exists src, it. split_and!; [|done|done]. apply list_elem_of_omap. eauto.
Qed.

(** After the page, an origin's stash is its share of the remainder. *)
Lemma merged_stash s results c c1 fresh merged c' n id o' :
  foldl indexFetch (c, ∅) results = (c1, fresh) → pageResults c results → stashOwned c →
  merged = sort_stable itemLess (mergeItemsFirstWins (omap (pageSource s c1 fresh) (ActiveOrigins c1))) →
  foldl (advanceOrigin fresh (foldl stashItem ∅ (drop n merged))) (Some c1) (ActiveOrigins c1) = Some c' →
  Origins c' !! id = Some o' →
  id ≠ "" ∧ is_Some (Origins c1 !! id) ∧
  Stash o' = if bool_decide (id ∈ ActiveOrigins c1)
             then filter (λ it, ItemOriginID (Some it) = id) (drop n merged) else [].
Proof.
  intros Hf Hp [H0' _] Hm Ha Ho'. destruct (index_page _ _ _ _ Hf Hp) as (_ & _ & Hs1 & _).
  apply (advance_all _ _ _ _ _ id) in Ha; [|apply NoDup_ActiveOrigins].
  destruct (Origins c1 !! id) as [o1|] eqn:Ho1; [|congruence].
  destruct Ha as (o2 & Ho2 & Hs). rewrite Ho' in Ho2. injection Ho2 as <-.
  assert (id ≠ "") as Hid. { intros ->. destruct (Hs1 _ _ Ho1) as (? & ? & _). congruence. }
  split_and!; [done|by eexists|]. rewrite Hs. case_bool_decide as Hact.
  - by rewrite foldl_stashItem, lookup_empty by done.
  - destruct (Stash o1) as [|it l] eqn:Es; [done|]. destruct Hact.
    apply elem_of_ActiveOrigins. exists o1. split; [done|]. unfold hasMore.
    by rewrite Es, bool_decide_false.
Qed.

Lemma mergeResults_conserves s results c limit emitted c' :
  pageResults c results → stashOwned c → freshOwned results →
  mergeResults s results c limit = Some (emitted, c') →
  (∀ k, k ∈ dedupKey <$> emitted ∨ stashedKey c' k ↔ stashedKey c k ∨ fetchedKey results k) ∧
  (∀ k, k ∈ dedupKey <$> emitted → ¬ stashedKey c' k) ∧
  stashOwned c'.
Proof.
  intros Hp Hst Hfo (c1 & fresh & merged & Hf & Hm & -> & Ha)%mergeResults_inv.
  assert (Hown : ∀ it, it ∈ merged → ∃ id, id ∈ ActiveOrigins c1 ∧ id ≠ "" ∧
    ItemOriginID (Some it) = id ∧ ownLinks id (Links it)).
  { intros it Hit. rewrite Hm, sort_stable_elem in Hit.
    destruct (merged_owned _ _ _ _ _ _ Hf Hp Hst Hfo Hit) as (id & ? & ? & ? & ? & _). eauto. }
  assert (Hk : ∀ k, k ∈ dedupKey <$> merged ↔ stashedKey c k ∨ fetchedKey results k).
  { intros k. rewrite Hm, sort_stable_perm. by apply merged_keys. }
  assert (Hnd : NoDup (dedupKey <$> merged)).
  { rewrite Hm, sort_stable_perm. apply merge_keys_NoDup. }
  assert (Hsk : ∀ k, stashedKey c' k ↔ k ∈ dedupKey <$> drop (Z.to_nat limit) merged).
  { intros k. split.
    - intros (id & o' & it & Ho' & Hit & ->). apply list_elem_of_fmap_2.
      destruct (merged_stash s _ _ _ _ _ _ _ _ _ Hf Hp Hst Hm Ha Ho') as (_ & _ & Hs).
      rewrite Hs in Hit. case_bool_decide; [|set_solver]. by apply list_elem_of_filter in Hit as [_ ?].
    - intros (it & -> & Hit)%list_elem_of_fmap.
      destruct (Hown it) as (id & Hact & Hid & Hio & _).
      { eapply elem_of_sublist; [done|apply sublist_drop]. }
      pose proof Hact as (o1 & Ho1 & _)%elem_of_ActiveOrigins.
      pose proof (advance_all _ _ _ _ _ id Ha (NoDup_ActiveOrigins _)) as Hl. rewrite Ho1 in Hl.
      destruct Hl as (o' & Ho' & Hs). rewrite bool_decide_true in Hs by done.
      rewrite foldl_stashItem, lookup_empty in Hs by done.
      exists id, o', it. split_and!; [done| |done]. rewrite Hs. by apply list_elem_of_filter. }
  split_and!.
  - intros k. rewrite Hsk, <-Hk, <-elem_of_app, <-fmap_app. by rewrite take_drop.
  - intros k Hin Hs. apply Hsk in Hs.
    rewrite <-(take_drop (Z.to_nat limit) merged), fmap_app in Hnd.
    apply NoDup_app in Hnd as (_ & Hd & _). by eapply Hd.
  - split.
    + pose proof (advance_all _ _ _ _ _ "" Ha (NoDup_ActiveOrigins _)) as Hl.
      destruct (Origins c1 !! "") as [o1|] eqn:E; [|done].
      destruct (index_page _ _ _ _ Hf Hp) as (_ & _ & Hs1 & _).
      destruct (Hs1 _ _ E) as (o & Ho & _). destruct Hst as [Hst _]. congruence.
    + intros id o' it Ho' Hit.
      destruct (merged_stash s _ _ _ _ _ _ _ _ _ Hf Hp Hst Hm Ha Ho') as (_ & _ & Hs).
      rewrite Hs in Hit. case_bool_decide; [|set_solver].
      apply list_elem_of_filter in Hit as [Hio Hit].
      destruct (Hown it) as (id' & _ & _ & Hio' & Hl); [|congruence].
      eapply elem_of_sublist; [done|apply sublist_drop].
Qed.

End Lemmas.

(** ** Whole pages and sessions *)

Section Pages.
Context `{GoTime, !Crypto, !CursorCodec, !MapRange}.
Implicit Types (c : FederatedCursor) (s : PaginatedSearcher).

(** The pages of one pagination session: every page uses the origins as
    they behave at that time, and starts from the cursor the previous page
    minted.  [fetched] collects what the origins returned per page and
    [items] what each page emitted. *)
Inductive session (req : SearchRequest) (limit : Z)
  : FederatedCursor → list PaginatedSearcher → list (list originFetchResult) →
    list (list Item) → FederatedCursor → Prop :=
| session_nil c : session req limit c [] [] [] c
| session_cons c s ss cursorStr r c1 fetched items c2 :
    renderPage s req cursorStr limit c = Some (r, c1) →
    session req limit (nextCursorOf cursorStr c1) ss fetched items c2 →
    session req limit c (s :: ss)
      (fetchFromOrigins s req c (toFetch c limit) limit :: fetched) (res_Items r :: items) c2.

(** No origin returns items that carry another proxy's origin link. *)
Definition wellBehaved s : Prop :=
  ∀ id sr q it, origins s !! id = Some sr → Some it ∈ rep_Items (srch_Search sr q) →
    ownLinks id (Links it).

Lemma elem_of_toFetch c limit id :
  id ∈ toFetch c limit ↔ ∃ o, Origins c !! id = Some o ∧ Exhausted o = false ∧
    retired o = false ∧ (Z.of_nat (length (Stash o)) < limit)%Z.
Proof.
  unfold toFetch. rewrite list_elem_of_In, filter_In, <-list_elem_of_In, elem_of_ActiveOrigins.
  unfold shouldFetch, GetOriginCursor. split.
  - intros [(o & Ho & _) Hs]. rewrite Ho in Hs. bool_to_prop. eauto.
  - intros (o & Ho & Hx & Hr & Hl). rewrite Ho. split.
    + exists o. split; [done|]. unfold hasMore. by rewrite Hr, Hx, orb_true_r.
    + rewrite Hx, Hr. cbn. by apply Z.ltb_lt.
Qed.

Lemma fetch_ids s req c limit ids :
  f_OriginID <$> fetchFromOrigins s req c ids limit = ids.
Proof.
  unfold fetchFromOrigins, Fanout.fanOut. induction ids as [|id ids IH]; cbn; [done|].
  rewrite IH. f_equal. unfold fetchOne. by destruct (origins s !! id).
Qed.

Lemma pageResults_fetch s req c limit :
  pageResults c (fetchFromOrigins s req c (toFetch c limit) limit).
Proof.
  split.
  - rewrite fetch_ids. unfold toFetch. apply NoDup_ListNoDup, List.NoDup_filter, NoDup_ListNoDup.
    apply NoDup_ActiveOrigins.
  - intros r Hr _. assert (f_OriginID r ∈ toFetch c limit) as Hin.
    { rewrite <-(fetch_ids s req c limit). by apply list_elem_of_fmap_2. }
    apply elem_of_toFetch in Hin as (o & Ho & Hx & Hn & _). exists o. split; [done|].
    unfold hasMore. by rewrite Hn, Hx, orb_true_r.
Qed.

Lemma freshOwned_fetch s req c limit ids :
  wellBehaved s → freshOwned (fetchFromOrigins s req c ids limit).
Proof.
  intros Hw r it Hr He Hit. apply list_elem_of_fmap in Hr as (id & -> & _). cbn in *.
  unfold fetchOne in *. destruct (origins s !! id) as [sr|] eqn:E; [|done]. cbn in *. by eapply Hw.
Qed.

Lemma renderPage_inv s req cs limit c r c' :
  renderPage s req cs limit c = Some (r, c') →
  ∃ c1, mergeResults s (fetchFromOrigins s req c (toFetch c limit) limit) c limit =
          Some (res_Items r, c1) ∧
    c' = addReturned (length (res_Items r)) c1 ∧
    res_TotalCount r = TotalReturned c' ∧ res_SelfCursor r = cs ∧
    res_NextCursor r = (if HasMore c' then match Encode (cursorSecret s) (nextCursorOf cs c') with Ok t => t | Err _ => "" end else "") ∧
    statusesOf r = originStatuses (errKindsOf (fetchFromOrigins s req c (toFetch c limit) limit)) c'.
Proof.
  unfold renderPage. intros Hr. apply bind_Some in Hr as ([items c1] & Hm & Hr).
  injection Hr as <- <-. exists c1. cbn [res_Items res_TotalCount res_SelfCursor res_NextCursor].
  by split_and!.
Qed.

(** Merging changes nothing of a cursor but its entries. *)
Lemma index_fields results c fresh c1 fresh1 :
  foldl indexFetch (c, fresh) results = (c1, fresh1) → ∃ os, c1 = withOrigins os c.
Proof.
  revert c fresh. induction results as [|r results IH]; intros c fresh; cbn.
  { intros [= <- <-]. exists (Origins c). by destruct c. }
  unfold indexFetch at 2. destruct (f_Error r); intros Hf; apply IH in Hf as [os ->]; [|by exists os].
  cbn. unfold MarkError. case_match; by exists os.
Qed.

Lemma advance_fields fresh ns ids c c' :
  foldl (advanceOrigin fresh ns) (Some c) ids = Some c' → ∃ os, c' = withOrigins os c.
Proof.
  revert c. induction ids as [|id ids IH]; intros c; cbn [foldl]; [intros [= <-]; exists (Origins c); by destruct c|].
  destruct (advanceOrigin fresh ns (Some c) id) as [c1|] eqn:E1; [|by rewrite advance_None].
  intros Hf. apply IH in Hf as [os ->]. unfold advanceOrigin in E1. cbn in E1.
  destruct (GetOriginCursor c id); [|injection E1 as <-; by exists os].
  destruct (fresh !! id) as [r|]; cbn in E1; [destruct (lastSortOf _); [|done]|]; injection E1 as <-; by exists os.
Qed.

Lemma mergeResults_fields s results c limit emitted c' :
  mergeResults s results c limit = Some (emitted, c') → ∃ os, c' = withOrigins os c.
Proof.
  intros (c1 & fresh & merged & Hf & _ & _ & Ha)%mergeResults_inv.
  apply index_fields in Hf as [os ->]. apply advance_fields in Ha as [os' ->]. by exists os'.
Qed.

Lemma nextCursor_stash cs c id o' :
  Origins (nextCursorOf cs c) !! id = Some o' ↔ ∃ o, Origins c !! id = Some o ∧ o' = cloneOrigin o.
Proof. cbn. rewrite lookup_fmap_Some. naive_solver. Qed.

Lemma stashedKey_next cs c k : stashedKey (nextCursorOf cs c) k ↔ stashedKey c k.
Proof.
  unfold stashedKey. split.
  - intros (id & o' & it & (o & Ho & ->)%nextCursor_stash & Hit & ->). by exists id, o, it.
  - intros (id & o & it & Ho & Hit & ->). exists id, (cloneOrigin o), it.
    rewrite nextCursor_stash. eauto.
Qed.

Lemma stashOwned_next cs c : stashOwned c → stashOwned (nextCursorOf cs c).
Proof.
  intros [He Hs]. split.
  - cbn. by rewrite lookup_fmap, He.
  - intros id o' it (o & Ho & ->)%nextCursor_stash Hit. by eapply Hs.
Qed.

Lemma stashOwned_New now qh ph ids cfg :
  "" ∉ ids → stashOwned (NewFederatedCursor now qh ph ids cfg).
Proof.
  intros Hni. split; [rewrite lookup_New; by rewrite bool_decide_false|].
  intros id o it. rewrite lookup_New. case_bool_decide; [|done]. intros [= <-]. set_solver.
Qed.

Lemma HasMore_false_no_stash c k : HasMore c = false → ¬ stashedKey c k.
Proof.
  intros Hm (id & o & it & Ho & Hit & _). apply not_true_iff_false in Hm. apply Hm.
  apply HasMore_spec. exists id, o. split; [done|]. unfold hasMore.
  rewrite bool_decide_false; [done|]. intros E. rewrite E in Hit. set_solver.
Qed.

Lemma session_conserves req limit c ss fetched items c2 :
  session req limit c ss fetched items c2 → Forall wellBehaved ss → stashOwned c →
  stashOwned c2 ∧
  ∀ k, (∃ page, page ∈ items ∧ k ∈ dedupKey <$> page) ∨ stashedKey c2 k ↔
       stashedKey c k ∨ ∃ rs, rs ∈ fetched ∧ fetchedKey rs k.
Proof.
  induction 1 as [c|c s ss cs r c1 fetched items c2 Hr Hs IH]; intros Hw Hst.
  { split; [done|]. set_solver. }
  apply Forall_cons in Hw as [Hw1 Hw]. apply renderPage_inv in Hr as (c0 & Hm & -> & _).
  destruct (mergeResults_conserves _ _ _ _ _ _ (pageResults_fetch s req c limit) Hst
    (freshOwned_fetch s req c limit _ Hw1) Hm) as (Hk & _ & Hst').
  destruct (IH Hw) as (Hst2 & IHk).
  { apply stashOwned_next. exact Hst'. }
  split; [done|]. intros k. specialize (IHk k). specialize (Hk k). rewrite stashedKey_next in IHk.
  change (stashedKey (addReturned _ c0) k) with (stashedKey c0 k) in IHk.
  split.
  - intros [(page & [->|Hpage]%elem_of_cons & Hin)|Hs2].
    + destruct (proj1 Hk (or_introl Hin)) as [?|?]; [by left|right; eexists; split; [by left|done]].
    + destruct (proj1 IHk) as [Hs0|(rs & Hrs & Hin2)]; [left; eauto| |right; set_solver].
      destruct (proj1 Hk (or_intror Hs0)) as [?|?]; [by left|right; eexists; split; [by left|done]].
    + destruct (proj1 IHk (or_intror Hs2)) as [Hs0|(rs & Hrs & Hin2)]; [|right; set_solver].
      destruct (proj1 Hk (or_intror Hs0)) as [?|?]; [by left|right; eexists; split; [by left|done]].
  - assert (stashedKey c0 k → (∃ page, page ∈ res_Items r :: items ∧ k ∈ dedupKey <$> page) ∨
      stashedKey c2 k) as Hgo.
    { intros Hs0. destruct (proj2 IHk (or_introl Hs0)) as [(page & ? & ?)|]; [left; set_solver|by right]. }
    intros [Hs0|(rs & [->|Hrs]%elem_of_cons & Hin)].
    + destruct (proj2 Hk (or_introl Hs0)) as [?|?]; [left; set_solver|auto].
    + destruct (proj2 Hk (or_intror Hin)) as [?|?]; [left; set_solver|auto].
    + destruct (proj2 IHk) as [(page & ? & ?)|]; [right; eauto|left; set_solver|by right].
Qed.

(** Entries of origins that failed this page, after the whole page. *)
Lemma advance_error fresh ns ids c c' id o :
  foldl (advanceOrigin fresh ns) (Some c) ids = Some c' → fresh !! id = None →
  Origins c !! id = Some o →
  ∃ o', Origins c' !! id = Some o' ∧ Error o' = Error o ∧ ErrorCount o' = ErrorCount o ∧
    Exhausted o' = Exhausted o.
Proof.
  revert c o. induction ids as [|id0 ids IH]; intros c o; cbn [foldl].
  { intros [= <-] _ Ho. eauto. }
  intros Hf Hn Ho.
  destruct (advanceOrigin fresh ns (Some c) id0) as [c1|] eqn:E1; [|by rewrite advance_None in Hf].
  assert (∃ o1, Origins c1 !! id = Some o1 ∧ Error o1 = Error o ∧ ErrorCount o1 = ErrorCount o ∧
    Exhausted o1 = Exhausted o) as (o1 & Ho1 & He1 & Hc1 & Hx1).
  { unfold advanceOrigin, GetOriginCursor in E1. cbn in E1.
    destruct (Origins c !! id0) as [o0|] eqn:E0; [|injection E1 as <-; eauto].
    destruct (decide (id0 = id)) as [->|Hne].
    - rewrite Hn in E1. cbn in E1. injection E1 as <-. cbn. rewrite lookup_alter_eq, Ho. eauto.
    - destruct (fresh !! id0) as [r|]; cbn in E1.
      + destruct (lastSortOf _) as [ls|]; cbn in E1; [|done]. injection E1 as <-. cbn.
        rewrite lookup_alter_ne, lookup_insert_ne by done. eauto.
      + injection E1 as <-. cbn. rewrite lookup_alter_ne by done. eauto. }
  destruct (IH _ _ Hf Hn Ho1) as (o' & Ho' & He' & Hc' & Hx').
  exists o'. split_and!; congruence.
Qed.

Lemma index_error results c fresh c1 fresh1 id o :
  foldl indexFetch (c, fresh) results = (c1, fresh1) → Origins c !! id = Some o →
  ∃ o1, Origins c1 !! id = Some o1 ∧ Exhausted o1 = Exhausted o ∧ Stash o1 = Stash o ∧
    (Error o = true ∨ (∃ r, r ∈ results ∧ f_OriginID r = id ∧ f_Error r ≠ None) → Error o1 = true).
Proof.
  revert c fresh o. induction results as [|r results IH]; intros c fresh o; cbn.
  { intros [= <- <-] Ho. exists o. split_and!; set_solver. }
  unfold indexFetch at 2. cbn. destruct (f_Error r) as [e|] eqn:Er; intros Hf Ho.
  - edestruct IH as (o1 & Ho1 & Hx1 & Hs1 & He1); [done|rewrite MarkError_lookup, Ho; done|].
    exists o1. split; [done|]. destruct (String.eqb_spec (f_OriginID r) id); cbn in *.
    + split_and!; [done..|]. intros _. apply He1. by left.
    + split_and!; [done..|]. intros [|(r' & Hr' & Hid & Hne)]; apply He1; [by left|right].
      set_solver.
  - edestruct IH as (o1 & Ho1 & Hx1 & Hs1 & He1); [done..|].
    exists o1. split_and!; [done..|]. intros [|(r' & Hr' & Hid & Hne)]; apply He1; [by left|right].
    set_solver.
Qed.

(** A failed fetch leaves its origin in error, and not advanced. *)
Lemma page_error s req c limit emitted c' r :
  let results := fetchFromOrigins s req c (toFetch c limit) limit in
  mergeResults s results c limit = Some (emitted, c') →
  r ∈ results → f_Error r ≠ None →
  ∃ o', Origins c' !! f_OriginID r = Some o' ∧ Error o' = true ∧ Exhausted o' = false.
Proof.
  intros results (c1 & fresh & merged & Hf & _ & _ & Ha)%mergeResults_inv Hr He. subst results.
  assert (f_OriginID r ∈ toFetch c limit) as Hin.
  { rewrite <-(fetch_ids s req c limit). by apply list_elem_of_fmap_2. }
  apply elem_of_toFetch in Hin as (o & Ho & Hx & _).
  destruct (index_error _ _ _ _ _ _ _ Hf Ho) as (o1 & Ho1 & Hx1 & _ & He1).
  destruct (index_page _ _ _ _ Hf (pageResults_fetch s req c limit)) as (Hfr & _).
  assert (fresh !! f_OriginID r = None) as Hn.
  { destruct (fresh !! f_OriginID r) as [r'|] eqn:E; [|done]. apply Hfr in E as (Hr' & Hid & He').
    destruct (pageResults_fetch s req c limit) as [Hnd _].
    apply list_elem_of_lookup in Hr as [i Hi]. apply list_elem_of_lookup in Hr' as [j Hj].
    assert (i = j) as ->; [|congruence].
    apply (NoDup_lookup _ i j (f_OriginID r) Hnd); rewrite list_lookup_fmap, ?Hi, ?Hj; cbn; congruence. }
  destruct (advance_error _ _ _ _ _ _ _ Ha Hn Ho1) as (o' & Ho' & He' & _ & Hx').
  exists o'. split_and!; [done| |congruence]. rewrite He'. apply He1. right. eauto.
Qed.

(** A failed origin with an empty stash stays without one. *)
Lemma dead_page s req c limit emitted c' id :
  mergeResults s (fetchFromOrigins s req c (toFetch c limit) limit) c limit = Some (emitted, c') →
  (∀ sr q, origins s !! id = Some sr → rep_Error (srch_Search sr q) ≠ None) →
  id ∈ toFetch c limit → (∀ o, Origins c !! id = Some o → Stash o = []) →
  wellBehaved s → stashOwned c →
  ∃ o', Origins c' !! id = Some o' ∧ Exhausted o' = false ∧ Stash o' = [].
Proof.
  intros Hm Hdead Hin Hst Hw Hown.
  assert (fetchOne s req c limit id ∈ fetchFromOrigins s req c (toFetch c limit) limit) as Hx
    by (unfold fetchFromOrigins, Fanout.fanOut; apply list_elem_of_fmap; by exists id).
  assert (f_OriginID (fetchOne s req c limit id) = id) as Hid
    by (unfold fetchOne; by destruct (origins s !! id)).
  assert (f_Error (fetchOne s req c limit id) ≠ None) as He.
  { unfold fetchOne. destruct (origins s !! id) as [sr|] eqn:E; [cbn; by apply Hdead|done]. }
  destruct (page_error _ _ _ _ _ _ _ Hm Hx He) as (o' & Ho' & _ & Hxo). rewrite Hid in Ho'.
  exists o'. split_and!; [done..|].
  apply mergeResults_inv in Hm as (c1 & fresh & merged & Hf & Hmg & _ & Ha).
  pose proof (pageResults_fetch s req c limit) as Hp.
  destruct (merged_stash s _ _ _ _ _ _ _ _ _ Hf Hp Hown Hmg Ha Ho') as (_ & _ & ->).
  case_bool_decide; [|done].
  destruct (filter _ _) as [|it l] eqn:Efl; [done|exfalso].
  assert (it ∈ filter (λ it, ItemOriginID (Some it) = id) (drop (Z.to_nat limit) merged)) as Hit
    by (rewrite Efl; set_solver).
  apply list_elem_of_filter in Hit as [Hio Hit].
  eapply elem_of_sublist in Hit; [|apply sublist_drop].
  rewrite Hmg, sort_stable_elem in Hit.
  destruct (merged_owned _ _ _ _ _ _ Hf Hp Hown (freshOwned_fetch _ _ _ _ _ Hw) Hit)
    as (id' & _ & _ & Hio' & _ & o1 & Ho1 & Hne).
  assert (id' = id) as -> by congruence. apply Hne.
  destruct (index_page _ _ _ _ Hf Hp) as (Hfr & _ & Hs1 & _).
  destruct (Hs1 _ _ Ho1) as (o & Ho & Hso). rewrite Hso, (Hst o Ho). cbn.
  unfold freshItems. destruct (fresh !! id) as [r|] eqn:Er; [|done].
  apply Hfr in Er as (Hr & Hrid & Hre). exfalso. apply He.
  apply list_elem_of_fmap in Hr as (id2 & -> & _). cbn in *.
  assert (id2 = id) as ->; [|done]. rewrite <-Hrid. unfold fetchOne. by destruct (origins s !! id2).
Qed.

Lemma errKinds_keep (results : list originFetchResult) (m : gmap string string) id k :
  m !! id = Some k → id ∉ f_OriginID <$> results → foldl addErrKind m results !! id = Some k.
Proof.
  revert m. induction results as [|r results IH]; intros m Hm Hni; cbn [foldl]; [done|].
  apply IH; [|set_solver]. unfold addErrKind. destruct (f_Error r); [|done].
  rewrite lookup_insert_ne; set_solver.
Qed.

Lemma errKinds_lookup (results : list originFetchResult) (m : gmap string string) e r :
  NoDup (f_OriginID <$> results) → r ∈ results → f_Error r = Some e →
  foldl addErrKind m results !! f_OriginID r = Some (classifyOriginError e).
Proof.
  intros Hnd Hr He. revert m.
  induction results as [|r0 results IH]; [set_solver|]. intros m. cbn [foldl].
  cbn in Hnd. apply NoDup_cons in Hnd as [Hni Hnd].
  apply elem_of_cons in Hr as [->|Hr]; [|by apply IH].
  apply errKinds_keep; [|done]. unfold addErrKind. by rewrite He, lookup_insert_eq.
Qed.

Lemma elem_of_failed statuses id :
  id ∈ failedFromStatuses statuses ↔ ∃ st, st ∈ statuses ∧ os_ID st = id ∧ os_Error st ≠ "".
Proof.
  unfold failedFromStatuses, originFailures, sort_Strings.
  rewrite sort_stable_elem, list_elem_of_omap. split.
  - intros (st & Hin & Hs). destruct (String.eqb_spec (os_Error st) ""); cbn in Hs; naive_solver.
  - intros (st & Hin & <- & Hne). exists st. split; [done|].
    by rewrite (proj2 (String.eqb_neq _ _)).
Qed.

Lemma elem_of_originStatuses kinds c st :
  st ∈ originStatuses kinds c ↔ ∃ id o, Origins c !! id = Some o ∧ st = statusOfOrigin kinds (id, o).
Proof.
  unfold originStatuses. rewrite sort_stable_elem, list_elem_of_fmap. split.
  - intros ([id o] & -> & Hin%elem_of_range). eauto.
  - intros (id & o & Ho & ->). exists (id, o). by rewrite elem_of_range.
Qed.

End Pages.

(** ** Properties *)

Section Properties.
Context `{GoTime, !Crypto, !CursorCodec, !PageCache.PageCodec, !QueryCodec, !ContextCodec,
  !MapRange, Store St}.
Implicit Types (c : FederatedCursor) (s : PaginatedSearcher).


(** C14: A rendered page holds at most [limit] items, ordered by datetime
    descending then ID ascending, without a repeated dedup key and disjoint
    from what stays stashed; its total is that of the cursor it was rendered
    from plus the number of its items, and the cursor after it carries that
    total; it names the cursor it was reached by; and its next cursor is the
    token of the cursor after it, with this page as the previous one, exactly
    while an origin is live. *)
Theorem renderPage_contract s req cursorStr limit c r c' :
  wellBehaved s → stashOwned c → renderPage s req cursorStr limit c = Some (r, c') →
  length (res_Items r) ≤ Z.to_nat limit ∧
  sorted_by itemLess (res_Items r) ∧
  NoDup (dedupKey <$> res_Items r) ∧
  (∀ k, k ∈ dedupKey <$> res_Items r → ¬ stashedKey c' k) ∧
  res_TotalCount r = (TotalReturned c + Z.of_nat (length (res_Items r)))%Z ∧
  TotalReturned c' = res_TotalCount r ∧ res_SelfCursor r = cursorStr ∧
  (HasMore c' = false → res_NextCursor r = "") ∧
  (∀ t, HasMore c' = true → Encode (cursorSecret s) (nextCursorOf cursorStr c') = Ok t → res_NextCursor r = t).
Proof.
  intros Hw Hst Hr. apply renderPage_inv in Hr as (c1 & Hm & -> & Ht & Hsc & Hn & _).
  destruct (mergeResults_fields _ _ _ _ _ _ Hm) as [os Hfields].
  destruct (mergeResults_conserves _ _ _ _ _ _ (pageResults_fetch s req c limit) Hst
    (freshOwned_fetch s req c limit _ Hw) Hm) as (_ & Hd & _).
  apply mergeResults_inv in Hm as (c0 & fresh & merged & _ & Hmg & He & _).
  assert (sorted_by itemLess merged) as Hsorted.
  { subst merged. apply sort_stable_sorted; [apply itemLess_asym|apply itemLess_cotrans]. }
  split_and!; try done.
  6: by intros t Hmore Henc; rewrite Hn, Hmore, Henc.
  5: by intros Hmore; rewrite Hn, Hmore.
  4: by rewrite Ht, Hfields.
  - rewrite He, length_take. lia.
  - rewrite He. unfold sorted_by in *. rewrite <-(take_drop (Z.to_nat limit) merged) in Hsorted.
    by apply StronglySorted_app_1_l in Hsorted.
  - rewrite He. eapply sublist_NoDup; [|apply fmap_sublist, sublist_take].
    rewrite Hmg, sort_stable_perm. apply merge_keys_NoDup.
Qed.

(** A page rendered while an origin failed is never put in the page
    cache: the store after the request is the store the lookup left, and
    the response reports that origin with the class of its error. *)
Theorem failed_page_not_cached now s principal req cursorStr st st1 st2 c r x e :
  let limit := pageLimit s req in
  openCursor now s (principalHashFromContext principal) req cursorStr st = (Ok (inl c), st1) →
  x ∈ fetchFromOrigins s req c (toFetch c limit) limit → f_Error x = Some e →
  Search now s principal req cursorStr st = (Ok r, st2) →
  st2 = st1 ∧ f_OriginID x ∈ failedFromStatuses (statusesOf r) ∧
  ∃ status, status ∈ statusesOf r ∧ os_ID status = f_OriginID x ∧
    os_Error status = classifyOriginError e.
Proof.
  intros limit Hopen Hx He Hs. unfold Search in Hs. rewrite Hopen in Hs. fold limit in Hs.
  destruct (ActiveOrigins c) as [|a l] eqn:Eact.
  { exfalso. apply list_elem_of_fmap in Hx as (id & _ & Hid). unfold toFetch in Hid.
    rewrite Eact in Hid. set_solver. }
  destruct (renderPage s req cursorStr limit c) as [[r' c']|] eqn:Er; [|discriminate Hs].
  apply renderPage_inv in Er as (c1 & Hm & -> & _ & _ & _ & Hst).
  destruct (page_error _ _ _ _ _ _ _ Hm Hx ltac:(congruence)) as (o' & Ho' & Herr & _).
  assert (statusOfOrigin (errKindsOf (fetchFromOrigins s req c (toFetch c limit) limit))
    (f_OriginID x, o') ∈ statusesOf r') as Hin.
  { rewrite Hst. apply elem_of_originStatuses. eauto. }
  assert (os_Error (statusOfOrigin (errKindsOf (fetchFromOrigins s req c (toFetch c limit) limit))
    (f_OriginID x, o')) = classifyOriginError e) as Hkind.
  { cbn. rewrite Herr. unfold errKindsOf.
    by rewrite (errKinds_lookup _ _ e x (proj1 (pageResults_fetch s req c limit)) Hx). }
  assert (f_OriginID x ∈ failedFromStatuses (statusesOf r')) as Hfail.
  { apply elem_of_failed. eexists. split_and!; [done|done|]. rewrite Hkind. by destruct e. }
  assert (bool_decide (failedFromStatuses (statusesOf r') = []) = false) as Hb.
  { apply bool_decide_eq_false. intros E. rewrite E in Hfail. set_solver. }
  rewrite Hb, andb_false_r in Hs. injection Hs as <- <-. eauto 10.
Qed.

(** Merging a page fails in one situation only, and then always: an
    origin that answered ended its feature list with a null. *)
Theorem mergeResults_panics_iff s results c limit :
  pageResults c results →
  mergeResults s results c limit = None ↔
  ∃ r, r ∈ results ∧ f_Error r = None ∧ last (f_Items r) = Some None.
Proof.
  intros Hp. unfold mergeResults.
  destruct (foldl indexFetch (c, ∅) results) as [c1 fresh] eqn:Hf.
  destruct (index_page _ _ _ _ Hf Hp) as (Hfr & Hact & _).
  match goal with |- context [foldl (advanceOrigin fresh ?ns) (Some c1) ?ids] =>
    pose proof (advance_panics fresh ns ids c1) as Hadv end.
  rewrite bind_None. split.
  - intros [Hn|(c2 & _ & ?)]; [|done]. apply Hadv in Hn as (id & r & _ & Hr & Hl).
    + apply Hfr in Hr as (? & _ & ?). eauto.
    + intros id (o & Ho & _)%elem_of_ActiveOrigins. by eexists.
    + apply NoDup_ActiveOrigins.
  - intros (r & Hr & He & Hl). left. assert (fresh !! f_OriginID r = Some r) as Er by by apply Hfr.
    apply Hadv.
    + intros id (o & Ho & _)%elem_of_ActiveOrigins. by eexists.
    + apply NoDup_ActiveOrigins.
    + exists (f_OriginID r), r. split_and!; [eauto|done|done].
Qed.

(** An origin that fails on every page is asked again on every page and
    keeps the session alive for ever: after any number of pages its entry
    is still neither exhausted nor retired and the cursor reports more
    results, because the cursor handed to the next page has lost the count
    of failures. *)
Theorem dead_origin_never_retired req limit c ss fetched items c2 id :
  session req limit c ss fetched items c2 → (0 < limit)%Z →
  Forall (λ s, ∀ sr q, origins s !! id = Some sr → rep_Error (srch_Search sr q) ≠ None) ss →
  id ∈ toFetch c limit → (∀ o, Origins c !! id = Some o → Stash o = []) →
  Forall wellBehaved ss → stashOwned c →
  HasMore c2 = true ∧ id ∈ toFetch c2 limit.
Proof.
  intros Hs Hl Hdead Hin Hst Hw Hown.
  cut (∃ o, Origins c2 !! id = Some o ∧ Exhausted o = false ∧ retired o = false ∧ Stash o = []).
  { intros (o & Ho & Hx & Hr & Hso). split.
    - apply HasMore_spec. exists id, o. split; [done|]. unfold hasMore. by rewrite Hr, Hx, orb_true_r.
    - apply elem_of_toFetch. exists o. rewrite Hso. split_and!; [done..|cbn; lia]. }
  induction Hs as [c|c s ss cs r c1 fetched items c2 Hr Hs IH].
  { apply elem_of_toFetch in Hin as (o & Ho & Hx & Hrt & _). exists o. naive_solver. }
  apply Forall_cons in Hdead as [Hd1 Hdead]. apply Forall_cons in Hw as [Hw1 Hw].
  apply renderPage_inv in Hr as (c0 & Hm & -> & _).
  pose proof (dead_page s req c limit (res_Items r) c0 id Hm Hd1 Hin Hst Hw1 Hown)
    as (o' & Ho' & Hx' & Hs').
  destruct (mergeResults_conserves _ _ _ _ _ _ (pageResults_fetch s req c limit) Hown
    (freshOwned_fetch s req c limit _ Hw1) Hm) as (_ & _ & Hown').
  assert (Origins (nextCursorOf cs (addReturned (length (res_Items r)) c0)) !! id =
    Some (cloneOrigin o')) as Hnext by (cbn; by rewrite lookup_fmap, Ho').
  apply IH; [done| | |done|].
  - apply elem_of_toFetch. exists (cloneOrigin o'). cbn. unfold retired; cbn.
    rewrite andb_false_r, Hs'. split_and!; [done..|cbn; lia].
  - intros o Ho. rewrite Hnext in Ho. by injection Ho as <-.
  - by apply stashOwned_next.
Qed.

End Properties.

(** ** Witnesses *)

Module Witness.

#[local] Instance rawTime : GoTime :=
  {| Time := string; time_Parse _ _ := None; time_Format _ t := t |}.
#[local] Instance plainCrypto : Crypto :=
  {| sha256 s := s; hmac_sha256 k m := k +:+ "#" +:+ m |}.
#[local] Instance noJSON : CursorCodec := {| json_Marshal _ := Some "{}"; json_Unmarshal _ := None |}.
#[local] Instance noPage : PageCache.PageCodec :=
  {| PageCache.page_Marshal _ := None; PageCache.page_Unmarshal _ := None |}.
#[local] Instance noQuery : QueryCodec := {| query_Marshal _ := None |}.
#[local] Instance noCtx : ContextCodec := {| ctx_Marshal _ := None; ctx_Unmarshal _ := None |}.

Definition item (id dt : string) : Item :=
  mkItem id "c" [] (Some [("datetime", VStr dt)]) VNil.

(** An origin that answers the same items on every request, one page. *)
Definition serving (items : list (option Item)) (url : string) : Searcher :=
  mkSearcher (λ _, mkReply items "" "" "" "" None) url.
Definition dead (url : string) : Searcher :=
  mkSearcher (λ _, mkReply [] "" "" "" "" (Some ErrCircuitOpen)) url.

Definition world : gmap string Searcher :=
  {["a" := serving [Some (item "1" "2021"); Some (item "2" "2019")] "https://a";
    "b" := serving [Some (item "3" "2020")] "https://b"]}.
Definition paginator (os : gmap string Searcher) : PaginatedSearcher :=
  mkPaginator os (srch_BaseURL <$> os) 1 10 "k" None.
Definition start : FederatedCursor := NewFederatedCursor 0 "" "" ["a"; "b"] None.

Lemma world_wellBehaved : wellBehaved (paginator world).
Proof.
  intros id sr q it Hl Hit. unfold paginator, world in Hl. cbn in Hl.
  rewrite !lookup_insert_Some, lookup_singleton_Some in Hl.
  assert (Links it = []) as ->; [|constructor].
  destruct Hl as [[<- <-]|[_ [<- <-]]]; cbn in Hit; set_solver.
Qed.

Lemma start_owned : stashOwned start.
Proof. apply stashOwned_New. set_solver. Qed.

Lemma three_pages :
  ∃ fetched items c2,
    session emptySearchRequest 1 start [paginator world; paginator world; paginator world]
      fetched items c2 ∧ HasMore c2 = false ∧ map (map ID) items = [["1"]; ["3"]; ["2"]].
Proof.
  eexists _, _, _. split.
  - eapply (session_cons _ _ _ _ _ ""); [vm_compute; reflexivity|].
    eapply (session_cons _ _ _ _ _ ""); [vm_compute; reflexivity|].
    eapply (session_cons _ _ _ _ _ ""); [vm_compute; reflexivity|]. apply session_nil.
  - split; vm_compute; reflexivity.
Qed.


Lemma renderPage_contract_witness :
  ∃ r c', renderPage (paginator world) emptySearchRequest "" 2 start = Some (r, c') ∧
    ID <$> res_Items r = ["1"; "3"] ∧ sorted_by itemLess (res_Items r).
Proof.
  eexists _, _. split; [vm_compute; reflexivity|]. split; [reflexivity|].
  eapply (renderPage_contract (paginator world) emptySearchRequest "" 2 start).
  - apply world_wellBehaved.
  - apply start_owned.
  - vm_compute. reflexivity.
Defined.

Definition halfDead : gmap string Searcher := <["b" := dead "https://b"]> world.

Lemma failed_page_not_cached_witness :
  ∃ r, Search 0 (paginator halfDead) None emptySearchRequest "" NoOp.noop = (Ok r, NoOp.noop) ∧
    "b" ∈ failedFromStatuses (statusesOf r).
Proof.
  eexists. split; [vm_compute; reflexivity|].
  eapply (failed_page_not_cached 0 (paginator halfDead) None emptySearchRequest ""
    NoOp.noop NoOp.noop NoOp.noop start _ (mkFetch "b" [] "" "" "" "" (Some ErrCircuitOpen)) ErrCircuitOpen).
  - vm_compute. reflexivity.
  - match goal with |- _ ∈ ?l => let l' := eval vm_compute in l in change (mkFetch "b" [] "" "" "" "" (Some ErrCircuitOpen) ∈ l') end.
    set_solver.
  - reflexivity.
  - vm_compute. reflexivity.
Defined.

(** A null feature at the end of an answer. *)
Definition nullTail : list originFetchResult := [mkFetch "a" [Some (item "1" "2021"); None] "" "" "" "" None].

Lemma mergeResults_panics_iff_witness :
  mergeResults (paginator world) nullTail start 10 = None.
Proof.
  apply (mergeResults_panics_iff (paginator world) nullTail start 10).
  - split; [vm_compute; repeat constructor; set_solver|].
    intros r Hr _. apply list_elem_of_singleton in Hr as ->.
    exists (newOriginCursor "a"). split; vm_compute; reflexivity.
  - exists (mkFetch "a" [Some (item "1" "2021"); None] "" "" "" "" None).
    split_and!; [set_solver|reflexivity|reflexivity].
Defined.

Lemma halfDead_wellBehaved : wellBehaved (paginator halfDead).
Proof.
  intros id sr q it Hl Hit. unfold paginator, halfDead in Hl. cbn in Hl.
  apply lookup_insert_Some in Hl as [[<- <-]|[_ Hl]]; [cbn in Hit; set_solver|].
  by apply (world_wellBehaved id sr q).
Qed.

Lemma five_pages :
  ∃ fetched items c2,
    session emptySearchRequest 1 start (replicate 5 (paginator halfDead)) fetched items c2.
Proof.
  eexists _, _, _. cbn [replicate].
  do 5 (eapply (session_cons _ _ _ _ _ ""); [vm_compute; reflexivity|]). apply session_nil.
Qed.

Lemma dead_origin_never_retired_witness :
  ∃ fetched items c2,
    session emptySearchRequest 1 start (replicate 5 (paginator halfDead)) fetched items c2 ∧
    HasMore c2 = true ∧ "b" ∈ toFetch c2 1.
Proof.
  destruct five_pages as (fetched & items & c2 & Hs). exists fetched, items, c2. split; [done|].
  apply (dead_origin_never_retired _ _ _ _ _ _ _ "b" Hs).
  - lia.
  - apply Forall_replicate. intros sr q Hl. cbn in Hl. unfold halfDead in Hl.
    rewrite lookup_insert_eq in Hl. injection Hl as <-. discriminate.
  - apply elem_of_toFetch. exists (newOriginCursor "b").
    split_and!; reflexivity.
  - intros o Ho. vm_compute in Ho. injection Ho as <-. reflexivity.
  - apply Forall_replicate. apply halfDead_wellBehaved.
  - apply start_owned.
Defined.

(** The hypothesis on origin links is needed: an item that arrives with
    another proxy's origin link is fetched, not emitted, and kept in no
    stash. *)
Definition foreignItem : Item :=
  mkItem "4" "c" [Some (OriginLink "elsewhere" "https://e")] (Some [("datetime", VStr "1999")]) VNil.
Lemma foreign_link_lost :
  ∃ emitted c',
    mergeResults (paginator world)
      [mkFetch "a" [Some (item "1" "2021"); Some foreignItem] "" "" "" "" None] start 1 =
      Some (emitted, c') ∧
    ID <$> emitted = ["1"] ∧ (Stash <$> Origins c' !! "a") = Some [] ∧
    (Stash <$> Origins c' !! "b") = Some [] ∧ size (Origins c') = 2.
Proof. eexists _, _. split; [vm_compute; reflexivity|]. split_and!; reflexivity. Qed.

End Witness.

End Pagination.
