(* ===== verification/Session.v ===== *)
(** * The end of a pagination session ([internal/federation/pagination.go])

    A client that follows the next links of [Search], token after token,
    reaches the last page, if the origins answer without failures and every
    continuation an origin hands out is nearer to its end than the one it was
    asked with.  The bound on the number of pages is the measure [pagesLeft]:
    every page either fetches, which brings an origin nearer to its end, or
    emits an item out of a stash. *)

From S2P Require Import Prelude GoLib Stac Fanout Merger Store Cursor PageCache PageAdapter Pagination.
From Stdlib Require Import Ascii.
Import Strings Values Stac Merger Cursor Pagination.

Module Session.

(** ** Sums over lists *)

Lemma sum_with_le {A} (f g : A → nat) l :
  (∀ x, x ∈ l → f x ≤ g x) → sum_list_with f l ≤ sum_list_with g l.
Proof.
  induction l as [|x l IH]; cbn; [done|]. intros Hfg.
  pose proof (Hfg x ltac:(left)). assert (sum_list_with f l ≤ sum_list_with g l); [|lia].
  apply IH. intros y Hy. apply Hfg. by right.
Qed.

Lemma sum_with_add {A} (f g : A → nat) l :
  sum_list_with (λ x, f x + g x) l = sum_list_with f l + sum_list_with g l.
Proof. induction l as [|x l IH]; cbn; lia. Qed.

Lemma sum_with_mul {A} n (f : A → nat) l : sum_list_with (λ x, n * f x) l = n * sum_list_with f l.
Proof. induction l as [|x l IH]; cbn; lia. Qed.

Lemma sum_with_zero {A} (f : A → nat) l : sum_list_with f l = 0 ↔ ∀ x, x ∈ l → f x = 0.
Proof.
  induction l as [|x l IH]; cbn; [set_solver|]. rewrite Nat.eq_add_0, IH. set_solver.
Qed.

Lemma sum_with_submseteq {A} (f : A → nat) l k : l ⊆+ k → sum_list_with f l ≤ sum_list_with f k.
Proof. intros (k' & ->)%submseteq_Permutation. rewrite sum_list_with_app. lia. Qed.

(** How often a list without repetitions holds an element. *)
Lemma sum_with_indicator {A} `{EqDecision A} (a : A) l :
  NoDup l → sum_list_with (λ x, if decide (a = x) then 1 else 0) l = if decide (a ∈ l) then 1 else 0.
Proof.
  induction 1 as [|x l Hni Hnd IH]; cbn; [by rewrite decide_False by set_solver|].
  rewrite IH. repeat case_decide; set_solver.
Qed.

(** The classes of a list by a key are at most as long as the list. *)
Lemma sum_with_classes {A} (f : A → string) (l : list A) ids :
  NoDup ids → sum_list_with (λ id, length (filter (λ x, f x = id) l)) ids ≤ length l.
Proof.
  intros Hnd. induction l as [|x l IH]; cbn [length].
  - apply Nat.eq_le_incl, sum_with_zero. done.
  - assert (sum_list_with (λ id, length (filter (λ y, f y = id) (x :: l))) ids =
      sum_list_with (λ id, (if decide (f x = id) then 1 else 0) + length (filter (λ y, f y = id) l)) ids) as ->.
    { clear. induction ids as [|id ids IH]; cbn [sum_list_with]; [done|]. rewrite IH. f_equal.
      rewrite filter_cons. by case_decide. }
    rewrite sum_with_add, sum_with_indicator by done. case_decide; lia.
Qed.

(** Deduplication does not lengthen. *)
Lemma merge_length sources :
  length (mergeItemsFirstWins sources) ≤ sum_list_with (λ src, length (src_Items src)) sources.
Proof.
  unfold mergeItemsFirstWins.
  assert (∀ src items st, length (foldl (mergeItem src) st items).2 ≤ length st.2 + length items) as Hsrc.
  { intros src items. induction items as [|it items IH]; intros st; cbn [foldl length]; [lia|].
    etrans; [apply IH|]. unfold mergeItem. destruct it as [it|]; [|lia]. case_bool_decide; [lia|].
    cbn. rewrite length_app. cbn. lia. }
  enough (∀ st, length (foldl mergeSource st sources).2 ≤
    length st.2 + sum_list_with (λ src, length (src_Items src)) sources) as He by apply (He (∅, [])).
  induction sources as [|src sources IH]; intros st; cbn [foldl sum_list_with]; [lia|].
  etrans; [apply IH|]. unfold mergeSource at 1. specialize (Hsrc src (src_Items src) st). lia.
Qed.

Lemma elem_of_page_cons {A} (P : A → Prop) x l : (∃ y, y ∈ x :: l ∧ P y) ↔ P x ∨ ∃ y, y ∈ l ∧ P y.
Proof. split; [intros (y & [->|?]%elem_of_cons & ?); eauto|]. intros [?|(y & ? & ?)]; [exists x|exists y]; set_solver. Qed.

(** ** Progress *)

Section Progress.
Context `{GoTime, !Crypto, !CursorCodec, !MapRange}.
Implicit Types (c : FederatedCursor) (o : OriginCursor) (s : PaginatedSearcher).

(** What an origin is asked to continue with, and by which adapter its
    answer is read. *)
Record continuation := mkCont { k_Token : string; k_URL : string; k_Body : bytes; k_Adapter : string }.
Definition contOf o : continuation := mkCont (NextToken o) (NextURL o) (NextBody o) (oc_AdapterName o).
Definition beginning : continuation := mkCont "" "" "" "".
Definition ends (k : continuation) : Prop := k_Token k = "" ∧ k_URL k = "" ∧ k_Body k = "".

(** The request that continues at [k], and where its answer leads. *)
Definition resume (k : continuation) (req : SearchRequest) : SearchRequest :=
  withContinuation (mkOriginCursor "" (k_Token k) (k_URL k) (k_Body k) 0 (k_Adapter k) false false 0 0 (SVRaw VNil) []) req.
Definition contAfter (k : continuation) (r : searchReply) : continuation :=
  mkCont (rep_NextToken r) (rep_NextURL r) (rep_NextBody r)
    (if String.eqb (rep_AdapterName r) "" then k_Adapter k else rep_AdapterName r).

Variables (req : SearchRequest) (limit : Z) (ids : list string) (expects : string → continuation → Prop)
  (depth : string → continuation → nat) (B : nat) (bases : gmap string string).
Hypotheses (Hlimit : (0 < limit)%Z) (Hids : NoDup ids).

(** The continuation URL is within what the cursor allowlist admits. *)
Definition rooted (id : string) (k : continuation) : Prop :=
  k_URL k = "" ∨ ∃ base rest, bases !! id = Some base ∧ base ≠ "" ∧ k_URL k = base +:+ rest.

(** Asked to continue where it expects to be, an origin answers, with at
    most [B] items and no null at the end, and either that was its last page
    or it hands out a continuation it expects, that lies at the origin and is
    nearer to the end. *)
Definition progresses s : Prop :=
  ∀ id k, id ∈ ids → expects id k → ∃ sr, origins s !! id = Some sr ∧
    let r := srch_Search sr (resume k (withLimit limit req)) in
    let k' := contAfter k r in
    rep_Error r = None ∧ length (rep_Items r) ≤ B ∧ last (rep_Items r) ≠ Some None ∧
    (ends k' ∨ (expects id k' ∧ rooted id k' ∧ depth id k' < depth id k)).

(** The pages an origin has ahead, and the items it has in hand. *)
Definition ahead c (id : string) : nat :=
  match Origins c !! id with Some o => if Exhausted o then 0 else S (depth id (contOf o)) | None => 0 end.
Definition held c (id : string) : nat :=
  match Origins c !! id with Some o => length (Stash o) | None => 0 end.
Definition pagesLeft c : nat := S B * sum_list_with (ahead c) ids + sum_list_with (held c) ids.

(** No origin is in error, all of them are among [ids], and each that has
    more is at a place it expects. *)
Definition healthy c : Prop := ∀ id o, Origins c !! id = Some o →
  id ∈ ids ∧ Error o = false ∧ oc_ID o = id ∧ rooted id (contOf o) ∧ (Exhausted o = false → expects id (contOf o)).

Lemma hasMore_healthy o : Error o = false → hasMore o = negb (bool_decide (Stash o = [])) || negb (Exhausted o).
Proof. intros He. unfold hasMore, retired. by rewrite He. Qed.

(** The measure is zero exactly at the end. *)
Lemma pagesLeft_zero c : healthy c → pagesLeft c = 0 ↔ HasMore c = false.
Proof.
  intros Hc. unfold pagesLeft. rewrite <-not_true_iff_false, HasMore_spec. split.
  - intros Hz (id & o & Ho & Hm). destruct (Hc id o Ho) as (Hin & He & _). rewrite hasMore_healthy in Hm by done.
    assert (sum_list_with (ahead c) ids = 0) as Ha by lia. assert (sum_list_with (held c) ids = 0) as Hh by lia.
    apply sum_with_zero with (x := id) in Ha; [|done]. apply sum_with_zero with (x := id) in Hh; [|done].
    unfold ahead in Ha. unfold held in Hh. rewrite Ho in Ha, Hh. apply nil_length_inv in Hh. rewrite Hh in Hm.
    destruct (Exhausted o); [|done]. cbn in Hm. discriminate Hm.
  - intros Hn. assert (∀ id o, Origins c !! id = Some o → Stash o = [] ∧ Exhausted o = true) as Hall.
    { intros id o Ho. destruct (Hc id o Ho) as (_ & He & _). destruct (hasMore o) eqn:Em; [destruct Hn; eauto|].
      rewrite hasMore_healthy in Em by done. apply orb_false_iff in Em as [E1 E2].
      by apply negb_false_iff, bool_decide_eq_true in E1; apply negb_false_iff in E2. }
    assert (sum_list_with (ahead c) ids = 0 ∧ sum_list_with (held c) ids = 0) as [-> ->]; [|lia].
    split; apply sum_with_zero; intros id _; unfold ahead, held; destruct (Origins c !! id) as [o|] eqn:Ho; try done;
      destruct (Hall id o Ho) as [Hs Hx]; [by rewrite Hx|by rewrite Hs].
Qed.

(** An entry after phase 5: updated if its origin was fetched, with a new
    stash if it was active. *)
Definition advanced (fresh : gmap string originFetchResult) (id : string) o o' : Prop :=
  ∃ st, match fresh !! id with
        | Some r => ∃ ls, o' = withStash st (applyUpdate (mkUpdate (Z.of_nat (length (f_Items r))) (f_NextToken r)
                      (f_NextURL r) (f_NextBody r) 0 (f_AdapterName r) ls) o)
        | None => o' = withStash st o
        end.

Lemma advance_here fresh ns c c1 id0 id o :
  advanceOrigin fresh ns (Some c) id0 = Some c1 → Origins c !! id = Some o →
  ∃ o1, Origins c1 !! id = Some o1 ∧ (id0 = id → advanced fresh id o o1) ∧ (id0 ≠ id → o1 = o).
Proof.
  unfold advanceOrigin, GetOriginCursor. cbn. intros E1 Ho.
  destruct (decide (id0 = id)) as [->|Hne].
  - rewrite Ho in E1. destruct (fresh !! id) as [r|] eqn:Er; cbn in E1.
    + destruct (lastSortOf _) as [ls|]; cbn in E1; [|done]. injection E1 as <-. cbn.
      rewrite lookup_alter_eq, lookup_insert_eq, Ho. cbn. eexists. split_and!; [done| |done].
      intros _. eexists. rewrite Er. by exists ls.
    + injection E1 as <-. cbn. rewrite lookup_alter_eq, Ho. cbn. eexists. split_and!; [done| |done].
      intros _. eexists. by rewrite Er.
  - exists o. split_and!; [|done|done]. destruct (Origins c !! id0) as [o0|]; [|by injection E1 as <-].
    destruct (fresh !! id0) as [r|]; cbn in E1.
    + destruct (lastSortOf _) as [ls|]; cbn in E1; [|done]. injection E1 as <-. cbn.
      by rewrite lookup_alter_ne, lookup_insert_ne.
    + injection E1 as <-. cbn. by rewrite lookup_alter_ne.
Qed.

Lemma advance_entry fresh ns ids' c c' id o :
  foldl (advanceOrigin fresh ns) (Some c) ids' = Some c' → NoDup ids' → Origins c !! id = Some o →
  ∃ o', Origins c' !! id = Some o' ∧ (id ∈ ids' → advanced fresh id o o') ∧ (id ∉ ids' → o' = o).
Proof.
  intros Hf Hnd. revert c o Hf. induction Hnd as [|id0 ids' Hni Hnd IH]; intros c o; cbn [foldl].
  { intros [= <-] Ho. exists o. split_and!; set_solver. }
  intros Hf Ho.
  destruct (advanceOrigin fresh ns (Some c) id0) as [c1|] eqn:E1; [|by rewrite advance_None in Hf].
  destruct (advance_here _ _ _ _ _ _ _ E1 Ho) as (o1 & Ho1 & Hyes & Hno).
  destruct (IH _ _ Hf Ho1) as (o' & Ho' & Hin & Hout). exists o'. split; [done|].
  destruct (decide (id0 = id)) as [->|Hne].
  - rewrite Hout by done. split; [auto|set_solver].
  - rewrite Hno in Hin, Hout by done. split; set_solver.
Qed.

(** *** One page *)

Section Page.
Variables (s : PaginatedSearcher) (c : FederatedCursor).
Hypotheses (Hs : progresses s) (Hc : healthy c) (Hown : stashOwned c).

(** Where the answer of an origin leads. *)
Definition leads (id : string) o : continuation :=
  let r := fetchOne s req c limit id in
  mkCont (f_NextToken r) (f_NextURL r) (f_NextBody r) (if String.eqb (f_AdapterName r) "" then oc_AdapterName o else f_AdapterName r).

Lemma fetched_ok id : id ∈ toFetch c limit →
  ∃ o, Origins c !! id = Some o ∧ Exhausted o = false ∧
    let r := fetchOne s req c limit id in
    f_Error r = None ∧ length (f_Items r) ≤ B ∧ last (f_Items r) ≠ Some None ∧
    (ends (leads id o) ∨ (expects id (leads id o) ∧ rooted id (leads id o) ∧ depth id (leads id o) < depth id (contOf o))).
Proof.
  intros (o & Ho & Hx & _)%elem_of_toFetch. exists o. split_and!; [done|done|].
  destruct (Hc id o Ho) as (Hin & _ & _ & _ & Hexp). destruct (Hs id _ Hin (Hexp Hx)) as (sr & Hsr & Hr).
  unfold leads, fetchOne. rewrite Hsr.
  assert (originRequest req c limit id = resume (contOf o) (withLimit limit req)) as ->; [|done].
  unfold originRequest, GetOriginCursor. by rewrite Ho.
Qed.

Let results := fetchFromOrigins s req c (toFetch c limit) limit.

Lemma elem_of_results r : r ∈ results ↔ ∃ id, id ∈ toFetch c limit ∧ r = fetchOne s req c limit id.
Proof. unfold results, fetchFromOrigins, Fanout.fanOut. rewrite list_elem_of_fmap. cbn. naive_solver. Qed.

Lemma results_ok r : r ∈ results → f_Error r = None ∧ last (f_Items r) ≠ Some None.
Proof. intros (id & Hid & ->)%elem_of_results. by destruct (fetched_ok id Hid) as (? & _ & _ & ? & _ & ? & _). Qed.

Lemma page_renders : is_Some (mergeResults s results c limit).
Proof.
  destruct (mergeResults s results c limit) as [[]|] eqn:E; [by eexists|].
  apply mergeResults_panics_iff in E as (r & Hr & _ & Hl); [|apply pageResults_fetch].
  by apply results_ok in Hr as [_ ?].
Qed.

Variables (c1 : FederatedCursor) (fresh : gmap string originFetchResult).
Hypothesis Hf : foldl indexFetch (c, ∅) results = (c1, fresh).

(** Nothing failed, so indexing leaves the cursor alone. *)
Lemma index_origins : Origins c1 = Origins c.
Proof.
  apply map_eq. intros id. pose proof (index_lookup _ _ _ _ _ id Hf) as Hl.
  destruct (Origins c !! id) as [o|]; [|done]. destruct Hl as (o1 & -> & _ & Heq).
  f_equal. apply Heq. intros r Hr _. by apply results_ok in Hr as [? _].
Qed.

Lemma fresh_lookup id :
  fresh !! id = if decide (id ∈ toFetch c limit) then Some (fetchOne s req c limit id) else None.
Proof.
  pose proof (pageResults_fetch s req c limit) as Hp.
  destruct (index_page _ _ _ _ Hf Hp) as (Hfr & _). apply option_eq. intros r. rewrite Hfr.
  assert (∀ id', f_OriginID (fetchOne s req c limit id') = id') as Hfid
    by (intros id'; unfold fetchOne; by destruct (origins s !! id')).
  case_decide as Hin; split.
  - intros (Hr & Hid & _). apply elem_of_results in Hr as (id' & Hid' & ->). rewrite Hfid in Hid. by subst.
  - intros [= <-]. split_and!; [apply elem_of_results; eauto|apply Hfid|].
    by destruct (fetched_ok id Hin) as (? & _ & _ & ? & _).
  - intros (Hr & Hid & _). apply elem_of_results in Hr as (id' & Hid' & ->). rewrite Hfid in Hid. by subst.
  - done.
Qed.

Lemma active_same : ActiveOrigins c1 = ActiveOrigins c.
Proof. unfold ActiveOrigins. by rewrite index_origins. Qed.

Variables (ns : gmap string (list Item)) (c' : FederatedCursor).
Hypothesis Ha : foldl (advanceOrigin fresh ns) (Some c1) (ActiveOrigins c1) = Some c'.

Lemma entry_after id :
  match Origins c !! id with
  | None => Origins c' !! id = None
  | Some o => ∃ o', Origins c' !! id = Some o' ∧ Error o' = false ∧ oc_ID o' = oc_ID o ∧
      if decide (id ∈ toFetch c limit) then
        contOf o' = leads id o ∧ (ends (contOf o') → Exhausted o' = true)
      else contOf o' = contOf o ∧ Exhausted o' = Exhausted o
  end.
Proof.
  pose proof (advance_all _ _ _ _ _ id Ha (NoDup_ActiveOrigins c1)) as Hall. rewrite index_origins in Hall.
  destruct (Origins c !! id) as [o|] eqn:Ho; [|done]. clear Hall.
  destruct (advance_entry _ _ _ _ _ id o Ha (NoDup_ActiveOrigins c1)) as (o' & Ho' & Hin & Hout);
    [by rewrite index_origins|].
  exists o'. split; [done|]. destruct (Hc id o Ho) as (_ & He & _). rewrite active_same in Hin, Hout.
  case_decide as Hfe.
  - destruct Hin as (st & Hadv). { unfold toFetch in Hfe. apply list_elem_of_In, filter_In in Hfe as [Hfe _].
      by apply list_elem_of_In. }
    rewrite fresh_lookup, decide_True in Hadv by done. destruct Hadv as (ls & ->). split_and!; [done..|].
    unfold ends, noNextPage; cbn. unfold noNextPage; cbn. by intros (-> & -> & ->).
  - destruct (decide (id ∈ ActiveOrigins c)) as [Hact|Hact]; [|by rewrite Hout].
    destruct (Hin Hact) as (st & Hadv). rewrite fresh_lookup, decide_False in Hadv by done. by subst o'.
Qed.

Lemma healthy_after : healthy c'.
Proof.
  intros id o' Ho'. pose proof (entry_after id) as He. destruct (Origins c !! id) as [o|] eqn:Ho; [|congruence].
  destruct He as (o2 & Ho2 & Hok & Hid & He). rewrite Ho' in Ho2. injection Ho2 as <-.
  destruct (Hc id o Ho) as (Hin & _ & Hid' & Hroot & Hexp). split_and!; [done|done|congruence|..].
  - case_decide as Hfe; [|by destruct He as [-> _]]. destruct He as [-> _].
    destruct (fetched_ok id Hfe) as (o2 & Ho2 & _ & _ & _ & _ & [(_ & Hu & _)|(_ & Hu & _)]); rewrite Ho in Ho2; injection Ho2 as <-; [by left|done].
  - case_decide as Hfe; [|destruct He as [-> ->]; done]. destruct He as [Hl Hx]. intros Hne.
    destruct (fetched_ok id Hfe) as (o2 & Ho2 & _ & _ & _ & _ & Hd). rewrite Ho in Ho2; injection Ho2 as <-.
    rewrite <-Hl in Hd. destruct Hd as [Hd|(Hd & _)]; [|done]. rewrite (Hx Hd) in Hne. done.
Qed.

(** One if the page fetched from the origin. *)
Definition asked (id : string) : nat := if decide (id ∈ toFetch c limit) then 1 else 0.

Lemma ahead_after id : ahead c' id + asked id ≤ ahead c id.
Proof.
  unfold ahead, asked. pose proof (entry_after id) as He. destruct (Origins c !! id) as [o|] eqn:Ho.
  - destruct He as (o' & -> & _ & _ & He). case_decide as Hfe.
    + destruct (fetched_ok id Hfe) as (o2 & Ho2 & Hxo & _ & _ & _ & Hd). rewrite Ho in Ho2. injection Ho2 as <-.
      rewrite Hxo. destruct He as [Hcont Hx].
      destruct (Exhausted o') eqn:Ex; [lia|]. rewrite <-Hcont in Hd.
      destruct Hd as [Hd|(_ & _ & Hd)]; [by specialize (Hx Hd); congruence|]. lia.
    + destruct He as [-> ->]. lia.
  - rewrite He. case_decide as Hfe; [|done]. apply elem_of_toFetch in Hfe as (o & Ho' & _). congruence.
Qed.

Let merged := sort_stable itemLess (mergeItemsFirstWins (omap (pageSource s c1 fresh) (ActiveOrigins c1))).

(** The page merges no more than the stashes and the answers hold. *)
Lemma merged_length : length merged ≤ sum_list_with (λ id, held c id + B * asked id) ids.
Proof.
  unfold merged. rewrite sort_stable_length. etrans; [apply merge_length|].
  transitivity (sum_list_with (λ id, held c id + B * asked id) (ActiveOrigins c1)).
  - generalize (ActiveOrigins c1). intros l. induction l as [|id l IH]; cbn [omap list_omap sum_list_with]; [done|].
    destruct (pageSource s c1 fresh id) as [src|] eqn:Es; cbn [sum_list_with]; [|lia].
    apply pageSource_spec in Es as (_ & o & Ho & ->). rewrite index_origins in Ho.
    assert (length (freshItems fresh id) ≤ B * asked id) as Hfresh.
    { unfold freshItems, asked. rewrite fresh_lookup. case_decide as Hfe; cbn [length]; [|lia].
      destruct (fetched_ok id Hfe) as (_ & _ & _ & _ & Hb & _). lia. }
    assert (held c id = length (Stash o)) as -> by (unfold held; by rewrite Ho).
    rewrite length_app, length_fmap. lia.
  - apply sum_with_submseteq, NoDup_submseteq; [apply NoDup_ActiveOrigins|].
    intros id. rewrite active_same. intros (o & Ho & _)%elem_of_ActiveOrigins. by destruct (Hc id o Ho) as [? _].
Qed.

Hypothesis Hns : ns = foldl stashItem ∅ (drop (Z.to_nat limit) merged).

Lemma held_after : sum_list_with (held c') ids ≤ length (drop (Z.to_nat limit) merged).
Proof.
  etrans; [|apply (sum_with_classes (λ it, ItemOriginID (Some it)) _ ids Hids)].
  apply sum_with_le. intros id _. unfold held. destruct (Origins c' !! id) as [o'|] eqn:Ho'; [|lia].
  rewrite Hns in Ha.
  destruct (merged_stash s _ _ _ _ merged _ _ id o' Hf (pageResults_fetch s req c limit) Hown eq_refl Ha Ho') as (_ & _ & ->).
  case_bool_decide; cbn; lia.
Qed.

(** With more to come, the page fetches or emits. *)
Lemma page_works : HasMore c = true → (∃ id, id ∈ toFetch c limit) ∨ 0 < length merged.
Proof.
  intros (id & o & Ho & Hm)%HasMore_spec. destruct (decide (id ∈ toFetch c limit)) as [|Hn]; [by left; exists id|right].
  assert (∃ it, it ∈ Stash o) as [it Hit].
  { destruct (Stash o) as [|it l] eqn:Est; [|exists it; left]. exfalso. apply Hn, elem_of_toFetch. exists o.
    destruct (Hc id o Ho) as (_ & He & _). rewrite hasMore_healthy, Est in Hm by done. unfold retired. rewrite He, Est.
    cbn in Hm |- *. by destruct (Exhausted o). }
  assert (dedupKey it ∈ dedupKey <$> merged) as Hin.
  { unfold merged. rewrite sort_stable_perm. apply (merged_keys s _ _ _ _ _ Hf (pageResults_fetch s req c limit)).
    left. by exists id, o, it. }
  by destruct merged; [apply elem_of_nil in Hin|cbn; lia].
Qed.

Lemma pagesLeft_after : pagesLeft c' ≤ pagesLeft c - 1.
Proof.
  assert (sum_list_with (ahead c') ids + sum_list_with asked ids ≤ sum_list_with (ahead c) ids) as Hahead.
  { rewrite <-sum_with_add. apply sum_with_le. intros id _. apply ahead_after. }
  pose proof merged_length as Hlen. rewrite sum_with_add, sum_with_mul in Hlen.
  pose proof held_after as Hheld. rewrite length_drop in Hheld.
  destruct (HasMore c) eqn:Em.
  - unfold pagesLeft. destruct (page_works Em) as [[id Hid]|Hpos].
    + assert (1 ≤ sum_list_with asked ids); [|nia].
      apply elem_of_toFetch in Hid as Ho. destruct Ho as (o & Ho & _). destruct (Hc id o Ho) as [Hin _].
      pose proof (sum_list_with_in id asked ids Hin) as Hone. unfold asked in Hone at 1. by rewrite decide_True in Hone.
    + assert (1 ≤ Z.to_nat limit) by lia. nia.
  - apply pagesLeft_zero in Em; [|done]. unfold pagesLeft in *. nia.
Qed.
End Page.

(** *** The next cursor *)

Lemma next_same cs c :
  (healthy c → healthy (nextCursorOf cs c)) ∧ pagesLeft (nextCursorOf cs c) = pagesLeft c.
Proof.
  split.
  - intros Hc id o' (o & Ho & ->)%nextCursor_stash. by apply (Hc id o).
  - assert (∀ id, ahead (nextCursorOf cs c) id = ahead c id ∧ held (nextCursorOf cs c) id = held c id) as Heq.
    { intros id. unfold ahead, held. cbn. rewrite lookup_fmap. by destruct (Origins c !! id). }
    unfold pagesLeft. f_equal; [f_equal|]; apply Nat.le_antisymm; apply sum_with_le; intros id _; destruct (Heq id); lia.
Qed.

Lemma page_step s c cs :
  progresses s → wellBehaved s → healthy c → stashOwned c →
  ∃ r c1, renderPage s req cs limit c = Some (r, c1) ∧ healthy c1 ∧
    stashOwned c1 ∧ pagesLeft c1 ≤ pagesLeft c - 1.
Proof.
  intros Hs Hw Hc Hown. destruct (page_renders s c Hs Hc) as [[items c'] Hm].
  destruct (mergeResults_conserves _ _ _ _ _ _ (pageResults_fetch s req c limit) Hown
    (freshOwned_fetch s req c limit _ Hw) Hm) as (_ & _ & Hown').
  unfold renderPage. rewrite Hm. cbn [mbind option_bind]. eexists _, (addReturned (length items) c'). split; [done|].
  apply mergeResults_inv in Hm as (c1 & fresh & merged & Hf & -> & _ & Ha).
  split_and!.
  - exact (healthy_after s c Hs Hc c1 fresh Hf _ c' Ha).
  - done.
  - exact (pagesLeft_after s c Hs Hc Hown c1 fresh Hf _ c' Ha eq_refl).
Qed.

(** A fresh session. *)
Lemma New_healthy now qh ph ids' cfg :
  (∀ id, id ∈ ids' → id ∈ ids) → (∀ id, id ∈ ids → expects id beginning) → healthy (NewFederatedCursor now qh ph ids' cfg).
Proof.
  intros Hsub Hb id o. rewrite lookup_New. case_bool_decide as Hin; [|done]. intros [= <-].
  split_and!; [by apply Hsub|done|done|by left|]. intros _. by apply Hb, Hsub.
Qed.

Lemma New_pagesLeft now qh ph ids' cfg :
  pagesLeft (NewFederatedCursor now qh ph ids' cfg) ≤ S B * sum_list_with (λ id, S (depth id beginning)) ids.
Proof.
  unfold pagesLeft. assert (sum_list_with (held (NewFederatedCursor now qh ph ids' cfg)) ids = 0) as ->.
  { apply sum_with_zero. intros id _. unfold held. rewrite lookup_New. by case_bool_decide. }
  rewrite Nat.add_0_r. apply Nat.mul_le_mono_l, sum_with_le. intros id Hid. unfold ahead.
  rewrite lookup_New. case_bool_decide; [done|lia].
Qed.

(** *** Cursors that went through their JSON form *)

(** A sort value that is a time comes back as text; paging does not look at
    sort values. *)
Definition forgetSortO o : OriginCursor :=
  mkOriginCursor (oc_ID o) (NextToken o) (NextURL o) (NextBody o) (Offset o) (oc_AdapterName o)
    (Exhausted o) (Error o) (ErrorCount o) (ItemCount o) (SVRaw VNil) (Stash o).
Definition forgetSort c : FederatedCursor :=
  mkCursor (Version c) (QueryHash c) (PrincipalHash_ c) (forgetSortO <$> Origins c) (TotalReturned c)
    (CreatedAt c) (ExpiresAt c) [] (PrevCursor c) (FirstCursor c) (PageSeq c).

Lemma forgetSort_lookup c c' id o' : forgetSort c = forgetSort c' → Origins c' !! id = Some o' →
  ∃ o, Origins c !! id = Some o ∧ forgetSortO o = forgetSortO o'.
Proof.
  intros [= _ _ _ Ho _ _ _ _ _ _] Hl. assert ((forgetSortO <$> Origins c) !! id = Some (forgetSortO o')) as He
    by (rewrite Ho, lookup_fmap, Hl; done).
  apply lookup_fmap_Some in He as (o & E & Hl'). eauto.
Qed.

Lemma forgetSort_same c c' : forgetSort c = forgetSort c' →
  (healthy c → healthy c') ∧ (stashOwned c → stashOwned c') ∧ pagesLeft c' = pagesLeft c ∧
  (∀ k, stashedKey c' k ↔ stashedKey c k).
Proof.
  intros Hf. split_and!.
  - intros Hc id o' Ho'. destruct (forgetSort_lookup _ _ _ _ Hf Ho') as (o & Ho & [= E1 E2 E3 E4 E5 E6 E7 E8 _ _ _]).
    destruct (Hc id o Ho) as (? & ? & ? & ? & Hx). unfold contOf in *. rewrite <-E1, <-E2, <-E3, <-E4, <-E6, <-E7, <-E8. done.
  - intros [He Hs]. split.
    + destruct (Origins c' !! "") as [o'|] eqn:E; [|done]. destruct (forgetSort_lookup _ _ _ _ Hf E) as (o & Ho & _). congruence.
    + intros id o' it Ho' Hit. destruct (forgetSort_lookup _ _ _ _ Hf Ho') as (o & Ho & Eo).
      eapply (Hs id o); [done|]. assert (Stash o = Stash o') as -> by by injection Eo. done.
  - assert (∀ id, ahead c' id = ahead c id ∧ held c' id = held c id) as Heq.
    { intros id. unfold ahead, held. destruct (Origins c' !! id) as [o'|] eqn:E'.
      - destruct (forgetSort_lookup _ _ _ _ Hf E') as (o & -> & [= E1 E2 E3 E4 E5 E6 E7 E8 E9 E10 E11]).
        unfold contOf. by rewrite <-E2, <-E3, <-E4, <-E6, <-E7, <-E11.
      - destruct (Origins c !! id) as [o|] eqn:E; [|done].
        destruct (forgetSort_lookup _ _ _ _ (eq_sym Hf) E) as (o' & ? & _). congruence. }
    unfold pagesLeft. f_equal; [f_equal|]; apply Nat.le_antisymm; apply sum_with_le; intros id _; destruct (Heq id); lia.
  - intros k. split; intros (id & o & it & Ho & Hit & ->).
    + destruct (forgetSort_lookup _ _ _ _ Hf Ho) as (o1 & Ho1 & Eo). exists id, o1, it. split_and!; [done| |done].
      assert (Stash o1 = Stash o) as -> by by injection Eo. done.
    + destruct (forgetSort_lookup _ _ _ _ (eq_sym Hf) Ho) as (o1 & Ho1 & Eo). exists id, o1, it. split_and!; [done| |done].
      assert (Stash o1 = Stash o) as -> by by injection Eo. done.
Qed.

Lemma healthy_allowed c : healthy c → urlsAllowed bases c.
Proof. intros Hc id o Ho. destruct (Hc id o Ho) as (_ & _ & -> & Hr & _). exact Hr. Qed.

End Progress.

(** ** A client *)

Section Client.
Context `{GoTime, !Crypto, !CursorCodec, !PageCache.PageCodec, !QueryCodec, !ContextCodec, !MapRange, Store St}.

(** The codec writes every cursor and reads it back, sort values apart; the
    HMAC is never empty. *)
Definition readsBack : Prop :=
  (∀ c, ∃ data c', json_Marshal c = Some data ∧ data ≠ "" ∧ json_Unmarshal data = Some c' ∧ forgetSort c = forgetSort c') ∧
  (∀ k m, hmac_sha256 k m ≠ "").

(** When the client comes back, and the proxy with the origins as they are
    then. *)
Record visit := mkVisit { v_now : Z; v_searcher : PaginatedSearcher }.

(** A client of [principal] that starts with the cursor string [cs] and
    follows the next links to the first page without one: the pages, each
    with what the origins returned for it. *)
Inductive follows (principal : option string) (req : SearchRequest) :
    string → St → list visit → list (SearchResult * list originFetchResult) → Prop :=
| follows_last cs st v vs c st1 r st2 :
    openCursor (v_now v) (v_searcher v) (principalHashFromContext principal) req cs st = (Ok (inl c), st1) →
    Search (v_now v) (v_searcher v) principal req cs st = (Ok r, st2) → res_NextCursor r = "" →
    let limit := pageLimit (v_searcher v) req in
    follows principal req cs st (v :: vs) [(r, fetchFromOrigins (v_searcher v) req c (toFetch c limit) limit)]
| follows_next cs st v vs c st1 r st2 pages :
    openCursor (v_now v) (v_searcher v) (principalHashFromContext principal) req cs st = (Ok (inl c), st1) →
    Search (v_now v) (v_searcher v) principal req cs st = (Ok r, st2) → res_NextCursor r ≠ "" →
    follows principal req (res_NextCursor r) st2 vs pages →
    let limit := pageLimit (v_searcher v) req in
    follows principal req cs st (v :: vs) ((r, fetchFromOrigins (v_searcher v) req c (toFetch c limit) limit) :: pages).

Variables (principal : option string) (req : SearchRequest) (limit : Z) (ids : list string)
  (expects : string → continuation → Prop) (depth : string → continuation → nat) (B : nat)
  (bases : gmap string string) (secret : bytes) (expiry : Z).

(** The proxy at a visit: its configuration, its origins, and the time. *)
Record serves (v : visit) : Prop := {
  sv_secret : cursorSecret (v_searcher v) = secret;
  sv_bases : originBaseURLs (v_searcher v) = bases;
  sv_cache : pageCache (v_searcher v) = None;
  sv_limit : pageLimit (v_searcher v) req = limit;
  sv_progresses : progresses req limit ids expects depth B bases (v_searcher v);
  sv_owned : wellBehaved (v_searcher v);
  sv_time : (Unix (v_now v) ≤ expiry)%Z;
}.

Hypotheses (Hlimit : (0 < limit)%Z) (Hids : NoDup ids) (Hsecret : secret ≠ "") (Hcodec : readsBack).
Let ph := principalHashFromContext principal.

(** A cursor of the session. *)
Record current (c : FederatedCursor) : Prop := {
  cu_healthy : healthy ids expects bases c;
  cu_owned : stashOwned c;
  cu_query : QueryHash c = hashSearchRequest (Some req);
  cu_principal : PrincipalHash_ c = ph;
  cu_expiry : ExpiresAt c = expiry;
}.

(** The token of a cursor of the session opens it again. *)
Lemma token_opens c v st : current c → serves v →
  ∃ tok c', Encode secret c = Ok tok ∧ tok ≠ "" ∧ forgetSort c = forgetSort c' ∧ current c' ∧
    openCursor (v_now v) (v_searcher v) ph req tok st = (Ok (inl c'), st).
Proof.
  intros [Hh Ho Hq Hp Hx] [Es Eb Ec _ _ _ Ht]. destruct Hcodec as [Hjson Hmac].
  destruct (Hjson c) as (data & c' & Hm & Hd & Hu & Hf).
  destruct (forgetSort_same ids expects depth B bases c c' Hf) as (Hh' & Ho' & _ & _).
  pose proof Hf as [= _ Hq' Hp' _ _ _ Hx' _ _ _].
  assert (Encode secret c = Ok (Base64.EncodeToString data +:+ "." +:+ Base64.EncodeToString (hmac_sha256 secret data))) as He.
  { unfold Encode. by rewrite (proj2 (String.eqb_neq _ _)), Hm. }
  eexists _, c'. split; [exact He|].
  assert (Base64.EncodeToString data +:+ "." +:+ Base64.EncodeToString (hmac_sha256 secret data) ≠ "") as Hne.
  { intros E. apply (f_equal String.length) in E. rewrite !length_append in E. cbn in E. lia. }
  split; [exact Hne|]. split; [exact Hf|]. split; [split; try congruence; auto|].
  unfold openCursor. rewrite (proj2 (String.eqb_neq _ _)) by exact Hne. cbn [negb].
  rewrite Es, Eb, (DecodeCursor_back _ secret bases ph c c' data _ Hm Hu Hd (Hmac _ _) He); [|lia|congruence|].
  - rewrite <-Hq', Hq, String.eqb_refl. cbn [negb]. unfold PageCache.Get. by rewrite Ec.
  - by eapply healthy_allowed, Hh'.
Qed.

(** One visit: the last page, or one whose next link is the token of a
    cursor nearer to the end. *)
Lemma visit_page c v cs st : current c → serves v →
  openCursor (v_now v) (v_searcher v) ph req cs st = (Ok (inl c), st) →
  let fetched := fetchFromOrigins (v_searcher v) req c (toFetch c limit) limit in
  ∃ r, Search (v_now v) (v_searcher v) principal req cs st = (Ok r, st) ∧
    ((res_NextCursor r = "" ∧ ∀ k, k ∈ dedupKey <$> res_Items r ↔ stashedKey c k ∨ fetchedKey fetched k) ∨
     (∃ c1, current c1 ∧ (∀ t, Encode secret c1 = Ok t → res_NextCursor r = t) ∧
        1 ≤ pagesLeft ids depth B c1 ≤ pagesLeft ids depth B c - 1 ∧
        ∀ k, k ∈ dedupKey <$> res_Items r ∨ stashedKey c1 k ↔ stashedKey c k ∨ fetchedKey fetched k)).
Proof.
  intros Hcur Hv Hopen fetched. pose proof Hcur as [Hh Ho Hq Hp Hx]. destruct Hv as [Es Eb Ec El Hpr Hw Ht].
  unfold Search. fold ph. rewrite Hopen. rewrite El.
  destruct (ActiveOrigins c) as [|a l] eqn:Eact.
  { eexists. split; [reflexivity|]. left. split; [done|]. intros k.
    assert (fetched = []) as -> by (unfold fetched, toFetch; rewrite Eact; reflexivity).
    assert (HasMore c = false) as Hm.
    { apply not_true_iff_false. intros (id & o & Hl & Hmo)%HasMore_spec.
      assert (id ∈ ActiveOrigins c) as Hin by (apply elem_of_ActiveOrigins; eauto). rewrite Eact in Hin. set_solver. }
    split; [set_solver|]. intros [Hst|(? & ? & ? & _)]; [by apply HasMore_false_no_stash in Hst|set_solver]. }
  destruct (page_step req limit ids expects depth B bases Hlimit Hids (v_searcher v) c cs Hpr Hw Hh Ho)
    as (r & c1 & Hr & Hh1 & Ho1 & Hle).
  rewrite Hr. eexists. split; [unfold putToPageCache; rewrite Ec; by case_match|].
  apply renderPage_inv in Hr as (c0 & Hm & Hc1 & _ & _ & Hn & _). rewrite Es in Hn.
  destruct (mergeResults_fields _ _ _ _ _ _ Hm) as [os Hos].
  destruct (mergeResults_conserves _ _ _ _ _ _ (pageResults_fetch (v_searcher v) req c limit) Ho
    (freshOwned_fetch (v_searcher v) req c limit _ Hw) Hm) as (Hk & _ & _). fold fetched in Hk.
  assert (∀ k, stashedKey c0 k ↔ stashedKey c1 k) as Hsame by by subst c1.
  destruct (HasMore c1) eqn:Emore.
  - right. exists (nextCursorOf cs c1). destruct (next_same ids expects depth B bases cs c1) as [Hhn Hpn].
    split_and!.
    + split; [by apply Hhn|by apply stashOwned_next|by subst c1 c0..].
    + intros t Ht'. by rewrite Hn, Ht'.
    + rewrite Hpn. pose proof (pagesLeft_zero ids expects depth B bases c1 Hh1) as Hz.
      destruct (pagesLeft ids depth B c1); [|lia]. rewrite (proj1 Hz eq_refl) in Emore. done.
    + rewrite Hpn. exact Hle.
    + intros k. rewrite stashedKey_next, <-Hsame. apply Hk.
  - left. split; [done|]. intros k. rewrite <-(Hk k), Hsame. split; [by left|].
    intros [?|Hst]; [done|by apply HasMore_false_no_stash in Hst].
Qed.

Lemma follow_pages vs : ∀ v c cs st, serves v → Forall serves vs → current c →
  openCursor (v_now v) (v_searcher v) ph req cs st = (Ok (inl c), st) →
  pagesLeft ids depth B c ≤ S (length vs) →
  ∃ pages, follows principal req cs st (v :: vs) pages ∧ length pages ≤ 1 `max` pagesLeft ids depth B c ∧
    ∀ k, (∃ p, p ∈ pages ∧ k ∈ dedupKey <$> res_Items p.1) ↔ stashedKey c k ∨ ∃ p, p ∈ pages ∧ fetchedKey p.2 k.
Proof.
  induction vs as [|v' vs IH]; intros v c cs st Hv Hvs Hc Hopen Hlen;
    destruct (visit_page c v cs st Hc Hv Hopen) as (r & Hs & [[Hn Hk]|(c1 & Hc1 & Hn & Hle & Hk)]).
  1,3: eexists [_]; split; [by eapply follows_last|]; (split; [cbn; lia|]); intros k; specialize (Hk k);
    rewrite (sv_limit _ Hv), !elem_of_page_cons; cbn [fst snd]; set_solver.
  { cbn [length] in Hlen. lia. }
  apply Forall_cons in Hvs as [Hv' Hvs]. destruct (token_opens c1 v' st Hc1 Hv') as (tok & c2 & He & Hne & Hf & Hc2 & Hopen').
  rewrite <-(Hn _ He) in Hopen', Hne.
  destruct (forgetSort_same ids expects depth B bases c1 c2 Hf) as (_ & _ & Hpl & Hst).
  destruct (IH v' c2 (res_NextCursor r) st Hv' Hvs Hc2 Hopen') as (pages & Hfol & Hlp & Hkeys); [cbn [length] in Hlen; lia|].
  eexists. split; [by eapply follows_next|]. split; [cbn [length]; lia|]. intros k. specialize (Hk k). specialize (Hkeys k).
  rewrite (sv_limit _ Hv), !elem_of_page_cons. rewrite Hst in Hkeys. cbn [fst snd]. tauto.
Qed.

End Client.

(** ** Properties *)


(** ** Witnesses *)

Module Witness.
#[local] Existing Instance Pagination.Witness.rawTime.
#[local] Existing Instance Pagination.Witness.plainCrypto.
#[local] Existing Instance Pagination.Witness.noPage.
#[local] Existing Instance Pagination.Witness.noQuery.
#[local] Existing Instance Pagination.Witness.noCtx.
#[local] Existing Instance URL.PlainURL.
#[local] Existing Instance PageAdapter.Witness.noBody.

(** *** A codec

    Cursors as trees of numbers and strings, and those as strings. *)

Abbreviation tree := (gen_tree (Z + string)).
Definition num (z : Z) : tree := GenLeaf (inl z).
Definition str (s : string) : tree := GenLeaf (inr s).
Definition bit (b : bool) : tree := num (if b then 1 else 0).
Definition unNum (t : tree) : Z := match t with GenLeaf (inl z) => z | _ => 0 end.
Definition unStr (t : tree) : string := match t with GenLeaf (inr s) => s | _ => "" end.
Definition unBit (t : tree) : bool := bool_decide (unNum t = 1%Z).
Definition kids (t : tree) : list tree := match t with GenNode _ l => l | _ => [] end.

Definition ofFloat (f : float64) : list tree :=
  match f with
  | SpecFloat.S754_zero b => [num 0; bit b]
  | SpecFloat.S754_infinity b => [num 1; bit b]
  | SpecFloat.S754_nan => [num 2]
  | SpecFloat.S754_finite b m e => [num 3; bit b; num (Zpos m); num e]
  end.
Definition toFloat (l : list tree) : float64 :=
  match l with
  | [k; b] => if bool_decide (unNum k = 0%Z) then SpecFloat.S754_zero (unBit b) else SpecFloat.S754_infinity (unBit b)
  | [_; b; m; e] => SpecFloat.S754_finite (unBit b) (Z.to_pos (unNum m)) (unNum e)
  | _ => SpecFloat.S754_nan
  end.

Fixpoint ofValue (v : value) : tree :=
  match v with
  | VNil => GenNode 0 []
  | VBool b => GenNode 1 [bit b]
  | VInt z => GenNode 2 [num z]
  | VFloat f => GenNode 3 (ofFloat f)
  | VStr s => GenNode 4 [str s]
  | VArr l => GenNode 5 (ofValue <$> l)
  | VObj kvs => GenNode 6 ((λ kv, GenNode 0 [str kv.1; ofValue kv.2]) <$> kvs)
  end.
Fixpoint toValue (t : tree) : value :=
  match t with
  | GenNode 1 [b] => VBool (unBit b)
  | GenNode 2 [z] => VInt (unNum z)
  | GenNode 3 l => VFloat (toFloat l)
  | GenNode 4 [s] => VStr (unStr s)
  | GenNode 5 l => VArr (toValue <$> l)
  | GenNode 6 l => VObj ((λ kv, match kv with GenNode _ [k; v] => (unStr k, toValue v) | _ => ("", VNil) end) <$> l)
  | _ => VNil
  end.

Lemma unBit_bit b : unBit (bit b) = b.
Proof. by destruct b. Qed.

Lemma toValue_ofValue : ∀ v, toValue (ofValue v) = v.
Proof.
  fix IH 1. intros [| | |f| |l|kvs]; cbn; rewrite ?unBit_bit; try done.
  - destruct f as [b|b| |b m e]; cbn; by rewrite ?unBit_bit.
  - f_equal. induction l as [|x l IHl]; cbn; [done|]. by rewrite IH, IHl.
  - f_equal. induction kvs as [|[k x] l IHl]; cbn; [done|]. by rewrite IH, IHl.
Qed.

Lemma map_id_with {A B} (f : A → B) (g : B → A) (l : list A) : (∀ x, g (f x) = x) → g <$> (f <$> l) = l.
Proof. intros Hgf. induction l as [|x l IH]; [done|]. rewrite !fmap_cons, Hgf. by rewrite IH. Qed.

Definition ofFields (l : list (string * value)) : tree := ofValue (VObj l).
Definition toFields (t : tree) : list (string * value) := match toValue t with VObj l => l | _ => [] end.
Lemma toFields_ofFields l : toFields (ofFields l) = l.
Proof. unfold toFields, ofFields. by rewrite toValue_ofValue. Qed.

Definition ofOption {A} (f : A → tree) (o : option A) : tree := GenNode 0 (match o with Some x => [f x] | None => [] end).
Definition toOption {A} (f : tree → A) (t : tree) : option A := match kids t with [x] => Some (f x) | _ => None end.

Definition ofLink (l : Link) : tree := GenNode 0 [str (Href l); str (Rel l); str (Type_ l); str (Title l); ofFields (LinkFields l)].
Definition toLink (t : tree) : Link :=
  match kids t with [a; b; c; d; e] => mkLink (unStr a) (unStr b) (unStr c) (unStr d) (toFields e) | _ => mkLink "" "" "" "" [] end.

Definition ofItem (it : Item) : tree :=
  GenNode 0 [str (ID it); str (Collection_ it); GenNode 0 (ofOption ofLink <$> Links it); ofOption ofFields (Properties it); ofValue (ItemRest it)].
Definition toItem (t : tree) : Item :=
  match kids t with
  | [a; b; c; d; e] => mkItem (unStr a) (unStr b) (toOption toLink <$> kids c) (toOption toFields d) (toValue e)
  | _ => mkItem "" "" [] None VNil
  end.

Lemma toItem_ofItem it : toItem (ofItem it) = it.
Proof.
  destruct it as [a b l p v]. unfold toItem, ofItem. cbn. rewrite toValue_ofValue.
  rewrite (map_id_with (ofOption ofLink) (toOption toLink)).
  - destruct p as [p|]; [|done]. unfold toOption, ofOption. cbn [kids]. by rewrite toFields_ofFields.
  - intros [[]|]; [|done]. unfold toOption, ofOption, toLink, ofLink. cbn [kids LinkFields unStr str Href Rel Type_ Title]. by rewrite toFields_ofFields.
Qed.

(** The sort values are left out. *)
Definition ofEntry (kv : string * OriginCursor) : tree :=
  let o := kv.2 in
  GenNode 0 [str kv.1; str (oc_ID o); str (NextToken o); str (NextURL o); str (NextBody o); num (Offset o); str (oc_AdapterName o);
    bit (Exhausted o); bit (Error o); num (ErrorCount o); num (ItemCount o); GenNode 0 (ofItem <$> Stash o)].
Definition toEntry (t : tree) : string * OriginCursor :=
  match kids t with
  | [k; i; a; b; c; d; e; f; g; h; l; m] => (unStr k, mkOriginCursor (unStr i) (unStr a) (unStr b) (unStr c) (unNum d) (unStr e)
      (unBit f) (unBit g) (unNum h) (unNum l) (SVRaw VNil) (toItem <$> kids m))
  | _ => ("", newOriginCursor "")
  end.

Lemma toEntry_ofEntry kv : toEntry (ofEntry kv) = (kv.1, forgetSortO kv.2).
Proof.
  destruct kv as [k []]. unfold toEntry, ofEntry, forgetSortO. cbn.
  by rewrite !unBit_bit, (map_id_with ofItem toItem) by apply toItem_ofItem.
Qed.

Definition ofCursor (c : FederatedCursor) : tree :=
  GenNode 0 [num (Version c); str (QueryHash c); str (PrincipalHash_ c); GenNode 0 (ofEntry <$> map_to_list (Origins c));
    num (TotalReturned c); num (CreatedAt c); num (ExpiresAt c); str (PrevCursor c); str (FirstCursor c); num (PageSeq c)].
Definition toCursor (t : tree) : option FederatedCursor :=
  match kids t with
  | [a; b; c; d; e; f; g; h; i; j] => Some (mkCursor (unNum a) (unStr b) (unStr c) (list_to_map (toEntry <$> kids d))
      (unNum e) (unNum f) (unNum g) [] (unStr h) (unStr i) (unNum j))
  | _ => None
  end.

Lemma toCursor_ofCursor c : toCursor (ofCursor c) = Some (forgetSort c).
Proof.
  unfold toCursor, ofCursor, forgetSort. cbn. do 2 f_equal.
  rewrite <-list_fmap_compose, (list_fmap_ext _ (prod_map id forgetSortO)); [|intros ? kv _; apply toEntry_ofEntry].
  by rewrite list_to_map_fmap, list_to_map_to_list.
Qed.

Fixpoint digits (p : positive) : string :=
  match p with xH => "" | xO p => String "0"%char (digits p) | xI p => String "1"%char (digits p) end.
Fixpoint number (s : string) : positive :=
  match s with "" => xH | String a s => (if Ascii.eqb a "0"%char then xO else xI) (number s) end.
Lemma number_digits p : number (digits p) = p.
Proof. induction p as [p IH|p IH|]; cbn; by rewrite ?IH. Qed.

#[local] Instance treeCodec : CursorCodec := {|
  json_Marshal c := Some (String "c"%char (digits (encode (ofCursor c))));
  json_Unmarshal s := match s with String _ s => decode (number s) ≫= toCursor | "" => None end |}.

Lemma treeCodec_readsBack : readsBack.
Proof.
  split; [|intros [|a k] m; discriminate]. intros c. exists (String "c"%char (digits (encode (ofCursor c)))), (forgetSort c). split_and!; [done|done| |].
  - cbn [json_Unmarshal treeCodec]. by rewrite number_digits, decode_encode; cbn [mbind option_bind]; rewrite toCursor_ofCursor.
  - unfold forgetSort. cbn. f_equal. rewrite <-map_fmap_compose. by apply map_fmap_ext.
Qed.
(** *** Origins

    [a] has two pages and links to the second, which the auto adapter of the
    origin's client finds; [b] has one. *)

Definition nextLink : Link := mkLink "https://a/next" "next" "" "" [].
Definition clientA : OriginClient :=
  mkClient (λ q, Ok (Some (if String.eqb (OverrideURL q) "" then mkUpstreamFC [Some (Pagination.Witness.item "1" "2021")] [Some nextLink]
                           else mkUpstreamFC [Some (Pagination.Witness.item "2" "2020")] []), ∅)) "https://a".
Definition searcherA : Searcher :=
  match NewOriginClientSearcher clientA (PageAdapter.mkConfig "" "" "") with
  | Ok o => mkSearcher (OriginClientSearcher_Search o) "https://a"
  | Err _ => Pagination.Witness.serving [] ""
  end.
Definition searcherB : Searcher := Pagination.Witness.serving [Some (Pagination.Witness.item "3" "2019")] "https://b".
Definition world : gmap string Searcher := {["a" := searcherA; "b" := searcherB]}.
Definition proxy : PaginatedSearcher := Pagination.Witness.paginator world.

Definition second : continuation := mkCont "" "https://a/next" "" "next_url".
Definition places (id : string) (k : continuation) : Prop :=
  k = beginning ∨ (id = "a" ∧ k = second).
Definition steps (id : string) (k : continuation) : nat := if String.eqb (k_URL k) "" then 1 else 0.
Definition roots : gmap string string := {["a" := "https://a"; "b" := "https://b"]}.

Lemma world_progresses : progresses emptySearchRequest 1 ["a"; "b"] places steps 1 roots proxy.
Proof.
  intros id k Hid Hk. apply elem_of_cons in Hid as [->|Hid].
  - exists searcherA. split; [reflexivity|]. destruct Hk as [->|[_ ->]]; (split; [reflexivity|]); (split; [vm_compute; lia|]);
      (split; [discriminate|]).
    + right. split; [by right|]. split; [|vm_compute; lia]. right. exists "https://a", "/next". by split_and!.
    + left. by split_and!.
  - apply list_elem_of_singleton in Hid as ->. destruct Hk as [->|[? _]]; [|done]. exists searcherB.
    split; [reflexivity|]. split_and!; [done|vm_compute; lia|done|]. left. by split_and!.
Qed.

Lemma search_features o q it : Some it ∈ rep_Items (OriginClientSearcher_Search o q) →
  ∃ fc hdr, client_Search (ocs_Client o) q = Ok (Some fc, hdr) ∧ Some it ∈ fc_Features fc.
Proof.
  unfold OriginClientSearcher_Search. destruct (client_Search _ q) as [[[fc|] hdr]|]; cbn; [|set_solver..].
  intros Hit. exists fc, hdr. split; [done|]. repeat case_match; done.
Qed.

Lemma world_owned : wellBehaved proxy.
Proof.
  intros id sr q it Hl Hit. cbn in Hl. unfold world in Hl. rewrite lookup_insert_Some, lookup_singleton_Some in Hl.
  assert (Links it = []) as ->; [|constructor].
  destruct Hl as [[_ <-]|[_ [_ <-]]]; [|cbn in Hit; set_solver].
  apply search_features in Hit as (fc & hdr & Hfc & Hit). cbn in Hfc. destruct (String.eqb _ _); simplify_eq; cbn in Hit; set_solver.
Qed.

Lemma world_serves :
  serves emptySearchRequest 1 ["a"; "b"] places steps 1 roots "k" (Unix (0 + DefaultTTL DefaultCursorConfig)) (mkVisit 0 proxy).
Proof.
  split; [reflexivity|vm_compute; reflexivity|reflexivity|reflexivity|apply world_progresses|apply world_owned|vm_compute; discriminate].
Qed.


End Witness.
End Session.
