(* ===== verification/Router.v ===== *)
(** * Collection routing ([internal/federation/router.go])

    The router keeps the registered origins, the explicit collection map
    and the precomputed list of origins without an explicit collection
    list.  [Registry] is the abstract state it implements: the registered
    origins and what each currently serves; [Route_refines] shows that
    after any sequence of registrations and discoveries [Route] answers
    from the abstract state.  Methods hold the router's lock for their whole
    body, so each is one atomic step.  [Origin] keeps the fields of the
    configuration that routing and searching read. *)

From S2P Require Import Prelude GoLib.
Import Strings.

Module Router.

Record Origin := mkOrigin {
  o_ID : string;
  o_BaseURL : string;
  o_Enabled : bool;
  o_Collections : list string;
  o_ExcludeCollections : list string;
  o_Priority : Z;
  o_ReadOnly : bool;
  o_Searchable : bool;
  o_CollectionPrefix : string;
  o_SupportsFilterExtension : bool;
  o_SupportsSpatialFilter : bool;
  o_ForwardUserIdentity : bool;
  o_CollectionMapping : gmap string string;
  o_RewriteAssets : string;
}.

Record CollectionRouter := mkRouter {
  collectionToOrigins : gmap string (list Origin);
  allOrigins : list Origin;
  implicitAllOrigins : list Origin;
}.

Definition NewCollectionRouter : CollectionRouter := mkRouter ∅ [] [].

Definition noCollections (o : Origin) : bool := bool_decide (o_Collections o = []).

Definition recomputeImplicitAllLocked (r : CollectionRouter) : CollectionRouter :=
  mkRouter (collectionToOrigins r) (allOrigins r) (List.filter noCollections (allOrigins r)).

(** One iteration of the mapping loops of [Register] and
    [UpdateFromDiscovery]. *)
Definition addMapping (origin : Origin) (m : gmap string (list Origin)) (collID : string)
    : gmap string (list Origin) :=
  let fullID := o_CollectionPrefix origin +:+ collID in
  <[fullID := default [] (m !! fullID) ++ [origin]]> m.

Definition Register (origin : Origin) (r : CollectionRouter) : CollectionRouter :=
  let all :=
    if o_Searchable origin || negb (noCollections origin)
    then allOrigins r ++ [origin] else allOrigins r in
  recomputeImplicitAllLocked
    (mkRouter (foldl (addMapping origin) (collectionToOrigins r) (o_Collections origin))
       all (implicitAllOrigins r)).

Definition isExcluded (origin : Origin) (collID : string) : bool :=
  existsb (String.eqb collID) (o_ExcludeCollections origin).

Definition addOrigin (set : gmap string Origin) (o : Origin) : gmap string Origin :=
  <[o_ID o := o]> set.

(** The loop body of [Route] for one requested collection. *)
Definition routeOne (r : CollectionRouter) (set : gmap string Origin) (collID : string)
    : gmap string Origin :=
  let set := foldl addOrigin set
    (List.filter o_Enabled (default [] (collectionToOrigins r !! collID))) in
  foldl addOrigin set
    (List.filter (λ o, o_Enabled o && negb (isExcluded o collID)) (implicitAllOrigins r)).

Definition Route `{MapRange} (r : CollectionRouter) (collections : list string) : list Origin :=
  match collections with
  | [] => List.filter (λ o, o_Enabled o && o_Searchable o) (allOrigins r)
  | _ => (range (foldl (routeOne r) ∅ collections)).*2
  end.

Definition RouteCollection `{MapRange} (r : CollectionRouter) (collectionID : string) : list Origin :=
  Route r [collectionID].

Definition dropOrigin (originID : string) (l : list Origin) : option (list Origin) :=
  match List.filter (λ o, negb (String.eqb (o_ID o) originID)) l with
  | [] => None
  | filtered => Some filtered
  end.

Definition UpdateFromDiscovery (originID : string) (collections : list string)
    (r : CollectionRouter) : CollectionRouter :=
  match List.find (λ o, String.eqb (o_ID o) originID) (allOrigins r) with
  | None => r
  | Some origin =>
      let m := omap (dropOrigin originID) (collectionToOrigins r) in
      mkRouter (foldl (addMapping origin) m collections) (allOrigins r) (implicitAllOrigins r)
  end.

Definition GetCollectionOrigins (r : CollectionRouter) (collectionID : string) : list Origin :=
  match collectionToOrigins r !! collectionID with
  | Some origins => List.filter o_Enabled origins
  | None =>
      List.filter (λ o, o_Enabled o && noCollections o && negb (isExcluded o collectionID))
        (allOrigins r)
  end.

Definition AllOrigins (r : CollectionRouter) : list Origin := allOrigins r.
Definition EnabledOrigins (r : CollectionRouter) : list Origin :=
  List.filter o_Enabled (allOrigins r).
Definition OriginCount (r : CollectionRouter) : nat := length (allOrigins r).
Definition CollectionCount (r : CollectionRouter) : nat := size (collectionToOrigins r).

(** ** Abstract specification *)

Record Registry := mkRegistry { reg : list Origin; served : gmap string (list string) }.

Inductive routerOp := RegisterOp (o : Origin) | DiscoverOp (id : string) (collections : list string).

Definition execRouter (r : CollectionRouter) (op : routerOp) : CollectionRouter :=
  match op with
  | RegisterOp o => Register o r
  | DiscoverOp id cs => UpdateFromDiscovery id cs r
  end.

Definition registrable (o : Origin) : bool := o_Searchable o || negb (noCollections o).

Definition execSpec (a : Registry) (op : routerOp) : Registry :=
  match op with
  | RegisterOp o =>
      if registrable o then mkRegistry (reg a ++ [o]) (<[o_ID o := o_Collections o]> (served a)) else a
  | DiscoverOp id cs =>
      if existsb (λ o, String.eqb (o_ID o) id) (reg a) then mkRegistry (reg a) (<[id := cs]> (served a))
      else a
  end.

(** What an origin serves: a collection of its list under its prefix, or,
    when its configuration names none, any collection it does not
    exclude. *)
Definition serves (a : Registry) (o : Origin) (c : string) : Prop :=
  (∃ x, x ∈ default [] (served a !! o_ID o) ∧ c = o_CollectionPrefix o +:+ x) ∨
  (o_Collections o = [] ∧ c ∉ o_ExcludeCollections o).

Definition specRoute (a : Registry) (collections : list string) (o : Origin) : Prop :=
  o ∈ reg a ∧ o_Enabled o = true ∧
  match collections with
  | [] => o_Searchable o = true
  | _ => ∃ c, c ∈ collections ∧ serves a o c
  end.

Definition registered (ops : list routerOp) : list Origin :=
  omap (λ op, match op with RegisterOp o => Some o | DiscoverOp _ _ => None end) ops.

(** The simulation relation. *)
Record refines (r : CollectionRouter) (a : Registry) : Prop := {
  rf_all : allOrigins r = reg a;
  rf_implicit : implicitAllOrigins r = List.filter noCollections (reg a);
  rf_ids : NoDup (o_ID <$> reg a);
  rf_map : ∀ c o, o ∈ default [] (collectionToOrigins r !! c) ↔
    o ∈ reg a ∧ ∃ x, x ∈ default [] (served a !! o_ID o) ∧ c = o_CollectionPrefix o +:+ x;
}.

Lemma elem_of_filter_b {A} (f : A → bool) (l : list A) x :
  x ∈ List.filter f l ↔ f x = true ∧ x ∈ l.
Proof. rewrite list_elem_of_In, filter_In, <-list_elem_of_In. tauto. Qed.

Lemma addMapping_elem origin m cs c o :
  o ∈ default [] (foldl (addMapping origin) m cs !! c) ↔
  o ∈ default [] (m !! c) ∨ (o = origin ∧ ∃ x, x ∈ cs ∧ c = o_CollectionPrefix origin +:+ x).
Proof.
  revert m. induction cs as [|x cs IH]; intros m; cbn [foldl]; [set_solver|].
  rewrite IH. unfold addMapping.
  destruct (decide (o_CollectionPrefix origin +:+ x = c)) as [<-|Hne].
  - rewrite lookup_insert_eq. cbn. rewrite elem_of_app. set_solver.
  - rewrite lookup_insert_ne by done. set_solver.
Qed.

Lemma dropOrigin_elem id (m : gmap string (list Origin)) c o :
  o ∈ default [] (omap (dropOrigin id) m !! c) ↔ o ∈ default [] (m !! c) ∧ o_ID o ≠ id.
Proof.
  rewrite lookup_omap. destruct (m !! c) as [l|]; cbn; [|set_solver].
  assert (o ∈ default [] (dropOrigin id l) ↔ o ∈ List.filter (λ o, negb (String.eqb (o_ID o) id)) l) as ->.
  { unfold dropOrigin. by destruct (List.filter _ l). }
  rewrite elem_of_filter_b, negb_true_iff, String.eqb_neq. tauto.
Qed.

Lemma unique_id (l : list Origin) o o' :
  NoDup (o_ID <$> l) → o ∈ l → o' ∈ l → o_ID o = o_ID o' → o = o'.
Proof.
  intros Hnd Ho Ho' Hid. apply list_elem_of_lookup in Ho as [i Hi].
  apply list_elem_of_lookup in Ho' as [j Hj]. assert (i = j) as ->; [|congruence].
  apply (NoDup_lookup _ i j (o_ID o) Hnd); rewrite list_lookup_fmap, ?Hi, ?Hj; cbn; congruence.
Qed.

Lemma refines_Register r a o :
  refines r a → o_ID o ∉ o_ID <$> reg a → refines (Register o r) (execSpec a (RegisterOp o)).
Proof.
  intros [Ha Hi Hn Hm] Hfresh. cbn [execSpec]. unfold Register, registrable.
  destruct (o_Searchable o || negb (noCollections o)) eqn:E; rewrite Ha; split;
    cbn -[addMapping]; try done.
  - rewrite fmap_app. apply NoDup_app. split_and!; [done|set_solver|]. apply NoDup_singleton.
  - intros c o'. rewrite addMapping_elem, Hm, elem_of_app, list_elem_of_singleton.
    destruct (decide (o_ID o' = o_ID o)) as [Hid|Hid].
    + rewrite Hid, lookup_insert_eq. cbn.
      assert (o' ∉ reg a) by (intros Hin; apply Hfresh; rewrite <-Hid; by apply list_elem_of_fmap_2).
      set_solver.
    + rewrite lookup_insert_ne by done. assert (o' ≠ o) by naive_solver. set_solver.
  - intros c o'. apply orb_false_elim in E as [_ E]. unfold noCollections in E. bool_to_prop.
    rewrite E. cbn. apply Hm.
Qed.

Lemma refines_Discover r a id cs :
  refines r a → refines (UpdateFromDiscovery id cs r) (execSpec a (DiscoverOp id cs)).
Proof.
  intros [Ha Hi Hn Hm]. cbn [execSpec]. unfold UpdateFromDiscovery. rewrite Ha.
  destruct (List.find _ (reg a)) as [origin|] eqn:E.
  - apply find_some in E as [Hin%list_elem_of_In Hid%String.eqb_eq].
    assert (existsb (λ o, String.eqb (o_ID o) id) (reg a) = true) as ->.
    { apply existsb_exists. exists origin. split; [by apply list_elem_of_In|by apply String.eqb_eq]. }
    split; cbn -[addMapping]; try done. intros c o.
    rewrite addMapping_elem, dropOrigin_elem, Hm.
    destruct (decide (o_ID o = id)) as [Ho|Ho].
    + rewrite Ho, lookup_insert_eq. cbn. split; [naive_solver|]. intros [Hreg Hx].
      assert (o = origin) as -> by (eapply unique_id; [done..|congruence]). naive_solver.
    + rewrite lookup_insert_ne by done. naive_solver.
  - assert (existsb (λ o, String.eqb (o_ID o) id) (reg a) = false) as ->; [|done].
    apply not_true_iff_false. intros (o & Hin & Ho)%existsb_exists.
    by rewrite (find_none _ _ E o Hin) in Ho.
Qed.

Lemma refines_exec ops r a :
  refines r a → NoDup (o_ID <$> (reg a ++ registered ops)) →
  refines (foldl execRouter r ops) (foldl execSpec a ops).
Proof.
  revert r a. induction ops as [|op ops IH]; intros r a Hr Hnd; cbn [foldl]; [done|].
  destruct op as [o|id cs].
  - change (registered (RegisterOp o :: ops)) with (o :: registered ops) in Hnd.
    rewrite fmap_app in Hnd. pose proof Hnd as (H1 & H2 & H3)%NoDup_app.
    apply IH; [apply refines_Register; [done|set_solver]|].
    cbn [execSpec]. destruct (registrable o); cbn [reg].
    + by rewrite <-app_assoc, fmap_app.
    + rewrite fmap_app. cbn in H3. apply NoDup_cons in H3 as [_ H3].
      apply NoDup_app. set_solver.
  - apply IH; [by apply refines_Discover|]. cbn [execSpec]. by case_match.
Qed.

Lemma addOrigin_lookup l (set : gmap string Origin) id o :
  NoDup (o_ID <$> l) →
  foldl addOrigin set l !! id = Some o ↔
  (o ∈ l ∧ o_ID o = id) ∨ (set !! id = Some o ∧ id ∉ o_ID <$> l).
Proof.
  revert set. induction l as [|x l IH]; intros set; cbn [foldl]; [set_solver|].
  cbn. intros [Hx Hl]%NoDup_cons. rewrite IH by done. unfold addOrigin.
  destruct (decide (o_ID x = id)) as [<-|Hne].
  - rewrite lookup_insert_eq. set_solver.
  - rewrite lookup_insert_ne by done. set_solver.
Qed.

(** Folding origins that all come from one list with distinct IDs. *)
Lemma addOrigin_sub (all : list Origin) l (set : gmap string Origin) :
  NoDup (o_ID <$> all) → (∀ o, o ∈ l → o ∈ all) →
  (∀ id o, set !! id = Some o → o ∈ all ∧ o_ID o = id) →
  ∀ id o, foldl addOrigin set l !! id = Some o ↔ o_ID o = id ∧ (o ∈ l ∨ set !! id = Some o).
Proof.
  intros Hnd. revert set. induction l as [|x l IH]; intros set Hl Hset id o; cbn [foldl].
  { split; [intros Ho; pose proof (Hset id o Ho); naive_solver|set_solver]. }
  rewrite IH; [|set_solver|].
  - unfold addOrigin. destruct (decide (o_ID x = id)) as [<-|Hne].
    + rewrite lookup_insert_eq. rewrite elem_of_cons. split; [naive_solver|].
      intros [Hid [[->|?]|Hs]]; [naive_solver..|]. split; [done|]. right.
      f_equal. eapply unique_id; [done|set_solver|by apply (Hset (o_ID x))|done].
    + rewrite lookup_insert_ne by done. rewrite elem_of_cons. naive_solver.
  - intros id' o'. unfold addOrigin. rewrite lookup_insert_Some. intros [[<- <-]|[_ ?]]; [|eauto].
    split; [set_solver|done].
Qed.

Lemma routeOne_spec r a set c :
  refines r a → (∀ id o, set !! id = Some o → o ∈ reg a ∧ o_ID o = id) →
  ∀ id o, routeOne r set c !! id = Some o ↔
    o_ID o = id ∧ ((o ∈ reg a ∧ o_Enabled o = true ∧ serves a o c) ∨ set !! id = Some o).
Proof.
  intros [Ha Hi Hn Hm] Hset id o. unfold routeOne.
  set (ex := List.filter o_Enabled _). set (im := List.filter _ (implicitAllOrigins r)).
  assert (Hex : ∀ o, o ∈ ex ↔ o_Enabled o = true ∧ o ∈ reg a ∧
    ∃ x, x ∈ default [] (served a !! o_ID o) ∧ c = o_CollectionPrefix o +:+ x).
  { intros o'. unfold ex. by rewrite elem_of_filter_b, Hm. }
  assert (Him : ∀ o, o ∈ im ↔ o_Enabled o = true ∧ o ∈ reg a ∧ o_Collections o = [] ∧
    c ∉ o_ExcludeCollections o).
  { intros o'. unfold im. rewrite Hi, !elem_of_filter_b, andb_true_iff, negb_true_iff.
    unfold noCollections, isExcluded. rewrite bool_decide_eq_true, <-not_true_iff_false, existsb_exists.
    setoid_rewrite <-list_elem_of_In. setoid_rewrite String.eqb_eq. naive_solver. }
  assert (Hset1 : ∀ id o, foldl addOrigin set ex !! id = Some o → o ∈ reg a ∧ o_ID o = id).
  { intros id' o'. rewrite (addOrigin_sub (reg a)); [|done|set_solver|done].
    intros [<- [Ho|Ho]]; [|naive_solver]. apply Hex in Ho. naive_solver. }
  rewrite (addOrigin_sub (reg a)); [|done|set_solver|done].
  rewrite (addOrigin_sub (reg a)); [|done|set_solver|done].
  rewrite Hex, Him. unfold serves. naive_solver.
Qed.

Lemma routeAll_spec r a collections set :
  refines r a → (∀ id o, set !! id = Some o → o ∈ reg a ∧ o_ID o = id) →
  ∀ id o, foldl (routeOne r) set collections !! id = Some o ↔
    o_ID o = id ∧ ((o ∈ reg a ∧ o_Enabled o = true ∧ ∃ c, c ∈ collections ∧ serves a o c) ∨
                   set !! id = Some o).
Proof.
  intros Hr. revert set. induction collections as [|c cs IH]; intros set Hset id o; cbn [foldl].
  { split; [intros Ho; pose proof (Hset id o Ho); naive_solver|set_solver]. }
  rewrite IH.
  - rewrite (routeOne_spec _ a) by done. setoid_rewrite elem_of_cons. naive_solver.
  - intros id' o'. rewrite (routeOne_spec _ a) by done. intros [<- [?|Ho]]; [naive_solver|].
    by apply Hset in Ho.
Qed.

(** C13: After any sequence of registrations of origins with distinct IDs
    and of discoveries, routing returns exactly the enabled origins the
    abstract registry says serve one of the requested collections (all
    searchable ones when none is requested), each of them once. *)
Theorem Route_refines `{MapRange} ops collections :
  NoDup (o_ID <$> registered ops) →
  let r := foldl execRouter NewCollectionRouter ops in
  let a := foldl execSpec (mkRegistry [] ∅) ops in
  (∀ o, o ∈ Route r collections ↔ specRoute a collections o) ∧ NoDup (o_ID <$> Route r collections).
Proof.
  intros Hnd r a. assert (refines r a) as Hr.
  { apply refines_exec; [|done]. split; cbn; try done; [constructor|]. set_solver. }
  pose proof Hr as [Ha Hi Hn Hm]. unfold Route, specRoute. destruct collections as [|c cs].
  - rewrite Ha. split.
    + intros o. rewrite elem_of_filter_b, andb_true_iff. naive_solver.
    + assert (∀ l : list Origin, NoDup (o_ID <$> l) →
        NoDup (o_ID <$> List.filter (λ o, o_Enabled o && o_Searchable o) l)) as Hf; [|by apply Hf].
      clear. induction l as [|o l IH]; cbn; [done|]. intros [Ho Hl]%NoDup_cons.
      case_match; cbn; [|by apply IH]. constructor; [|by apply IH].
      intros (o' & Heq & Hin)%list_elem_of_fmap. apply elem_of_filter_b in Hin as [_ Hin].
      apply Ho. rewrite Heq. by apply list_elem_of_fmap_2.
  - set (m := foldl (routeOne r) ∅ (c :: cs)).
    assert (Hlook : ∀ id o, m !! id = Some o ↔ o_ID o = id ∧ o ∈ reg a ∧ o_Enabled o = true ∧
      ∃ x, x ∈ c :: cs ∧ serves a o x).
    { intros id o. unfold m. rewrite (routeAll_spec _ a) by set_solver. set_solver. }
    split.
    + intros o. rewrite list_elem_of_fmap. split.
      * intros ([id o'] & -> & Hin%elem_of_range). by apply Hlook in Hin as [_ ?].
      * intros Ho. exists (o_ID o, o). rewrite elem_of_range, Hlook. naive_solver.
    + assert (o_ID <$> (range m).*2 = (range m).*1) as ->; [|apply NoDup_range].
      assert (∀ p, p ∈ range m → o_ID p.2 = p.1) as Hp.
      { intros [id o] Hin%elem_of_range. by apply Hlook in Hin as [? _]. }
      induction (range m) as [|p l IH]; cbn; [done|].
      rewrite Hp, IH by set_solver. done.
Qed.

Definition origin (id : string) (cs : list string) : Origin :=
  mkOrigin id ("https://" +:+ id) true cs ["x"] 0 false true "" false false false ∅ "".

Lemma Route_refines_witness :
  let ops := [RegisterOp (origin "a" ["c"]); RegisterOp (origin "b" []); DiscoverOp "b" ["x"; "d"]] in
  let r := foldl execRouter NewCollectionRouter ops in
  o_ID <$> Route r ["d"] = ["b"] ∧ origin "b" [] ∈ Route r ["x"].
Proof.
  split; [vm_compute; reflexivity|].
  apply (Route_refines [RegisterOp (origin "a" ["c"]); RegisterOp (origin "b" []);
    DiscoverOp "b" ["x"; "d"]] ["x"]).
  - apply NoDup_cons. split; [set_solver|]. apply NoDup_singleton.
  - split_and!; [vm_compute; set_solver|done|]. exists "x". split; [set_solver|].
    left. exists "x". split; [|done]. vm_compute. set_solver.
Defined.

End Router.
