(* ===== verification/Httpx.v ===== *)
(** * Shared HTTP utilities ([internal/httpx], [internal/logx])

    The buffering response writer, hop-by-hop header stripping, the retry
    decision and the log throttle.  The retrying client itself is a
    library; [defaultBackoff] is its exponential back-off. *)

From S2P Require Import Prelude GoLib Breaker.
From Stdlib Require Import Ascii.
Import Strings Header.

Module Httpx.

(** ** ResponseCapture *)

Record ResponseCapture := mkCapture {
  rc_header : header;
  rc_status : Z;
  rc_body : bytes;
  rc_max : Z;
  rc_written : Z;
  rc_closed : bool;
}.

Definition NewResponseCaptureWithLimit (max : Z) : ResponseCapture :=
  mkCapture ∅ 0 "" max 0 false.
Definition NewResponseCapture : ResponseCapture := NewResponseCaptureWithLimit 0.

Definition WriteHeader (statusCode : Z) (rc : ResponseCapture) : ResponseCapture :=
  if negb (rc_status rc =? 0)%Z then rc else
  mkCapture (rc_header rc) statusCode (rc_body rc) (rc_max rc) (rc_written rc) (rc_closed rc).

Fixpoint take_bytes (n : nat) (s : bytes) : bytes :=
  match n, s with S n, String c s => String c (take_bytes n s) | _, _ => EmptyString end.

Definition blen (s : bytes) : Z := Z.of_nat (String.length s).

(** [Write] returns the number of bytes accepted and whether it failed with
    [ErrResponseTooLarge]. *)
Definition Write (p : bytes) (rc : ResponseCapture) : Z * bool * ResponseCapture :=
  let status := if (rc_status rc =? 0)%Z then 200%Z else rc_status rc in
  if rc_closed rc then
    (0%Z, true, mkCapture (rc_header rc) status (rc_body rc) (rc_max rc) (rc_written rc) true)
  else if ((0 <? rc_max rc) && (rc_max rc <? rc_written rc + blen p))%Z then
    let remaining := (rc_max rc - rc_written rc)%Z in
    let chunk := if (0 <? remaining)%Z then take_bytes (Z.to_nat remaining) p else "" in
    (0%Z, true, mkCapture (rc_header rc) status (rc_body rc +:+ chunk) (rc_max rc)
                  (rc_written rc + blen chunk) true)
  else
    (blen p, false, mkCapture (rc_header rc) status (rc_body rc +:+ p) (rc_max rc)
                      (rc_written rc + blen p) false).

Definition Status (rc : ResponseCapture) : Z :=
  if (rc_status rc =? 0)%Z then 200 else rc_status rc.
Definition BodyBytes (rc : ResponseCapture) : bytes := rc_body rc.

Lemma Status_nonzero rc : Status rc ≠ 0%Z.
Proof. unfold Status. destruct (Z.eqb_spec (rc_status rc) 0); done. Qed.

(** What a handler does to its writer. *)
Inductive event := EvWriteHeader (code : Z) | EvWrite (p : bytes).

Definition execEvent (rc : ResponseCapture) (e : event) : ResponseCapture :=
  match e with EvWriteHeader code => WriteHeader code rc | EvWrite p => (Write p rc).2 end.

(** Reference: all the bytes written, and the status a client would see. *)
Definition allBytes (es : list event) : bytes :=
  foldr (λ e acc, match e with EvWrite p => p +:+ acc | EvWriteHeader _ => acc end) "" es.
Definition firstStatus (es : list event) : Z :=
  match es with
  | [] => 200
  | EvWriteHeader code :: _ => code
  | EvWrite _ :: _ => 200
  end.

(** ** Hop-by-hop headers *)

Definition hopByHopHeaders : list string :=
  ["Connection"; "Proxy-Connection"; "Keep-Alive"; "Proxy-Authenticate"; "Proxy-Authorization";
   "Te"; "Trailer"; "Transfer-Encoding"; "Upgrade"; "Forwarded"].

Definition delNamed (h : header) (name : string) : header :=
  let n := TrimSpace name in if String.eqb n "" then h else Del n h.

Definition StripHopByHopHeaders (h : header) : header :=
  let conn := Get h "Connection" in
  let h := if String.eqb conn "" then h else foldl delNamed h (Split conn ",") in
  foldl (λ h name, Del name h) h hopByHopHeaders.

(** ** Retries *)

Record RetryConfig := mkRetryConfig {
  MaxRetries : Z;
  InitialBackoff : Z;
  MaxBackoff : Z;
  RetryOn : list Z;
  RetryNonIdempotent : bool;
}.

(** Which layer a request goes through. *)
Inductive transportPath := Direct | Retried.

Definition routeMethod (cfg : RetryConfig) (method : string) : transportPath :=
  if (MaxRetries cfg <=? 0)%Z then Direct
  else if RetryNonIdempotent cfg then Retried
  else if String.eqb method "POST" || String.eqb method "PATCH" then Direct
  else Retried.

(** [checkRetryFunc]: [Err] is the context's error; the response status is
    absent when the round trip failed. *)
Definition checkRetryFunc (retryOn : list Z) (ctxErr : bool) (status : option Z)
    : result unit bool :=
  if ctxErr then Err () else
  match status with
  | None => Ok true
  | Some code =>
      Ok (match retryOn with
          | [] => (500 <=? code)%Z
          | _ => existsb (Z.eqb code) retryOn
          end)
  end.

Definition jitteredBackoff (d : Z) (rand : Z) (resp : option (Z * header)) : Z :=
  match resp with
  | Some (code, h) =>
      if ((code =? 429) || (code =? 503))%Z && negb (String.eqb (Get h "Retry-After") "") then d
      else Breaker.fullJitter d rand
  | None => Breaker.fullJitter d rand
  end.

(** ** Log throttle ([internal/logx/throttle.go]) *)

Record LogThrottle := mkThrottle { interval : Z; next : Z; suppressed : Z }.

Definition NewLogThrottle (i : Z) : LogThrottle :=
  mkThrottle (if (i <=? 0)%Z then 30 * Breaker.Second else i) 0 0.

(** [Warn] emits a line carrying the suppressed count, or counts.  The
    compare-and-swap fails when another caller won the race ([raced]). *)
Definition Warn (now : Z) (raced : bool) (t : LogThrottle) : option Z * LogThrottle :=
  if (now <? next t)%Z || raced then (None, mkThrottle (interval t) (next t) (suppressed t + 1))
  else (Some (suppressed t), mkThrottle (interval t) (now + interval t) 0).

(** ** Lemmas *)

Lemma blen_app s t : blen (s +:+ t) = (blen s + blen t)%Z.
Proof. unfold blen. rewrite length_append. lia. Qed.

Lemma take_bytes_all n s : String.length s ≤ n → take_bytes n s = s.
Proof.
  revert n. induction s as [|c s IH]; intros [|n]; cbn; try done; [lia|].
  intros. f_equal. apply IH. lia.
Qed.

Lemma take_bytes_app n s t : take_bytes n (s +:+ t) = take_bytes n s +:+ take_bytes (n - String.length s) t.
Proof.
  revert n. induction s as [|c s IH]; intros n; cbn.
  - rewrite Nat.sub_0_r. by destruct n.
  - destruct n; cbn; [done|]. by rewrite IH.
Qed.

Lemma blen_take n s : blen (take_bytes n s) = Z.min (Z.of_nat n) (blen s).
Proof.
  revert n. induction s as [|c s IH]; intros [|n]; cbn; try (unfold blen; cbn; lia).
  specialize (IH n). unfold blen in *. cbn. lia.
Qed.

(** What a capture with a positive cap holds after some bytes. *)
Definition captured (max : Z) (all : bytes) (rc : ResponseCapture) : Prop :=
  rc_max rc = max ∧ rc_written rc = blen (rc_body rc) ∧
  rc_body rc = take_bytes (Z.to_nat max) all ∧ (rc_closed rc = true ↔ (max < blen all)%Z).

Lemma captured_Write max all rc p :
  (0 < max)%Z → captured max all rc → captured max (all +:+ p) (Write p rc).2.
Proof.
  intros Hmax (Hm & Hw & Hb & Hc). unfold Write.
  assert (Hlen : blen (rc_body rc) = Z.min max (blen all)).
  { rewrite Hb, blen_take. lia. }
  assert (0 ≤ blen p)%Z by (unfold blen; lia).
  destruct (rc_closed rc) eqn:Ecl.
  - pose proof (proj1 Hc eq_refl) as Hover. unfold captured; cbn. rewrite blen_app.
    split_and!; [done|done| |split; [lia|done]].
    rewrite Hb, take_bytes_app. replace (Z.to_nat max - String.length all) with 0;
      [by destruct p; cbn; rewrite append_nil_r|]. unfold blen in Hover. lia.
  - assert (blen all ≤ max)%Z as Hfit.
    { destruct (Z.le_gt_cases (blen all) max); [done|]. assert (false = true) by (apply Hc; lia). done. }
    assert (rc_body rc = all) as Hall.
    { rewrite Hb. apply take_bytes_all. unfold blen in Hfit. lia. }
    rewrite Hm, Hw, Hlen, Z.min_r by done.
    rewrite (proj2 (Z.ltb_lt 0 max)) by done. cbn [andb].
    destruct (Z.ltb_spec max (blen all + blen p)) as [Hover|Hover]; unfold captured;
      cbn -[blen]; rewrite Hall.
    + assert (Ht : take_bytes (Z.to_nat max) (all +:+ p) =
        all +:+ (if (0 <? max - blen all)%Z then take_bytes (Z.to_nat (max - blen all)) p else "")).
      { rewrite take_bytes_app, (take_bytes_all _ all) by (unfold blen in *; lia). f_equal.
        replace (Z.to_nat max - String.length all) with (Z.to_nat (max - blen all))
          by (unfold blen in *; lia).
        destruct (Z.ltb_spec 0 (max - blen all)) as [|Hz]; [done|].
        replace (Z.to_nat (max - blen all)) with 0 by lia. by destruct p. }
      rewrite !blen_app, Ht. split_and!; done.
    + rewrite !blen_app. split_and!; [done..| |].
      * symmetry. apply take_bytes_all. rewrite length_append. unfold blen in *. lia.
      * split; [done|lia].
Qed.

Lemma captured_WriteHeader max all rc code :
  captured max all rc → captured max all (WriteHeader code rc).
Proof. unfold WriteHeader, captured. by case_match. Qed.

Lemma captured_events max all rc es :
  (0 < max)%Z → captured max all rc → captured max (all +:+ allBytes es) (foldl execEvent rc es).
Proof.
  intros Hmax. revert all rc. induction es as [|[code|p] es IH]; intros all rc Hc; cbn.
  - by rewrite append_nil_r.
  - by apply IH, captured_WriteHeader.
  - rewrite <-append_assoc. by apply IH, captured_Write.
Qed.

Lemma status_kept es rc : rc_status rc ≠ 0%Z → rc_status (foldl execEvent rc es) = rc_status rc.
Proof.
  revert rc. induction es as [|[code|p] es IH]; intros rc Hs; cbn; [done|..].
  - unfold WriteHeader. rewrite (proj2 (Z.eqb_neq _ _)) by done. by apply IH.
  - assert (rc_status (Write p rc).2 = rc_status rc) as Hw.
    { unfold Write. rewrite (proj2 (Z.eqb_neq _ _)) by done. by repeat case_match. }
    rewrite IH; congruence.
Qed.

Lemma lookup_delNamed h names k :
  foldl delNamed h names !! k = None ∨ foldl delNamed h names !! k = h !! k.
Proof.
  revert h. induction names as [|n names IH]; intros h; cbn [foldl]; [by right|].
  destruct (IH (delNamed h n)) as [?|E]; [by left|]. rewrite E. unfold delNamed.
  case_match; [by right|]. unfold Del. rewrite lookup_delete. case_decide; auto.
Qed.

Lemma lookup_delAll h names k :
  foldl (λ h name, Del name h) h names !! k =
    if bool_decide (k ∈ CanonicalHeaderKey <$> names) then None else h !! k.
Proof.
  revert h. induction names as [|n names IH]; intros h; cbn [foldl fmap list_fmap].
  - by rewrite bool_decide_false by set_solver.
  - rewrite IH. unfold Del. rewrite lookup_delete.
    repeat case_bool_decide; repeat case_decide; set_solver.
Qed.

(** ** Properties *)

(** However a handler interleaves headers and writes, a capture with a
    positive cap holds exactly the first [max] bytes it was given, reports
    the first status the handler chose (200 by default), and is closed,
    rejecting every further write, exactly when more bytes than the cap
    were written. *)
Theorem ResponseCapture_bound max es :
  (0 < max)%Z → Forall (λ e, match e with EvWriteHeader c => c ≠ 0%Z | EvWrite _ => True end) es →
  let rc := foldl execEvent (NewResponseCaptureWithLimit max) es in
  BodyBytes rc = take_bytes (Z.to_nat max) (allBytes es) ∧
  (blen (BodyBytes rc) ≤ max)%Z ∧
  (rc_closed rc = true ↔ (max < blen (allBytes es))%Z) ∧
  (rc_closed rc = true → ∀ p, (Write p rc).1 = (0%Z, true)) ∧
  Status rc = firstStatus es.
Proof.
  intros Hmax Hes rc.
  assert (captured max (allBytes es) rc) as (Hm & Hw & Hb & Hc).
  { apply (captured_events max "" _ es Hmax). split_and!; cbn; try done; [by destruct (Z.to_nat max)|].
    split; [done|]. unfold blen; cbn. lia. }
  split_and!; [done| |done| |].
  - unfold BodyBytes. rewrite Hb, blen_take. lia.
  - intros Hcl p. unfold Write. by rewrite Hcl.
  - unfold rc. destruct es as [|[code|p] es]; [done|..]; cbn [foldl execEvent firstStatus].
    + apply Forall_cons in Hes as [Hcode _]. unfold Status.
      rewrite status_kept by done. cbn. by rewrite (proj2 (Z.eqb_neq _ _)).
    + assert (rc_status (Write p (NewResponseCaptureWithLimit max)).2 = 200%Z) as Hs
        by (unfold Write; by repeat case_match).
      unfold Status. rewrite status_kept by (rewrite Hs; done). by rewrite Hs.
Qed.

Lemma ResponseCapture_bound_witness :
  BodyBytes (foldl execEvent (NewResponseCaptureWithLimit 4)
    [EvWriteHeader 201; EvWrite "abc"; EvWrite "def"; EvWrite "g"]) = "abcd".
Proof.
  destruct (ResponseCapture_bound 4 [EvWriteHeader 201; EvWrite "abc"; EvWrite "def"; EvWrite "g"])
    as [-> _]; [lia|repeat constructor; done|reflexivity].
Defined.

(** Stripping removes every hop-by-hop header, is idempotent, and never
    adds or changes a header it keeps. *)
Theorem StripHopByHopHeaders_spec h :
  (∀ name, name ∈ hopByHopHeaders → StripHopByHopHeaders h !! CanonicalHeaderKey name = None) ∧
  (∀ k vs, StripHopByHopHeaders h !! k = Some vs → h !! k = Some vs) ∧
  StripHopByHopHeaders (StripHopByHopHeaders h) = StripHopByHopHeaders h.
Proof.
  assert (Hgone : ∀ h name, name ∈ hopByHopHeaders →
    StripHopByHopHeaders h !! CanonicalHeaderKey name = None).
  { intros h' name Hn. unfold StripHopByHopHeaders. rewrite lookup_delAll.
    rewrite bool_decide_true; [done|]. by apply list_elem_of_fmap_2. }
  split_and!; [apply Hgone| |].
  - intros k vs. unfold StripHopByHopHeaders. rewrite lookup_delAll. case_bool_decide; [done|].
    case_match; [done|]. destruct (lookup_delNamed h (Split (Get h "Connection") ",") k); congruence.
  - set (g := StripHopByHopHeaders h). unfold StripHopByHopHeaders at 1.
    assert (Get g "Connection" = "") as ->.
    { unfold Get, Values, g. rewrite Hgone; [done|]. cbn. set_solver. }
    cbn [String.eqb]. apply map_eq. intros k. rewrite lookup_delAll. case_bool_decide as Hk; [|done].
    apply list_elem_of_fmap in Hk as (name & -> & Hn). symmetry. by apply Hgone.
Qed.

End Httpx.
