(* ===== verification/Middleware.v ===== *)
(** * Middleware types ([internal/middleware/types.go],
      [internal/server/classifier.go])

    Requests and buffered responses as the middleware tiers see them, the
    request types, the classifier that attaches them, and the two ways an
    error is written: [WriteJSONError] and [http.Error]. *)

From S2P Require Import Prelude GoLib Stac.
From Stdlib Require Import Ascii.
Import Strings.

Module Middleware.

Record httpRequest := mkRequest {
  Method : string;
  URLPath : string;
  RawQuery : string;
  ReqHeader : Header.header;
  RemoteAddr : string;
}.

Inductive RequestType :=
| RequestTypeUnknown | RequestTypeLanding | RequestTypeConformance | RequestTypeCollections
| RequestTypeCollection | RequestTypeItems | RequestTypeItem | RequestTypeSearch
| RequestTypeQueryables | RequestTypeCollectionQueryables | RequestTypeAsset.

#[export] Instance RequestType_eq_dec : EqDecision RequestType.
Proof. solve_decision. Defined.

Definition RequestType_String (rt : RequestType) : string :=
  match rt with
  | RequestTypeLanding => "landing"
  | RequestTypeConformance => "conformance"
  | RequestTypeCollections => "collections"
  | RequestTypeCollection => "collection"
  | RequestTypeItems => "items"
  | RequestTypeItem => "item"
  | RequestTypeSearch => "search"
  | RequestTypeQueryables => "queryables"
  | RequestTypeCollectionQueryables => "collection_queryables"
  | RequestTypeAsset => "asset"
  | RequestTypeUnknown => "unknown"
  end.

Record STACInfo := mkSTACInfo {
  info_Collection : string;
  info_ItemID : string;
  info_RequestType : RequestType;
  info_SearchReq : option Stac.SearchRequest;
}.

(** A buffered response. *)
Record response := mkResponse { resp_Status : Z; resp_Header : Header.header; resp_Body : bytes }.

(** ** Errors *)

Inductive goError :=
| Message (s : string)                                   (* any other error *)
| AuthError (Message Code : string)
| ForbiddenError (Reason Principal : string)
| RateLimitError (RetryAfter : Z)
| InternalError (Message : string) (Cause : option goError).

Fixpoint Error (e : goError) : string :=
  match e with
  | Message s => s
  | AuthError m _ => m
  | ForbiddenError reason _ => reason
  | RateLimitError _ => "rate limit exceeded"
  | InternalError m None => m
  | InternalError m (Some cause) => m +:+ ": " +:+ Error cause
  end.

Definition Unwrap (e : goError) : option goError := match e with InternalError _ cause => cause | _ => None end.

(** [WriteJSONError]: status, code, description. *)
Record jsonError := mkJSONError { je_Status : Z; je_Code : string; je_Description : string }.

(** Both write to a writer that already holds the headers [w]; the encoder
    ends its output with a newline. *)
Definition writeJSONError `{!JSON} (w : Header.header) (e : jsonError) : response :=
  mkResponse (je_Status e) (Header.Set_ "Content-Type" "application/json" w)
    (default "" (value_Marshal (Values.VObj [("code", Values.VStr (je_Code e)); ("description", Values.VStr (je_Description e))]))
       +:+ String "010"%char "").

Definition httpError (w : Header.header) (msg : string) (code : Z) : response :=
  mkResponse code
    (Header.Set_ "X-Content-Type-Options" "nosniff"
       (Header.Set_ "Content-Type" "text/plain; charset=utf-8" (Header.Del "Content-Length" w)))
    (msg +:+ String "010"%char "").

(** ** Classification *)

Definition routePatternTypes : list (string * RequestType) := [
  ("/", RequestTypeLanding);
  ("/conformance", RequestTypeConformance);
  ("/collections", RequestTypeCollections);
  ("/collections/{collectionId}", RequestTypeCollection);
  ("/collections/{collectionId}/items", RequestTypeItems);
  ("/collections/{collectionId}/items/{itemId}", RequestTypeItem);
  ("/search", RequestTypeSearch);
  ("/queryables", RequestTypeQueryables);
  ("/collections/{collectionId}/queryables", RequestTypeCollectionQueryables);
  ("/assets/{originId}/{ref}", RequestTypeAsset)].

(** The router library's matcher: the pattern matched and its URL
    parameters. *)
Definition matcher : Type := string → string → option (string * gmap string string).

Definition URLParam (params : gmap string string) (k : string) : string := default "" (params !! k).

Definition stacInfoClassifier (mux : matcher) (rawPath : string) (r : httpRequest)
    : option STACInfo :=
  let routePath := if String.eqb rawPath "" then URLPath r else rawPath in
  match mux (Method r) routePath with
  | None => None
  | Some (pattern, params) =>
      match Values.get pattern routePatternTypes with
      | None => None
      | Some rt =>
          let collection :=
            if bool_decide (rt = RequestTypeAsset) then URLParam params "originId"
            else URLParam params "collectionId" in
          Some (mkSTACInfo collection (URLParam params "itemId") rt None)
      end
  end.

Lemma RequestType_String_inj rt rt' : RequestType_String rt = RequestType_String rt' → rt = rt'.
Proof. destruct rt, rt'; done. Qed.

End Middleware.
