(* ===== verification/Auth.v ===== *)
(** * Authentication ([internal/middleware/auth])

    Principals, the provider chain, and the API-key provider.  A provider
    is a value of the [Provider] record; the optional [CredentialClaimer]
    interface is its optional field.

    [APIKeyProvider] stores entries under the HMAC of their key; [keyring]
    relates it to the abstract map from plaintext keys it implements. *)

From S2P Require Import Prelude GoLib Stac Cursor Middleware.
Import Strings Middleware.

Module Auth.

Record Principal := mkPrincipal {
  p_ID : string;
  p_Type : string;
  p_Email : string;
  p_Name : string;
  p_Groups : list string;
  p_Roles : list string;
  p_Attributes : gmap string string;
  p_Collections : list string;
  p_Token : string;
  p_ExpiresAt : Z;
}.

Definition IsAnonymous (p : Principal) : bool := String.eqb (p_Type p) "anonymous".
Definition HasGroup (p : Principal) (group : string) : bool := existsb (String.eqb group) (p_Groups p).
Definition HasRole (p : Principal) (role : string) : bool := existsb (String.eqb role) (p_Roles p).
Definition CanAccessCollection (p : Principal) (collection : string) : bool :=
  match p_Collections p with
  | [] => true
  | cs => existsb (λ c, String.eqb c collection || String.eqb c "*") cs
  end.
Definition AnonymousPrincipal : Principal :=
  mkPrincipal "anonymous" "anonymous" "" "" [] [] ∅ [] "" 0.

(** ** The provider chain *)

Definition authError : Type := string.

Record Provider := mkProvider {
  prov_Name : string;
  prov_ClaimsCredential : option (httpRequest → bool);
  prov_Authenticate : httpRequest → result authError (option Principal);
}.

Record Config := mkConfig { AllowAnonymous : bool; Providers : list Provider }.

Definition claims (p : Provider) (r : httpRequest) : bool :=
  match prov_ClaimsCredential p with Some f => f r | None => false end.

Inductive chainResult := Rejected | Authed (p : Principal) | NoOne.

(** The loop over the providers. *)
Fixpoint walk (providers : list Provider) (r : httpRequest) : chainResult :=
  match providers with
  | [] => NoOne
  | provider :: rest =>
      let claimed := claims provider r in
      match prov_Authenticate provider r with
      | Err _ => if claimed then Rejected else walk rest r
      | Ok (Some p) => Authed p
      | Ok None => walk rest r
      end
  end.

Definition unauthorized : jsonError := mkJSONError 401 "Unauthorized" "authentication required".

(** The handler: the principal the next handler runs with, or the error
    response. *)
Definition authenticate (cfg : Config) (r : httpRequest) : result jsonError Principal :=
  match walk (Providers cfg) r with
  | Rejected => Err unauthorized
  | Authed p => Ok p
  | NoOne => if negb (AllowAnonymous cfg) then Err unauthorized else Ok AnonymousPrincipal
  end.

(** ** API keys *)

Record APIKeyEntry := mkKeyEntry {
  k_Key : string;
  k_Name : string;
  k_Description : string;
  k_Roles : list string;
  k_Groups : list string;
  k_Collections : list string;
  k_Enabled : bool;
}.

Record APIKeyProvider := mkAPIKeyProvider {
  ak_name : string;
  ak_header : string;
  ak_queryParam : string;
  ak_allowQueryParam : bool;
  ak_hmacSecret : bytes;
  ak_keys : gmap string APIKeyEntry;
  ak_queryWarnLast : option Z;
}.

Section APIKey.
Context `{!Crypto, !URL.GoURL, !MapRange}.
Implicit Types (p : APIKeyProvider).

Definition withKeys (ks : gmap string APIKeyEntry) p : APIKeyProvider :=
  mkAPIKeyProvider (ak_name p) (ak_header p) (ak_queryParam p) (ak_allowQueryParam p)
    (ak_hmacSecret p) ks (ak_queryWarnLast p).

Definition digest p (key : string) : string := Hex.EncodeToString (hmac_sha256 (ak_hmacSecret p) key).

Definition clearKey (e : APIKeyEntry) : APIKeyEntry :=
  mkKeyEntry "" (k_Name e) (k_Description e) (k_Roles e) (k_Groups e) (k_Collections e) (k_Enabled e).

(** One entry of a keys file, already unmarshalled. *)
Definition loadEntry p (ks : gmap string APIKeyEntry) (e : APIKeyEntry) : gmap string APIKeyEntry :=
  if k_Enabled e && negb (String.eqb (k_Key e) "") then <[digest p (k_Key e) := clearKey e]> ks else ks.

(** [loadKeysFromFile]: [None] when the file cannot be read or parsed. *)
Definition loadKeysFromFile (file : option (list APIKeyEntry)) p : option APIKeyProvider :=
  entries ← file; Some (withKeys (foldl (loadEntry p) (ak_keys p) entries) p).

Definition ReloadKeys (file : option (list APIKeyEntry)) p : option APIKeyProvider :=
  loadKeysFromFile file p.

Definition AddKey (key : string) (entry : APIKeyEntry) p : APIKeyProvider :=
  withKeys (<[digest p key := clearKey entry]> (ak_keys p)) p.

Definition RemoveKey (key : string) p : APIKeyProvider :=
  withKeys (delete (digest p key) (ak_keys p)) p.

Record APIKeyConfig := mkAPIKeyConfig {
  ac_Name : string;
  ac_Header : string;
  ac_QueryParam : string;
  ac_KeysFile : option (option (list APIKeyEntry));  (* no path, or the file's contents *)
  ac_Keys : gmap string APIKeyEntry;
  ac_HMACSecret : bytes;
  ac_AllowQueryParam : bool;
}.

Definition addConfigured p (ks : gmap string APIKeyEntry) (kv : string * APIKeyEntry)
    : gmap string APIKeyEntry :=
  if k_Enabled kv.2 then <[digest p kv.1 := clearKey kv.2]> ks else ks.

(** [random] is the per-process secret drawn when none is configured. *)
Definition NewAPIKeyProvider (cfg : APIKeyConfig) (random : bytes) : option APIKeyProvider :=
  let secret := if String.eqb (ac_HMACSecret cfg) "" then random else ac_HMACSecret cfg in
  let p := mkAPIKeyProvider
    (if String.eqb (ac_Name cfg) "" then "api_key" else ac_Name cfg)
    (if String.eqb (ac_Header cfg) "" && String.eqb (ac_QueryParam cfg) "" then "X-API-Key"
     else ac_Header cfg)
    (ac_QueryParam cfg) (ac_AllowQueryParam cfg) secret ∅ None in
  p ← match ac_KeysFile cfg with None => Some p | Some file => loadKeysFromFile file p end;
  Some (withKeys (foldl (addConfigured p) (ak_keys p) (range (ac_Keys cfg))) p).

Definition queryGet (r : httpRequest) (k : string) : string := URL.query_Get (RawQuery r) k.

Definition ClaimsCredential p (r : httpRequest) : bool :=
  (negb (String.eqb (ak_header p) "") && negb (String.eqb (Header.Get (ReqHeader r) (ak_header p)) ""))
  || (ak_allowQueryParam p && negb (String.eqb (ak_queryParam p) "") &&
      negb (String.eqb (queryGet r (ak_queryParam p)) "")).

(** The key a request presents, if any, and whether it came in the query. *)
Definition presentedKey p (r : httpRequest) : string * bool :=
  let apiKey := if String.eqb (ak_header p) "" then "" else Header.Get (ReqHeader r) (ak_header p) in
  if String.eqb apiKey "" && ak_allowQueryParam p && negb (String.eqb (ak_queryParam p) "")
  then let k := queryGet r (ak_queryParam p) in (k, negb (String.eqb k ""))
  else (apiKey, false).

Definition keyPrincipal (e : APIKeyEntry) : Principal :=
  mkPrincipal ("apikey:" +:+ k_Name e) "service" "" (k_Name e) (k_Groups e) (k_Roles e)
    {["auth_method" := "api_key"; "key_name" := k_Name e]} (k_Collections e) "" 0.

Definition Authenticate p (r : httpRequest) : result authError (option Principal) :=
  let '(apiKey, _) := presentedKey p r in
  if String.eqb apiKey "" then Ok None else
  let presentedDigest := digest p apiKey in
  match ak_keys p !! presentedDigest with
  | None => Err "invalid API key"
  | Some entry =>
      if negb (k_Enabled entry) then Err "invalid API key"
      else if negb (String.eqb presentedDigest (digest p apiKey)) then Err "invalid API key"
      else Ok (Some (keyPrincipal entry))
  end.

(** At most one warning a minute; with whether it warned. *)
Definition maybeWarnQueryParamAuth (now : Z) p : bool * APIKeyProvider :=
  let warned := mkAPIKeyProvider (ak_name p) (ak_header p) (ak_queryParam p) (ak_allowQueryParam p)
    (ak_hmacSecret p) (ak_keys p) (Some now) in
  match ak_queryWarnLast p with
  | Some last => if (now - last <? 60 * 1000000000)%Z then (false, p) else (true, warned)
  | None => (true, warned)
  end.

(** [Authenticate] with the warning it may log. *)
Definition authenticateAt (now : Z) p (r : httpRequest) : result authError (option Principal) * bool * APIKeyProvider :=
  let res := Authenticate p r in
  match res with
  | Ok (Some _) =>
      if (presentedKey p r).2 then let '(b, p) := maybeWarnQueryParamAuth now p in (res, b, p) else (res, false, p)
  | _ => (res, false, p)
  end.

(** The times of the warnings of a run of requests, latest first. *)
Definition warnRun (st : list Z * APIKeyProvider) (c : Z * httpRequest) : list Z * APIKeyProvider :=
  let '(_, b, p) := authenticateAt c.1 st.2 c.2 in (if b then c.1 :: st.1 else st.1, p).

Definition apiKeyProvider p : Provider :=
  mkProvider (ak_name p) (Some (ClaimsCredential p)) (Authenticate p).

(** ** Abstract key ring *)

Inductive keyOp :=
| OpAdd (key : string) (e : APIKeyEntry)
| OpRemove (key : string)
| OpReload (entries : list APIKeyEntry).

Definition execKey p (o : keyOp) : APIKeyProvider :=
  match o with
  | OpAdd key e => AddKey key e p
  | OpRemove key => RemoveKey key p
  | OpReload entries => default p (ReloadKeys (Some entries) p)
  end.

Definition ringLoad (m : gmap string APIKeyEntry) (e : APIKeyEntry) : gmap string APIKeyEntry :=
  if k_Enabled e && negb (String.eqb (k_Key e) "") then <[k_Key e := clearKey e]> m else m.

Definition execRing (m : gmap string APIKeyEntry) (o : keyOp) : gmap string APIKeyEntry :=
  match o with
  | OpAdd key e => <[key := clearKey e]> m
  | OpRemove key => delete key m
  | OpReload entries => foldl ringLoad m entries
  end.

Definition opKeys (o : keyOp) : list string :=
  match o with OpAdd key _ | OpRemove key => [key] | OpReload entries => k_Key <$> entries end.

(** At [key], the provider's map is the ring with its keys hashed. *)
Definition keyring (key : string) (m : gmap string APIKeyEntry) p : Prop :=
  ak_keys p !! digest p key = m !! key.

(** No digest of another key collides with that of [key]. *)
Definition distinct p (key : string) (others : list string) : Prop :=
  ∀ k, k ∈ others → hmac_sha256 (ak_hmacSecret p) k = hmac_sha256 (ak_hmacSecret p) key → k = key.

Lemma distinct_digest p key others k :
  distinct p key others → k ∈ others → k ≠ key → digest p k ≠ digest p key.
Proof. intros Hd Hk Hne Heq%Hex.hex_inj. by apply Hne, Hd. Qed.

(** Whatever the requests and the clock, two warnings are a minute apart. *)
Lemma warnings_spaced p calls : ak_queryWarnLast p = None →
  Sorted (λ later earlier, earlier + 60 * 1000000000 ≤ later)%Z (foldl warnRun ([], p) calls).1.
Proof.
  intros Hp. enough (∀ st, head st.1 = ak_queryWarnLast st.2 → Sorted (λ later earlier, earlier + 60 * 1000000000 ≤ later)%Z st.1 →
    Sorted (λ later earlier, earlier + 60 * 1000000000 ≤ later)%Z (foldl warnRun st calls).1) as Hgen by (by apply Hgen).
  induction calls as [|[now r] calls IH]; intros [ws q] Hh Hs; cbn [foldl]; [done|]. cbn [fst snd] in *.
  unfold warnRun, authenticateAt, maybeWarnQueryParamAuth. cbn [fst snd].
  destruct (Authenticate q r) as [[pr|]|]; [|by apply IH..]. destruct (presentedKey q r).2; [|by apply IH].
  destruct (ak_queryWarnLast q) as [last|] eqn:El; [destruct (Z.ltb_spec (now - last) (60 * 1000000000))|].
  - by apply IH; cbn; rewrite ?El.
  - apply IH; [done|]. constructor; [done|]. destruct ws; cbn in Hh; [done|]. injection Hh as ->. constructor. lia.
  - apply IH; [done|]. constructor; [done|]. by destruct ws.
Qed.

Lemma keyring_insert k m p key e :
  distinct p k [key] → keyring k m p →
  keyring k (<[key := e]> m) (withKeys (<[digest p key := e]> (ak_keys p)) p).
Proof.
  intros Hd Hr. unfold keyring in *. cbn. destruct (decide (key = k)) as [->|Hne].
  - by rewrite !lookup_insert_eq.
  - rewrite !lookup_insert_ne; [apply Hr|done|]. apply (distinct_digest p k [key] key); [done|set_solver|done].
Qed.

Lemma keyring_delete k m p key :
  distinct p k [key] → keyring k m p →
  keyring k (delete key m) (withKeys (delete (digest p key) (ak_keys p)) p).
Proof.
  intros Hd Hr. unfold keyring in *. cbn. destruct (decide (key = k)) as [->|Hne].
  - by rewrite !lookup_delete_eq.
  - rewrite !lookup_delete_ne; [apply Hr|done|]. apply (distinct_digest p k [key] key); [done|set_solver|done].
Qed.

Lemma keyring_load k entries m p :
  distinct p k (k_Key <$> entries) → keyring k m p →
  keyring k (foldl ringLoad m entries) (withKeys (foldl (loadEntry p) (ak_keys p) entries) p).
Proof.
  set (ks := ak_keys p). intros Hd Hr.
  assert (Hr' : keyring k m (withKeys ks p)) by (by destruct p). clearbody ks. clear Hr.
  revert m ks Hr'. induction entries as [|e entries IH]; intros m ks Hr; cbn [foldl]; [done|].
  apply IH; [intros k' Hk'; apply Hd; set_solver|].
  unfold ringLoad, loadEntry. destruct (_ && _); [|done].
  apply (keyring_insert k m (withKeys ks p)); [|done]. intros k' Hk'. apply Hd. set_solver.
Qed.

Lemma exec_secret o p : ak_hmacSecret (execKey p o) = ak_hmacSecret p.
Proof. by destruct o. Qed.

Lemma keyring_exec k ops m p :
  distinct p k (ops ≫= opKeys) → keyring k m p →
  keyring k (foldl execRing m ops) (foldl execKey p ops).
Proof.
  revert m p. induction ops as [|o ops IH]; intros m p Hd Hr; cbn [foldl]; [done|].
  assert (Ho : distinct p k (opKeys o)) by (intros k' Hk'; apply Hd; set_solver).
  apply IH.
  - intros k' Hk'. rewrite exec_secret. apply Hd. set_solver.
  - destruct o as [key e|key|entries]; cbn;
      [by apply keyring_insert|by apply keyring_delete|by apply keyring_load].
Qed.

Lemma exec_kept ops p :
  ak_header (foldl execKey p ops) = ak_header p ∧ ak_queryParam (foldl execKey p ops) = ak_queryParam p ∧
  ak_allowQueryParam (foldl execKey p ops) = ak_allowQueryParam p.
Proof.
  revert p. induction ops as [|[key e|key|entries] ops IH]; intros p; cbn [foldl]; [done|..];
    edestruct IH as (-> & -> & ->); done.
Qed.

End APIKey.

(** ** Properties *)

(** C22: The chain fails closed: the handler behind it runs exactly with the
    principal of the first provider that authenticates, reached over
    providers that did not apply or whose errors concern a credential they
    do not claim; once a provider that claims the request's credential
    rejects it, no later provider and no anonymous access is tried. *)
Theorem authenticate_fails_closed cfg r :
  match authenticate cfg r with
  | Ok p =>
      (∃ l1 prov l2, Providers cfg = l1 ++ prov :: l2 ∧ prov_Authenticate prov r = Ok (Some p) ∧
         Forall (λ q, prov_Authenticate q r = Ok None ∨
                      (claims q r = false ∧ ∃ e, prov_Authenticate q r = Err e)) l1) ∨
      (AllowAnonymous cfg = true ∧ p = AnonymousPrincipal ∧
       Forall (λ q, prov_Authenticate q r = Ok None ∨
                    (claims q r = false ∧ ∃ e, prov_Authenticate q r = Err e)) (Providers cfg))
  | Err e =>
      e = unauthorized ∧
      ((∃ l1 prov l2 e', Providers cfg = l1 ++ prov :: l2 ∧ claims prov r = true ∧
          prov_Authenticate prov r = Err e' ∧
          Forall (λ q, ∀ p, prov_Authenticate q r ≠ Ok (Some p)) l1) ∨
       (AllowAnonymous cfg = false ∧ Forall (λ q, ∀ p, prov_Authenticate q r ≠ Ok (Some p)) (Providers cfg)))
  end.
Proof.
  unfold authenticate. destruct cfg as [anon ps]; cbn.
  set (passed := λ q, prov_Authenticate q r = Ok None ∨
    (claims q r = false ∧ ∃ e, prov_Authenticate q r = Err e)).
  assert (Hw : match walk ps r with
    | Authed p => ∃ l1 prov l2, ps = l1 ++ prov :: l2 ∧ prov_Authenticate prov r = Ok (Some p) ∧ Forall passed l1
    | NoOne => Forall passed ps
    | Rejected => ∃ l1 prov l2 e', ps = l1 ++ prov :: l2 ∧ claims prov r = true ∧
        prov_Authenticate prov r = Err e' ∧ Forall passed l1
    end).
  { induction ps as [|prov ps IH]; cbn; [done|].
    assert (Hskip : passed prov → match walk ps r with
      | Authed p => ∃ l1 q l2, prov :: ps = l1 ++ q :: l2 ∧ prov_Authenticate q r = Ok (Some p) ∧ Forall passed l1
      | NoOne => Forall passed (prov :: ps)
      | Rejected => ∃ l1 q l2 e', prov :: ps = l1 ++ q :: l2 ∧ claims q r = true ∧
          prov_Authenticate q r = Err e' ∧ Forall passed l1
      end).
    { intros Hp. destruct (walk ps r).
      - destruct IH as (l1 & q & l2 & e' & -> & ?). exists (prov :: l1), q, l2, e'. naive_solver.
      - destruct IH as (l1 & q & l2 & -> & ?). exists (prov :: l1), q, l2. naive_solver.
      - by constructor. }
    destruct (prov_Authenticate prov r) as [[p|]|e] eqn:Ep.
    - exists [], prov, ps. naive_solver.
    - apply Hskip. by left.
    - destruct (claims prov r) eqn:Ec; [exists [], prov, ps, e; naive_solver|].
      apply Hskip. right. eauto. }
  assert (Hp : ∀ l, Forall passed l → Forall (λ q, ∀ p, prov_Authenticate q r ≠ Ok (Some p)) l).
  { intros l Hl. eapply Forall_impl; [done|]. intros q [Hq|(_ & e & Hq)] p; rewrite Hq; done. }
  destruct (walk ps r).
  - split; [done|]. left. destruct Hw as (l1 & q & l2 & e' & ? & ? & ? & ?). eauto 10.
  - left. eauto 10.
  - destruct anon; cbn; [right; eauto|]. split; [done|]. right. eauto.
Qed.

(** C40: The hashed key store behaves as a map from plaintext keys: after any
    sequence of additions, removals and reloads, a presented key
    authenticates as the enabled entry last stored under it, and any other
    key is an error that the chain turns into a rejection; provided no
    other key handled has the digest of the presented one. *)
Theorem APIKey_refines `{!Crypto, !URL.GoURL} p m ops r :
  let key := (presentedKey p r).1 in
  distinct p key (ops ≫= opKeys) → keyring key m p →
  let p' := foldl execKey p ops in
  let m' := foldl execRing m ops in
  Authenticate p' r =
    (if String.eqb key "" then Ok None else
     match m' !! key with
     | Some e => if k_Enabled e then Ok (Some (keyPrincipal e)) else Err "invalid API key"
     | None => Err "invalid API key"
     end) ∧
  (key ≠ "" ↔ ClaimsCredential p' r = true).
Proof.
  intros key Hd Hr p' m'. pose proof (keyring_exec key ops m p Hd Hr) as Hr'.
  destruct (exec_kept ops p) as (Hh & Hq & Ha).
  assert (presentedKey p' r = presentedKey p r) as Hpk
    by (unfold presentedKey, p'; by rewrite Hh, Hq, Ha).
  split.
  - unfold Authenticate. rewrite Hpk. fold p' m' in Hr'. unfold keyring in Hr'. unfold key in *.
    destruct (presentedKey p r) as [k fq]; cbn in *.
    case_match; [done|]. rewrite Hr'. destruct (m' !! k) as [e|]; [|done]. rewrite String.eqb_refl. by destruct (k_Enabled e).
  - unfold ClaimsCredential, key, presentedKey, p'. rewrite Hh, Hq, Ha.
    destruct (String.eqb_spec (ak_header p) "") as [E|E]; cbn.
    + destruct (ak_allowQueryParam p && negb (String.eqb (ak_queryParam p) "")) eqn:E2; cbn; [|done].
      by rewrite negb_true_iff, String.eqb_neq.
    + destruct (String.eqb_spec (Header.Get (ReqHeader r) (ak_header p)) "") as [E3|E3]; cbn; [|done].
      destruct (ak_allowQueryParam p && negb (String.eqb (ak_queryParam p) "")) eqn:E2; cbn;
        [by rewrite negb_true_iff, String.eqb_neq|]. by rewrite E3.
Qed.

Module Witness.

#[local] Instance plainCrypto : Crypto := {| sha256 s := s; hmac_sha256 k m := m |}.
#[local] Existing Instance URL.PlainURL.

Definition provider : APIKeyProvider :=
  mkAPIKeyProvider "api_key" "X-API-Key" "" false "s" ∅ None.
Definition entry (n : string) (on : bool) : APIKeyEntry := mkKeyEntry "" n "" [] [] [] on.
Definition request (k : string) : httpRequest :=
  mkRequest "GET" "/" "" {["X-Api-Key" := [k]]} "".

Lemma APIKey_refines_witness :
  Authenticate (foldl execKey provider [OpAdd "k1" (entry "alice" true); OpAdd "k2" (entry "bob" true);
    OpRemove "k2"]) (request "k1") = Ok (Some (keyPrincipal (entry "alice" true))).
Proof.
  destruct (APIKey_refines provider ∅ [OpAdd "k1" (entry "alice" true); OpAdd "k2" (entry "bob" true);
    OpRemove "k2"] (request "k1")) as [-> _].
  - intros k _ Heq. exact Heq.
  - reflexivity.
  - reflexivity.
Defined.

(** A reload adds what the file lists and never drops a key: a key deleted
    from, or disabled in, the file keeps authenticating. *)
Lemma ReloadKeys_keeps_revoked :
  Authenticate (foldl execKey provider [OpAdd "k1" (entry "alice" true);
    OpReload [mkKeyEntry "k1" "alice" "" [] [] [] false]]) (request "k1") =
  Ok (Some (keyPrincipal (entry "alice" true))).
Proof. reflexivity. Qed.

End Witness.

End Auth.
