(* ===== verification/Cql2.v ===== *)
(** * Geometry facade and CQL2 evaluation ([internal/geo/geo.go],
      [internal/stac/cql2_eval.go])

    [EvalCQL2] decides locally whether an item satisfies a policy
    predicate.  Parameters: the topology library behind [internal/geo]
    ([GeoLib]), the GeoJSON codec of the CQL2 library ([GeomLit] holds its
    geometries), [encoding/json] on generic values ([JSON]) and
    [strconv.ParseFloat].  [Node] has the node kinds the evaluator
    distinguishes; every other kind is [NOther]. *)

From S2P Require Import Prelude GoLib.
From Stdlib Require Import Ascii SpecFloat.
Import Strings Values.

(** ** [internal/geo] *)

Module Geo.

Class GeoLib := {
  Geom : Type;
  geojson_Unmarshal : bytes → option Geom;
  predicate_Covers : Geom → Geom → option bool;      (* [None]: library error *)
  predicate_Intersects : Geom → Geom → option bool;
}.

Section Geo.
Context `{!JSON, !GeoLib}.

(** A decoded document only ever holds objects where a geometry is
    expected; a document in raw form is parsed by [ParseRaw]. *)
Definition ParseRaw (raw : bytes) : option Geom :=
  if String.eqb raw "" then None else geojson_Unmarshal raw.

Definition ParseGeoJSON (data : value) : option Geom :=
  match data with
  | VObj _ => raw ← value_Marshal data; ParseRaw raw
  | _ => None
  end.

Definition Contains (g other : Geom) : bool := default false (predicate_Covers g other).
Definition Intersects (g other : Geom) : bool := default false (predicate_Intersects g other).

(** As an object for a response; [geojson_Marshal] is the library's writer. *)
Definition ToGeoJSON (geojson_Marshal : Geom → option bytes) (g : option Geom) : value :=
  match g ≫= geojson_Marshal with
  | None => VNil
  | Some b => match value_Unmarshal b with Some (VObj m) => VObj m | _ => VNil end
  end.

(** What was written parses to a geometry again, when the library reads its
    own output back. *)
Lemma ParseGeoJSON_ToGeoJSON geojson_Marshal g m :
  ToGeoJSON geojson_Marshal (Some g) = VObj m →
  (∀ b v, value_Unmarshal b = Some v → value_Marshal v = Some b) →
  (∀ b, geojson_Marshal g = Some b → b ≠ "" ∧ geojson_Unmarshal b = Some g) →
  ParseGeoJSON (VObj m) = Some g.
Proof.
  unfold ToGeoJSON, ParseGeoJSON, ParseRaw. cbn. intros Ht Hj Hg.
  destruct (geojson_Marshal g) as [b|]; [|done]. destruct (value_Unmarshal b) as [[]|] eqn:E; simplify_eq.
  rewrite (Hj _ _ E). cbn. destruct (Hg b eq_refl) as [Hne ->]. by destruct (String.eqb_spec b "").
Qed.
End Geo.
End Geo.

Module Cql2.
Import Geo.

(** ** The expression tree *)

Class Cql2Geo := {
  CGeom : Type;
  cgeom_Encode : CGeom → option bytes;
  cgeom_Parse : bytes → option CGeom;
}.

Inductive Operator :=
| OpAnd | OpOr | OpNot | OpEq | OpNeq | OpLt | OpLte | OpGt | OpGte | OpIn | OpIsNull
| OpSIntersects | OpOther (name : string).

Inductive Node `{Cql2Geo} :=
| BoolLit (b : bool)
| NumLit (f : option float64)     (* [None]: the literal is out of range *)
| StringLit (s : string)
| NullLit
| PropertyRef (name : string)
| ArrayLit (elements : list Node)
| Op (op : Operator) (args : list Node)
| GeomLit (g : CGeom)
| BBoxLit (coords : list float64)
| NOther (kind : string).
#[global] Arguments BoolLit {_} b.
#[global] Arguments NumLit {_} f.
#[global] Arguments StringLit {_} s.
#[global] Arguments NullLit {_}.
#[global] Arguments PropertyRef {_} name.
#[global] Arguments ArrayLit {_} elements.
#[global] Arguments Op {_} op args.
#[global] Arguments GeomLit {_} g.
#[global] Arguments BBoxLit {_} coords.
#[global] Arguments NOther {_} kind.

Inductive evalError := ErrUnsupportedNode (kind : string) | ErrEval (msg : string).

(** [strconv.ParseFloat(s, 64)]. *)
Class ParseFloat := { parse_float : string → option float64 }.

Section Eval.
Context `{!JSON, !GeoLib, !Cql2Geo, !ParseFloat}.

(** ** Properties of an item *)

Fixpoint walkPath (v : value) (path : list string) : value :=
  match path with
  | [] => v
  | p :: path =>
      match v with
      | VObj m => walkPath (index p m) path
      | _ => VNil
      end
  end.

Definition lookupProperty (item : list (string * value)) (name : string) : value :=
  if Strings.Contains name "." then walkPath (VObj item) (Split name ".") else
  match as_object (index "properties" item) with
  | Some props => match get name props with Some v => v | None => index name item end
  | None => index name item
  end.

(** ** Comparison *)

Definition toFloat (v : value) : option float64 :=
  match v with
  | VFloat f => Some f
  | VInt z => Some (float64_of_int z)
  | VStr s => parse_float s
  | _ => None
  end.

Definition numericCmp (op : Operator) (l r : float64) : bool :=
  match op with
  | OpEq => SFeqb l r
  | OpNeq => negb (SFeqb l r)
  | OpLt => SFltb l r
  | OpLte => SFleb l r
  | OpGt => SFltb r l
  | OpGte => SFleb r l
  | _ => false
  end.

Definition stringCmp (op : Operator) (l r : string) : bool :=
  match op with
  | OpEq => String.eqb l r
  | OpNeq => negb (String.eqb l r)
  | OpLt => ltb l r
  | OpLte => negb (ltb r l)
  | OpGt => ltb r l
  | OpGte => negb (ltb l r)
  | _ => false
  end.

Definition compareTyped (op : Operator) (left right : value) : bool :=
  match left, right with
  | VStr ls, VStr rs => stringCmp op ls rs
  | VBool lb, VBool rb =>
      match op with
      | OpEq => Bool.eqb lb rb
      | OpNeq => negb (Bool.eqb lb rb)
      | _ => false
      end
  | _, _ => false
  end.

Definition compare (op : Operator) (left right : value) : bool :=
  if is_nil left || is_nil right then
    match op with
    | OpEq => is_nil left && is_nil right
    | OpNeq => negb (is_nil left && is_nil right)
    | _ => false
    end
  else
    match toFloat left, toFloat right with
    | Some lf, Some rf => numericCmp op lf rf
    | _, _ => compareTyped op left right
    end.

(** ** Spatial predicate *)

Definition polygonOf (minX minY maxX maxY : float64) : value :=
  let pt (x y : float64) := VArr [VFloat x; VFloat y] in
  VObj [("type", VStr "Polygon");
        ("coordinates", VArr [VArr [pt minX minY; pt maxX minY; pt maxX maxY; pt minX maxY;
                                    pt minX minY]])].

Definition literalToGeoJSON (n : Node) : option bytes :=
  match n with
  | GeomLit g => cgeom_Encode g
  | BBoxLit [minX; minY; maxX; maxY] => value_Marshal (polygonOf minX minY maxX maxY)
  | BBoxLit [minX; minY; _; maxX; maxY; _] => value_Marshal (polygonOf minX minY maxX maxY)
  | _ => None
  end.

Definition isGeomLit (n : Node) : bool :=
  match n with GeomLit _ | BBoxLit _ => true | _ => false end.

Definition intersectsLit (item : list (string * value)) (prop : string) (lit : Node) : bool :=
  match ParseGeoJSON (lookupProperty item prop) with
  | None => false
  | Some itemGeom =>
      match literalToGeoJSON lit ≫= ParseRaw with
      | None => false
      | Some litGeom => Intersects itemGeom litGeom
      end
  end.

Definition evalSIntersects (args : list Node) (item : list (string * value))
    : result evalError value :=
  match args with
  | [PropertyRef name; lit] | [lit; PropertyRef name] =>
      if isGeomLit lit then Ok (VBool (intersectsLit item name lit))
      else Err (ErrUnsupportedNode "Op:s_intersects (need property + literal geometry)")
  | [_; _] => Err (ErrUnsupportedNode "Op:s_intersects (need property + literal geometry)")
  | _ => Err (ErrEval "S_INTERSECTS expects 2 args")
  end.

(** ** Evaluation *)

Definition asBool (what : string) (v : value) : result evalError bool :=
  match v with VBool b => Ok b | _ => Err (ErrEval (what +:+ " arg not boolean")) end.

Fixpoint eval (n : Node) (item : list (string * value)) {struct n} : result evalError value :=
  match n with
  | BoolLit b => Ok (VBool b)
  | NumLit (Some f) => Ok (VFloat f)
  | NumLit None => Err (ErrEval "bad number")
  | StringLit s => Ok (VStr s)
  | NullLit => Ok VNil
  | PropertyRef name => Ok (lookupProperty item name)
  | ArrayLit elements =>
      let evalAll := fix evalAll (es : list Node) : result evalError (list value) :=
        match es with
        | [] => Ok []
        | e :: es =>
            match eval e item with
            | Err x => Err x
            | Ok v => match evalAll es with Err x => Err x | Ok vs => Ok (v :: vs) end
            end
        end in
      VArr <$> evalAll elements
  | Op op args =>
      match op with
      | OpAnd =>
          (fix evalAnd (as_ : list Node) : result evalError value :=
             match as_ with
             | [] => Ok (VBool true)
             | a :: as_ =>
                 match mbind (M:=result evalError) (asBool "AND") (eval a item) with
                 | Err x => Err x
                 | Ok b => if b then evalAnd as_ else Ok (VBool false)
                 end
             end) args
      | OpOr =>
          (fix evalOr (as_ : list Node) : result evalError value :=
             match as_ with
             | [] => Ok (VBool false)
             | a :: as_ =>
                 match mbind (M:=result evalError) (asBool "OR") (eval a item) with
                 | Err x => Err x
                 | Ok b => if b then Ok (VBool true) else evalOr as_
                 end
             end) args
      | OpNot =>
          match args with
          | [a] => v ← eval a item; b ← asBool "NOT" v; Ok (VBool (negb b))
          | _ => Err (ErrEval "NOT expects 1 arg")
          end
      | OpEq | OpNeq | OpLt | OpLte | OpGt | OpGte =>
          match args with
          | [a; b] => left ← eval a item; right ← eval b item; Ok (VBool (compare op left right))
          | _ => Err (ErrEval "comparison expects 2 args")
          end
      | OpIn =>
          match args with
          | [a; b] =>
              needle ← eval a item; hay ← eval b item;
              match hay with
              | VArr arr => Ok (VBool (existsb (compare OpEq needle) arr))
              | _ => Err (ErrEval "IN second arg not array")
              end
          | _ => Err (ErrEval "IN expects 2 args")
          end
      | OpIsNull =>
          match args with
          | [a] => v ← eval a item; Ok (VBool (is_nil v))
          | _ => Err (ErrEval "ISNULL expects 1 arg")
          end
      | OpSIntersects => evalSIntersects args item
      | OpOther name => Err (ErrUnsupportedNode ("Op:" +:+ name))
      end
  | GeomLit _ | BBoxLit _ => Err (ErrUnsupportedNode "geometry literal")
  | NOther kind => Err (ErrUnsupportedNode kind)
  end.

Definition EvalCQL2 (expr : Node) (item : list (string * value)) : result evalError bool :=
  v ← eval expr item;
  match v with
  | VBool b => Ok b
  | _ => Err (ErrEval "top-level expression is not boolean")
  end.

(** ** Lemmas *)

(** [holds e item]: the evaluator answers true. *)
Definition holds (e : Node) (item : list (string * value)) : Prop := EvalCQL2 e item = Ok true.

Lemma EvalCQL2_bool e item b : EvalCQL2 e item = Ok b ↔ eval e item = Ok (VBool b).
Proof.
  unfold EvalCQL2. rewrite bind_ok. split.
  - intros (v & Hv & Hb). destruct v; naive_solver.
  - intros ->. eauto.
Qed.

Lemma eval_And_cons a as_ item :
  eval (Op OpAnd (a :: as_)) item =
    ((eval a item ≫= asBool "AND") ≫= λ b : bool,
       if b then eval (Op OpAnd as_) item else Ok (VBool false)).
Proof. done. Qed.

Lemma eval_Or_cons a as_ item :
  eval (Op OpOr (a :: as_)) item =
    ((eval a item ≫= asBool "OR") ≫= λ b : bool,
       if b then Ok (VBool true) else eval (Op OpOr as_) item).
Proof. done. Qed.

Lemma asBool_ok w v b : asBool w v = Ok b ↔ v = VBool b.
Proof. unfold asBool. destruct v; naive_solver. Qed.

Lemma bind_asBool {A} w (r : result evalError value) (f : bool → result evalError A) x :
  ((r ≫= asBool w) ≫= f) = Ok x ↔ ∃ b, r = Ok (VBool b) ∧ f b = Ok x.
Proof.
  destruct r as [v|e]; cbn; [|naive_solver]. destruct v; cbn; naive_solver.
Qed.

Lemma holds_And args item : holds (Op OpAnd args) item ↔ Forall (λ a, holds a item) args.
Proof.
  unfold holds. induction args as [|a args IH]; [split; [constructor|done]|].
  rewrite Forall_cons, <-IH, !EvalCQL2_bool, eval_And_cons, bind_asBool. split.
  - intros (b & Hv & Hb). destruct b; naive_solver.
  - intros [Ha Hb]. by exists true.
Qed.

(** The first argument that does not answer false decides a disjunction. *)
Lemma holds_Or args item :
  holds (Op OpOr args) item ↔
  ∃ l1 a l2, args = l1 ++ a :: l2 ∧ Forall (λ x, EvalCQL2 x item = Ok false) l1 ∧ holds a item.
Proof.
  unfold holds. induction args as [|a args IH].
  - split; [done|]. intros (l1 & a & l2 & Heq & _). by destruct l1.
  - rewrite EvalCQL2_bool, eval_Or_cons, bind_asBool. rewrite EvalCQL2_bool in IH. split.
    + intros (b & Hv & Hb). destruct b.
      * exists [], a, args. split_and!; [done|done|by apply EvalCQL2_bool].
      * apply IH in Hb as (l1 & x & l2 & -> & Hf & Hx). exists (a :: l1), x, l2.
        split_and!; [done|constructor; [by apply EvalCQL2_bool|done]|done].
    + intros (l1 & x & l2 & Heq & Hf & Hx). destruct l1 as [|y l1]; injection Heq as -> ->.
      * apply EvalCQL2_bool in Hx. exists true. eauto.
      * apply Forall_cons in Hf as [Hy Hf]. apply EvalCQL2_bool in Hy. exists false.
        split; [done|]. apply IH. by exists l1, x, l2.
Qed.

Lemma holds_Not e item : holds (Op OpNot [e]) item ↔ EvalCQL2 e item = Ok false.
Proof.
  unfold holds. rewrite !EvalCQL2_bool. cbn. rewrite bind_ok. setoid_rewrite bind_ok.
  setoid_rewrite asBool_ok. split.
  - intros (v & Hv & b & -> & [= Hb]). by destruct b.
  - intros ->. exists (VBool false). split; [done|]. by exists false.
Qed.

Lemma holds_SIntersects prop g item :
  EvalCQL2 (Op OpSIntersects [PropertyRef prop; GeomLit g]) item =
    Ok (intersectsLit item prop (GeomLit g)).
Proof. done. Qed.

Lemma holds_In prop lits item :
  holds (Op OpIn [PropertyRef prop; ArrayLit (StringLit <$> lits)]) item ↔
  ∃ s, s ∈ lits ∧ compare OpEq (lookupProperty item prop) (VStr s) = true.
Proof.
  unfold holds. rewrite EvalCQL2_bool. cbn -[compare].
  match goal with |- context [mbind _ (fmap VArr ?x)] => assert (x = Ok (VStr <$> lits)) as -> end.
  { induction lits as [|s l IH]; [done|]. cbn in *. by rewrite IH. }
  cbn -[compare]. split.
  - intros [= He]. apply existsb_exists in He as (v & Hv%list_elem_of_In & Hc).
    apply list_elem_of_fmap in Hv as (s & -> & Hs). eauto.
  - intros (s & Hs & Hc). do 2 f_equal. apply existsb_exists. exists (VStr s). split; [|done].
    by apply list_elem_of_In, list_elem_of_fmap_2.
Qed.

End Eval.

End Cql2.
