(* ===== verification/Authz.v ===== *)
(** * Authorization ([internal/middleware/authz])

    The decision types, the translation of policy constraints to CQL2
    ([cql2.go], [required_filters.go]) and the whole handler of
    [middleware.go]: [authorizeRequest] is everything before the inner
    handler runs, [enforceResponse] everything after, and [authzHandler]
    their composition.

    Parameters: the enforcer, the CQL2 library ([Cql2Lib], with what it
    documents in [Cql2Laws]), and the parameters of [Cql2.v]. *)

From S2P Require Import Prelude GoLib Stac Middleware Auth Cql2.
From Stdlib Require Import Ascii.
Import Strings Values Stac Middleware Cql2 Geo.

Module Authz.

(** ** Decisions *)

Record GeofenceConstraint := mkGeofence {
  AllowedArea : value;      (* [VNil] when absent *)
  DeniedArea : value;
  FilterMode : bool;
  GeometryProperty : string;
}.

Record AuthzConstraints := mkConstraints {
  AllowedCollections : list string;
  DeniedCollections : list string;
  Geofence : option GeofenceConstraint;
  MaxResults : Z;
  RequiredFilters : list (string * value);
  CQL2Filter : string;
  CQL2FilterJSON : value;
  GeofencePushedDown : bool;
}.

Record AuthzDecision := mkDecision {
  Allowed : bool;
  Reasons : list string;
  Constraints : option AuthzConstraints;
  Final : bool;
}.

Definition nonEmpty {A} (l : list A) : bool := match l with [] => false | _ => true end.

Definition HasConstraints (d : option AuthzDecision) : bool :=
  match d ≫= Constraints with
  | None => false
  | Some c =>
      nonEmpty (AllowedCollections c) || nonEmpty (DeniedCollections c)
      || match Geofence c with Some g => negb (is_nil (AllowedArea g)) | None => false end
      || (0 <? MaxResults c)%Z || nonEmpty (RequiredFilters c)
      || negb (String.eqb (CQL2Filter c) "") || negb (is_nil (CQL2FilterJSON c))
  end.

(** Constraints that neither select collections, nor bound the results, nor
    filter by property, nor name an area to stay within; what is left is a
    geofence with a denied area only. *)
Record unrestricted (c : AuthzConstraints) : Prop := {
  ur_allowed : AllowedCollections c = [];
  ur_denied : DeniedCollections c = [];
  ur_area : ∀ g, Geofence c = Some g → AllowedArea g = VNil;
  ur_max : (MaxResults c ≤ 0)%Z;
  ur_required : RequiredFilters c = [];
  ur_text : CQL2Filter c = "";
  ur_json : CQL2FilterJSON c = VNil;
}.

Lemma HasConstraints_false d :
  HasConstraints (Some d) = false ↔ ∀ c, Constraints d = Some c → unrestricted c.
Proof.
  unfold HasConstraints. cbn. destruct (Constraints d) as [c|]; [|done]. split.
  - intros Hc c' [= <-]. bool_to_prop.
    repeat match goal with H : nonEmpty ?l = false |- _ => destruct l eqn:?; [clear H|done] end.
    split; try done; try lia.
    + intros g Hg. rewrite Hg in *. by destruct (AllowedArea g).
    + by apply String.eqb_eq.
    + by destruct (CQL2FilterJSON c).
  - intros Hu. destruct (Hu c eq_refl) as [-> -> Ha Hm -> -> ->]. cbn.
    rewrite (proj2 (Z.ltb_ge _ _)) by done. destruct (Geofence c) as [g|]; [|done]. by rewrite (Ha g eq_refl).
Qed.

(** ** Policy input *)

Record PrincipalInfo := mkPrincipalInfo {
  pi_ID : string; pi_Type : string; pi_Roles : list string; pi_Groups : list string;
  pi_Attributes : gmap string string; pi_AuthMethod : string;
}.
Record RequestInfo := mkRequestInfo {
  ri_Method : string; ri_Path : string; ri_RequestType : string; ri_Query : string;
  ri_Headers : gmap string string; ri_ClientIP : string; ri_RequestID : string;
}.
Record ResourceInfo := mkResourceInfo {
  rs_Type : string; rs_Collection : string; rs_ItemID : string;
}.
Record AuthzInput := mkInput {
  in_Principal : option PrincipalInfo; in_Request : RequestInfo; in_Resource : ResourceInfo;
}.

Definition defaultHeaderAllowlist : gset string :=
  {["User-Agent"; "Accept"; "Accept-Language"; "Accept-Encoding"; "Content-Type"; "Origin";
    "Referer"]}.

Definition ConfigureHeaderAllowlist (extra : list string) : gset string :=
  foldl (λ allow h, if String.eqb h "" then allow else {[Header.CanonicalHeaderKey h]} ∪ allow)
    defaultHeaderAllowlist extra.

Definition extractHeader (allow : gset string) (result : gmap string string)
    (kv : string * list string) : gmap string string :=
  match kv.2 with
  | [] => result
  | v :: _ =>
      let canonical := Header.CanonicalHeaderKey kv.1 in
      if bool_decide (canonical ∈ allow) then <[canonical := v]> result else result
  end.

Definition extractHeaders `{MapRange} (allow : gset string) (headers : Header.header)
    : gmap string string := foldl (extractHeader allow) ∅ (range headers).

Definition resourceTypeFromRequest (rt : RequestType) : string :=
  match rt with
  | RequestTypeCollection | RequestTypeCollections => "collection"
  | RequestTypeItem | RequestTypeItems => "item"
  | RequestTypeSearch => "search"
  | _ => RequestType_String rt
  end.

(** The query keeps its raw form; the client IP and the request ID are
    those the outer tiers attached. *)
Definition BuildAuthzInput `{MapRange} (allow : gset string) (clientIP requestID : string)
    (r : httpRequest) (info : option STACInfo) (principal : option Auth.Principal) : AuthzInput :=
  mkInput
    (match principal with
     | None => None
     | Some p => Some (mkPrincipalInfo (Auth.p_ID p) (Auth.p_Type p) (Auth.p_Roles p)
                         (Auth.p_Groups p) (Auth.p_Attributes p)
                         (default "" (Auth.p_Attributes p !! "auth_method")))
     end)
    (mkRequestInfo (Method r) (URLPath r)
       (match info with Some i => RequestType_String (info_RequestType i) | None => "" end)
       (RawQuery r) (extractHeaders allow (ReqHeader r)) clientIP requestID)
    (match info with
     | Some i => mkResourceInfo (resourceTypeFromRequest (info_RequestType i))
                   (info_Collection i) (info_ItemID i)
     | None => mkResourceInfo "" "" ""
     end).

(** ** The CQL2 library *)

Inductive encoding := EncodingText | EncodingJSON.

Class Cql2Lib `{Cql2Geo} := {
  cql2_Parse : bytes → option Node;
  cql2_Encode : encoding → Node → option bytes;
  cql2_And : list Node → Node;
  cql2_Not : Node → Node;
  cql2_SIntersects : string → CGeom → Node;
  cql2_Compare : Operator → string → value → Node;   (* Eq, Neq, Lt, Lte, Gt, Gte *)
  cql2_In : string → list value → Node;
  cql2_IsNull : string → Node;
}.

(** The builders build the nodes they are named after, and both codecs read
    back what they write; a cql2-json document is no string and not null, and
    is read back also after it went through the JSON library. *)
Class Cql2Laws `{!JSON, Cql2Lib} := {
  And_node : ∀ es, cql2_And es = Op OpAnd es;
  Not_node : ∀ e, cql2_Not e = Op OpNot [e];
  SIntersects_node : ∀ p g, cql2_SIntersects p g = Op OpSIntersects [PropertyRef p; GeomLit g];
  Parse_Encode : ∀ n b, cql2_Encode EncodingText n = Some b → cql2_Parse b = Some n;
  Encode_nonempty : ∀ n b, cql2_Encode EncodingText n = Some b → b ≠ "";
  Parse_EncodeJSON : ∀ n b v, cql2_Encode EncodingJSON n = Some b → value_Unmarshal b = Some v →
    is_nil v = false ∧ as_string v = None ∧ ∃ raw, value_Marshal v = Some raw ∧ cql2_Parse raw = Some n;
}.

Inductive cql2Error := ErrMarshal | ErrGeoJSON | ErrParse | ErrEncode | ErrRequired (key : string).

Section Translate.
Context `{!JSON, !GeoLib, !Cql2Geo, !ParseFloat, !Cql2Lib}.

(** [e ← o] for a library call that fails with [err]. *)
Definition orElse {A} (o : option A) (err : cql2Error) : result cql2Error A :=
  match o with Some a => Ok a | None => Err err end.

Definition andNonNil (exprs : list (option Node)) : option Node :=
  match omap id exprs with
  | [] => None
  | [e] => Some e
  | es => Some (cql2_And es)
  end.

Definition areaGeom (area : value) : result cql2Error CGeom :=
  raw ← orElse (value_Marshal area) ErrMarshal;
  orElse (cgeom_Parse raw) ErrGeoJSON.

Definition geomProp (g : GeofenceConstraint) : string :=
  if String.eqb (GeometryProperty g) "" then "geometry" else GeometryProperty g.

Definition geofenceToCQL2 (g : option GeofenceConstraint) : result cql2Error (option Node) :=
  match g with
  | None => Ok None
  | Some g =>
      let prop := geomProp g in
      allowed ← (if is_nil (AllowedArea g) then Ok None
                 else geom ← areaGeom (AllowedArea g); Ok (Some (cql2_SIntersects prop geom)));
      denied ← (if is_nil (DeniedArea g) then Ok None
                else geom ← areaGeom (DeniedArea g);
                     Ok (Some (cql2_Not (cql2_SIntersects prop geom))));
      Ok (andNonNil [allowed; denied])
  end.

Definition parsePolicyCQL2 (c : AuthzConstraints) : result cql2Error (option Node) :=
  if negb (is_nil (CQL2FilterJSON c)) then
    raw ← orElse (value_Marshal (CQL2FilterJSON c)) ErrMarshal;
    n ← orElse (cql2_Parse raw) ErrParse; Ok (Some n)
  else if negb (String.eqb (CQL2Filter c) "") then
    n ← orElse (cql2_Parse (CQL2Filter c)) ErrParse; Ok (Some n)
  else Ok None.

Definition parseUserCQL2 (filter : value) : result cql2Error (option Node) :=
  match filter with
  | VNil => Ok None
  | VStr v => if String.eqb v "" then Ok None else n ← orElse (cql2_Parse v) ErrParse; Ok (Some n)
  | v => raw ← orElse (value_Marshal v) ErrMarshal; n ← orElse (cql2_Parse raw) ErrParse; Ok (Some n)
  end.

Definition encodeForLang (expr : Node) (lang : string) : result cql2Error value :=
  if String.eqb lang "cql2-json" then
    b ← orElse (cql2_Encode EncodingJSON expr) ErrEncode;
    orElse (value_Unmarshal b) ErrEncode
  else
    b ← orElse (cql2_Encode EncodingText expr) ErrEncode; Ok (VStr b).

Definition withCQL2Filter (f : string) (c : AuthzConstraints) : AuthzConstraints :=
  mkConstraints (AllowedCollections c) (DeniedCollections c) (Geofence c) (MaxResults c)
    (RequiredFilters c) f VNil true.

Definition maybePushDownGeofence (c : AuthzConstraints) (spatialSupported : bool)
    : result cql2Error (AuthzConstraints * bool) :=
  match Geofence c with
  | None => Ok (c, false)
  | Some _ =>
      if GeofencePushedDown c then Ok (c, false)
      else if negb spatialSupported then Ok (c, false)
      else
        geofenceExpr ← geofenceToCQL2 (Geofence c);
        match geofenceExpr with
        | None => Ok (c, false)
        | Some ge =>
            existing ← parsePolicyCQL2 c;
            match andNonNil [existing; Some ge] with
            | None => Ok (c, false)
            | Some combined =>
                b ← orElse (cql2_Encode EncodingText combined) ErrEncode;
                Ok (withCQL2Filter b c, true)
            end
        end
  end.

(** ** Required filters *)

Definition cmpOperator (op : string) : option Operator :=
  let op := ToLower op in
  if String.eqb op "eq" then Some OpEq
  else if String.eqb op "neq" || String.eqb op "ne" then Some OpNeq
  else if String.eqb op "lt" then Some OpLt
  else if String.eqb op "lte" || String.eqb op "le" then Some OpLte
  else if String.eqb op "gt" then Some OpGt
  else if String.eqb op "gte" || String.eqb op "ge" then Some OpGte
  else None.

Definition requiredFilterMapPredicate (key : string) (ops : list (string * value)) : option Node :=
  match ops with
  | [(op, raw)] =>
      match cmpOperator op with
      | Some o => Some (cql2_Compare o key raw)
      | None =>
          if String.eqb (ToLower op) "in"
          then items ← as_array raw; Some (cql2_In key items) else None
      end
  | _ => None
  end.

Definition requiredFilterClause (key : string) (v : value) : option Node :=
  match v with
  | VNil => Some (cql2_IsNull key)
  | VObj ops => requiredFilterMapPredicate key ops
  | v => Some (cql2_Compare OpEq key v)
  end.

Fixpoint requiredParts (rf : list (string * value)) (keys : list string)
    : result cql2Error (list Node) :=
  match keys with
  | [] => Ok []
  | k :: keys =>
      match requiredFilterClause k (index k rf) with
      | None => Err (ErrRequired k)
      | Some e => match requiredParts rf keys with Err x => Err x | Ok es => Ok (e :: es) end
      end
  end.

Definition requiredFiltersToCQL2 (rf : list (string * value)) : result cql2Error (option Node) :=
  match rf with
  | [] => Ok None
  | _ =>
      parts ← requiredParts rf (sort_Strings rf.*1);
      match parts with
      | [] => Ok None
      | [p] => Ok (Some p)
      | ps => Ok (Some (cql2_And ps))
      end
  end.

(** ** Request-side enforcement *)

Definition intersectStrings (a b : list string) : list string :=
  List.filter (λ s, existsb (String.eqb s) a) b.
Definition removeStrings (a b : list string) : list string :=
  List.filter (λ s, negb (existsb (String.eqb s) b)) a.

Definition withCollections (cs : list string) (sr : SearchRequest) : SearchRequest :=
  mkSearchRequest cs (IDs sr) (BBox sr) (Stac.Intersects sr) (Datetime sr) (Limit sr)
    (Stac.Cursor sr) (Token sr) (Next sr) (Sortby sr) (Filter sr) (FilterLang sr) (FilterCRS sr)
    (Query sr) (Stac.Fields sr) (OverrideURL sr) (OverrideBody sr) (AdapterName sr).
Definition withLimit (n : Z) (sr : SearchRequest) : SearchRequest :=
  mkSearchRequest (Collections sr) (IDs sr) (BBox sr) (Stac.Intersects sr) (Datetime sr) n
    (Stac.Cursor sr) (Token sr) (Next sr) (Sortby sr) (Filter sr) (FilterLang sr) (FilterCRS sr)
    (Query sr) (Stac.Fields sr) (OverrideURL sr) (OverrideBody sr) (AdapterName sr).
Definition withFilter (f : value) (lang : string) (sr : SearchRequest) : SearchRequest :=
  mkSearchRequest (Collections sr) (IDs sr) (BBox sr) (Stac.Intersects sr) (Datetime sr) (Limit sr)
    (Stac.Cursor sr) (Token sr) (Next sr) (Sortby sr) f lang (FilterCRS sr)
    (Query sr) (Stac.Fields sr) (OverrideURL sr) (OverrideBody sr) (AdapterName sr).

Definition clampLimit (c : AuthzConstraints) (sr : SearchRequest) : SearchRequest :=
  if ((0 <? MaxResults c) && ((Limit sr <=? 0) || (MaxResults c <? Limit sr)))%Z
  then withLimit (MaxResults c) sr else sr.

(** [Err ()] is [errCollectionsDenied]. *)
Definition restrictAllowed (c : AuthzConstraints) (sr : SearchRequest) : result unit SearchRequest :=
  match AllowedCollections c with
  | [] => Ok sr
  | allowed =>
      match Collections sr with
      | [] => Ok (withCollections allowed sr)
      | requested =>
          match intersectStrings allowed requested with
          | [] => Err ()
          | cs => Ok (withCollections cs sr)
          end
      end
  end.

Definition restrictDenied (c : AuthzConstraints) (sr : SearchRequest) : result unit SearchRequest :=
  match DeniedCollections c, Collections sr with
  | [], _ | _, [] => Ok sr
  | denied, requested =>
      match removeStrings requested denied with
      | [] => Err ()
      | cs => Ok (withCollections cs sr)
      end
  end.

(** The shared geofence gets its [FilterMode] defaulted in place. *)
Definition defaultFilterMode (c : AuthzConstraints) : AuthzConstraints :=
  match Geofence c with
  | Some g =>
      if negb (is_nil (AllowedArea g)) && negb (FilterMode g) && negb (GeofencePushedDown c) then
        mkConstraints (AllowedCollections c) (DeniedCollections c)
          (Some (mkGeofence (AllowedArea g) (DeniedArea g) true (GeometryProperty g)))
          (MaxResults c) (RequiredFilters c) (CQL2Filter c) (CQL2FilterJSON c) (GeofencePushedDown c)
      else c
  | None => c
  end.

Definition applyConstraints (sr : SearchRequest) (c : AuthzConstraints)
    : result unit (SearchRequest * AuthzConstraints) :=
  sr ← restrictAllowed c (clampLimit c sr);
  sr ← restrictDenied c sr;
  Ok (sr, defaultFilterMode c).

Inductive injectError := UserParse (e : cql2Error) | Internal (e : cql2Error).

Definition asInternal {A} (r : result cql2Error A) : result injectError A :=
  match r with Ok a => Ok a | Err e => Err (Internal e) end.

Definition injectCQL2Filter (sr : SearchRequest) (c : AuthzConstraints) (spatialSupported : bool)
    : result injectError (SearchRequest * AuthzConstraints) :=
  '(updated, _) ← asInternal (maybePushDownGeofence c spatialSupported);
  policyExpr ← asInternal (parsePolicyCQL2 updated);
  requiredExpr ← asInternal (requiredFiltersToCQL2 (RequiredFilters updated));
  userExpr ← match parseUserCQL2 (Filter sr) with Ok e => Ok e | Err e => Err (UserParse e) end;
  match andNonNil [userExpr; policyExpr; requiredExpr] with
  | None => Ok (sr, updated)
  | Some merged =>
      let lang := if String.eqb (FilterLang sr) "" then "cql2-text" else FilterLang sr in
      encoded ← asInternal (encodeForLang merged lang);
      Ok (withFilter encoded lang sr, updated)
  end.

(** ** Response-side enforcement *)

Definition asItem (body : bytes) : option (list (string * value)) :=
  match value_Unmarshal body with
  | Some (VObj item) => Some item
  | Some VNil => Some []
  | _ => None
  end.

(** [(matched, error)]; the caller looks at the first component only. *)
Definition validateSingleRecord (body : bytes) (c : AuthzConstraints) : bool * bool :=
  if String.eqb body "" then (true, false) else
  match maybePushDownGeofence c true with
  | Err _ => (true, true)
  | Ok (updated, _) =>
      match parsePolicyCQL2 updated with
      | Err _ => (true, true)
      | Ok policyExpr =>
          match requiredFiltersToCQL2 (RequiredFilters updated) with
          | Err _ => (true, true)
          | Ok requiredExpr =>
              match andNonNil [policyExpr; requiredExpr] with
              | None => (true, false)
              | Some expr =>
                  match asItem body with
                  | None => (true, false)
                  | Some item =>
                      match EvalCQL2 expr item with
                      | Ok ok => (ok, false)
                      | Err _ => (false, true)
                      end
                  end
              end
          end
      end
  end.

Inductive geofenceFilterStatus :=
| geofenceNotApplicable
| geofenceFiltered (out : bytes)
| geofenceMalformed.

Definition quote : ascii := "034"%char.

Fixpoint take_bytes (n : nat) (s : bytes) : bytes :=
  match n, s with S n, String c s => String c (take_bytes n s) | _, _ => EmptyString end.

Definition bodyClaimsFeatureCollection (body : bytes) : bool :=
  Strings.Contains (take_bytes 2048 body) (String quote ("FeatureCollection" +:+ String quote "")).

(** [None] when the allowed area does not parse; a denied area that does
    not parse is ignored. *)
Definition parseGeofenceAreas (g : GeofenceConstraint) : option (option Geom * option Geom) :=
  allowed ← (if is_nil (AllowedArea g) then Some None
             else geom ← ParseGeoJSON (AllowedArea g); Some (Some geom));
  let denied := if is_nil (DeniedArea g) then None else ParseGeoJSON (DeniedArea g) in
  Some (allowed, denied).

(** The keep test of one feature. *)
Definition keepFeature (prop : string) (allowed denied : option Geom) (f : value) : bool :=
  match f with
  | VObj item =>
      match ParseGeoJSON (index prop item) with
      | None => false
      | Some itemGeom =>
          match allowed with Some a => Geo.Intersects a itemGeom | None => true end &&
          match denied with Some d => negb (Geo.Contains d itemGeom) | None => true end
      end
  | _ => false
  end.

Definition setIfPresent (k : string) (v : value) (m : list (string * value)) : list (string * value) :=
  match get k m with Some _ => put k v m | None => m end.

Definition filteredFC (prop : string) (allowed denied : option Geom) (fc : list (string * value))
    (features : list value) : list (string * value) :=
  let kept := List.filter (keepFeature prop allowed denied) features in
  let n := VInt (Z.of_nat (length kept)) in
  setIfPresent "numberMatched" n (setIfPresent "numberReturned" n (put "features" (VArr kept) fc)).

Definition filterByGeofence (body : bytes) (g : GeofenceConstraint) : geofenceFilterStatus :=
  if String.eqb body "" then geofenceNotApplicable else
  match parseGeofenceAreas g with
  | None | Some (None, None) => geofenceNotApplicable
  | Some (allowed, denied) =>
      match value_Unmarshal body with
      | Some (VObj fc) =>
          if negb (String.eqb (default "" (as_string (index "type" fc))) "FeatureCollection")
          then geofenceNotApplicable
          else match as_array (index "features" fc) with
               | None => geofenceMalformed
               | Some features =>
                   match value_Marshal (VObj (filteredFC (geomProp g) allowed denied fc features)) with
                   | None => geofenceMalformed
                   | Some out => geofenceFiltered out
                   end
               end
      | Some VNil => geofenceNotApplicable
      | _ => if bodyClaimsFeatureCollection body then geofenceMalformed else geofenceNotApplicable
      end
  end.

(** ** The handler *)

Record HTTPConfig := mkHTTPConfig {
  Enforcer : AuthzInput → option AuthzDecision;     (* [None]: the enforcer failed *)
  AllowAnonymous : bool;
  CQL2InjectionEnabled : bool;
  FilterExtensionCheck : option (httpRequest → STACInfo → bool);
  SpatialFilterCheck : option (httpRequest → STACInfo → bool);
}.

Definition checked (f : option (httpRequest → STACInfo → bool)) (r : httpRequest) (i : STACInfo) : bool :=
  match f with None => true | Some f => f r i end.

Definition errUnauthorized := mkJSONError 401 "Unauthorized" "authentication required".
Definition errEnforcer := mkJSONError 500 "InternalError" "authorization check failed".
Definition errDenied (reason : string) := mkJSONError 403 "Forbidden" reason.
Definition errCollections :=
  mkJSONError 403 "Forbidden" "no collections in request are permitted by policy".
Definition errUserFilter := mkJSONError 400 "InvalidParameterValue" "invalid filter".
Definition errInjection := mkJSONError 500 "InternalError" "cql2 injection failed".
Definition errMalformed :=
  mkJSONError 502 "BadGateway" "upstream returned malformed FeatureCollection; geofence cannot enforce".
Definition errNotFound := mkJSONError 404 "NotFound" "item not found".

(** The request mutations: the search request the inner handler sees and
    the constraints the response is checked against. *)
Definition constrainRequest (cfg : HTTPConfig) (r : httpRequest) (info : option STACInfo)
    (constraints : option AuthzConstraints)
    : result jsonError (option SearchRequest * option AuthzConstraints) :=
  match info, info ≫= info_SearchReq, constraints with
  | Some i, Some sr, Some c =>
      match applyConstraints sr c with
      | Err _ => Err errCollections
      | Ok (sr, c) =>
          if CQL2InjectionEnabled cfg && checked (FilterExtensionCheck cfg) r i then
            match injectCQL2Filter sr c (checked (SpatialFilterCheck cfg) r i) with
            | Ok (sr, c) => Ok (Some sr, Some c)
            | Err (UserParse _) => Err errUserFilter
            | Err (Internal _) => Err errInjection
            end
          else Ok (Some sr, Some c)
      end
  | _, sr, c => Ok (sr, c)
  end.

Definition authorizeRequest `{!MapRange} (cfg : HTTPConfig) (allow : gset string)
    (clientIP requestID : string) (r : httpRequest) (info : option STACInfo)
    (principal : option Auth.Principal)
    : result jsonError (option SearchRequest * option AuthzConstraints) :=
  if bool_decide (principal = None) && negb (AllowAnonymous cfg) then Err errUnauthorized else
  match Enforcer cfg (BuildAuthzInput allow clientIP requestID r info principal) with
  | None => Err errEnforcer
  | Some decision =>
      if negb (Allowed decision)
      then Err (errDenied (match Reasons decision with [] => "access denied" | x :: _ => x end))
      else constrainRequest cfg r info (Constraints decision)
  end.

Definition success (status : Z) : bool := ((200 <=? status) && (status <? 300))%Z.

Definition enforceResponse (info : option STACInfo) (constraints : option AuthzConstraints)
    (resp : response) : result jsonError response :=
  let postFilter :=
    match constraints with
    | Some c =>
        match Geofence c with
        | Some g =>
            if FilterMode g && negb (GeofencePushedDown c) && success (resp_Status resp)
            then filterByGeofence (resp_Body resp) g else geofenceNotApplicable
        | None => geofenceNotApplicable
        end
    | None => geofenceNotApplicable
    end in
  let validate (body : bytes) : result jsonError response :=
    match info, constraints with
    | Some i, Some c =>
        if bool_decide (info_RequestType i = RequestTypeItem) && success (resp_Status resp) &&
           negb (validateSingleRecord body c).1
        then Err errNotFound else Ok (mkResponse (resp_Status resp) (resp_Header resp) body)
    | _, _ => Ok (mkResponse (resp_Status resp) (resp_Header resp) body)
    end in
  match postFilter with
  | geofenceMalformed => Err errMalformed
  | geofenceFiltered out => validate out
  | geofenceNotApplicable => validate (resp_Body resp)
  end.

Definition authzHandler `{!MapRange} (cfg : HTTPConfig) (allow : gset string)
    (clientIP requestID : string) (r : httpRequest) (info : option STACInfo)
    (principal : option Auth.Principal) (next : option SearchRequest → response)
    : result jsonError response :=
  '(sr, constraints) ← authorizeRequest cfg allow clientIP requestID r info principal;
  enforceResponse info constraints (next sr).

(** ** Lemmas *)

Lemma existsb_eqb s l : existsb (String.eqb s) l = true ↔ s ∈ l.
Proof.
  rewrite existsb_exists. setoid_rewrite String.eqb_eq. setoid_rewrite <-list_elem_of_In. naive_solver.
Qed.

Lemma elem_of_intersectStrings x a b : x ∈ intersectStrings a b ↔ x ∈ a ∧ x ∈ b.
Proof.
  unfold intersectStrings. rewrite list_elem_of_In, filter_In, <-list_elem_of_In, existsb_eqb. tauto.
Qed.

Lemma elem_of_removeStrings x a b : x ∈ removeStrings a b ↔ x ∈ a ∧ x ∉ b.
Proof.
  unfold removeStrings. rewrite list_elem_of_In, filter_In, <-list_elem_of_In, negb_true_iff.
  by rewrite <-(existsb_eqb x b), not_true_iff_false.
Qed.

(** What the request-side constraints promise of the request let through. *)
Record constrained (c : AuthzConstraints) (sr sr' : SearchRequest) : Prop := {
  cn_allowed : AllowedCollections c ≠ [] →
    Collections sr' ≠ [] ∧ ∀ x, x ∈ Collections sr' → x ∈ AllowedCollections c;
  cn_denied : ∀ x, x ∈ Collections sr' → x ∉ DeniedCollections c;
  cn_requested : Collections sr ≠ [] →
    Collections sr' ≠ [] ∧ ∀ x, x ∈ Collections sr' → x ∈ Collections sr;
  cn_limit : (0 < MaxResults c)%Z → (0 < Limit sr' ≤ MaxResults c)%Z;
}.

Lemma clampLimit_limit c sr :
  (0 < MaxResults c)%Z → (0 < Limit (clampLimit c sr) ≤ MaxResults c)%Z.
Proof.
  intros Hm. unfold clampLimit. rewrite (proj2 (Z.ltb_lt _ _)) by done. cbn [andb].
  destruct (Z.leb_spec (Limit sr) 0), (Z.ltb_spec (MaxResults c) (Limit sr)); cbn; lia.
Qed.

Lemma clampLimit_collections c sr : Collections (clampLimit c sr) = Collections sr.
Proof. unfold clampLimit. by case_match. Qed.

Lemma restrictAllowed_spec c sr sr' :
  restrictAllowed c sr = Ok sr' →
  Limit sr' = Limit sr ∧
  (AllowedCollections c ≠ [] → Collections sr' ≠ [] ∧ ∀ x, x ∈ Collections sr' → x ∈ AllowedCollections c) ∧
  (Collections sr ≠ [] → Collections sr' ≠ [] ∧ ∀ x, x ∈ Collections sr' → x ∈ Collections sr).
Proof.
  unfold restrictAllowed. destruct (AllowedCollections c) as [|a al] eqn:Ea.
  { intros [= <-]. split_and!; [done|done|set_solver]. }
  destruct (Collections sr) as [|q qs] eqn:Eq.
  { intros [= <-]. cbn. split_and!; [done|set_solver|done]. }
  destruct (intersectStrings (a :: al) (q :: qs)) as [|i il] eqn:Ei; [done|].
  intros [= <-]. cbn. rewrite <-Ei.
  assert (Hne : intersectStrings (a :: al) (q :: qs) ≠ []) by (rewrite Ei; done).
  split_and!; [done|..]; intros _; (split; [done|]); intros x Hx%elem_of_intersectStrings; tauto.
Qed.

Lemma restrictDenied_spec c sr sr' :
  restrictDenied c sr = Ok sr' →
  Limit sr' = Limit sr ∧ (∀ x, x ∈ Collections sr' → x ∈ Collections sr ∧ x ∉ DeniedCollections c) ∧
  (Collections sr ≠ [] → Collections sr' ≠ []).
Proof.
  unfold restrictDenied. destruct (DeniedCollections c) as [|d dl] eqn:Ed.
  { intros [= <-]. split_and!; [done|set_solver|done]. }
  destruct (Collections sr) as [|q qs] eqn:Eq.
  { intros [= <-]. rewrite Eq. split_and!; [done|set_solver|done]. }
  destruct (removeStrings (q :: qs) (d :: dl)) as [|i il] eqn:Ei; [done|].
  intros [= <-]. cbn. rewrite <-Ei. split_and!; [done| |by rewrite Ei].
  intros x Hx%elem_of_removeStrings. tauto.
Qed.

Lemma applyConstraints_spec sr c sr' c' :
  applyConstraints sr c = Ok (sr', c') → constrained c sr sr' ∧ c' = defaultFilterMode c.
Proof.
  unfold applyConstraints. intros Ha. inv_ok.
  match goal with
  | H1 : restrictAllowed _ _ = Ok _, H2 : restrictDenied _ _ = Ok _ |- _ =>
      apply restrictAllowed_spec in H1 as (Hl1 & Hal & Hrq);
      apply restrictDenied_spec in H2 as (Hl2 & Hd & Hne)
  end.
  rewrite clampLimit_collections in Hrq. split; [|done]. split.
  - intros Hc. destruct (Hal Hc) as [Hx Hy]. split; [auto|]. intros z Hin. naive_solver.
  - intros z Hin. by apply Hd.
  - intros Hc. destruct (Hrq Hc) as [Hx Hy]. split; [auto|]. intros z Hin. naive_solver.
  - intros Hm. rewrite Hl2, Hl1. by apply clampLimit_limit.
Qed.

Lemma asInternal_ok {A} (r : result cql2Error A) a : asInternal r = Ok a ↔ r = Ok a.
Proof. destruct r; cbn; naive_solver. Qed.

Lemma injectCQL2Filter_keeps sr c sp sr' c' :
  injectCQL2Filter sr c sp = Ok (sr', c') →
  Collections sr' = Collections sr ∧ Limit sr' = Limit sr.
Proof.
  unfold injectCQL2Filter. intros Hi. apply bind_ok in Hi as ([u pd] & _ & Hi). inv_ok.
  case_match; inv_ok; done.
Qed.

Lemma constrained_proper c sr sr1 sr2 :
  Collections sr2 = Collections sr1 → Limit sr2 = Limit sr1 → constrained c sr sr1 →
  constrained c sr sr2.
Proof. intros Hc Hl [H1' H2' H3' H4']. split; rewrite ?Hc, ?Hl; done. Qed.

Lemma constrainRequest_spec cfg r i sr c out c' :
  info_SearchReq i = Some sr →
  constrainRequest cfg r (Some i) (Some c) = Ok (out, c') →
  ∃ sr', out = Some sr' ∧ constrained c sr sr'.
Proof.
  intros Hsr. unfold constrainRequest. cbn. rewrite Hsr.
  destruct (applyConstraints sr c) as [[sr1 c1]|] eqn:Ea; [|done].
  apply applyConstraints_spec in Ea as [Hc _].
  destruct (_ && _).
  - destruct (injectCQL2Filter _ _ _) as [[sr2 c2]|[]] eqn:Ei; [|done..].
    intros [= <- <-]. apply injectCQL2Filter_keeps in Ei as [E1 E2].
    exists sr2. split; [done|]. by eapply constrained_proper.
  - intros [= <- <-]. eauto.
Qed.

(** *** Expressions *)

Definition optHolds (e : option Node) (item : list (string * value)) : Prop :=
  match e with None => True | Some e => holds e item end.

Lemma maybePushDown_cases c sp u pd :
  maybePushDownGeofence c sp = Ok (u, pd) →
  (pd = false ∧ u = c) ∨
  (pd = true ∧ GeofencePushedDown c = false ∧
   ∃ ge pol e b, geofenceToCQL2 (Geofence c) = Ok (Some ge) ∧ parsePolicyCQL2 c = Ok pol ∧
     andNonNil [pol; Some ge] = Some e ∧ cql2_Encode EncodingText e = Some b ∧
     u = withCQL2Filter b c).
Proof.
  unfold maybePushDownGeofence. destruct (Geofence c) as [g|] eqn:Eg; [|intros [= <- <-]; by left].
  destruct (GeofencePushedDown c) eqn:Ep; [intros [= <- <-]; by left|].
  destruct sp; cbn [negb]; [|intros [= <- <-]; by left].
  intros Hm. apply bind_ok in Hm as (ge & Hge & Hm).
  destruct ge as [ge|]; [|injection Hm as <- <-; by left].
  apply bind_ok in Hm as (pol & Hpol & Hm).
  destruct (andNonNil [pol; Some ge]) as [e|] eqn:Ee; [|injection Hm as <- <-; by left].
  apply bind_ok in Hm as (b & Hb & [= <- <-]). right. split_and!; [done|done|].
  exists ge, pol, e, b. split_and!; try done. unfold orElse in Hb. by destruct (cql2_Encode _ _); simplify_eq.
Qed.

(** Neither the request mutations nor push-down make a constrained decision
    look unconstrained to the tiers inside. *)
Lemma defaultFilterMode_constrains a rs c f :
  HasConstraints (Some (mkDecision a rs (Some (defaultFilterMode c)) f)) =
  HasConstraints (Some (mkDecision a rs (Some c) f)).
Proof.
  unfold HasConstraints, defaultFilterMode; cbn.
  destruct (Geofence c) as [g|] eqn:Eg; [|by rewrite Eg]. case_match; cbn; [done|by rewrite Eg].
Qed.

Context `{!Cql2Laws}.

Lemma constrainRequest_constrains cfg r info d sr cs :
  constrainRequest cfg r info (Constraints d) = Ok (sr, cs) → HasConstraints (Some d) = true →
  HasConstraints (Some (mkDecision (Allowed d) (Reasons d) cs (Final d))) = true.
Proof.
  intros Hc Hd. unfold constrainRequest in Hc.
  destruct info as [i|]; [|by simplify_eq].
  destruct (info_SearchReq i) as [sr0|] eqn:Esr; cbn in Hc; rewrite ?Esr in Hc; [|by simplify_eq].
  destruct (Constraints d) as [c|] eqn:Ec; [|by unfold HasConstraints in Hd; cbn in Hd; rewrite Ec in Hd].
  destruct (applyConstraints sr0 c) as [[sr1 c1]|] eqn:Ea; [|done].
  apply applyConstraints_spec in Ea as [_ ->].
  assert (HasConstraints (Some (mkDecision (Allowed d) (Reasons d) (Some (defaultFilterMode c)) (Final d))) = true) as H1'.
  { rewrite defaultFilterMode_constrains. unfold HasConstraints in *. cbn in *. by rewrite Ec in Hd. }
  case_match; [|by simplify_eq].
  destruct (injectCQL2Filter _ _ _) as [[sr2 c2]|[]] eqn:Ei; simplify_eq.
  unfold injectCQL2Filter in Ei. apply bind_ok in Ei as ([u pd] & Hu & Ei).
  assert (c2 = u) as -> by (inv_ok; case_match; inv_ok; done).
  unfold asInternal in Hu. destruct (maybePushDownGeofence _ _) as [[u' pd']|] eqn:Em; simplify_eq.
  apply maybePushDown_cases in Em as [[_ ->]|(_ & _ & ge & pol & e & b & _ & _ & _ & Hb & ->)]; [done|].
  assert (b ≠ "") as Hne by by eapply Encode_nonempty.
  unfold HasConstraints; cbn. rewrite (proj2 (String.eqb_neq b "") Hne). cbn. by rewrite orb_true_r.
Qed.

Lemma holds_andNonNil es item :
  optHolds (andNonNil es) item ↔ Forall (λ e, optHolds e item) es.
Proof.
  assert (Hf : Forall (λ e, optHolds e item) es ↔ Forall (λ e, holds e item) (omap id es)).
  { induction es as [|[e|] es IH]; cbn; [done| |]; rewrite Forall_cons, IH; cbn;
      rewrite ?Forall_cons; tauto. }
  rewrite Hf. unfold andNonNil. destruct (omap id es) as [|e1 [|e2 l]]; cbn.
  - split; [constructor|done].
  - rewrite Forall_singleton. done.
  - rewrite And_node. apply holds_And.
Qed.

(** The geofence predicate on an item, read off the geometry library. *)
Definition geofenceHolds (g : GeofenceConstraint) (item : list (string * value)) : Prop :=
  (∀ ga, areaGeom (AllowedArea g) = Ok ga → is_nil (AllowedArea g) = false →
     intersectsLit item (geomProp g) (GeomLit ga) = true) ∧
  (∀ gd, areaGeom (DeniedArea g) = Ok gd → is_nil (DeniedArea g) = false →
     intersectsLit item (geomProp g) (GeomLit gd) = false).

Lemma geofenceToCQL2_holds g e item :
  geofenceToCQL2 (Some g) = Ok e → optHolds e item ↔ geofenceHolds g item.
Proof.
  unfold geofenceToCQL2. intros He.
  apply bind_ok in He as (ea & Hea & He). apply bind_ok in He as (ed & Hed & [= <-]).
  rewrite holds_andNonNil, Forall_cons, Forall_singleton. unfold geofenceHolds.
  assert (optHolds ea item ↔ ∀ ga, areaGeom (AllowedArea g) = Ok ga → is_nil (AllowedArea g) = false →
     intersectsLit item (geomProp g) (GeomLit ga) = true) as ->.
  { destruct (is_nil (AllowedArea g)); [injection Hea as <-; naive_solver|].
    apply bind_ok in Hea as (ga & Hga & [= <-]). cbn. unfold holds.
    rewrite SIntersects_node, holds_SIntersects.
    split; [intros [= He] ga' Hga' _; congruence|intros Hall; f_equal; by apply Hall]. }
  assert (optHolds ed item ↔ ∀ gd, areaGeom (DeniedArea g) = Ok gd → is_nil (DeniedArea g) = false →
     intersectsLit item (geomProp g) (GeomLit gd) = false) as ->; [|done].
  { destruct (is_nil (DeniedArea g)); [injection Hed as <-; naive_solver|].
    apply bind_ok in Hed as (gd & Hgd & [= <-]). cbn.
    rewrite Not_node, holds_Not, SIntersects_node, holds_SIntersects.
    split; [intros [= He] gd' Hgd' _; congruence|intros Hall; f_equal; by apply Hall]. }
Qed.

Lemma parsePolicy_pushed b e c :
  cql2_Encode EncodingText e = Some b → parsePolicyCQL2 (withCQL2Filter b c) = Ok (Some e).
Proof.
  intros Hb. unfold parsePolicyCQL2. cbn.
  rewrite (proj2 (String.eqb_neq _ _)) by by eapply Encode_nonempty. cbn.
  unfold orElse. by rewrite (Parse_Encode _ _ Hb).
Qed.

(** The policy side after a possible push-down: policy filter, and the
    geofence if it was pushed. *)
Lemma pushed_policy_holds c sp u pd pol pol' geo item :
  maybePushDownGeofence c sp = Ok (u, pd) → parsePolicyCQL2 c = Ok pol →
  geofenceToCQL2 (Geofence c) = Ok geo → parsePolicyCQL2 u = Ok pol' →
  optHolds pol' item ↔ optHolds pol item ∧ (pd = true → optHolds geo item).
Proof.
  intros Hm Hp Hg Hp'. apply maybePushDown_cases in Hm
    as [[-> ->]|(-> & _ & ge & pol2 & e & b & Hge & Hp2 & He & Hb & ->)].
  - assert (pol' = pol) as -> by congruence. naive_solver.
  - rewrite (parsePolicy_pushed _ _ _ Hb) in Hp'. injection Hp' as <-.
    assert (pol2 = pol) as -> by congruence. assert (geo = Some ge) as -> by congruence.
    rewrite <-He, holds_andNonNil, Forall_cons, Forall_singleton. naive_solver.
Qed.

Lemma get_setIfPresent k k' v m :
  k' ≠ k → get k' (setIfPresent k v m) = get k' m.
Proof.
  intros Hne. unfold setIfPresent. case_match; [|done]. rewrite get_put.
  by rewrite (proj2 (String.eqb_neq _ _)).
Qed.

Lemma filteredFC_features prop al de fc features :
  index "features" (filteredFC prop al de fc features) =
    VArr (List.filter (keepFeature prop al de) features) ∧
  ∀ k, k ≠ "features" → k ≠ "numberReturned" → k ≠ "numberMatched" →
    get k (filteredFC prop al de fc features) = get k fc.
Proof.
  unfold filteredFC. split.
  - unfold index. rewrite !get_setIfPresent by done. by rewrite get_put.
  - intros k H1' H2' H3'. rewrite !get_setIfPresent by done. rewrite get_put.
    by rewrite (proj2 (String.eqb_neq _ _)).
Qed.

Lemma keepFeature_spec prop al de f :
  keepFeature prop al de f = true ↔
  ∃ item g, f = VObj item ∧ ParseGeoJSON (index prop item) = Some g ∧
    (∀ a, al = Some a → Geo.Intersects a g = true) ∧ (∀ d, de = Some d → Geo.Contains d g = false).
Proof.
  split.
  - intros Hk. destruct f; try done. cbn in Hk.
    destruct (ParseGeoJSON (index prop kvs)) as [g|] eqn:Eg; [|done].
    apply andb_prop in Hk as [Ha Hd]. exists kvs, g. split_and!; [done|done| |].
    + intros a ->. done.
    + intros d ->. by apply negb_true_iff.
  - intros (item & g & -> & Hg & Ha & Hd). cbn. rewrite Hg. apply andb_true_intro. split.
    + destruct al; [by apply Ha|done].
    + destruct de; [apply negb_true_iff; by apply Hd|done].
Qed.

Lemma validate_item info c st h body resp' :
  match info with
  | Some i =>
      if bool_decide (info_RequestType i = RequestTypeItem) && true &&
         negb (validateSingleRecord body c).1
      then Err errNotFound else Ok (mkResponse st h body)
  | None => Ok (mkResponse st h body)
  end = Ok resp' → resp' = mkResponse st h body.
Proof. destruct info as [i|]; [case_match|]; by intros [= <-]. Qed.

Lemma filterByGeofence_fc body g fc allowed denied st :
  filterByGeofence body g = st → body ≠ "" →
  parseGeofenceAreas g = Some (allowed, denied) → (allowed, denied) ≠ (None, None) →
  value_Unmarshal body = Some (VObj fc) → index "type" fc = VStr "FeatureCollection" →
  match st with
  | geofenceNotApplicable => False
  | geofenceMalformed => True
  | geofenceFiltered out => ∃ features, index "features" fc = VArr features ∧
      value_Marshal (VObj (filteredFC (geomProp g) allowed denied fc features)) = Some out
  end.
Proof.
  intros <- Hb%String.eqb_neq Ha Hne Hu Ht. unfold filterByGeofence. rewrite Hb, Ha, Hu, Ht.
  cbn [as_string default id]. rewrite String.eqb_refl. cbn [negb].
  destruct (index "features" fc) as [| | | | |features|] eqn:Ef; cbn [as_array];
    try (destruct allowed, denied; done).
  destruct (value_Marshal (VObj (filteredFC _ _ _ _ _))) eqn:Em;
    destruct allowed, denied; try done; by exists features.
Qed.

(** ** Properties *)

(** What the request side has established when it lets a request through. *)
Lemma authorizeRequest_Ok `{!MapRange} cfg allow ip rid r info principal sr' c' :
  authorizeRequest cfg allow ip rid r info principal = Ok (sr', c') →
  (principal ≠ None ∨ AllowAnonymous cfg = true) ∧
  ∃ d, Enforcer cfg (BuildAuthzInput allow ip rid r info principal) = Some d ∧ Allowed d = true ∧
    constrainRequest cfg r info (Constraints d) = Ok (sr', c') ∧
    ∀ i sr c, info = Some i → info_SearchReq i = Some sr → Constraints d = Some c →
      ∃ sr1, sr' = Some sr1 ∧ constrained c sr sr1.
Proof.
  unfold authorizeRequest. intros Ha.
  destruct (bool_decide (principal = None) && negb (AllowAnonymous cfg)) eqn:Ep; [done|].
  split.
  { apply andb_false_iff in Ep as [Ep|Ep]; bool_to_prop; auto. }
  destruct (Enforcer cfg _) as [d|] eqn:Ed; [|done].
  destruct (Allowed d) eqn:Eal; cbn in Ha; [|done].
  exists d. split_and!; try done.
  intros i sr c -> Hsr Hc. rewrite Hc in Ha. by eapply constrainRequest_spec.
Qed.

(** A search stays one, and nothing else becomes one. *)
Lemma authorizeRequest_search `{!MapRange} cfg allow ip rid r info principal sr' c' :
  authorizeRequest cfg allow ip rid r info principal = Ok (sr', c') →
  is_Some sr' ↔ is_Some (info ≫= info_SearchReq).
Proof.
  unfold authorizeRequest. destruct (_ && _); [done|]. destruct (Enforcer cfg _) as [d|]; [|done].
  destruct (Allowed d); cbn [negb]; [|done]. destruct (Constraints d) as [c|].
  - destruct info as [i|]; [|by intros [= <- <-]]. cbn [mbind option_bind].
    destruct (info_SearchReq i) as [sr|] eqn:Hsr.
    + intros (sr1 & -> & _)%(constrainRequest_spec _ _ _ sr); [|done]. split; by eexists.
    + unfold constrainRequest. cbn. rewrite Hsr. by intros [= <- <-].
  - unfold constrainRequest. destruct info as [i|]; cbn; [|by intros [= <- <-]].
    destruct (info_SearchReq i); by intros [= <- <-].
Qed.

(** C3: Whatever the inner handler is, it runs only after the enforcer
    allowed the request of an authenticated (or permitted anonymous)
    principal; a search it then sees names only collections that are
    allowed, not denied and, if any were requested, requested, at least one
    of them when a restriction applies, and asks for at most the policy's
    maximum; and the reply is its response passed through response-side
    enforcement. *)
Theorem authzHandler_gate `{!MapRange} cfg allow ip rid r info principal next resp :
  authzHandler cfg allow ip rid r info principal next = Ok resp →
  (principal ≠ None ∨ AllowAnonymous cfg = true) ∧
  ∃ d sr' c', Enforcer cfg (BuildAuthzInput allow ip rid r info principal) = Some d ∧
    Allowed d = true ∧ enforceResponse info c' (next sr') = Ok resp ∧
    ∀ i sr c, info = Some i → info_SearchReq i = Some sr → Constraints d = Some c →
      ∃ sr1, sr' = Some sr1 ∧ constrained c sr sr1.
Proof.
  unfold authzHandler. intros Hh. apply bind_ok in Hh as ([sr' c'] & Ha & He).
  apply authorizeRequest_Ok in Ha as (Hp & d & Hd & Hal & _ & Hc). split; [done|].
  by exists d, sr', c'.
Qed.

(** An area of a geofence that is absent, or parses. *)
Definition parsedArea (v : value) (a : option Geom) : Prop :=
  if is_nil v then a = None else ∃ x, ParseGeoJSON v = Some x ∧ a = Some x.

(** What lies within an area meets it. *)
Class GeoLaws : Prop :=
  covers_intersects : ∀ a b, predicate_Covers a b = Some true → predicate_Intersects a b = Some true.

(** C7: With a geofence whose areas parse and that is left to the response
    side, a successful feature collection is never forwarded as it came: what
    the client receives is the collection restricted, in order, to features
    whose geometry parses, meets the allowed area and does not lie within the
    denied one; every feature whose geometry parses, meets the allowed area
    and does not meet the denied one is kept, so that without a denied area
    the restriction is exact; and every unrelated member is unchanged.  (The
    documentation wants a feature that only overlaps the denied area removed
    as well; the post-filter keeps it, [denied_area_two_meanings].  A geofence
    whose allowed area does not parse is not enforced at all,
    [unparsable_fence_passes].) *)
Theorem geofence_enforced `{!GeoLaws} info c g resp resp' fc allowed denied :
  Geofence c = Some g → FilterMode g = true → GeofencePushedDown c = false →
  success (resp_Status resp) = true → resp_Body resp ≠ "" →
  parsedArea (AllowedArea g) allowed → parsedArea (DeniedArea g) denied → (allowed, denied) ≠ (None, None) →
  value_Unmarshal (resp_Body resp) = Some (VObj fc) →
  index "type" fc = VStr "FeatureCollection" →
  enforceResponse info (Some c) resp = Ok resp' →
  ∃ features keep fc', index "features" fc = VArr features ∧
    value_Marshal (VObj fc') = Some (resp_Body resp') ∧
    index "features" fc' = VArr (List.filter keep features) ∧
    (∀ f, keep f = true →
       ∃ item ig, f = VObj item ∧ ParseGeoJSON (index (geomProp g) item) = Some ig ∧
         (∀ a, allowed = Some a → Geo.Intersects a ig = true) ∧
         (∀ d, denied = Some d → Geo.Contains d ig = false)) ∧
    (∀ item ig, ParseGeoJSON (index (geomProp g) item) = Some ig →
       (∀ a, allowed = Some a → Geo.Intersects a ig = true) →
       (∀ d, denied = Some d → Geo.Intersects d ig = false) → keep (VObj item) = true) ∧
    (∀ k, k ≠ "features" → k ≠ "numberReturned" → k ≠ "numberMatched" → get k fc' = get k fc).
Proof.
  intros Hg Hfm Hpd Hs Hb Hal Hde Hne Hu Ht He.
  assert (parseGeofenceAreas g = Some (allowed, denied)) as Ha.
  { unfold parseGeofenceAreas, parsedArea in *.
    destruct (is_nil (AllowedArea g)); [subst|destruct Hal as (x & -> & ->)];
      (destruct (is_nil (DeniedArea g)); [by subst|by destruct Hde as (y & -> & ->)]). }
  unfold enforceResponse in He. rewrite Hg, Hfm, Hpd, Hs in He. cbn [andb negb] in He.
  destruct (filterByGeofence (resp_Body resp) g) as [|out|] eqn:Efg; [|..|done].
  { by apply (filterByGeofence_fc _ _ fc allowed denied) in Efg. }
  apply (filterByGeofence_fc _ _ fc allowed denied) in Efg as (features & Ef & Em); [|done..].
  apply (validate_item info c) in He as ->.
  exists features, (keepFeature (geomProp g) allowed denied), (filteredFC (geomProp g) allowed denied fc features).
  destruct (filteredFC_features (geomProp g) allowed denied fc features) as [H1' H2'].
  split_and!; [done|done|done| | |done].
  - intros f Hf. by apply keepFeature_spec.
  - intros item ig Hig Hia Hid. apply keepFeature_spec. exists item, ig. split_and!; try done.
    intros d Hd. specialize (Hid d Hd). unfold Geo.Contains, Geo.Intersects in *.
    destruct (predicate_Covers d ig) as [[]|] eqn:Ec; try done. by rewrite (covers_intersects _ _ Ec) in Hid.
Qed.

(** The encoded filter parses to the expression it encodes. *)
Lemma encodeForLang_parse e lang v : encodeForLang e lang = Ok v → parseUserCQL2 v = Ok (Some e).
Proof.
  unfold encodeForLang. case_match; intros He; apply bind_ok in He as (b & Hb & He); unfold orElse in *.
  - destruct (cql2_Encode EncodingJSON e) as [b'|] eqn:Eb; [|done]. injection Hb as ->.
    destruct (value_Unmarshal b) as [v'|] eqn:Ev; [|done]. injection He as ->.
    destruct (Parse_EncodeJSON _ _ _ Eb Ev) as (Hn & Hs & raw & Hraw & Hp).
    destruct v; try done; unfold parseUserCQL2, orElse; rewrite Hraw; cbn; by rewrite Hp.
  - destruct (cql2_Encode EncodingText e) as [b'|] eqn:Eb; [|done]. injection Hb as ->. injection He as <-.
    cbn. rewrite (proj2 (String.eqb_neq _ _)) by by eapply Encode_nonempty.
    unfold orElse. by rewrite (Parse_Encode _ _ Eb).
Qed.

(** What of a policy a successful push-down has read. *)
Lemma pushDown_parsed c sp u pd pol' :
  maybePushDownGeofence c sp = Ok (u, pd) → parsePolicyCQL2 u = Ok pol' →
  ∃ pol, parsePolicyCQL2 c = Ok pol ∧
    ∀ item, optHolds pol' item ↔ optHolds pol item ∧ (pd = true → ∀ g, Geofence c = Some g → geofenceHolds g item).
Proof.
  intros Hm Hp'. destruct (maybePushDown_cases _ _ _ _ Hm) as [[-> ->]|(-> & _ & ge & pol & e & b & Hge & Hp & He & Hb & ->)].
  - exists pol'. split; [done|]. naive_solver.
  - exists pol. split; [done|]. intros item.
    rewrite (pushed_policy_holds _ _ _ _ _ _ _ item Hm Hp Hge Hp').
    destruct (Geofence c) as [g|] eqn:Eg; [|done]. rewrite (geofenceToCQL2_holds g _ _ Hge). naive_solver.
Qed.

Lemma pushDown_needs c sp u : maybePushDownGeofence c sp = Ok (u, true) → sp = true ∧ GeofencePushedDown c = false.
Proof. unfold maybePushDownGeofence. destruct (Geofence c), (GeofencePushedDown c), sp; done. Qed.

(** Push-down leaves a geofence alone only when it has no area to push. *)
Lemma pushDown_idle c u g item :
  maybePushDownGeofence c true = Ok (u, false) → GeofencePushedDown c = false → Geofence c = Some g → geofenceHolds g item.
Proof.
  intros Hm Hp Hg. unfold maybePushDownGeofence in Hm. rewrite Hg, Hp in Hm. cbn [negb] in Hm.
  apply bind_ok in Hm as (ge & Hge & Hm). apply (geofenceToCQL2_holds g ge item Hge).
  destruct ge as [ge|]; [|done]. apply bind_ok in Hm as (pol & _ & Hm). exfalso.
  unfold andNonNil in Hm. destruct pol; cbn in Hm; by apply bind_ok in Hm as (b & _ & [=]).
Qed.

(** What [injectCQL2Filter] makes of the filters, and when it pushes the
    geofence down. *)
Lemma injectCQL2Filter_holds sr c sp sr' c' :
  injectCQL2Filter sr c sp = Ok (sr', c') →
  ∃ pushed user pol req e', parseUserCQL2 (Filter sr) = Ok user ∧ parsePolicyCQL2 c = Ok pol ∧
    requiredFiltersToCQL2 (RequiredFilters c) = Ok req ∧ parseUserCQL2 (Filter sr') = Ok e' ∧
    (∀ item, optHolds e' item ↔
       optHolds user item ∧ optHolds pol item ∧ optHolds req item ∧
       (pushed = true → ∀ g, Geofence c = Some g → geofenceHolds g item)) ∧
    (pushed = true → GeofencePushedDown c' = true ∧ Geofence c ≠ None) ∧
    (pushed = false → c' = c) ∧
    (pushed = true → sp = true ∧ GeofencePushedDown c = false) ∧
    (pushed = false → sp = true → GeofencePushedDown c = false → ∀ g item, Geofence c = Some g → geofenceHolds g item).
Proof.
  intros Hi. unfold injectCQL2Filter in Hi.
  apply bind_ok in Hi as ([u pd] & Hu & Hi). apply asInternal_ok in Hu.
  apply bind_ok in Hi as (pol' & Hpol' & Hi). apply asInternal_ok in Hpol'.
  apply bind_ok in Hi as (req & Hreq & Hi). apply asInternal_ok in Hreq.
  destruct (parseUserCQL2 (Filter sr)) as [user|] eqn:Huser; [|done]. cbn [mbind result_bind] in Hi.
  destruct (pushDown_parsed _ _ _ _ _ Hu Hpol') as (pol & Hpol & Hholds).
  assert (RequiredFilters u = RequiredFilters c ∧
    (pd = true → GeofencePushedDown u = true ∧ Geofence c ≠ None) ∧ (pd = false → u = c)) as (Hrf & Hpd1 & Hpd2).
  { destruct (maybePushDown_cases _ _ _ _ Hu) as [[-> ->]|(-> & _ & ge & ? & ? & ? & Hge & _ & _ & _ & ->)]; [done|].
    split; [done|]. split; [|done]. intros _. split; [done|]. intros E. by rewrite E in Hge. }
  assert (pd = false → sp = true → GeofencePushedDown c = false → ∀ g item, Geofence c = Some g → geofenceHolds g item) as Hpd3
    by (intros -> -> Hp g item Hg; by eapply pushDown_idle).
  assert (pd = true → sp = true ∧ GeofencePushedDown c = false) as Hpd4 by (intros ->; by eapply pushDown_needs).
  rewrite Hrf in Hreq.
  assert (Hmerged : ∀ item, optHolds (andNonNil [user; pol'; req]) item ↔
    optHolds user item ∧ optHolds pol item ∧ optHolds req item ∧
    (pd = true → ∀ g, Geofence c = Some g → geofenceHolds g item)).
  { intros item. rewrite holds_andNonNil, !Forall_cons, Forall_nil, Hholds. tauto. }
  destruct (andNonNil [user; pol'; req]) as [merged|] eqn:Em.
  - apply bind_ok in Hi as (enc & Henc & [= <- <-]). apply asInternal_ok in Henc.
    exists pd, user, pol, req, (Some merged). split_and!; try done. by eapply encodeForLang_parse.
  - injection Hi as <- <-. exists pd, user, pol, req, user. split_and!; try done.
    unfold andNonNil in Em. by destruct user, pol', req.
Qed.

(** The filter of a search an origin may be sent: with injection it is, up to
    equivalence, the conjunction of the client's filter, the policy's, the
    required filters and, where origins evaluate it, the geofence; without,
    the client's own. *)
Definition filtered (inject spatial : bool) (c : AuthzConstraints) (sr sr' : SearchRequest) : Prop :=
  if inject then
    ∃ user pol req e', parseUserCQL2 (Filter sr) = Ok user ∧ parsePolicyCQL2 c = Ok pol ∧
      requiredFiltersToCQL2 (RequiredFilters c) = Ok req ∧ parseUserCQL2 (Filter sr') = Ok e' ∧
      ∀ item, optHolds e' item ↔ optHolds user item ∧ optHolds pol item ∧ optHolds req item ∧
        (spatial = true → GeofencePushedDown c = false → ∀ g, Geofence c = Some g → geofenceHolds g item)
  else Filter sr' = Filter sr ∧ FilterLang sr' = FilterLang sr.

(** The parts of a search no policy touches. *)
Definition untouched (sr sr' : SearchRequest) : Prop :=
  (IDs sr', BBox sr', Stac.Intersects sr', Datetime sr', Sortby sr', FilterCRS sr', Query sr', Stac.Fields sr', Next sr',
   OverrideURL sr', OverrideBody sr', Stac.AdapterName sr') =
  (IDs sr, BBox sr, Stac.Intersects sr, Datetime sr, Sortby sr, FilterCRS sr, Query sr, Stac.Fields sr, Next sr,
   OverrideURL sr, OverrideBody sr, Stac.AdapterName sr).

Lemma applyConstraints_untouched sr c sr' c' : applyConstraints sr c = Ok (sr', c') →
  untouched sr sr' ∧ Filter sr' = Filter sr ∧ FilterLang sr' = FilterLang sr ∧
  ((0 < Limit sr)%Z → (0 < Limit sr' ≤ Limit sr)%Z).
Proof.
  unfold applyConstraints. intros Ha. inv_ok.
  match goal with H1 : restrictAllowed _ _ = Ok _, H2 : restrictDenied _ _ = Ok _ |- _ =>
    unfold restrictAllowed in H1; unfold restrictDenied in H2 end.
  assert (untouched sr (clampLimit c sr) ∧ Filter (clampLimit c sr) = Filter sr ∧ FilterLang (clampLimit c sr) = FilterLang sr ∧
    ((0 < Limit sr)%Z → (0 < Limit (clampLimit c sr) ≤ Limit sr)%Z)) as (Hu & Hf & Hl & Hn).
  { unfold clampLimit. destruct (Z.ltb_spec 0 (MaxResults c)); cbn [andb]; [|done].
    destruct (Z.leb_spec (Limit sr) 0), (Z.ltb_spec (MaxResults c) (Limit sr)); cbn; split_and!; try done; lia. }
  repeat case_match; inv_ok; done.
Qed.

(** Defaulting the filter mode changes no predicate. *)
Lemma defaultFilterMode_same c :
  (∀ item, (∀ g, Geofence (defaultFilterMode c) = Some g → geofenceHolds g item) ↔
           (∀ g, Geofence c = Some g → geofenceHolds g item)) ∧
  GeofencePushedDown (defaultFilterMode c) = GeofencePushedDown c ∧
  RequiredFilters (defaultFilterMode c) = RequiredFilters c ∧ parsePolicyCQL2 (defaultFilterMode c) = parsePolicyCQL2 c.
Proof.
  unfold defaultFilterMode. destruct (Geofence c) as [g|] eqn:Eg; [|by rewrite Eg]. case_match; [|by rewrite Eg].
  split_and!; try done. intros item. split; intros Hg g' [= <-]; by apply (Hg _ eq_refl).
Qed.

Lemma constrainRequest_released cfg r i sr c sr' c' :
  info_SearchReq i = Some sr → constrainRequest cfg r (Some i) (Some c) = Ok (Some sr', c') →
  constrained c sr sr' ∧ untouched sr sr' ∧ ((0 < Limit sr)%Z → (0 < Limit sr' ≤ Limit sr)%Z) ∧
  filtered (CQL2InjectionEnabled cfg && checked (FilterExtensionCheck cfg) r i) (checked (SpatialFilterCheck cfg) r i) c sr sr'.
Proof.
  intros Hsr Hk. destruct (constrainRequest_spec _ _ _ _ _ _ _ Hsr Hk) as (sr1 & [= <-] & Hcon). split; [done|].
  unfold constrainRequest in Hk. cbn in Hk. rewrite Hsr in Hk.
  destruct (applyConstraints sr c) as [[sr2 c2]|] eqn:Ea; [|done].
  apply applyConstraints_spec in Ea as Hc2. destruct Hc2 as [_ ->].
  apply applyConstraints_untouched in Ea as (Hu & Hf & Hfl & Hl). unfold filtered.
  destruct (_ && _); [|by simplify_eq].
  destruct (injectCQL2Filter _ _ _) as [[sr3 c3]|[]] eqn:Ei; simplify_eq.
  assert (untouched sr2 sr' ∧ Limit sr' = Limit sr2) as [Hu' Hl'].
  { unfold injectCQL2Filter in Ei. apply bind_ok in Ei as ([u pd] & _ & Ei). inv_ok. case_match; inv_ok; done. }
  split; [unfold untouched in *; congruence|]. split; [by rewrite Hl'|].
  destruct (injectCQL2Filter_holds _ _ _ _ _ Ei) as (pushed & user & pol & req & e' & Huser & Hpol & Hreq & He & Hall & _ & _ & Hneeds & Hidle).
  destruct (defaultFilterMode_same c) as (Eg & Ep & Er & Ec).
  exists user, pol, req, e'. rewrite <-Hf, <-Ec, <-Er. split_and!; try done.
  intros item. rewrite Hall, Eg, <-Ep. destruct pushed.
  - destruct (Hneeds eq_refl) as [Hsp Hp]. split; intros (? & ? & ? & Hg); (split_and!; [done..|]); auto.
  - split; intros (? & ? & ? & Hg); (split_and!; [done..|]); [|done]. intros Hsp Hp. apply Eg. intros g Hg'. by eapply Hidle.
Qed.

(** C8: The filter sent upstream is the conjunction it should be, whatever
    language the client chose: when the filters can be combined, the
    client's filter, the policy filter and the required filters parse, and
    the new filter parses to an expression that an item satisfies exactly when
    it satisfies all three and, if the geofence was pushed down, the geofence
    (meeting the allowed area and not the denied one); when the geofence was
    not pushed down the constraints are unchanged, so the response-side
    filter stays responsible. *)
Theorem injectCQL2Filter_conj sr c sp sr' c' :
  injectCQL2Filter sr c sp = Ok (sr', c') →
  ∃ pushed user pol req e', parseUserCQL2 (Filter sr) = Ok user ∧ parsePolicyCQL2 c = Ok pol ∧
    requiredFiltersToCQL2 (RequiredFilters c) = Ok req ∧ parseUserCQL2 (Filter sr') = Ok e' ∧
    (∀ item, optHolds e' item ↔
       optHolds user item ∧ optHolds pol item ∧ optHolds req item ∧
       (pushed = true → ∀ g, Geofence c = Some g → geofenceHolds g item)) ∧
    (pushed = true → GeofencePushedDown c' = true ∧ Geofence c ≠ None) ∧
    (pushed = false → c' = c).
Proof. intros (pushed & user & pol & req & e' & ? & ? & ? & ? & ? & ? & ? & _)%injectCQL2Filter_holds. by exists pushed, user, pol, req, e'. Qed.

(** A single item is let through exactly when it satisfies the policy
    filter, the required filters and the geofence, provided they parse; an
    expression the evaluator cannot decide hides the item. *)
Theorem validateSingleRecord_spec body c item u pd pol req geo :
  body ≠ "" → asItem body = Some item → GeofencePushedDown c = false →
  maybePushDownGeofence c true = Ok (u, pd) →
  parsePolicyCQL2 c = Ok pol → requiredFiltersToCQL2 (RequiredFilters c) = Ok req →
  geofenceToCQL2 (Geofence c) = Ok geo →
  (validateSingleRecord body c).1 = true ↔
  optHolds pol item ∧ optHolds req item ∧ ∀ g, Geofence c = Some g → geofenceHolds g item.
Proof.
  intros Hb%String.eqb_neq Hit Hnp Hu Hpol Hreq Hgeo.
  assert (Hcase := maybePushDown_cases _ _ _ _ Hu).
  assert (∃ pol', parsePolicyCQL2 u = Ok pol') as (pol' & Hpol').
  { destruct Hcase as [[_ ->]|(_ & _ & ? & ? & e & b & _ & _ & _ & Hbe & ->)]; [eauto|].
    exists (Some e). by apply parsePolicy_pushed. }
  assert (RequiredFilters u = RequiredFilters c) as Hrf
    by (destruct Hcase as [[_ ->]|(_ & _ & ? & ? & ? & ? & _ & _ & _ & _ & ->)]; done).
  assert (Hpd : pd = false → geo = None).
  { intros ->. unfold maybePushDownGeofence in Hu. destruct (Geofence c) as [g|] eqn:Eg; [|by injection Hgeo].
    rewrite Hnp in Hu. cbn [negb] in Hu. rewrite Hgeo in Hu. cbn in Hu.
    destruct geo as [ge|]; [|done]. rewrite Hpol in Hu. cbn in Hu.
    destruct (andNonNil [pol; Some ge]) eqn:Ea.
    - apply bind_ok in Hu as (? & _ & ?). done.
    - exfalso. unfold andNonNil in Ea. destruct pol; cbn in Ea; done. }
  assert (Hgh : optHolds geo item ↔ ∀ g, Geofence c = Some g → geofenceHolds g item).
  { destruct (Geofence c) as [g|] eqn:Eg; [rewrite (geofenceToCQL2_holds g geo) by done; naive_solver|].
    injection Hgeo as <-. naive_solver. }
  assert (Hall : optHolds (andNonNil [pol'; req]) item ↔
    optHolds pol item ∧ optHolds req item ∧ ∀ g, Geofence c = Some g → geofenceHolds g item).
  { rewrite holds_andNonNil, !Forall_cons, Forall_nil, <-Hgh.
    rewrite (pushed_policy_holds c true u pd pol pol' geo item) by done.
    destruct pd; [naive_solver|]. rewrite (Hpd eq_refl). cbn. naive_solver. }
  rewrite <-Hall. unfold validateSingleRecord. rewrite Hb, Hu, Hpol', Hrf, Hreq.
  destruct (andNonNil [pol'; req]) as [e|]; [|done]. rewrite Hit. cbn. unfold holds.
  destruct (EvalCQL2 e item) as [b|]; cbn; split; congruence.
Qed.

End Translate.

(** ** Concrete instances

    Three areas on a map, the lake inside the city and the farm outside it;
    a predicate codec with one letter per comparison. *)

Module Witness.

Inductive area := City | Lake | Farm.
Definition areaName (a : area) : string := match a with City => "city" | Lake => "lake" | Farm => "farm" end.
Definition readArea (s : string) : option area :=
  if String.eqb s "city" then Some City
  else if String.eqb s "lake" then Some Lake
  else if String.eqb s "farm" then Some Farm else None.
Definition inside (a b : area) : bool :=
  match a, b with City, (City | Lake) | Lake, Lake | Farm, Farm => true | _, _ => false end.

Definition geoJSON (a : area) : value := VObj [("name", VStr (areaName a))].
Definition feature (id : string) (a : area) (tier class : string) : list (string * value) :=
  [("id", VStr id); ("geometry", geoJSON a);
   ("properties", VObj [("tier", VStr tier); ("class", VStr class)])].
Definition collection (fs : list value) : list (string * value) :=
  [("type", VStr "FeatureCollection"); ("features", VArr fs);
   ("numberReturned", VInt (Z.of_nat (length fs))); ("license", VStr "x")].
Definition downtown := feature "downtown" City "public" "open".
Definition pond := feature "pond" Lake "public" "open".
Definition barn := feature "barn" Farm "public" "open".

#[local] Instance json : JSON := {|
  value_Marshal v :=
    match v with
    | VObj [(_, VStr n)] => Some n
    | VObj [_; (_, VArr fs); _; _] => Some ("fc" +:+ String.concat "," (omap (λ f,
        match f with VObj ((_, VStr id) :: _) => Some id | _ => None end) fs))
    | _ => None
    end;
  value_Unmarshal b :=
    if String.eqb b "fc" then Some (VObj (collection [VObj downtown; VObj pond; VObj barn; VNil]))
    else if String.eqb b "downtown" then Some (VObj downtown)
    else if String.eqb b "barn" then Some (VObj barn)
    else match b with String "j" t => Some (VObj [("f", VStr t)]) | _ => None end |}.

#[local] Instance geoLib : GeoLib := {|
  Geom := area; geojson_Unmarshal := readArea;
  predicate_Covers a b := Some (inside a b);
  predicate_Intersects a b := Some (inside a b || inside b a) |}.

#[local] Instance cql2Geo : Cql2Geo := {|
  CGeom := area; cgeom_Encode a := Some (areaName a); cgeom_Parse := readArea |}.

#[local] Instance parseFloat : ParseFloat := {| parse_float _ := None |}.

Definition eqNode (p s : string) : Node := Op OpEq [PropertyRef p; StringLit s].
Definition inCity : Node := Op OpSIntersects [PropertyRef "geometry"; GeomLit City].

Definition encAtom (n : Node) : option ascii :=
  match n with
  | Op OpEq [PropertyRef p; StringLit s] =>
      if String.eqb p "tier" && String.eqb s "public" then Some "P"%char
      else if String.eqb p "class" && String.eqb s "open" then Some "O"%char else None
  | Op OpSIntersects [PropertyRef p; GeomLit City] =>
      if String.eqb p "geometry" then Some "C"%char else None
  | _ => None
  end.
Definition decAtom (c : ascii) : option Node :=
  if Ascii.eqb c "P" then Some (eqNode "tier" "public")
  else if Ascii.eqb c "O" then Some (eqNode "class" "open")
  else if Ascii.eqb c "C" then Some inCity else None.

Definition encode (n : Node) : option bytes :=
  match n with
  | Op OpAnd [a; b] => a ← encAtom a; b ← encAtom b; Some (String a (String b ""))
  | Op OpAnd [a; Op OpAnd [b; c]; d] =>
      a ← encAtom a; b ← encAtom b; c ← encAtom c; d ← encAtom d;
      Some (String a (String b (String c (String d ""))))
  | n => a ← encAtom n; Some (String a "")
  end.
Definition decode (b : bytes) : option Node :=
  match b with
  | String a "" => decAtom a
  | String a (String b "") => a ← decAtom a; b ← decAtom b; Some (Op OpAnd [a; b])
  | String a (String b (String c (String d ""))) =>
      a ← decAtom a; b ← decAtom b; c ← decAtom c; d ← decAtom d;
      Some (Op OpAnd [a; Op OpAnd [b; c]; d])
  | _ => None
  end.

#[local] Instance cql2Lib : Cql2Lib := {|
  cql2_Parse := decode;
  cql2_Encode enc n := match enc with EncodingText => encode n | EncodingJSON => String "j" <$> encode n end;
  cql2_And := Op OpAnd;
  cql2_Not e := Op OpNot [e];
  cql2_SIntersects p g := Op OpSIntersects [PropertyRef p; GeomLit g];
  cql2_Compare op k v :=
    Op op [PropertyRef k; match v with VStr s => StringLit s | _ => NOther "value" end];
  cql2_In k vs := NOther "in";
  cql2_IsNull k := Op OpIsNull [PropertyRef k] |}.

Lemma decAtom_encAtom n a : encAtom n = Some a → decAtom a = Some n.
Proof.
  unfold encAtom, decAtom, eqNode, inCity. intros He. repeat case_match; simplify_eq; bool_to_prop; try done;
    repeat match goal with H : String.eqb _ _ = true |- _ => apply String.eqb_eq in H as -> end; done.
Qed.

#[local] Arguments encAtom : simpl never.
#[local] Arguments decAtom : simpl never.

Lemma decode_encode n b : encode n = Some b → decode b = Some n ∧ b ≠ "".
Proof.
  intros He. unfold encode in He.
  repeat case_match; simplify_option_eq; split; try done;
    repeat match goal with H : encAtom _ = Some _ |- _ => apply decAtom_encAtom in H end;
    simplify_option_eq; done.
Qed.

#[local] Instance cql2Laws : Cql2Laws.
Proof.
  split; try done.
  - intros n b Hb. by apply decode_encode in Hb as [? ?].
  - intros n b Hb. by apply decode_encode in Hb as [? ?].
  - intros n b v Hb Hv. cbn in Hb. apply fmap_Some in Hb as (t & [Ht _]%decode_encode & ->).
    cbn in Hv. injection Hv as <-. split_and!; [done..|]. by exists t.
Qed.

Definition fence (denied : value) : GeofenceConstraint := mkGeofence (geoJSON City) denied true "".
Definition policy : AuthzConstraints :=
  mkConstraints ["a"; "b"] ["b"] (Some (fence (geoJSON Lake))) 10 [] "" VNil false.
Definition filterPolicy : AuthzConstraints :=
  mkConstraints [] [] (Some (fence VNil)) 0 [("class", VStr "open")] "P" VNil false.

Definition cfg (c : AuthzConstraints) (inject : bool) : HTTPConfig :=
  mkHTTPConfig (λ _, Some (mkDecision true [] (Some c) false)) true inject None None.
Definition searchReq : SearchRequest :=
  withLimit 500 (withCollections ["a"; "b"; "c"] emptySearchRequest).
Definition info (sr : SearchRequest) : STACInfo := mkSTACInfo "" "" RequestTypeSearch (Some sr).
Definition req : httpRequest := mkRequest "POST" "/search" "" ∅ "".
Definition fcResponse : response := mkResponse 200 ∅ "fc".
Definition next (sr : option SearchRequest) : response := fcResponse.

Lemma authzHandler_gate_witness :
  ∃ sr1, constrained policy searchReq sr1 ∧ Collections sr1 = ["a"] ∧ Limit sr1 = 10%Z ∧
  authzHandler (cfg policy false) defaultHeaderAllowlist "" "" req (Some (info searchReq)) None
    (λ sr, if bool_decide (sr ≫= (λ s, Some (Collections s)) = Some ["a"]) then fcResponse
           else mkResponse 500 ∅ "") = Ok (mkResponse 200 ∅ "fcdowntown").
Proof.
  destruct (authzHandler_gate (cfg policy false) defaultHeaderAllowlist "" "" req
    (Some (info searchReq)) None
    (λ sr, if bool_decide (sr ≫= (λ s, Some (Collections s)) = Some ["a"]) then fcResponse
           else mkResponse 500 ∅ "") (mkResponse 200 ∅ "fcdowntown"))
    as (_ & d & sr' & c' & Hd & _ & _ & Hc).
  { vm_compute. reflexivity. }
  injection Hd as <-. exists (withLimit 10 (withCollections ["a"] emptySearchRequest)).
  split_and!; [|reflexivity..]. destruct (Hc (info searchReq) searchReq policy) as (sr1 & E & Hcn);
    [reflexivity..|]. split.
  - intros _. split; [done|]. cbn. intros x Hx. apply list_elem_of_singleton in Hx as ->. left.
  - cbn. intros x Hx. apply list_elem_of_singleton in Hx as ->. set_solver.
  - intros _. split; [done|]. cbn. intros x Hx. apply list_elem_of_singleton in Hx as ->. left.
  - cbn. lia.
Defined.

#[local] Instance geoLaws : GeoLaws.
Proof. intros a b [= Hab]. cbn. by rewrite Hab. Qed.

Lemma geofence_enforced_witness :
  ∃ features keep fc', index "features" (collection [VObj downtown; VObj pond; VObj barn; VNil]) = VArr features ∧
    value_Marshal (VObj fc') = Some "fcdowntown" ∧ length features = 4 ∧
    index "features" fc' = VArr (List.filter keep features) ∧ keep (VObj pond) = false.
Proof.
  destruct (geofence_enforced (Some (info searchReq)) policy (fence (geoJSON Lake)) fcResponse
    (mkResponse 200 ∅ "fcdowntown") (collection [VObj downtown; VObj pond; VObj barn; VNil])
    (Some (City : @Geom geoLib)) (Some (Lake : @Geom geoLib))) as (features & keep & fc' & Hf & Hm & Hi & Hk & _);
    try (vm_compute; congruence); try (eexists; split; vm_compute; reflexivity).
  exists features, keep, fc'. split_and!; try done; [vm_compute in Hf; by injection Hf as <-|].
  destruct (keep (VObj pond)) eqn:E; [|done]. destruct (Hk _ E) as (item & ig & [= <-] & Hg & _ & Hd).
  vm_compute in Hg. injection Hg as <-. discriminate (Hd _ eq_refl).
Defined.

(** A geofence whose allowed area does not parse lets the collection pass
    whole. *)
Lemma unparsable_fence_passes :
  enforceResponse (Some (info searchReq))
    (Some (mkConstraints [] [] (Some (mkGeofence (VStr "garbage") VNil true "")) 0 [] "" VNil false)) fcResponse
    = Ok fcResponse.
Proof. reflexivity. Qed.

Definition userReq (lang : string) : SearchRequest := withFilter (VStr "P") lang emptySearchRequest.

Lemma injectCQL2Filter_conj_witness :
  ∃ sr' sr'' c' e', injectCQL2Filter (userReq "") filterPolicy true = Ok (sr', c') ∧ Filter sr' = VStr "PPCO" ∧
    injectCQL2Filter (userReq "cql2-json") filterPolicy true = Ok (sr'', c') ∧ Filter sr'' = VObj [("f", VStr "PPCO")] ∧
    parseUserCQL2 (Filter sr'') = Ok e' ∧ optHolds e' downtown ∧ ¬ optHolds e' barn.
Proof.
  eexists (withFilter (VStr "PPCO") "cql2-text" (userReq "")), _, (withCQL2Filter "PC" filterPolicy).
  destruct (injectCQL2Filter_conj (userReq "cql2-json") filterPolicy true
    (withFilter (VObj [("f", VStr "PPCO")]) "cql2-json" (userReq "cql2-json"))
    (withCQL2Filter "PC" filterPolicy)) as (pushed & user & pol & rq & e' & Hu & Hpol & Hr & Hp & Hall & Hpd & Hnp);
    [reflexivity|].
  destruct pushed; [|by specialize (Hnp eq_refl)].
  vm_compute in Hu, Hpol, Hr. injection Hu as <-. injection Hpol as <-. injection Hr as <-.
  exists e'. split_and!; try reflexivity; try exact Hp.
  - apply Hall. split_and!; [vm_compute; reflexivity..|]. intros _ g [= <-].
    split; intros ga Hga Hn; vm_compute in Hga; simplify_eq; reflexivity.
  - rewrite Hall. intros (_ & _ & _ & Hg). destruct (Hg eq_refl _ eq_refl) as [Ha _].
    specialize (Ha City eq_refl eq_refl). discriminate Ha.
Defined.

Lemma validateSingleRecord_spec_witness :
  (validateSingleRecord "downtown" filterPolicy).1 = true ∧
  (validateSingleRecord "barn" filterPolicy).1 ≠ true.
Proof.
  split.
  - destruct (validateSingleRecord_spec "downtown" filterPolicy downtown
      (withCQL2Filter "PC" filterPolicy) true (Some (eqNode "tier" "public"))
      (Some (eqNode "class" "open")) (Some inCity)) as [_ Hw]; [discriminate|reflexivity..|].
    apply Hw. split_and!; [vm_compute; reflexivity..|]. intros g [= <-].
    split; intros ga Hga Hn; vm_compute in Hga; simplify_eq; reflexivity.
  - destruct (validateSingleRecord_spec "barn" filterPolicy barn
      (withCQL2Filter "PC" filterPolicy) true (Some (eqNode "tier" "public"))
      (Some (eqNode "class" "open")) (Some inCity)) as [Hw _]; [discriminate|reflexivity..|].
    intros (_ & _ & Hg)%Hw. destruct (Hg _ eq_refl) as [Ha _].
    specialize (Ha City eq_refl eq_refl). discriminate Ha.
Defined.

(** A policy filter that does not parse lets every single item through. *)
Lemma unparsable_policy_fails_open :
  validateSingleRecord "barn" (mkConstraints [] [] None 0 [] "garbage" VNil false) = (true, true).
Proof. reflexivity. Qed.

(** With a denied area only, the geofence puts no constraint on searches:
    [FilterMode] is not defaulted and the collection is forwarded whole. *)
Lemma denied_only_not_enforced :
  let c := mkConstraints [] [] (Some (mkGeofence VNil (geoJSON City) false "")) 0 [] "" VNil false in
  HasConstraints (Some (mkDecision true [] (Some c) false)) = false ∧
  authzHandler (cfg c false) defaultHeaderAllowlist "" "" req (Some (info emptySearchRequest)) None next
    = Ok fcResponse.
Proof. split; vm_compute; reflexivity. Qed.

(** The denied area means one thing pushed down and another in the
    post-filter: the city intersects the lake but is not covered by it, so
    the post-filter keeps [downtown] and the pushed predicate rejects it. *)
Lemma denied_area_two_meanings :
  let g := mkGeofence VNil (geoJSON Lake) true "" in
  keepFeature "geometry" None (Some Lake) (VObj downtown) = true ∧
  ∃ e, geofenceToCQL2 (Some g) = Ok (Some e) ∧ ¬ holds e downtown.
Proof. split; [reflexivity|]. eexists. split; [reflexivity|]. discriminate. Qed.

(** Without injection the policy filter and the required filters do not
    restrict a search: the whole upstream collection is forwarded. *)
Lemma filter_policy_needs_injection :
  let c := mkConstraints [] [] None 0 [("class", VStr "closed")] "P" VNil false in
  authzHandler (cfg c false) defaultHeaderAllowlist "" "" req (Some (info emptySearchRequest)) None next
    = Ok fcResponse.
Proof. vm_compute. reflexivity. Qed.

End Witness.

End Authz.
