(* ===== verification/Query.v ===== *)
(** * Query strings ([net/url]: [ParseQuery], [Values.Encode])

    The part of [net/url] the response cache uses to canonicalise a query
    string, and the cache's [normalizeQuery] itself.  A parse error is
    [None]: the caller looks at nothing else of a failed parse. *)

From S2P Require Import Prelude GoLib.
From Stdlib Require Import Ascii.
Import Strings.

Module Query.

(** ** Escaping *)

Definition unreserved (c : ascii) : bool :=
  let n := N_of_ascii c in
  (((48 <=? n) && (n <=? 57)) || ((65 <=? n) && (n <=? 90)) || ((97 <=? n) && (n <=? 122)))%N
  || existsb (Ascii.eqb c) ["-"; "_"; "."; "~"]%char.

Definition upperhex (n : N) : ascii :=
  (if n <? 10 then ascii_of_N (48 + n) else ascii_of_N (55 + n))%N.

Definition escape1 (c : ascii) : string :=
  if Ascii.eqb c " " then "+"
  else if unreserved c then String c ""
  else String "%" (String (upperhex (N_of_ascii c / 16)) (String (upperhex (N_of_ascii c mod 16)) "")).

Fixpoint QueryEscape (s : string) : string :=
  match s with EmptyString => "" | String c s => escape1 c +:+ QueryEscape s end.

Definition unhex (c : ascii) : option N :=
  let n := N_of_ascii c in
  (if (48 <=? n) && (n <=? 57) then Some (n - 48)
   else if (97 <=? n) && (n <=? 102) then Some (n - 87)
   else if (65 <=? n) && (n <=? 70) then Some (n - 55)
   else None)%N.

Fixpoint QueryUnescape (s : string) : option string :=
  match s with
  | EmptyString => Some ""
  | String "%" (String a (String b s)) =>
      x ← unhex a; y ← unhex b; r ← QueryUnescape s; Some (String (ascii_of_N (x * 16 + y)) r)
  | String "%" _ => None
  | String c s => r ← QueryUnescape s; Some (String (if Ascii.eqb c "+" then " "%char else c) r)
  end.

(** ** Values *)

Abbreviation Values := (gmap string (list string)).

Definition append (m : Values) (kv : string * string) : Values :=
  <[kv.1 := default [] (m !! kv.1) ++ [kv.2]]> m.

(** [strings.Cut] at a one-byte separator, without the found flag. *)
Fixpoint Cut (c : ascii) (s : string) : string * string :=
  match s with
  | EmptyString => ("", "")
  | String a s' => if Ascii.eqb a c then ("", s') else let '(x, y) := Cut c s' in (String a x, y)
  end.

Definition parsePair (seg : string) : option (string * string) :=
  let '(key, value) := Cut "=" seg in
  key ← QueryUnescape key; value ← QueryUnescape value; Some (key, value).

(** One ampersand-separated segment; empty ones are skipped. *)
Definition parseSegment (m : option Values) (seg : string) : option Values :=
  m ← m;
  if occurs ";" seg then None
  else if String.eqb seg "" then Some m
  else kv ← parsePair seg; Some (append m kv).

Definition ParseQuery (query : string) : option Values :=
  foldl parseSegment (Some ∅) (Split query "&").

(** [u.Query()]: the same with the bad segments left out. *)
Definition querySegment (m : Values) (seg : string) : Values :=
  if occurs ";" seg then m
  else if String.eqb seg "" then m
  else match parsePair seg with Some kv => append m kv | None => m end.

Definition URLQuery (query : string) : Values := foldl querySegment ∅ (Split query "&").

(** [Values.Get]. *)
Definition Get (m : Values) (k : string) : string :=
  match m !! k with Some (v :: _) => v | _ => "" end.

Definition encodePair (k v : string) : string := QueryEscape k +:+ String "=" (QueryEscape v).

(** [Values.Encode]: keys in order, the values of a key as they came. *)
Definition encodeKeys (m : Values) (ks : list string) : list (string * string) :=
  ks ≫= λ k, pair k <$> default [] (m !! k).
Definition Encode (m : Values) : string :=
  join_sep "&" ((λ kv, encodePair kv.1 kv.2) <$> encodeKeys m (sort_Strings (map_to_list m).*1)).

Definition normalizeQuery (raw : string) : string :=
  if String.eqb raw "" then "" else
  match ParseQuery raw with
  | None => raw
  | Some v => Encode v
  end.

(** ** Lemmas *)

(** A fact about every byte, by evaluation. *)
Lemma every_byte (P : ascii → bool) c :
  forallb (λ n, P (ascii_of_N (N.of_nat n))) (seq 0 256) = true → P c = true.
Proof.
  intros Hall. rewrite forallb_forall in Hall. specialize (Hall (N.to_nat (N_of_ascii c))).
  rewrite N2Nat.id, ascii_N_embedding in Hall. apply Hall, in_seq.
  pose proof (N_ascii_bounded c). lia.
Qed.

(** An escaped byte is clear of the separators. *)
Lemma escape1_clean c :
  occurs "&" (escape1 c) || occurs ";" (escape1 c) || occurs "=" (escape1 c) = false.
Proof.
  apply negb_true_iff. apply (every_byte (λ c, negb (occurs "&" (escape1 c) ||
    occurs ";" (escape1 c) || occurs "=" (escape1 c)))). by vm_compute.
Qed.

Lemma QueryEscape_clean s :
  occurs "&" (QueryEscape s) = false ∧ occurs ";" (QueryEscape s) = false ∧
  occurs "=" (QueryEscape s) = false.
Proof.
  induction s as [|c s IH]; cbn; [done|].
  pose proof (escape1_clean c) as Hc. bool_to_prop. destruct IH as (Hx & Hy & Hz).
  by rewrite !occurs_append, Hx, Hy, Hz, !orb_false_r.
Qed.

(** Unescaping undoes the escape of one byte, whatever follows. *)
Definition undoes (c : ascii) : bool :=
  match escape1 c with
  | String "%" (String a (String b "")) =>
      match unhex a, unhex b with
      | Some x, Some y => Ascii.eqb (ascii_of_N (x * 16 + y)) c
      | _, _ => false
      end
  | String a "" => negb (Ascii.eqb a "%") && Ascii.eqb (if Ascii.eqb a "+" then " " else a) c
  | _ => false
  end.

Lemma undoes_all c : undoes c = true.
Proof. apply every_byte. by vm_compute. Qed.

Lemma QueryUnescape_plain a s :
  Ascii.eqb a "%" = false →
  QueryUnescape (String a s) = (r ← QueryUnescape s; Some (String (if Ascii.eqb a "+" then " "%char else a) r)).
Proof. intros Ha. destruct a as [[] [] [] [] [] [] [] []]; done. Qed.

Lemma QueryUnescape_escape1 c s :
  QueryUnescape (escape1 c +:+ s) = (r ← QueryUnescape s; Some (String c r)).
Proof.
  pose proof (undoes_all c) as Hu. unfold undoes in Hu.
  destruct (escape1 c) as [|a e]; [done|]. destruct (Ascii.eqb_spec a "%") as [->|Ha].
  - destruct e as [|x [|y [|]]]; try done. cbn.
    destruct (unhex x) as [nx|], (unhex y) as [ny|]; try done. cbn.
    by apply Ascii.eqb_eq in Hu as ->.
  - assert (e = "" ∧ Ascii.eqb (if Ascii.eqb a "+" then " " else a) c = true) as [-> Hc].
    { destruct a as [[] [] [] [] [] [] [] []]; destruct e; try done; by rewrite ?andb_true_iff in Hu. }
    change (String a "" +:+ s) with (String a s). apply Ascii.eqb_neq in Ha.
    rewrite QueryUnescape_plain by done. by apply Ascii.eqb_eq in Hc as ->.
Qed.

Lemma QueryUnescape_QueryEscape s : QueryUnescape (QueryEscape s) = Some s.
Proof. induction s as [|c s IH]; cbn; [done|]. by rewrite QueryUnescape_escape1, IH. Qed.

Lemma Cut_app c s t : occurs c s = false → Cut c (s +:+ String c t) = (s, t).
Proof.
  induction s as [|a s IH]; cbn; [by rewrite Ascii.eqb_refl|].
  intros [Ha Hs]%orb_false_elim. by rewrite Ha, IH.
Qed.

Lemma parsePair_encodePair k v : parsePair (encodePair k v) = Some (k, v).
Proof.
  unfold parsePair, encodePair. destruct (QueryEscape_clean k) as (_ & _ & Hk).
  rewrite Cut_app by done. by rewrite !QueryUnescape_QueryEscape.
Qed.

Lemma parseSegment_encodePair m k v : parseSegment (Some m) (encodePair k v) = Some (append m (k, v)).
Proof.
  unfold parseSegment. cbn [mbind option_bind]. rewrite parsePair_encodePair. unfold encodePair.
  destruct (QueryEscape_clean k) as (_ & Hk & _), (QueryEscape_clean v) as (_ & Hv & _).
  rewrite occurs_append. cbn [occurs]. rewrite Hk, Hv. cbn.
  by destruct (QueryEscape k).
Qed.

Lemma parse_pairs kvs m :
  foldl parseSegment (Some m) ((λ kv, encodePair kv.1 kv.2) <$> kvs) = Some (foldl append m kvs).
Proof.
  revert m. induction kvs as [|[k v] kvs IH]; intros m; [done|].
  rewrite fmap_cons. cbn [foldl fst snd]. by rewrite parseSegment_encodePair, IH.
Qed.

Lemma ParseQuery_pairs kvs :
  ParseQuery (join_sep "&" ((λ kv, encodePair kv.1 kv.2) <$> kvs)) = Some (foldl append ∅ kvs).
Proof.
  destruct kvs as [|kv kvs]; [done|]. unfold ParseQuery. rewrite Split_join_sep, parse_pairs; [done..|].
  apply Forall_fmap, Forall_true. intros [k v]; cbn. unfold encodePair.
  destruct (QueryEscape_clean k) as (Hk & _), (QueryEscape_clean v) as (Hv & _).
  by rewrite occurs_append; cbn; rewrite Hk, Hv.
Qed.

Lemma append_all k vs m :
  foldl append m (pair k <$> vs) = match vs with [] => m | _ => <[k := default [] (m !! k) ++ vs]> m end.
Proof.
  revert m. induction vs as [|v vs IH]; intros m; [done|].
  rewrite fmap_cons. cbn [foldl]. rewrite IH. unfold append. cbn [fst snd].
  destruct vs as [|v' vs]; [done|]. rewrite lookup_insert_eq. cbn [default id]. unfold id.
  by rewrite insert_insert_eq, <-List.app_assoc.
Qed.

(** Adding back the pairs of distinct keys. *)
Lemma foldl_encodeKeys m ks acc :
  NoDup ks → (∀ k, k ∈ ks → acc !! k = None) → (∀ k, m !! k ≠ Some []) →
  ∀ k, foldl append acc (encodeKeys m ks) !! k = if bool_decide (k ∈ ks) then m !! k else acc !! k.
Proof.
  intros Hnd. revert acc. induction Hnd as [|k0 ks Hk0 Hnd IH]; intros acc Hacc Hne k; [done|].
  unfold encodeKeys in *. cbn. rewrite foldl_app, append_all.
  assert (Hk : acc !! k0 = None) by (apply Hacc; left).
  destruct (m !! k0) as [[|v vs]|] eqn:Em; cbn; [by destruct (Hne k0)|..].
  - rewrite IH; [|intros k' Hin; rewrite lookup_insert_ne by set_solver; apply Hacc; by right|done].
    destruct (decide (k = k0)) as [->|Hkk].
    + rewrite (bool_decide_false _ Hk0), bool_decide_true by set_solver.
      by rewrite lookup_insert_eq, Hk, Em.
    + rewrite lookup_insert_ne by done.
      by rewrite (bool_decide_ext (k ∈ k0 :: ks) (k ∈ ks)) by set_solver.
  - rewrite IH; [|intros k' Hin; apply Hacc; by right|done].
    destruct (decide (k = k0)) as [->|Hkk].
    + by rewrite (bool_decide_false _ Hk0), bool_decide_true, Hk, Em by set_solver.
    + by rewrite (bool_decide_ext (k ∈ k0 :: ks) (k ∈ ks)) by set_solver.
Qed.

Lemma ParseQuery_Encode m : (∀ k, m !! k ≠ Some []) → ParseQuery (Encode m) = Some m.
Proof.
  intros Hne. unfold Encode. rewrite ParseQuery_pairs. f_equal. apply map_eq. intros k.
  assert (Hp : sort_Strings (map_to_list m).*1 ≡ₚ (map_to_list m).*1) by apply sort_stable_perm.
  rewrite foldl_encodeKeys; [|rewrite Hp; apply NoDup_fst_map_to_list|done|done].
  case_bool_decide as Hk; [done|]. rewrite lookup_empty. symmetry. apply not_elem_of_dom.
  contradict Hk. rewrite Hp. apply elem_of_dom in Hk as [v Hv].
  apply list_elem_of_fmap. exists (k, v). split; [done|]. by apply elem_of_map_to_list.
Qed.

(** A parse never leaves a key without a value. *)
Lemma ParseQuery_nonempty q m : ParseQuery q = Some m → ∀ k, m !! k ≠ Some [].
Proof.
  unfold ParseQuery. cut (∀ segs acc, match acc with Some a => ∀ k, a !! k ≠ Some [] | None => True end →
    foldl parseSegment acc segs = Some m → ∀ k, m !! k ≠ Some []).
  { intros Hc. apply Hc. intros k. by rewrite lookup_empty. }
  induction segs as [|seg segs IH]; intros acc Ha; cbn -[parseSegment]; [by intros ->|].
  apply IH. destruct acc as [a|]; [|done]. unfold parseSegment; cbn.
  destruct (occurs ";" seg), (String.eqb seg ""); try done.
  destruct (parsePair seg) as [[k v]|]; [|done]. cbn. intros k'. unfold append; cbn.
  rewrite lookup_insert. case_decide; [|apply Ha]. by destruct (default [] (a !! k)).
Qed.

Lemma URLQuery_ParseQuery q m : ParseQuery q = Some m → URLQuery q = m.
Proof.
  unfold ParseQuery, URLQuery. generalize (∅ : Values) as acc, (Split q "&") as segs.
  intros acc segs. revert acc. induction segs as [|seg segs IH]; intros acc; cbn -[parseSegment querySegment].
  - by intros [= ->].
  - destruct (parseSegment (Some acc) seg) as [acc'|] eqn:E.
    + intros Hf. replace (querySegment acc seg) with acc'; [by apply IH|].
      unfold parseSegment, querySegment in *. cbn in E. repeat case_match; simplify_eq/=; done.
    + intros Hf. exfalso. clear -Hf. by induction segs.
Qed.

Lemma URLQuery_nonempty q k : URLQuery q !! k ≠ Some [].
Proof.
  unfold URLQuery. cut (∀ segs acc, acc !! k ≠ Some [] → foldl querySegment acc segs !! k ≠ Some []).
  { intros Hc. apply Hc. by rewrite lookup_empty. }
  induction segs as [|seg segs IH]; intros acc Ha; cbn -[querySegment]; [done|].
  apply IH. unfold querySegment. repeat case_match; try done. unfold append.
  rewrite lookup_insert. case_decide; [|done]. by destruct (default [] _).
Qed.

Lemma URLQuery_Encode m : (∀ k, m !! k ≠ Some []) → URLQuery (Encode m) = m.
Proof. intros Hm. by apply URLQuery_ParseQuery, ParseQuery_Encode. Qed.

Lemma normalizeQuery_Some q m : ParseQuery q = Some m → normalizeQuery q = Encode m.
Proof.
  unfold normalizeQuery. destruct (String.eqb_spec q "") as [->|]; [by intros [= <-]|]. by intros ->.
Qed.

Lemma normalizeQuery_None q : ParseQuery q = None → normalizeQuery q = q.
Proof. unfold normalizeQuery. destruct (String.eqb_spec q "") as [->|]; [done|]. by intros ->. Qed.

(** ** Properties *)

(** The normal form of a query is canonical: two queries share it
    exactly when they decode to the same values, key by key and in order
    for each key, or are the same undecodable text; and it decodes to what
    the query decodes to, so normalising again changes nothing. *)
Theorem normalizeQuery_canonical a b :
  (normalizeQuery a = normalizeQuery b ↔
   match ParseQuery a, ParseQuery b with
   | Some x, Some y => x = y
   | None, None => a = b
   | _, _ => False
   end) ∧
  ParseQuery (normalizeQuery a) = ParseQuery a ∧
  normalizeQuery (normalizeQuery a) = normalizeQuery a.
Proof.
  assert (Hp : ∀ q, ParseQuery (normalizeQuery q) = ParseQuery q).
  { intros q. destruct (ParseQuery q) as [m|] eqn:E.
    - rewrite (normalizeQuery_Some _ _ E). by eapply ParseQuery_Encode, ParseQuery_nonempty.
    - by rewrite (normalizeQuery_None _ E). }
  split_and!; [|done|].
  - destruct (ParseQuery a) as [x|] eqn:Ea, (ParseQuery b) as [y|] eqn:Eb; split; intros Heq; try done.
    + pose proof (Hp a) as Hx. rewrite Heq, Hp, Ea, Eb in Hx. by injection Hx.
    + subst y. by rewrite (normalizeQuery_Some _ _ Ea), (normalizeQuery_Some _ _ Eb).
    + pose proof (Hp a) as Hx. rewrite Heq, Hp, Ea, Eb in Hx. done.
    + pose proof (Hp a) as Hx. rewrite Heq, Hp, Ea, Eb in Hx. done.
    + by rewrite (normalizeQuery_None _ Ea), (normalizeQuery_None _ Eb) in Heq.
    + by subst.
  - destruct (ParseQuery a) as [m|] eqn:E.
    + rewrite (normalizeQuery_Some (normalizeQuery a) m); [|by rewrite Hp].
      by rewrite (normalizeQuery_Some a m).
    + rewrite (normalizeQuery_None (normalizeQuery a)); [done|]. by rewrite Hp.
Qed.

(** The order of parameters does not matter, the order of one key's values
    does. *)
Example normalizeQuery_orders :
  normalizeQuery "b=2&a=1%202&a=0" = normalizeQuery "a=1+2&b=2&a=0" ∧
  normalizeQuery "a=1&a=0" ≠ normalizeQuery "a=0&a=1" ∧ normalizeQuery "a=%2" = "a=%2".
Proof. by vm_compute. Qed.

End Query.
