(* ===== verification/Cache.v ===== *)
(** * The response cache ([internal/middleware/cache/middleware.go],
      [store.go])

    The whole handler: bypass conditions, cache key, hit, miss and the
    decision to store.  It runs over any [Store]; a nil store is
    [NoOpStore].  Requests overlap: looking a request up and storing its
    answer are the two atomic steps of a step relation.  The inner handler
    answers with the headers it set and the calls it made on its writer, so
    the capture is that of [Httpx.v].

    Parameters: [Crypto] and [encoding/json] on [CacheEntry]
    ([EntryCodec]). *)

From S2P Require Import Prelude GoLib Stac Cursor Store Httpx Middleware Auth Cql2 Authz Query.
From Stdlib Require Import Ascii.
From stdpp Require Import relations.
Import Strings Header Httpx Middleware.

Module Cache.

(** ** Data *)

Record CacheableRequest := mkCacheable {
  cr_Method : string;
  cr_Path : string;
  cr_Query : string;
  cr_RequestType : string;
  cr_Collection : string;
  cr_PrincipalClass : string;
}.

Record CacheEntry := mkCacheEntry { ce_Status : Z; ce_Headers : header; ce_Body : bytes }.

Class EntryCodec := {
  entry_Marshal : CacheEntry → option bytes;
  entry_Unmarshal : bytes → option CacheEntry;
}.

(** JSON strings are UTF-8: an entry whose header names and values are
    ASCII comes back as it was. *)
Definition asciiText (s : string) : bool := all_chars (λ c, (N_of_ascii c <? 128)%N) s.
Definition asciiEntry (e : CacheEntry) : Prop :=
  map_Forall (λ k vs, asciiText k = true ∧ Forall (λ v, asciiText v = true) vs) (ce_Headers e).

Class EntryLaws `{EntryCodec} := {
  Unmarshal_Marshal : ∀ e b, asciiEntry e → entry_Marshal e = Some b → entry_Unmarshal b = Some e;
}.

Record BasicStrategy := mkStrategy { CollectionTTL : Z; ItemTTL : Z; SearchTTL : Z }.

Record Config := mkConfig {
  Strategy : option BasicStrategy;
  CacheableStatuses : list Z;
  NegativeCacheTTL : Z;
}.

Definition Second : Z := 1000000000.
Definition Minute : Z := (60 * Second)%Z.

Definition defaultCacheableStatuses : list Z := [200; 203; 204; 301; 308; 404; 410]%Z.
Definition defaultNegativeCacheTTL : Z := (5 * Minute)%Z.
Definition defaultStrategy : BasicStrategy := mkStrategy (5 * Minute) Minute (30 * Second).

Definition cacheableResponseHeaders : gset string :=
  {["Content-Type"; "Content-Encoding"; "Content-Language"; "Etag"; "Last-Modified";
    "Cache-Control"; "Expires"; "Vary"; "X-Cache-Status"]}.

(** ** Keys *)

Definition principalClass (principal : option Auth.Principal) : string :=
  match principal with
  | None => "anonymous"
  | Some p =>
      if Auth.IsAnonymous p then "anonymous"
      else if String.eqb (Auth.p_ID p) "" then "principal:_unknown"
      else "principal:" +:+ Auth.p_ID p
  end.

Definition NUL : ascii := Ascii.zero.

Definition keyData (req : CacheableRequest) : bytes :=
  cr_PrincipalClass req +:+ String NUL (cr_Method req +:+ String NUL (cr_Path req +:+
    String NUL (cr_Query req))).

Section Handler.
Context `{!Crypto, !MapRange, !EntryCodec, Store St}.

Definition CacheKey (req : CacheableRequest) : string :=
  Hex.EncodeToString (take_bytes 16 (sha256 (keyData req))).

#[local] Arguments CacheKey : simpl never.

Definition ShouldCache (req : CacheableRequest) : bool :=
  if negb (String.eqb (cr_Method req) "GET") then false
  else if String.eqb (cr_RequestType req) "asset" then false
  else true.

Definition TTL (s : BasicStrategy) (req : CacheableRequest) (statusCode : Z) : Z :=
  if ((statusCode <? 200) || (400 <=? statusCode))%Z then 0
  else if String.eqb (cr_RequestType req) "collection" || String.eqb (cr_RequestType req) "collections"
  then CollectionTTL s
  else if String.eqb (cr_RequestType req) "item" then ItemTTL s
  else if String.eqb (cr_RequestType req) "search" then SearchTTL s
  else ItemTTL s.

(** ** Headers *)

Definition addAll (name : string) (vs : list string) (h : header) : header :=
  foldl (λ h v, Add name v h) h vs.

Definition filterCacheableHeaders (h : header) : header :=
  foldl (λ out kv, if bool_decide (CanonicalHeaderKey kv.1 ∈ cacheableResponseHeaders)
                   then addAll kv.1 kv.2 out else out) ∅ (range h).

Definition copyHeaders (src dst : header) : header :=
  foldl (λ h kv, addAll kv.1 kv.2 h) dst (range src).

Definition writeCachedResponse (w : header) (entry : CacheEntry) : response :=
  mkResponse (if (ce_Status entry =? 0)%Z then 200 else ce_Status entry)
    (Set_ "X-Cache-Status" "HIT" (copyHeaders (ce_Headers entry) w)) (ce_Body entry).

(** ** The handler *)

Inductive reply :=
| Direct                    (* the inner handler wrote to the client itself *)
| Hit (resp : response)
| Miss (resp : response).

(** What an inner handler does: its headers and its calls on the writer. *)
Definition answer : Type := header * list event.

Definition capture (a : answer) : ResponseCapture :=
  let rc := foldl execEvent NewResponseCapture a.2 in
  mkCapture a.1 (rc_status rc) (rc_body rc) (rc_max rc) (rc_written rc) (rc_closed rc).

Definition noStore (h : header) : bool := Contains (ToLower (Get h "Cache-Control")) "no-store".

Definition statuses (cfg : Config) : list Z :=
  match CacheableStatuses cfg with [] => defaultCacheableStatuses | l => l end.
Definition strategy (cfg : Config) : BasicStrategy := default defaultStrategy (Strategy cfg).
Definition negTTL (cfg : Config) : Z :=
  if (NegativeCacheTTL cfg <=? 0)%Z then defaultNegativeCacheTTL else NegativeCacheTTL cfg.

Definition cacheReq (info : STACInfo) (principal : option Auth.Principal) (r : httpRequest)
    : CacheableRequest :=
  mkCacheable (Method r) (URLPath r) (Query.normalizeQuery (RawQuery r))
    (RequestType_String (info_RequestType info)) (info_Collection info) (principalClass principal).

Definition entryTTL (cfg : Config) (req : CacheableRequest) (status : Z) : Z :=
  if ((400 <=? status) && (status <? 500))%Z then negTTL cfg else TTL (strategy cfg) req status.

(** The end of the miss path: whether and how to store. *)
Definition storeResponse (cfg : Config) (now : Z) (req : CacheableRequest) (cap : ResponseCapture)
    (s : St) : St :=
  let status := Status cap in
  if negb (bool_decide (status ∈ statuses cfg)) then s
  else if noStore (rc_header cap) then s
  else
    let ttl := entryTTL cfg req status in
    if (ttl <=? 0)%Z then s else
    match entry_Marshal (mkCacheEntry status (filterCacheableHeaders (rc_header cap)) (BodyBytes cap)) with
    | None => s
    | Some envelope => (store_Set now (CacheKey req) envelope ttl s).2
    end.

Definition bypass (info : option STACInfo) (decision : option Authz.AuthzDecision) : option STACInfo :=
  match info with
  | None => None
  | Some i => if Authz.HasConstraints decision then None else Some i
  end.

Definition decodeEntry (data : bytes) : option CacheEntry := entry_Unmarshal data.

Definition lookupEntry (now : Z) (key : string) (s : St) : option CacheEntry * St :=
  let '(data, s) := store_Get now key s in (data ≫= decodeEntry, s).

(** What the middleware does before the inner handler runs: steps aside,
    serves an entry, or leaves it to the inner handler. *)
Inductive phase := Aside | Served (resp : response) | Fetch (req : CacheableRequest).

Definition consult (now : Z) (w : header) (info : option STACInfo)
    (decision : option Authz.AuthzDecision) (principal : option Auth.Principal) (r : httpRequest) (s : St)
    : phase * St :=
  match bypass info decision with
  | None => (Aside, s)
  | Some i =>
      let req := cacheReq i principal r in
      if negb (ShouldCache req) then (Aside, s) else
      let '(entry, s) := lookupEntry now (CacheKey req) s in
      (match entry with Some entry => Served (writeCachedResponse w entry) | None => Fetch req end, s)
  end.

(** What the client gets of a captured answer. *)
Definition missed (w : header) (cap : ResponseCapture) : response :=
  mkResponse (Status cap) (Set_ "X-Cache-Status" "MISS" (copyHeaders (rc_header cap) w)) (BodyBytes cap).

Definition cacheHandler (cfg : Config) (now : Z) (w : header) (info : option STACInfo)
    (decision : option Authz.AuthzDecision) (principal : option Auth.Principal) (r : httpRequest)
    (next : httpRequest → answer) (s : St) : reply * St :=
  match consult now w info decision principal r s with
  | (Aside, s) => (Direct, s)
  | (Served resp, s) => (Hit resp, s)
  | (Fetch req, s) => let cap := capture (next r) in (Miss (missed w cap), storeResponse cfg now req cap s)
  end.

(** ** Concurrent requests *)

(** A request as the tier sees it, when it looks the store up, and what the
    inner handler answers if it is asked. *)
Record exchange := mkExchange {
  x_now : Z;
  x_w : header;
  x_info : option STACInfo;
  x_decision : option Authz.AuthzDecision;
  x_principal : option Auth.Principal;
  x_req : httpRequest;
  x_answer : answer;
}.

(** The store, the requests the inner handler is working on, and the
    requests and replies so far. *)
Record traffic := mkTraffic {
  t_store : St;
  t_flight : list (exchange * CacheableRequest);
  t_seen : list exchange;
  t_replies : list (exchange * reply);
}.

Definition consultFor (x : exchange) (s : St) : phase * St :=
  consult (x_now x) (x_w x) (x_info x) (x_decision x) (x_principal x) (x_req x) s.

(** The store's operations are atomic; the lookup of a request and the
    storing of its answer are two of them, with any others between.  An
    inner handler that panics leaves nothing. *)
Inductive step (cfg : Config) (t : traffic) : traffic → Prop :=
| step_aside x s : consultFor x (t_store t) = (Aside, s) →
    step cfg t (mkTraffic s (t_flight t) (x :: t_seen t) ((x, Direct) :: t_replies t))
| step_hit x resp s : consultFor x (t_store t) = (Served resp, s) →
    step cfg t (mkTraffic s (t_flight t) (x :: t_seen t) ((x, Hit resp) :: t_replies t))
| step_miss x req s : consultFor x (t_store t) = (Fetch req, s) →
    step cfg t (mkTraffic s ((x, req) :: t_flight t) (x :: t_seen t) (t_replies t))
| step_store l1 x req l2 now : t_flight t = l1 ++ (x, req) :: l2 → (x_now x ≤ now)%Z →
    step cfg t (mkTraffic (storeResponse cfg now req (capture (x_answer x)) (t_store t)) (l1 ++ l2) (t_seen t)
      ((x, Miss (missed (x_w x) (capture (x_answer x)))) :: t_replies t))
| step_panic l1 x req l2 : t_flight t = l1 ++ (x, req) :: l2 →
    step cfg t (mkTraffic (t_store t) (l1 ++ l2) (t_seen t) (t_replies t)).

(** The steps as a function: a request arrives, or the [n]-th in flight is
    answered. *)
Inductive arrival := Arrives (x : exchange) | Answered (n : nat) (now : Z).

Definition exec (cfg : Config) (t : traffic) (a : arrival) : option traffic :=
  match a with
  | Arrives x =>
      Some match consultFor x (t_store t) with
           | (Aside, s) => mkTraffic s (t_flight t) (x :: t_seen t) ((x, Direct) :: t_replies t)
           | (Served resp, s) => mkTraffic s (t_flight t) (x :: t_seen t) ((x, Hit resp) :: t_replies t)
           | (Fetch req, s) => mkTraffic s ((x, req) :: t_flight t) (x :: t_seen t) (t_replies t)
           end
  | Answered n now =>
      '(x, req) ← t_flight t !! n;
      if (x_now x <=? now)%Z
      then Some (mkTraffic (storeResponse cfg now req (capture (x_answer x)) (t_store t)) (delete n (t_flight t)) (t_seen t)
             ((x, Miss (missed (x_w x) (capture (x_answer x)))) :: t_replies t))
      else None
  end.

Definition execAll (cfg : Config) (t : traffic) (l : list arrival) : option traffic :=
  foldl (λ t a, t ≫= λ t, exec cfg t a) (Some t) l.

Definition fresh (s : St) : traffic := mkTraffic s [] [] [].

(** The cacheable shape of an exchange the cache engages on. *)
Definition engaged (x : exchange) : option CacheableRequest :=
  i ← bypass (x_info x) (x_decision x);
  let req := cacheReq i (x_principal x) (x_req x) in
  if ShouldCache req then Some req else None.

(** The entry an exchange may leave behind. *)
Definition entryOf (x : exchange) : CacheEntry :=
  let cap := capture (x_answer x) in
  mkCacheEntry (Status cap) (filterCacheableHeaders (rc_header cap)) (BodyBytes cap).

(** [x] stored its answer under [req] at [now], until [exp]. *)
Record stored (cfg : Config) (x : exchange) (req : CacheableRequest) (now exp : Z) : Prop := {
  st_engaged : engaged x = Some req;
  st_status : ce_Status (entryOf x) ∈ statuses cfg;
  st_public : noStore (x_answer x).1 = false;
  st_now : (x_now x ≤ now)%Z;
  st_exp : exp = (now + entryTTL cfg req (ce_Status (entryOf x)))%Z;
}.
End Handler.

(** ** Lemmas *)

Lemma occurs_NUL_escape1 c : occurs NUL (Query.escape1 c) = false.
Proof.
  apply negb_true_iff. apply (Query.every_byte (λ c, negb (occurs NUL (Query.escape1 c)))).
  by vm_compute.
Qed.

Lemma occurs_NUL_escape s : occurs NUL (Query.QueryEscape s) = false.
Proof. induction s as [|c s IH]; [done|]. cbn. by rewrite occurs_append, occurs_NUL_escape1, IH. Qed.

Lemma occurs_join_sep c segs :
  Ascii.eqb "&" c = false → Forall (λ s, occurs c s = false) segs → occurs c (join_sep "&" segs) = false.
Proof.
  intros Hc Hf. induction Hf as [|s segs Hs Hf IH]; [done|]. destruct segs as [|s' segs]; [done|].
  change (join_sep "&" (s :: s' :: segs)) with (s +:+ String "&" (join_sep "&" (s' :: segs))).
  rewrite occurs_append. cbn [occurs]. by rewrite Hs, Hc, IH.
Qed.

(** The normal form of a query without NUL bytes has none, even if the
    query spells them escaped. *)
Lemma normalizeQuery_NUL q : occurs NUL q = false → occurs NUL (Query.normalizeQuery q) = false.
Proof.
  intros Hq. unfold Query.normalizeQuery. case_match; [done|]. case_match; [|done].
  apply occurs_join_sep; [done|]. apply Forall_fmap, Forall_true. intros [k v]; cbn.
  unfold Query.encodePair. rewrite occurs_append. cbn [occurs].
  by rewrite !occurs_NUL_escape.
Qed.

(** The hashed text determines the request: only the path may hold a NUL
    byte. *)
Lemma keyData_inj a b :
  occurs NUL (cr_PrincipalClass a) = false → occurs NUL (cr_PrincipalClass b) = false →
  occurs NUL (cr_Method a) = false → occurs NUL (cr_Method b) = false →
  occurs NUL (cr_Query a) = false → occurs NUL (cr_Query b) = false →
  keyData a = keyData b →
  cr_PrincipalClass a = cr_PrincipalClass b ∧ cr_Method a = cr_Method b ∧
  cr_Path a = cr_Path b ∧ cr_Query a = cr_Query b.
Proof.
  unfold keyData. intros Hpa Hpb Hma Hmb Hqa Hqb Heq.
  apply app_sep_inj in Heq as [-> Heq]; [|done..].
  apply app_sep_inj in Heq as [-> Heq]; [|done..].
  by apply app_sep_inj_r in Heq as [-> ->].
Qed.

Section Laws.
Context `{!Crypto, !MapRange, !EntryCodec, StoreLaws St}.

(** What looking a request up tells of it. *)
Lemma consult_inv x (s s' : St) ph : consultFor x s = (ph, s') →
  (∀ k v exp, serves s' k v exp → serves s k v exp) ∧
  match ph with
  | Aside => True
  | Fetch req => engaged x = Some req
  | Served resp => ∃ req raw e exp, engaged x = Some req ∧ serves s (CacheKey req) raw exp ∧ (x_now x ≤ exp)%Z ∧
      entry_Unmarshal raw = Some e ∧ resp = writeCachedResponse (x_w x) e
  end.
Proof.
  unfold consultFor, consult, engaged.
  destruct (bypass (x_info x) (x_decision x)) as [i|]; [|by intros [= <- <-]]. cbn [mbind option_bind].
  set (req := cacheReq i (x_principal x) (x_req x)).
  destruct (ShouldCache req) eqn:Esc; cbn [negb]; [|by intros [= <- <-]].
  unfold lookupEntry, decodeEntry. destruct (store_Get _ _ s) as [d s1] eqn:Eg.
  assert (Hback : ∀ k v exp, serves s1 k v exp → serves s k v exp) by by eapply get_serves.
  destruct d as [raw|]; cbn; [|by intros [= <- <-]].
  destruct (entry_Unmarshal raw) as [e|] eqn:Eu; cbn; intros [= <- <-]; [|done].
  split; [done|]. apply get_hit in Eg as (exp & Hs & Hle). eauto 10.
Qed.

Lemma storeResponse_serves cfg now req x (s : St) k raw exp :
  engaged x = Some req → (x_now x ≤ now)%Z →
  serves (storeResponse cfg now req (capture (x_answer x)) s) k raw exp →
  serves s k raw exp ∨
  (stored cfg x req now exp ∧ k = CacheKey req ∧ entry_Marshal (entryOf x) = Some raw).
Proof.
  intros He Hnow Hs. unfold storeResponse in Hs.
  case_bool_decide as Hst; cbn in Hs; [|by left].
  destruct (noStore (x_answer x).1) eqn:En; [by left|].
  destruct (Z.leb_spec (entryTTL cfg req (Status (capture (x_answer x)))) 0); [by left|].
  destruct (entry_Marshal _) as [env|] eqn:Em; [|by left].
  destruct (store_Set _ _ _ _ s) as [ok s2] eqn:Es. cbn in Hs.
  eapply set_serves in Hs as [Hs|(-> & -> & ->)]; [by left| |done|done]. by right.
Qed.

(** What is in the store, in flight and replied comes from requests seen. *)
Record trafficInv (cfg : Config) (t : traffic) : Prop := {
  ti_store : ∀ k raw exp, serves (t_store t) k raw exp → ∃ y req now,
    y ∈ t_seen t ∧ stored cfg y req now exp ∧ k = CacheKey req ∧ entry_Marshal (entryOf y) = Some raw;
  ti_flight : ∀ x req, (x, req) ∈ t_flight t → x ∈ t_seen t ∧ engaged x = Some req;
  ti_replies : ∀ x r, (x, r) ∈ t_replies t → x ∈ t_seen t ∧
    match r with
    | Direct => True
    | Miss resp => resp = missed (x_w x) (capture (x_answer x))
    | Hit resp => ∃ rx ry raw e y now exp, engaged x = Some rx ∧ y ∈ t_seen t ∧ stored cfg y ry now exp ∧
        CacheKey rx = CacheKey ry ∧ entry_Marshal (entryOf y) = Some raw ∧ (x_now x ≤ exp)%Z ∧
        entry_Unmarshal raw = Some e ∧ resp = writeCachedResponse (x_w x) e
    end;
}.

(** Facts about the requests seen stay true when there are more. *)
Lemma trafficInv_more cfg x (s s' : St) fl seen rs :
  trafficInv cfg (mkTraffic s fl seen rs) → (∀ k v exp, serves s' k v exp → serves s k v exp) →
  trafficInv cfg (mkTraffic s' fl (x :: seen) rs).
Proof.
  intros [Hs Hf Hr] Hback. split; cbn in *.
  - intros k raw exp (y & req & now & ? & ?)%Hback%Hs. exists y, req, now. set_solver.
  - intros y req [? ?]%Hf. set_solver.
  - intros y r [Hy Hyr]%Hr. split; [set_solver|]. destruct r as [|resp|resp]; [done| |done].
    destruct Hyr as (rx & ry & raw & e & z & now & exp & ? & ? & ?). exists rx, ry, raw, e, z, now, exp.
    split_and!; set_solver.
Qed.

Lemma trafficInv_step cfg t t' : trafficInv cfg t → step cfg t t' → trafficInv cfg t'.
Proof.
  destruct t as [s fl seen rs]. intros Hinv Hstep.
  destruct Hstep as [x s' Hc|x resp s' Hc|x req s' Hc|l1 x req l2 now Hfl Hnow|l1 x req l2 Hfl]; cbn in *.
  - apply consult_inv in Hc as [Hback _]. destruct (trafficInv_more cfg x s s' fl seen rs Hinv Hback) as [Hs Hf Hr].
    split; cbn in *; [done|done|]. intros y r [[= -> ->]|Hy]%elem_of_cons; [set_solver|by apply Hr].
  - apply consult_inv in Hc as [Hback (rx & raw & e & exp & Hex & Hsv & Hle & Hu & ->)].
    apply (ti_store _ _ Hinv) in Hsv as (y & ry & now & Hy & Hst & Hk & Hm). cbn in Hy.
    destruct (trafficInv_more cfg x s s' fl seen rs Hinv Hback) as [Hs Hf Hr].
    split; cbn in *; [done|done|]. intros z r [[= -> ->]|Hz]%elem_of_cons; [|by apply Hr]. split; [set_solver|].
    exists rx, ry, raw, e, y, now, exp. split_and!; try done. set_solver.
  - apply consult_inv in Hc as [Hback Hex]. destruct (trafficInv_more cfg x s s' fl seen rs Hinv Hback) as [Hs Hf Hr].
    split; cbn in *; [done| |done]. intros y ry [[= -> ->]|Hy]%elem_of_cons; [set_solver|by apply Hf].
  - destruct Hinv as [Hs Hf Hr]. cbn in *. destruct (Hf x req) as [Hx Hex]; [set_solver|]. split; cbn.
    + intros k raw exp [?|(Hst & -> & Hm)]%storeResponse_serves; [by apply Hs| |done|done]. exists x, req, now. done.
    + intros y ry Hy. apply Hf. set_solver.
    + intros y r [[= -> ->]|Hy]%elem_of_cons; [done|by apply Hr].
  - destruct Hinv as [Hs Hf Hr]. cbn in *. split; cbn; [done| |done]. intros y ry Hy. apply Hf. set_solver.
Qed.

Lemma traffic_reachable cfg (s0 : St) t :
  (∀ k v exp, ¬ serves s0 k v exp) → rtc (step cfg) (fresh s0) t → trafficInv cfg t.
Proof.
  intros He Hrun. assert (trafficInv cfg (fresh s0)) as Hinv.
  { split; cbn; [by intros k v exp ?%He| |]; set_solver. }
  induction Hrun; eauto using trafficInv_step.
Qed.

Lemma exec_step cfg (t t' : traffic) a : exec cfg t a = Some t' → step cfg t t'.
Proof.
  destruct a as [x|n now]; cbn.
  - destruct (consultFor x (t_store t)) as [[| |] s] eqn:E; intros [= <-]; by constructor.
  - destruct (t_flight t !! n) as [[x req]|] eqn:E; cbn; [|done]. destruct (Z.leb_spec (x_now x) now); [|done].
    intros [= <-]. rewrite delete_take_drop. eapply step_store; [|done]. symmetry. by apply take_drop_middle.
Qed.

(** The handler undisturbed takes one step, or two. *)
Lemma cacheHandler_steps cfg (t : traffic) x :
  let '(r, s) := cacheHandler cfg (x_now x) (x_w x) (x_info x) (x_decision x) (x_principal x) (x_req x)
                   (λ _, x_answer x) (t_store t) in
  rtc (step cfg) t (mkTraffic s (t_flight t) (x :: t_seen t) ((x, r) :: t_replies t)).
Proof.
  unfold cacheHandler. fold (consultFor x (t_store t)). destruct (consultFor x (t_store t)) as [[|resp|req] s] eqn:E.
  - apply rtc_once. by constructor.
  - apply rtc_once. by constructor.
  - eapply rtc_l; [by eapply step_miss|]. apply rtc_once. by apply (step_store cfg (mkTraffic s ((x, req) :: t_flight t) (x :: t_seen t) (t_replies t)) [] x req (t_flight t)).
Qed.

Lemma execAll_steps cfg l (t t' : traffic) : execAll cfg t l = Some t' → rtc (step cfg) t t'.
Proof.
  unfold execAll. revert t. induction l as [|a l IH]; intros t; cbn; [by intros [= ->]|].
  destruct (exec cfg t a) as [t1|] eqn:E; intros Hl; [|exfalso; clear -Hl; by induction l].
  eapply rtc_l; [by eapply exec_step|by apply IH].
Qed.

Lemma engaged_spec x req :
  engaged x = Some req →
  Authz.HasConstraints (x_decision x) = false ∧ cr_Method req = "GET" ∧
  cr_Method req = Method (x_req x) ∧ cr_Path req = URLPath (x_req x) ∧
  cr_Query req = Query.normalizeQuery (RawQuery (x_req x)) ∧
  cr_PrincipalClass req = principalClass (x_principal x).
Proof.
  unfold engaged, bypass. destruct (x_info x) as [i|]; [|done].
  destruct (Authz.HasConstraints (x_decision x)); [done|]. cbn.
  destruct (ShouldCache _) eqn:Es; [|done]. intros [= <-]. unfold ShouldCache in Es; cbn in *.
  destruct (String.eqb_spec (Method (x_req x)) "GET"); done.
Qed.
End Laws.

(** Two exchanges that ask for the same thing, as far as the key tells. *)
Record sameRequest (x y : exchange) : Prop := {
  sm_class : principalClass (x_principal y) = principalClass (x_principal x);
  sm_method : Method (x_req y) = Method (x_req x);
  sm_path : URLPath (x_req y) = URLPath (x_req x);
  sm_query : Query.normalizeQuery (RawQuery (x_req y)) = Query.normalizeQuery (RawQuery (x_req x));
}.

(** No two requests seen have keys that collide, and neither principal IDs
    nor raw queries hold a NUL byte. *)
Record separated `{!Crypto, !MapRange} (xs : list exchange) : Prop := {
  sp_hash : ∀ y z ra rb, y ∈ xs → z ∈ xs → engaged y = Some ra → engaged z = Some rb →
    take_bytes 16 (sha256 (keyData ra)) = take_bytes 16 (sha256 (keyData rb)) → keyData ra = keyData rb;
  sp_text : Forall (λ y, occurs NUL (principalClass (x_principal y)) = false ∧
                         occurs NUL (RawQuery (x_req y)) = false) xs;
}.

Lemma engaged_same `{!Crypto, !MapRange} xs x y rx ry : separated xs → x ∈ xs → y ∈ xs →
  engaged x = Some rx → engaged y = Some ry → CacheKey rx = CacheKey ry → sameRequest x y.
Proof.
  intros [Hcol Hnul] Hx Hy Hex Hey Hk. apply Hex.hex_inj in Hk. apply (Hcol x y rx ry) in Hk; [|done..].
  rewrite Forall_forall in Hnul. destruct (Hnul x Hx) as [Hnx Hqx]. destruct (Hnul y Hy) as [Hny Hqy].
  apply engaged_spec in Hex as (_ & Hgx & Hmx & Hpx & Hqux & Hprx).
  apply engaged_spec in Hey as (_ & Hgy & Hmy & Hpy & Hquy & Hpry).
  apply keyData_inj in Hk as (? & ? & ? & ?); try congruence; rewrite ?Hqux, ?Hquy; try by apply normalizeQuery_NUL.
  2-3: by rewrite ?Hgx, ?Hgy.
  split; congruence.
Qed.

(** ** Properties *)

(** Whatever requests the cache has served since it started empty, and
    however they overlapped, a hit replays the answer another request got
    from the inner handler: a request of the same principal class (so never
    another principal's, and never an anonymous one's for an authenticated
    caller), for the same path and the same query up to normalisation,
    neither of the two under policy constraints, with a cacheable status,
    without no-store, and still within the time to live of its status; the
    reply is that answer with its status, body and whitelisted headers. *)
Theorem cache_replay `{!Crypto, !MapRange, !EntryCodec, !EntryLaws, StoreLaws St} cfg (s0 : St) t x resp :
  (∀ k v exp, ¬ serves s0 k v exp) → rtc (step cfg) (fresh s0) t → separated (t_seen t) →
  (x, Hit resp) ∈ t_replies t →
  ∃ y req now exp e, y ∈ t_seen t ∧ stored cfg y req now exp ∧ (x_now x ≤ exp)%Z ∧
    Authz.HasConstraints (x_decision x) = false ∧ Authz.HasConstraints (x_decision y) = false ∧
    Method (x_req x) = "GET" ∧ sameRequest x y ∧
    resp = writeCachedResponse (x_w x) e ∧ (asciiEntry (entryOf y) → e = entryOf y).
Proof.
  intros He Hrun Hsep Hin. destruct (traffic_reachable cfg s0 t He Hrun) as [_ _ Hr].
  destruct (Hr _ _ Hin) as (Hx & rx & ry & raw & e & y & now & exp & Hex & Hy & Hst & Hk & Hm & Hle & Hu & ->).
  pose proof (st_engaged _ _ _ _ _ Hst) as Hey. exists y, ry, now, exp, e.
  split_and!; try done; [by apply engaged_spec in Hex as (? & _)|by apply engaged_spec in Hey as (? & _)| | |].
  - by apply engaged_spec in Hex as (_ & ? & <- & _).
  - by eapply engaged_same.
  - intros Ha. pose proof (Unmarshal_Marshal _ _ Ha Hm). congruence.
Qed.

(** C10: The cache is transparent: as long as the inner handler answers
    requests with one key alike, every reply of the cache has the status and
    the body the inner handler would have given to that very request,
    whatever requests came before it and whichever were in flight with it. *)
Theorem cache_transparent `{!Crypto, !MapRange, !EntryCodec, !EntryLaws, StoreLaws St} cfg (s0 : St) t x r :
  (∀ k v exp, ¬ serves s0 k v exp) → rtc (step cfg) (fresh s0) t → separated (t_seen t) →
  (∀ x y, x ∈ t_seen t → y ∈ t_seen t → sameRequest x y → x_answer y = x_answer x) →
  (∀ y, y ∈ t_seen t → asciiEntry (entryOf y)) →
  (x, r) ∈ t_replies t →
  match r with
  | Direct => True
  | Hit resp | Miss resp =>
      resp_Status resp = Status (capture (x_answer x)) ∧ resp_Body resp = BodyBytes (capture (x_answer x))
  end.
Proof.
  intros He Hrun Hsep Hsame Hascii Hin. destruct (traffic_reachable cfg s0 t He Hrun) as [_ _ Hr].
  destruct r as [|resp|resp]; [done| |]; destruct (Hr _ _ Hin) as (Hx & Hrep).
  - destruct Hrep as (rx & ry & raw & e & y & now & exp & Hex & Hy & Hst & Hk & Hm & Hle & Hu & ->).
    pose proof (Unmarshal_Marshal _ _ (Hascii y Hy) Hm) as Hum. rewrite Hu in Hum. injection Hum as ->.
    unfold entryOf. rewrite (Hsame x y Hx Hy); [|by eapply engaged_same; [..|apply (st_engaged _ _ _ _ _ Hst)|]].
    cbn. by rewrite (proj2 (Z.eqb_neq _ _) (Status_nonzero _)).
  - by subst.
Qed.

Module Witness.
#[local] Existing Instance StoreProperties.assoc_LRU.
#[local] Existing Instance StoreProperties.assoc_LRULaws.
#[local] Instance plainHash : Crypto := {| sha256 s := s; hmac_sha256 k m := m |}.

(** A codec of plain 200 answers. *)
#[local] Instance okCodec : EntryCodec := {|
  entry_Marshal e :=
    if bool_decide (ce_Status e = 200%Z) && bool_decide (ce_Headers e = ∅) then Some (ce_Body e) else None;
  entry_Unmarshal b := Some (mkCacheEntry 200 ∅ b) |}.
#[local] Instance okLaws : EntryLaws.
Proof.
  split. intros [st h b] raw _ Hm. unfold entry_Marshal in Hm. cbn in Hm.
  case_bool_decide; [|done]. case_bool_decide; [|done]. cbn in *. by simplify_eq.
Qed.

Definition cfg : Config := mkConfig None [] 0.
Definition empty := Memory.NewMemoryStore (L:=StoreProperties.assocLRU) 8.
Definition user (id : string) : Auth.Principal := Auth.mkPrincipal id "user" "" "" [] [] ∅ [] "" 0.
Definition get (t : Z) (id path query body : string) : exchange :=
  mkExchange t ∅ (Some (mkSTACInfo "" "" RequestTypeCollections None)) None (Some (user id))
    (mkRequest "GET" path query ∅ "") (∅, [EvWrite body]).

(** Two principals ask at the same time, the second is answered first; then
    the first repeats its request with the parameters permuted. *)
Definition again : exchange := get 5 "al" "/c" "b=2&a=1" "AL".
Definition trace : list arrival :=
  [Arrives (get 0 "al" "/c" "a=1&b=2" "AL"); Arrives (get 1 "bo" "/c" "a=1&b=2" "BO"); Answered 0 2; Answered 0 3; Arrives again].
Definition final := default (fresh empty) (execAll cfg (fresh empty) trace).

Lemma final_run : rtc (step cfg) (fresh empty) final.
Proof. apply (execAll_steps cfg trace). vm_compute. reflexivity. Qed.

Lemma empty_serves k v exp : ¬ serves empty k v exp.
Proof. intros Hs. cbn in Hs. unfold Memory.held in Hs. cbn in Hs. discriminate (eq_trans (eq_sym (lookup_empty k)) Hs). Qed.

Lemma final_seen y : y ∈ t_seen final → y ∈ [again; get 1 "bo" "/c" "a=1&b=2" "BO"; get 0 "al" "/c" "a=1&b=2" "AL"].
Proof. by vm_compute. Qed.

Ltac seen H := apply final_seen in H; rewrite !elem_of_cons, elem_of_nil in H; destruct H as [->|[->|[->|[]]]].

Lemma final_separated : separated (t_seen final).
Proof.
  split; [|apply Forall_forall; intros y Hy; seen Hy; done].
  intros y z ra rb Hy Hz. seen Hy; seen Hz; vm_compute; intros; simplify_eq; congruence.
Qed.

Lemma final_hit : (again, Hit (mkResponse 200 {["X-Cache-Status" := ["HIT"]]} "AL")) ∈ t_replies final.
Proof. vm_compute. left. Qed.

Lemma cache_replay_witness :
  ∃ y req now exp e, y ∈ t_seen final ∧ stored cfg y req now exp ∧ e = entryOf y ∧
    (again, Hit (writeCachedResponse ∅ e)) ∈ t_replies final ∧ ce_Body e = "AL".
Proof.
  pose proof final_hit as Hin.
  destruct (cache_replay cfg empty final again _ empty_serves final_run final_separated Hin)
    as (y & req & now & exp & e & Hy & Hst & _ & _ & _ & _ & _ & Hr & He).
  exists y, req, now, exp, e. split; [exact Hy|]. split; [exact Hst|]. split.
  - apply He. clear -Hy. seen Hy; vm_compute; done.
  - rewrite Hr in Hin. split; [exact Hin|]. unfold writeCachedResponse in Hr. by injection Hr.
Defined.

Lemma cache_transparent_witness :
  (again, Hit (mkResponse 200 {["X-Cache-Status" := ["HIT"]]} "AL")) ∈ t_replies final ∧
  Status (capture (x_answer again)) = 200%Z ∧ BodyBytes (capture (x_answer again)) = "AL".
Proof.
  pose proof final_hit as Hin.
  split; [exact Hin|].
  pose proof (cache_transparent cfg empty final again (Hit (mkResponse 200 {["X-Cache-Status" := ["HIT"]]} "AL"))
    empty_serves final_run final_separated) as Ht. cbv beta iota in Ht.
  destruct Ht as [Hs Hb]; [| |exact Hin|].
  - intros x y Hx Hy [Hc _ _ _]. seen Hx; seen Hy; try reflexivity; vm_compute in Hc; discriminate Hc.
  - intros y Hy. seen Hy; vm_compute; done.
  - split; [exact (eq_sym Hs)|exact (eq_sym Hb)].
Defined.

(** A NUL byte in an ID moves the boundary between principal and path: two
    principals' requests hash the same text. *)
Lemma keyData_NUL_ambiguous :
  let nul := String NUL "" in
  keyData (mkCacheable "GET" ("/a" +:+ nul +:+ "GET" +:+ nul +:+ "/b") "" "" "" "principal:x") =
  keyData (mkCacheable "GET" "/b" "" "" "" ("principal:x" +:+ nul +:+ "GET" +:+ nul +:+ "/a")).
Proof. reflexivity. Qed.

(** A principal without an ID shares the bucket of one called [_unknown]. *)
Lemma unknown_bucket_shared :
  principalClass (Some (user "")) = principalClass (Some (user "_unknown")).
Proof. reflexivity. Qed.
End Witness.

End Cache.
