(* ===== verification/Remap.v ===== *)
(** * URL remapping and signing ([internal/middleware/remap])

    [signer.go]: signed URLs with an expiry and key rotation.
    [middleware.go]: the walk that rewrites the [href] members of a JSON
    response.

    Parameters: [Crypto]; [url.Parse] ([URL.GoURL]) and printing a parsed URL
    under another query ([URLPrinter]); compiled regular expressions, as the match and replace
    functions of a [Rule]; [encoding/json] on generic values ([JSON]). *)

From S2P Require Import Prelude GoLib Stac Cursor PageAdapter Httpx Middleware Cql2 Query.
From Stdlib Require Import Ascii.
Import Strings Values Httpx Middleware.

Module Remap.

(** ** Decimal numbers *)

Definition digitChar (z : Z) : ascii := ascii_of_N (Z.to_N (48 + z)).

(** [fuel] bounds the number of digits. *)
Fixpoint showDigits (fuel : nat) (z : Z) : string :=
  match fuel with
  | O => ""
  | S fuel =>
      if (z <? 10)%Z then String (digitChar z) ""
      else showDigits fuel (z / 10) +:+ String (digitChar (z mod 10)) ""
  end.

(** [fmt.Sprintf("%d", z)]. *)
Definition FormatInt (z : Z) : string :=
  if (z <? 0)%Z then "-" +:+ showDigits (S (Z.to_nat (Z.log2 (- z)))) (- z)
  else showDigits (S (Z.to_nat (Z.log2 z))) z.

(** ** Paths *)

Definition cleanStep (rooted : bool) (out : list string) (elem : string) : list string :=
  if String.eqb elem "" || String.eqb elem "." then out
  else if String.eqb elem ".." then
    match out with
    | x :: out' => if String.eqb x ".." then ".." :: out else out'
    | [] => if rooted then [] else [".."]
    end
  else elem :: out.

(** [path.Clean] of a non-empty path; [out] is reversed. *)
Definition Clean (p : string) : string :=
  let rooted := HasPrefix p "/" in
  let out := rev (foldl (cleanStep rooted) [] (Split p "/")) in
  if rooted then "/" +:+ join_sep "/" out
  else match out with [] => "." | _ => join_sep "/" out end.

Definition canonicalPath (p : string) : string := if String.eqb p "" then "/" else Clean p.

(** ** The signer *)

Record HMACSigner := mkSigner { secrets : list bytes }.

Definition NewHMACSigner (secret : string) : HMACSigner := mkSigner [secret].
Definition RotateSecret (s : HMACSigner) (next : bytes) : HMACSigner := mkSigner (next :: secrets s).

Definition NL : string := String "010" "".

Definition signingMessage (host urlPath : string) (q : Query.Values) (expiry : Z) : string :=
  let clone := <["exp" := [FormatInt expiry]]> (delete "sig" q) in
  ToLower host +:+ NL +:+ canonicalPath urlPath +:+ NL +:+ Query.Encode clone.

(** [url_WithQuery raw q] is the text of the parsed [raw] with [q] for its
    query; what else it has, a fragment or user information, it keeps. *)
Class URLPrinter := { url_WithQuery : string → string → string }.

Inductive verifyError := ErrURL | ErrMissing | ErrExpiry | ErrExpired | ErrSignature.

Section Signer.
Context `{!Crypto, !URL.GoURL, !URLPrinter}.

Definition mac (secret message : bytes) : string := Base64.EncodeToString (hmac_sha256 secret message).

(** The signed form of a parsed URL, in the parts that are signed. *)
Definition signedURL (primary : bytes) (u : URL.URL) (expiry : Z) : URL.URL :=
  let q := Query.URLQuery (URL.RawQuery u) in
  let signature := mac primary (signingMessage (URL.Host u) (URL.Path u) q expiry) in
  URL.mkURL (URL.Scheme u) (URL.Host u) (URL.Path u)
    (Query.Encode (<["sig" := [signature]]> (<["exp" := [FormatInt expiry]]> q))).

(** [None] is the index panic on an empty list of secrets. *)
Definition Sign (s : HMACSigner) (now : Z) (rawURL : string) (ttl : Z) : option string :=
  match URL.url_Parse rawURL with
  | None => Some rawURL
  | Some parsed =>
      primary ← head (secrets s);
      Some (url_WithQuery rawURL (URL.RawQuery (signedURL primary parsed (Cursor.Unix (now + ttl)))))
  end.

Definition Verify (s : HMACSigner) (now : Z) (rawURL : string) : result verifyError unit :=
  match URL.url_Parse rawURL with
  | None => Err ErrURL
  | Some parsed =>
      let q := Query.URLQuery (URL.RawQuery parsed) in
      let expStr := Query.Get q "exp" in
      let sig := Query.Get q "sig" in
      if String.eqb expStr "" || String.eqb sig "" then Err ErrMissing else
      match PageAdapter.Atoi expStr with
      | None => Err ErrExpiry
      | Some expiry =>
          if (expiry <? 0)%Z then Err ErrExpiry
          else if (expiry <? Cursor.Unix now)%Z then Err ErrExpired
          else
            let message := signingMessage (URL.Host parsed) (URL.Path parsed) q expiry in
            if existsb (λ secret, String.eqb sig (mac secret message)) (secrets s)
            then Ok () else Err ErrSignature
      end
  end.

Inductive signer := HMAC (s : HMACSigner) | NoOp.

Definition NewSigner (typ secret : string) : option signer :=
  if String.eqb typ "hmac" then
    if String.eqb secret "" then None else Some (HMAC (NewHMACSigner secret))
  else if String.eqb typ "noop" || String.eqb typ "" then Some NoOp
  else None.
End Signer.

(** ** Rewriting *)

Record RuleConfig := mkRuleConfig { rc_Match : string; rc_Replace : string; rc_Sign : bool; rc_SignTTL : Z }.

Record Rule := mkRule {
  MatchString : string → bool;
  ReplaceAllString : string → string;
  r_Sign : bool;
  SignTTL : Z;
  Signer : option (string → Z → string);
}.

Fixpoint remapURL (rules : list Rule) (url : string) : string :=
  match rules with
  | [] => url
  | rule :: rules =>
      if MatchString rule url then
        let newURL := ReplaceAllString rule url in
        match Signer rule with
        | Some sign => if r_Sign rule then sign newURL (SignTTL rule) else newURL
        | None => newURL
        end
      else remapURL rules url
  end.

Definition maxRemapDepth : nat := 16.

(** In an object the string member [href] is rewritten and every other
    member walked. *)
Fixpoint transformURLs (rules : list Rule) (data : value) (depth : nat) {struct data} : value :=
  if maxRemapDepth <? depth then data else
  match data with
  | VObj kvs =>
      VObj ((fix members (kvs : list (string * value)) : list (string * value) :=
               match kvs with
               | [] => []
               | (k, v) :: kvs =>
                   (k, match v with
                       | VStr s => if String.eqb k "href" then VStr (remapURL rules s) else v
                       | _ => transformURLs rules v (S depth)
                       end) :: members kvs
               end) kvs)
  | VArr l =>
      VArr ((fix elements (l : list value) : list value :=
               match l with [] => [] | v :: l => transformURLs rules v (S depth) :: elements l end) l)
  | v => v
  end.

Definition HasSuffix (s suffix : string) : bool :=
  (String.length suffix <=? String.length s) &&
  String.eqb (drop_str (String.length s - String.length suffix) s) suffix.

Definition isJSONContentType (ct : string) : bool :=
  if String.eqb ct "" then false else
  let ct := TrimSpace (ToLower (Query.Cut ";" ct).1) in
  if String.eqb ct "application/json" then true
  else HasPrefix ct "application/" && HasSuffix ct "+json".

Section Middleware.
Context `{!JSON}.

Definition tryRemap (rules : list Rule) (body : bytes) : option bytes :=
  if String.eqb body "" then None else
  data ← value_Unmarshal body;
  value_Marshal (transformURLs rules data 0).

(** The buffered path; with no rules the inner handler writes directly. *)
Definition remapResponse (rules : list Rule) (resp : response) : response :=
  match rules with
  | [] => resp
  | _ =>
      let body :=
        if isJSONContentType (Header.Get (resp_Header resp) "Content-Type")
        then default (resp_Body resp) (tryRemap rules (resp_Body resp)) else resp_Body resp in
      mkResponse (resp_Status resp) (resp_Header resp) body
  end.
End Middleware.

(** ** Lemmas *)

Lemma digits_snoc s c acc :
  PageAdapter.digits (s +:+ String c "") acc = (z ← PageAdapter.digits s acc; PageAdapter.digits (String c "") z).
Proof.
  revert acc. induction s as [|a s IH]; intros acc; [done|].
  cbn. destruct (_ && _); [|done]. apply IH.
Qed.

Lemma digit_char z : (0 ≤ z < 10)%Z → ∀ acc, PageAdapter.digits (String (digitChar z) "") acc = Some (acc * 10 + z)%Z.
Proof.
  intros Hz acc. cbn. unfold digitChar. rewrite N_ascii_embedding by lia.
  rewrite (proj2 (N.leb_le _ _)), (proj2 (N.leb_le _ _)) by lia. cbn. f_equal. lia.
Qed.

Lemma digits_showDigits fuel z :
  (0 ≤ z)%Z → Z.to_nat (Z.log2 z) < fuel → PageAdapter.digits (showDigits fuel z) 0 = Some z.
Proof.
  revert z. induction fuel as [|fuel IH]; intros z Hz Hf; [lia|].
  cbn [showDigits]. destruct (Z.ltb_spec z 10); [by rewrite digit_char by lia|].
  rewrite digits_snoc, IH.
  - cbn [mbind option_bind]. rewrite digit_char by (apply Z.mod_pos_bound; lia). f_equal.
    pose proof (Z.div_mod z 10 ltac:(lia)). lia.
  - apply Z.div_pos; lia.
  - assert (Z.log2 (z / 10) < Z.log2 z)%Z; [|pose proof (Z.log2_nonneg (z / 10)); lia].
    assert (1 ≤ z / 10)%Z by (apply Z.div_le_lower_bound; lia).
    assert (2 * (z / 10) ≤ z)%Z by (pose proof (Z.div_mod z 10 ltac:(lia));
      pose proof (Z.mod_pos_bound z 10 ltac:(lia)); lia).
    pose proof (Z.log2_le_mono (2 * (z / 10)) z ltac:(done)).
    rewrite Z.log2_double in * by lia. lia.
Qed.

Lemma showDigits_head fuel z :
  (0 ≤ z)%Z → 0 < fuel → ∃ d s, (0 ≤ d < 10)%Z ∧ showDigits fuel z = String (digitChar d) s.
Proof.
  revert z. induction fuel as [|fuel IH]; intros z Hz Hf; [lia|]. cbn [showDigits].
  destruct (Z.ltb_spec z 10); [by exists z, ""|].
  destruct fuel as [|fuel]; [cbn; exists (z mod 10)%Z, ""; split; [apply Z.mod_pos_bound; lia|done]|].
  destruct (IH (z / 10)%Z) as (d & s & Hd & ->); [apply Z.div_pos; lia|lia|].
  cbn [String.append]. eauto.
Qed.

(** Decimal text parses back, at any non-negative 64-bit value. *)
Lemma Atoi_FormatInt z :
  (0 ≤ z < 2 ^ 63)%Z → PageAdapter.Atoi (FormatInt z) = Some z ∧ FormatInt z ≠ "".
Proof.
  intros Hz. unfold FormatInt. rewrite (proj2 (Z.ltb_ge _ _)) by lia.
  pose proof (digits_showDigits (S (Z.to_nat (Z.log2 z))) z ltac:(lia) ltac:(lia)) as Hd.
  destruct (showDigits_head (S (Z.to_nat (Z.log2 z))) z) as (d & s & Hdr & E); [lia|lia|].
  rewrite E in *. split; [|done].
  assert (PageAdapter.Atoi (String (digitChar d) s) =
    PageAdapter.digits (String (digitChar d) s) 0 ≫= PageAdapter.in_int64) as ->.
  { assert (d = 0 ∨ d = 1 ∨ d = 2 ∨ d = 3 ∨ d = 4 ∨ d = 5 ∨ d = 6 ∨ d = 7 ∨ d = 8 ∨ d = 9)%Z
      as Hcase by lia. by repeat destruct Hcase as [->|Hcase]; subst. }
  rewrite Hd. cbn [mbind option_bind]. unfold PageAdapter.in_int64.
  rewrite (proj2 (Z.leb_le _ _)), (proj2 (Z.ltb_lt _ _)) by lia. done.
Qed.

Lemma existsb_secret (P : bytes → bool) l s : s ∈ l → P s = true → existsb P l = true.
Proof. intros Hin HP. apply existsb_exists. exists s. split; [by apply list_elem_of_In|done]. Qed.

Lemma secrets_rotated news s : secrets (foldl RotateSecret s news) = rev news ++ secrets s.
Proof.
  revert s. induction news as [|n news IH]; intros s; cbn; [done|].
  by rewrite IH, <-List.app_assoc.
Qed.

(** ** Properties *)

(** C39: A signed URL verifies until its expiry and is refused as expired
    afterwards, also after any number of key rotations; and whatever URL
    verifies carries, as its signature, the MAC under a secret the signer
    holds of its own host, cleaned path and query with its own unexpired
    expiry.  The URL is assumed to survive printing and parsing, and a MAC
    not to be empty. *)
Theorem Sign_Verify `{!Crypto, !URL.GoURL, !URLPrinter} s primary news now ttl rawURL u :
  let expiry := Cursor.Unix (now + ttl) in
  let signed := signedURL primary u expiry in
  let s' := foldl RotateSecret s news in
  head (secrets s) = Some primary → URL.url_Parse rawURL = Some u →
  (0 ≤ expiry < 2 ^ 63)%Z →
  URL.url_Parse (url_WithQuery rawURL (URL.RawQuery signed)) = Some signed →
  (∀ m, hmac_sha256 primary m ≠ "") →
  (∃ t, Sign s now rawURL ttl = Some t ∧
     ∀ later, Verify s' later t = if (expiry <? Cursor.Unix later)%Z then Err ErrExpired else Ok ()) ∧
  (∀ later t, Verify s' later t = Ok () →
     ∃ v e secret, URL.url_Parse t = Some v ∧ secret ∈ secrets s' ∧
       let q := Query.URLQuery (URL.RawQuery v) in
       PageAdapter.Atoi (Query.Get q "exp") = Some e ∧ (0 ≤ e)%Z ∧ (Cursor.Unix later ≤ e)%Z ∧
       Query.Get q "sig" = mac secret (signingMessage (URL.Host v) (URL.Path v) q e)).
Proof.
  intros expiry signed s' Hs Hu He Hp Hmac. split.
  - exists (url_WithQuery rawURL (URL.RawQuery signed)). split; [unfold Sign; by rewrite Hu, Hs|]. intros later.
    unfold Verify. rewrite Hp. destruct (Atoi_FormatInt expiry He) as [Ha Hne].
    set (q := Query.URLQuery (URL.RawQuery u)).
    set (sig := mac primary (signingMessage (URL.Host u) (URL.Path u) q expiry)).
    assert (Query.URLQuery (URL.RawQuery signed) = <["sig" := [sig]]> (<["exp" := [FormatInt expiry]]> q))
      as ->.
    { apply Query.URLQuery_Encode. intros k. rewrite !lookup_insert. repeat case_decide; try done.
      apply Query.URLQuery_nonempty. }
    unfold Query.Get. rewrite lookup_insert_ne, !lookup_insert_eq by done.
    assert (sig ≠ "") as Hsig.
    { unfold sig, mac. intros Hx. apply (proj1 (Base64.EncodeToString_empty _)) in Hx. exact (Hmac _ Hx). }
    apply String.eqb_neq in Hne, Hsig. rewrite Hne, Hsig, Ha. cbn [orb].
    rewrite (proj2 (Z.ltb_ge _ _)) by lia. case_match; [done|].
    rewrite (existsb_secret _ _ primary); [done| |].
    + unfold s'. rewrite secrets_rotated. apply list_elem_of_In, in_or_app. right.
      destruct (secrets s); simplify_eq/=; by left.
    + apply String.eqb_eq. unfold sig, signingMessage. do 4 f_equal. cbn.
      rewrite delete_insert_eq, delete_insert_ne by done. by rewrite insert_insert_eq.
  - intros later t. unfold Verify. destruct (URL.url_Parse t) as [v|] eqn:Ev; [|done].
    destruct (_ || _); [done|]. destruct (PageAdapter.Atoi _) as [e|] eqn:Ea; [|done].
    destruct (Z.ltb_spec e 0); [done|]. destruct (Z.ltb_spec e (Cursor.Unix later)); [done|].
    case_match eqn:Ex; [|done]. intros _. apply existsb_exists in Ex as (sec & Hin & Heq).
    exists v, e, sec. apply String.eqb_eq in Heq. apply list_elem_of_In in Hin. done.
Qed.

Module Witness.
#[local] Existing Instance URL.PlainURL.
#[local] Instance taggedMac : Crypto := {| sha256 m := m; hmac_sha256 k m := "m" +:+ k |}.
#[local] Instance printPlain : URLPrinter := {|
  url_WithQuery raw q :=
    match URL.parsePlain raw with
    | Some u => URL.Scheme u +:+ "://" +:+ URL.Host u +:+ URL.Path u +:+ "?" +:+ q
    | None => raw
    end |}.

Definition second : Z := 1000000000.

Lemma Sign_Verify_witness :
  let s := NewHMACSigner "k1" in
  ∃ t, Sign s 0 "https://h/a//b?x=1" (60 * second) = Some t ∧
    Verify (RotateSecret s "k2") (30 * second) t = Ok () ∧
    Verify (RotateSecret s "k2") (61 * second) t = Err ErrExpired.
Proof.
  intros s.
  destruct (Sign_Verify s "k1" ["k2"] 0 (60 * second) "https://h/a//b?x=1"
    (URL.mkURL "https" "h" "/a//b" "x=1")) as [(t & Ht & Hv) _];
    [reflexivity|reflexivity|split; [discriminate|reflexivity]|reflexivity|discriminate|].
  exists t. split_and!; [done|apply (Hv (30 * second)%Z)|apply (Hv (61 * second)%Z)].
Defined.

(** The expiry accepts an explicit plus sign. *)
Lemma plus_sign_accepted : PageAdapter.Atoi "+12" = Some 12%Z.
Proof. reflexivity. Qed.

Example canonicalPath_examples :
  canonicalPath "//foo" = "/foo" ∧ canonicalPath "/a//b" = "/a/b" ∧ canonicalPath "/a/./b" = "/a/b" ∧
  canonicalPath "/a/b/.." = "/a" ∧ canonicalPath "" = "/" ∧ canonicalPath "/a/" = "/a".
Proof. by vm_compute. Qed.
End Witness.

End Remap.
