(* ===== verification/RateLimit.v ===== *)
(** * Rate limiting ([internal/middleware/ratelimit], [clientip.go])

    The middleware over any [Limiter], and the in-memory limiter: an LRU
    cache of pointers to token buckets, so the buckets live in a heap and a
    decision mutates the bucket it reads; concurrent calls interleave the
    lookup of the bucket, its creation and the taking of a token ([exec]),
    the last of which is one step here.

    Parameters: the token bucket of [golang.org/x/time/rate] ([RateLib]) and
    the LRU library of [Store.v].  Floating-point operations are IEEE
    binary64; [time.Now] is [now], in nanoseconds. *)

From S2P Require Import Prelude GoLib Stac Cursor Store Httpx Middleware Auth PageAdapter Query Remap.
From Stdlib Require Import Ascii SpecFloat.
Import Strings Values Middleware Memory.

Module RateLimit.

(** ** Client addresses *)

(** [net.SplitHostPort], its host; [None] is an error. *)
Definition before_last (c : ascii) (s : string) : option string :=
  after ← after_last c s;
  Some (Httpx.take_bytes (String.length s - String.length after - 1) s).
Definition SplitHostPort (hostport : string) : option string :=
  match before_last ":" hostport with
  | None => None
  | Some front =>
      match hostport with
      | String "[" rest =>
          if occurs "]" rest then
            let '(host, after) := Query.Cut "]" rest in
            if negb (HasPrefix after ":") || occurs ":" (drop_str 1 after) then None
            else if occurs "[" rest || occurs "]" after then None
            else Some host
          else None
      | _ =>
          if occurs ":" front || occurs "[" hostport || occurs "]" hostport then None
          else Some front
      end
  end.

(** [stored] is the address the router's client-IP middleware found. *)
Definition ClientIP (stored : string) (r : httpRequest) : string :=
  if negb (String.eqb stored "") then stored
  else default (RemoteAddr r) (SplitHostPort (RemoteAddr r)).

(** ** The interface *)

Record Quota := mkQuota { Requests : Z; Window : Z; Burst : Z }.
#[export] Instance Quota_eq_dec : EqDecision Quota.
Proof. solve_decision. Defined.

Record Info := mkInfo { i_Limit : Z; i_Remaining : Z; i_ResetAt : Z; i_RetryAfter : Z }.

(** [Err] is a backend error. *)
Class Limiter (Li : Type) := {
  Allow : Z → string → Quota → Li → result unit (bool * Info) * Li;
}.

Definition DefaultKeyFunc (principalID clientIP : string) : string :=
  if negb (String.eqb principalID "") && negb (String.eqb principalID "anonymous")
  then "user:" +:+ principalID else "ip:" +:+ clientIP.

(** ** The middleware *)

Record Config := mkConfig { DefaultQuota : Quota; FailClosed : bool }.

(** The headers set before the inner handler or the error response. *)
Inductive outcome :=
| Forwarded (headers : Header.header)
| Refused (headers : Header.header) (e : jsonError).

Definition errUnavailable := mkJSONError 503 "RateLimiterUnavailable"
  "Rate limiting backend unavailable; refusing request (failure_mode: closed)".
Definition errLimited := mkJSONError 429 "RateLimitExceeded" "Rate limit exceeded".

Definition rateHeaders (info : Info) (w : Header.header) : Header.header :=
  Header.Set_ "X-RateLimit-Reset" (Remap.FormatInt (i_ResetAt info))
    (Header.Set_ "X-RateLimit-Remaining" (Remap.FormatInt (i_Remaining info))
      (Header.Set_ "X-RateLimit-Limit" (Remap.FormatInt (i_Limit info)) w)).

Definition decideOutcome (cfg : Config) (w : Header.header) (d : result unit (bool * Info)) : outcome :=
  match d with
  | Err _ =>
      if FailClosed cfg then Refused (Header.Set_ "Retry-After" "1" w) errUnavailable
      else Forwarded w
  | Ok (allowed, info) =>
      let w := rateHeaders info w in
      if allowed then Forwarded w
      else Refused (Header.Set_ "Retry-After" (Remap.FormatInt (i_RetryAfter info)) w) errLimited
  end.

Definition requestKey (principal : option Auth.Principal) (storedIP : string) (r : httpRequest) : string :=
  DefaultKeyFunc (match principal with Some p => Auth.p_ID p | None => "" end) (ClientIP storedIP r).

Definition rateHandler `{Limiter Li} (cfg : Config) (now : Z) (w : Header.header)
    (principal : option Auth.Principal) (storedIP : string) (r : httpRequest) (l : Li) : outcome * Li :=
  let '(d, l) := Allow now (requestKey principal storedIP r) (DefaultQuota cfg) l in
  (decideOutcome cfg w d, l).

(** ** The token-bucket limiter *)

Definition fdiv := SFdiv 53 1024.
Definition fmul := SFmul 53 1024.
Definition fsub := SFsub 53 1024.
Definition fadd := SFadd 53 1024.
Definition Second : Z := 1000000000.

(** [Duration.Seconds]. *)
Definition Seconds (d : Z) : float64 :=
  fadd (float64_of_int (Z.quot d Second)) (fdiv (float64_of_int (Z.rem d Second)) (float64_of_int Second)).

Definition Floor (f : float64) : Z :=
  let t := truncate f in if SFltb f (float64_of_int t) then (t - 1)%Z else t.
Definition Ceil (f : float64) : Z :=
  let t := truncate f in if SFltb (float64_of_int t) f then (t + 1)%Z else t.

Class RateLib := {
  RL : Type;
  rate_NewLimiter : float64 → Z → RL;
  TokensAt : Z → RL → float64;
  (* the delay of a reservation of one token, the limiter after it, and
     the limiter after the reservation is cancelled *)
  ReserveN : Z → RL → Z * RL * RL;
}.

Section TokenBucket.
Context `{!RateLib} `{LRU L}.

Record bucket := mkBucket { limiter : RL; b_quota : Quota }.

Record TokenBucketLimiter := mkLimiter {
  buckets : L nat;                 (* key to pointer *)
  heap : gmap nat bucket;
  fresh : nat;
}.

Definition defaultMaxEntries : Z := 50000.

Definition NewTokenBucketLimiter (maxEntries : Z) : TokenBucketLimiter :=
  mkLimiter (lru_New (if (maxEntries <=? 0)%Z then defaultMaxEntries else maxEntries)) ∅ 0.

Definition burstOf (q : Quota) : Z := if (Burst q =? 0)%Z then Requests q else Burst q.

Definition newBucket (q : Quota) : bucket :=
  mkBucket (rate_NewLimiter (fdiv (float64_of_int (Requests q)) (Seconds (Window q))) (burstOf q)) q.

(** The two steps of [getOrCreate] on the cache, each of which the cache
    makes atomic: the lookup, which a bucket of another quota misses, and the
    insertion of a new bucket. *)
Definition getBucket (key : string) (q : Quota) (l : TokenBucketLimiter) : option nat * TokenBucketLimiter :=
  let '(p, bs) := lru_Get key (buckets l) in
  (match p with
   | Some p => match heap l !! p with Some b => if bool_decide (b_quota b = q) then Some p else None | None => None end
   | None => None
   end, mkLimiter bs (heap l) (fresh l)).

Definition addBucket (key : string) (q : Quota) (l : TokenBucketLimiter) : nat * TokenBucketLimiter :=
  (fresh l, mkLimiter (lru_Add key (fresh l) (buckets l)) (<[fresh l := newBucket q]> (heap l)) (S (fresh l))).

Definition getOrCreate (key : string) (q : Quota) (l : TokenBucketLimiter) : nat * TokenBucketLimiter :=
  let '(p, l) := getBucket key q l in
  match p with Some p => (p, l) | None => addBucket key q l end.

Definition resetAt (now : Z) (tokens burst : float64) (q : Quota) : Z :=
  if SFleb burst tokens || (Requests q <=? 0)%Z || (Window q <=? 0)%Z then now else
  let tokens := if SFltb tokens (float64_of_int 0) then float64_of_int 0 else tokens in
  let rate := fdiv (float64_of_int (Requests q)) (Seconds (Window q)) in
  if SFleb rate (float64_of_int 0) then now
  else (now + truncate (fmul (fdiv (fsub burst tokens) rate) (float64_of_int Second)))%Z.

(** What [Allow] answers on a bucket, and the bucket after it. *)
Definition takeToken (now : Z) (q : Quota) (b : bucket) : bool * Info * bucket :=
  let preTokens := TokensAt now (limiter b) in
  let preRem := Z.max 0 (Floor preTokens) in
  let reset := Cursor.Unix (resetAt now preTokens (float64_of_int (burstOf q)) q) in
  let '(delay, after, cancelled) := ReserveN now (limiter b) in
  if (0 <? delay)%Z then
    (false, mkInfo (Requests q) preRem reset (Z.max 1 (Ceil (Seconds delay))),
     mkBucket cancelled (b_quota b))
  else (true, mkInfo (Requests q) preRem reset 0, mkBucket after (b_quota b)).

(** The rest of [Allow], on the bucket the goroutine holds. *)
Definition takeFrom (now : Z) (q : Quota) (p : nat) (l : TokenBucketLimiter) : bool * Info * TokenBucketLimiter :=
  let '(ok, info, b) := takeToken now q (default (newBucket q) (heap l !! p)) in
  (ok, info, mkLimiter (buckets l) (<[p := b]> (heap l)) (fresh l)).

Definition TokenBucketLimiter_Allow (now : Z) (key : string) (q : Quota) (l : TokenBucketLimiter)
    : result unit (bool * Info) * TokenBucketLimiter :=
  let '(p, l) := getOrCreate key q l in
  let '(ok, info, l) := takeFrom now q p l in
  (Ok (ok, info), l).

#[global] Instance TokenBucketLimiter_Limiter : Limiter TokenBucketLimiter :=
  {| Allow := TokenBucketLimiter_Allow |}.

(** ** Concurrent calls

    Goroutines interleave the three steps of their calls; an event of a
    goroutine that is not at that step does nothing. *)

Inductive pc := Missed (key : string) (q : Quota) | Holding (key : string) (q : Quota) (p : nat).
Inductive event := Get_ (g : nat) (key : string) (q : Quota) | Add_ (g : nat) | Take_ (g : nat) (now : Z).

Definition pcKey (x : pc) : string := match x with Missed k _ | Holding k _ _ => k end.

Record shared := mkShared {
  lim : TokenBucketLimiter;
  pcs : gmap nat pc;
  answers : list (nat * bool);      (* the goroutines answered, latest first *)
}.

Definition exec (s : shared) (e : event) : shared :=
  match e with
  | Get_ g key q =>
      match pcs s !! g with
      | Some _ => s
      | None =>
          let '(p, l) := getBucket key q (lim s) in
          mkShared l (<[g := match p with Some p => Holding key q p | None => Missed key q end]> (pcs s)) (answers s)
      end
  | Add_ g =>
      match pcs s !! g with
      | Some (Missed key q) =>
          let '(p, l) := addBucket key q (lim s) in mkShared l (<[g := Holding key q p]> (pcs s)) (answers s)
      | _ => s
      end
  | Take_ g now =>
      match pcs s !! g with
      | Some (Holding key q p) =>
          let '(ok, _, l) := takeFrom now q p (lim s) in mkShared l (delete g (pcs s)) ((g, ok) :: answers s)
      | _ => s
      end
  end.

Definition start (n : Z) : shared := mkShared (NewTokenBucketLimiter n) ∅ [].

(** A call alone is its three steps. *)
Lemma Allow_steps g now key q s :
  pcs s !! g = None →
  let '(r, l) := TokenBucketLimiter_Allow now key q (lim s) in
  ∃ ok info, r = Ok (ok, info) ∧
    foldl exec s [Get_ g key q; Add_ g; Take_ g now] = mkShared l (pcs s) ((g, ok) :: answers s).
Proof.
  intros Hg. unfold TokenBucketLimiter_Allow, getOrCreate. cbn [foldl exec]. rewrite Hg.
  destruct (getBucket key q (lim s)) as [[p|] l]; cbn [exec pcs lim answers]; rewrite lookup_insert_eq; cbn [exec pcs lim answers].
  - rewrite lookup_insert_eq. destruct (takeFrom now q p l) as [[ok info] l']. exists ok, info. split; [done|].
    by rewrite delete_insert_id.
  - destruct (addBucket key q l) as [p l']. cbn [exec pcs lim answers]. rewrite lookup_insert_eq.
    destruct (takeFrom now q p l') as [[ok info] l'']. exists ok, info. split; [done|].
    by rewrite insert_insert_eq, delete_insert_id.
Qed.

(** ** No aliasing *)

Context `{!LRULaws L}.

Definition ptrs (l : TokenBucketLimiter) : gmap string nat := contents (buckets l).

(** The bucket a key has now. *)
Definition bucketOf (l : TokenBucketLimiter) (key : string) : option bucket :=
  p ← ptrs l !! key; heap l !! p.

(** Every bucket was allocated for one key, and is reached under that key
    only, from the cache and from the goroutines. *)
Record wf (own : gmap nat string) (s : shared) : Prop := {
  wf_ptrs : ∀ k p, ptrs (lim s) !! k = Some p → own !! p = Some k;
  wf_held : ∀ g k q p, pcs s !! g = Some (Holding k q p) → own !! p = Some k;
  wf_heap : ∀ p k, own !! p = Some k → p < fresh (lim s) ∧ is_Some (heap (lim s) !! p);
}.

(** The bucket a call of [key] works on. *)
Definition effective (key : string) (q : Quota) (l : TokenBucketLimiter) : bucket :=
  match bucketOf l key with
  | Some b => if bool_decide (b_quota b = q) then b else newBucket q
  | None => newBucket q
  end.

Lemma getBucket_spec key q l :
  ptrs (getBucket key q l).2 = ptrs l ∧ heap (getBucket key q l).2 = heap l ∧ fresh (getBucket key q l).2 = fresh l ∧
  match (getBucket key q l).1 with
  | Some p => ptrs l !! key = Some p ∧ heap l !! p = Some (effective key q l)
  | None => effective key q l = newBucket q
  end.
Proof.
  unfold getBucket, effective, bucketOf, ptrs. destruct (contents_Get key (buckets l)) as [Hg Hc].
  destruct (lru_Get key (buckets l)) as [p bs]; cbn in *. subst p. split_and!; [done..|].
  destruct (contents (buckets l) !! key) as [p|]; cbn; [|done].
  destruct (heap l !! p) as [b|] eqn:Eb; cbn; [|done]. by case_bool_decide.
Qed.

Lemma addBucket_old key q l k p :
  k ≠ key → ptrs (addBucket key q l).2 !! k = Some p → ptrs l !! k = Some p.
Proof.
  unfold addBucket, ptrs; cbn. intros Hk Hl. eapply lookup_weaken in Hl; [|apply contents_Add_sub].
  by rewrite lookup_insert_ne in Hl.
Qed.

Lemma Allow_effective own now key q s :
  wf own s →
  (TokenBucketLimiter_Allow now key q (lim s)).1 = Ok (takeToken now q (effective key q (lim s))).1.
Proof.
  intros Hw. unfold TokenBucketLimiter_Allow, getOrCreate. pose proof (getBucket_spec key q (lim s)) as Hg.
  destruct (getBucket key q (lim s)) as [[p|] l]; cbn in Hg; destruct Hg as (_ & Hh & _ & Hp); unfold takeFrom; cbn.
  - destruct Hp as [_ Hp]. rewrite Hh, Hp. cbn. by destruct (takeToken _ _ _) as [[ok info] b].
  - rewrite lookup_insert_eq. cbn. rewrite Hp. by destruct (takeToken _ _ _) as [[ok info] b].
Qed.

Lemma wf_start n : wf ∅ (start n).
Proof. split; unfold ptrs; cbn; intros *; rewrite ?contents_New, ?lookup_empty; done. Qed.

Lemma exec_wf own s e : wf own s → ∃ own', wf own' (exec s e).
Proof.
  intros [Hp Hh Ho]. destruct e as [g key q|g|g now]; cbn.
  - destruct (pcs s !! g) as [x|] eqn:Eg; [by exists own|]. exists own. pose proof (getBucket_spec key q (lim s)) as Hg.
    destruct (getBucket key q (lim s)) as [p l]; cbn in Hg; destruct Hg as (Hpt & Hhe & Hfr & Hb).
    split; cbn; [by rewrite Hpt| |by rewrite Hfr, Hhe].
    intros g' k q' p'. destruct (decide (g = g')) as [<-|]; [|rewrite lookup_insert_ne by done; apply Hh].
    rewrite lookup_insert_eq. destruct p as [p|]; [|done]. intros [= <- <- <-]. by apply Hp, Hb.
  - destruct (pcs s !! g) as [[key q|]|] eqn:Eg; [|by exists own..]. exists (<[fresh (lim s) := key]> own).
    assert (∀ p k, own !! p = Some k → fresh (lim s) ≠ p) as Hne by (intros p k [Hlt _]%Ho ?; lia).
    assert (∀ p k, own !! p = Some k → <[fresh (lim s):=key]> own !! p = Some k) as Hup.
    { intros p k Hk. rewrite lookup_insert_ne; [done|by eapply Hne]. }
    split; cbn.
    + intros k p Hk. destruct (decide (k = key)) as [->|Hk']; [|by eapply Hup, Hp, (addBucket_old key q)].
      unfold ptrs in Hk; cbn in Hk. rewrite contents_Add_eq in Hk. injection Hk as <-. by rewrite lookup_insert_eq.
    + intros g' k q' p'. destruct (decide (g = g')) as [<-|];
        [rewrite lookup_insert_eq; intros [= <- <- <-]; by rewrite lookup_insert_eq|].
      rewrite lookup_insert_ne by done. intros ?. by eapply Hup, Hh.
    + intros p k. destruct (decide (fresh (lim s) = p)) as [<-|];
        [rewrite !lookup_insert_eq; split; [lia|by eexists]|rewrite !lookup_insert_ne by done].
      intros [Hlt Hs]%Ho. split; [lia|done].
  - destruct (pcs s !! g) as [[|key q p]|] eqn:Eg; [by exists own| |by exists own]. exists own. unfold takeFrom.
    destruct (takeToken _ _ _) as [[ok info] b]. split; cbn; [done| |].
    + intros g' k q' p' [_ Hg']%lookup_delete_Some. by eapply Hh.
    + intros p' k [Hlt Hs]%Ho. split; [done|]. destruct (decide (p = p')) as [<-|];
        [rewrite lookup_insert_eq; by eexists|by rewrite lookup_insert_ne].
Qed.

Lemma run_wf own s es : wf own s → ∃ own', wf own' (foldl exec s es).
Proof.
  revert own s. induction es as [|e es IH]; intros own s Hw; cbn; [by exists own|].
  destruct (exec_wf own s e Hw) as [own' Hw']. by eapply IH.
Qed.

(** No call of the key is under way, and none begins. *)
Definition idle (key : string) (s : shared) : Prop := ∀ g x, pcs s !! g = Some x → pcKey x ≠ key.
Definition foreign (key : string) (e : event) : Prop := match e with Get_ _ k _ => k ≠ key | _ => True end.

Lemma exec_others own s e key :
  wf own s → idle key s → foreign key e →
  idle key (exec s e) ∧
  (bucketOf (lim (exec s e)) key = bucketOf (lim s) key ∨ bucketOf (lim (exec s e)) key = None).
Proof.
  intros [Hp Hh Ho] Hi Hf. unfold idle in *. destruct e as [g k q|g|g now]; cbn in *.
  - destruct (pcs s !! g) as [x|] eqn:Eg; [by split; [|left]|]. pose proof (getBucket_spec k q (lim s)) as Hg.
    destruct (getBucket k q (lim s)) as [p l]; cbn in *; destruct Hg as (Hpt & Hhe & _ & _). split.
    + intros g' x. destruct (decide (g = g')) as [<-|]; [rewrite lookup_insert_eq|rewrite lookup_insert_ne by done; apply Hi].
      intros [= <-]. by destruct p.
    + left. unfold bucketOf. by rewrite Hpt, Hhe.
  - destruct (pcs s !! g) as [[k q|]|] eqn:Eg; [|by split; [|left]..]. pose proof (Hi g _ Eg) as Hk. cbn in Hk. split; cbn.
    + intros g' x. destruct (decide (g = g')) as [<-|]; [rewrite lookup_insert_eq|rewrite lookup_insert_ne by done; apply Hi].
      by intros [= <-].
    + unfold bucketOf. destruct (ptrs (addBucket k q (lim s)).2 !! key) as [p|] eqn:Ep; cbn in *; rewrite Ep; cbn; [|by right].
      left. apply addBucket_old in Ep; [|done]. rewrite Ep. cbn. destruct (Ho p key (Hp _ _ Ep)) as [Hlt _].
      by rewrite lookup_insert_ne by lia.
  - destruct (pcs s !! g) as [[|k q p]|] eqn:Eg; [by split; [|left]| |by split; [|left]].
    pose proof (Hi g _ Eg) as Hk. cbn in Hk. unfold takeFrom. destruct (takeToken _ _ _) as [[ok info] b]. cbn. split.
    + intros g' x [_ Hg']%lookup_delete_Some. by eapply Hi.
    + left. unfold bucketOf, ptrs; cbn. destruct (contents (buckets (lim s)) !! key) as [p'|] eqn:Ep; [|done]. cbn.
      rewrite lookup_insert_ne; [done|]. intros ->. pose proof (Hp _ _ Ep) as H1. pose proof (Hh _ _ _ _ Eg) as H2. congruence.
Qed.

Lemma run_others own s es key :
  wf own s → idle key s → Forall (foreign key) es →
  bucketOf (lim (foldl exec s es)) key = bucketOf (lim s) key ∨ bucketOf (lim (foldl exec s es)) key = None.
Proof.
  intros Hw Hi Hf. revert own s Hw Hi. induction Hf as [|e es He Hf IH]; intros own s Hw Hi; cbn; [by left|].
  destruct (exec_others own s e key Hw Hi He) as [Hi' Ho]. destruct (exec_wf own s e Hw) as [own' Hw'].
  destruct (IH _ _ Hw' Hi') as [E|E]; [|by right]. rewrite E. apply Ho.
Qed.
End TokenBucket.

Lemma rateHandler_effective `{!RateLib} `{LRULaws L} own cfg now w principal ip r (s : shared (L:=L)) :
  wf own s →
  (rateHandler cfg now w principal ip r (lim s)).1 =
    decideOutcome cfg w (Ok (takeToken now (DefaultQuota cfg)
      (effective (requestKey principal ip r) (DefaultQuota cfg) (lim s))).1).
Proof.
  intros Hw. pose proof (Allow_effective own now (requestKey principal ip r) (DefaultQuota cfg) s Hw) as Ha.
  unfold rateHandler. cbn. destruct (TokenBucketLimiter_Allow _ _ _ _) as [d l']. cbn in *. by subst d.
Qed.

(** Who a request counts as: its principal, or without one (the anonymous
    principal is none) its address. *)
Definition identified (principal : option Auth.Principal) : option string :=
  match principal with
  | Some p => if decide (Auth.p_ID p = "" ∨ Auth.p_ID p = "anonymous") then None else Some (Auth.p_ID p)
  | None => None
  end.

Lemma requestKey_iff p ip r p' ip' r' :
  requestKey p' ip' r' = requestKey p ip r ↔
  identified p' = identified p ∧ (identified p = None → ClientIP ip' r' = ClientIP ip r).
Proof.
  assert (∀ p ip r, requestKey p ip r =
    match identified p with Some id => "user:" +:+ id | None => "ip:" +:+ ClientIP ip r end) as Hk.
  { intros q i x. unfold requestKey, DefaultKeyFunc, identified. destruct q as [q|]; [|done].
    destruct (String.eqb_spec (Auth.p_ID q) ""), (String.eqb_spec (Auth.p_ID q) "anonymous"); cbn; case_decide; naive_solver. }
  rewrite !Hk. destruct (identified p') as [a|], (identified p) as [b|]; cbn; split.
  - by intros [= ->].
  - by intros [[= ->] _].
  - done.
  - by intros [? _].
  - done.
  - by intros [? _].
  - by intros [= E].
  - intros [_ E]. by rewrite E.
Qed.

(** ** Properties *)

(** C37: Clients have separate quotas: under every interleaving of the steps
    of concurrent calls, whatever other clients do while no call of this one
    is under way, its next request gets the answer it would have got without
    them, or, if its bucket was evicted meanwhile, the answer of a fresh
    bucket; two requests count against the same bucket exactly when they come
    from the same principal, or both without one (or anonymous) from the same
    address; and a request reaches the inner handler exactly when its bucket
    grants a token without delay, being refused otherwise with a retry time
    of at least one second.  (Two concurrent first requests of one client may
    each create a bucket: [two_first_calls_two_buckets].) *)
Theorem rate_isolation `{!RateLib} `{LRULaws L} cfg n before others now w principal ip r :
  let key := requestKey principal ip r in
  let s0 : shared (L:=L) := start n in
  let s := foldl exec s0 before in
  let s' := foldl exec s others in
  idle key s → Forall (foreign key) others →
  ((rateHandler cfg now w principal ip r (lim s')).1 = (rateHandler cfg now w principal ip r (lim s)).1 ∨
   (rateHandler cfg now w principal ip r (lim s')).1 = (rateHandler cfg now w principal ip r (lim s0)).1) ∧
  (∀ principal' ip' r', requestKey principal' ip' r' = key ↔
     identified principal' = identified principal ∧ (identified principal = None → ClientIP ip' r' = ClientIP ip r)) ∧
  (match (rateHandler cfg now w principal ip r (lim s)).1 with
   | Forwarded _ => ((ReserveN now (limiter (effective key (DefaultQuota cfg) (lim s)))).1.1 ≤ 0)%Z
   | Refused h e => ((0 < (ReserveN now (limiter (effective key (DefaultQuota cfg) (lim s)))).1.1)%Z ∧
       e = errLimited ∧ ∃ t, (1 ≤ t)%Z ∧ Header.Get h "Retry-After" = Remap.FormatInt t)
   end).
Proof.
  intros key s0 s s' Hidle Hothers. destruct (run_wf _ _ before (wf_start n)) as [own Hw]. fold s0 s in Hw.
  destruct (run_wf own s others Hw) as [own' Hw']. fold s' in Hw'.
  split_and!.
  - rewrite !(rateHandler_effective own'), (rateHandler_effective own _ _ _ _ _ _ s),
      (rateHandler_effective ∅ _ _ _ _ _ _ s0) by (done || apply wf_start). fold key.
    destruct (run_others own s others key Hw Hidle Hothers) as [E|E].
    + left. unfold effective. fold s' in E. by rewrite E.
    + right. unfold effective. fold s' in E. rewrite E.
      assert (bucketOf (lim s0) key = None) as ->; [|done].
      unfold bucketOf, ptrs, s0; cbn. by rewrite contents_New, lookup_empty.
  - intros principal' ip' r'. apply requestKey_iff.
  - rewrite (rateHandler_effective own) by done. fold key. unfold takeToken.
    destruct (ReserveN now _) as [[delay after] cancelled]. cbn.
    destruct (Z.ltb_spec 0 delay); cbn; [|lia]. split_and!; [done|done|].
    eexists. split; [|unfold Header.Get, Header.Values, Header.Set_; by rewrite lookup_insert_eq]. lia.
Qed.

Module Witness.
#[local] Existing Instance StoreProperties.assoc_LRU.
#[local] Existing Instance StoreProperties.assoc_LRULaws.

(** A bucket that never refills: its state is the tokens left. *)
#[local] Instance countdown : RateLib := {|
  RL := Z; rate_NewLimiter _ burst := burst; TokensAt _ n := float64_of_int n;
  ReserveN _ n := if (0 <? n)%Z then (0%Z, (n - 1)%Z, n) else (Second, (n - 1)%Z, n) |}.

Definition quota : Quota := mkQuota 1 Second 0.
Definition alice : Auth.Principal := Auth.mkPrincipal "alice" "user" "" "" [] [] ∅ [] "" 0.
Definition req : httpRequest := mkRequest "GET" "/" "" ∅ "10.0.0.1:80".
Definition spend (g : nat) (key : string) : list event := [Get_ g key quota; Add_ g; Take_ g 0].
Definition refused (o : outcome) : bool := match o with Refused _ _ => true | Forwarded _ => false end.

(** Alice spent her one token; an anonymous client and Bob interleave. *)
Definition crowd : list event :=
  [Get_ 1 "ip:10.0.0.1" quota; Get_ 2 "user:bob" quota; Add_ 2; Add_ 1; Take_ 1 0; Take_ 2 0].
Definition after : shared (L:=StoreProperties.assocLRU) := foldl exec (start 8) (spend 0 "user:alice").

Lemma rate_isolation_witness :
  let cfg := mkConfig quota false in
  requestKey None "" req = "ip:10.0.0.1" ∧
  refused (rateHandler cfg 0 ∅ (Some alice) "" req (lim (foldl exec after crowd))).1 = true.
Proof.
  intros cfg. split; [reflexivity|].
  destruct (rate_isolation (L:=StoreProperties.assocLRU) cfg 8 (spend 0 "user:alice") crowd 0 ∅ (Some alice) "" req)
    as (Hi & _ & _).
  - intros g x Hx. change ((∅ : gmap nat pc) !! g = Some x) in Hx. by rewrite lookup_empty in Hx.
  - repeat constructor; vm_compute; discriminate.
  - fold after in Hi. destruct Hi as [E|E].
    + rewrite E. vm_compute. reflexivity.
    + exfalso. apply (f_equal refused) in E. vm_compute in E. discriminate E.
Defined.

(** Two first calls of a key that both miss the cache create a bucket each,
    and a quota of one request lets both through. *)
Lemma two_first_calls_two_buckets :
  let run es := answers (foldl exec (start 8 : shared (L:=StoreProperties.assocLRU)) es) in
  run (spend 0 "user:alice" ++ spend 1 "user:alice") = [(1, false); (0, true)] ∧
  run [Get_ 0 "user:alice" quota; Get_ 1 "user:alice" quota; Add_ 0; Add_ 1; Take_ 0 0; Take_ 1 0] = [(1, true); (0, true)].
Proof. split; vm_compute; reflexivity. Qed.

Example ClientIP_examples :
  ClientIP "" (mkRequest "" "" "" ∅ "[::1]:80") = "::1" ∧ ClientIP "" (mkRequest "" "" "" ∅ "::1") = "::1" ∧
  ClientIP "9.9.9.9" req = "9.9.9.9".
Proof. by vm_compute. Qed.
End Witness.

End RateLimit.
