(* ===== verification/RedisLimiter.v ===== *)
(** * The Redis rate limiter ([internal/middleware/ratelimit/redis.go])

    Token buckets shared by all replicas: the Lua script that refills and
    takes a token in one atomic step, the bucket keys, and [Allow], which
    runs the script and reads its answer, as a [Limiter] of [RateLimit].

    The script computes with Lua's numbers, which are float64; its text is
    given here over any arithmetic, so that it runs on float64 and its
    guarantee is proved over the rationals, rounding aside.  Redis stores
    the numbers with 17 digits, which loses nothing; [tostring] keeps 14, so
    what [Allow] reads back as the token count is a parameter.

    A call reaches Redis at a time of Redis' own clock, or is lost; an
    executed call whose answer comes too late is an error like a lost one. *)

From S2P Require Import Prelude GoLib Cursor Store Httpx Middleware Auth Remap RateLimit.
From Stdlib Require Import Ascii SpecFloat QArith Qround Lqa.
Import Strings Values RateLimit.

Module RedisLimiter.

(** ** Arithmetic *)

Class Arith (Num : Type) := {
  a_of : Z → Num;
  a_seconds : Z → Num;            (* [Duration.Seconds] *)
  a_add : Num → Num → Num;
  a_sub : Num → Num → Num;
  a_mul : Num → Num → Num;
  a_div : Num → Num → Num;
  a_ltb : Num → Num → bool;
  a_leb : Num → Num → bool;
  a_ceil : Num → Z;
}.

#[export] Instance float_Arith : Arith float64 := {|
  a_of := float64_of_int; a_seconds := Seconds; a_add := fadd; a_sub := fsub; a_mul := fmul; a_div := fdiv;
  a_ltb := SFltb; a_leb := SFleb; a_ceil := Ceil |}.

#[export] Instance rational_Arith : Arith Q := {|
  a_of := inject_Z; a_seconds d := (inject_Z d / inject_Z Second)%Q; a_add := Qplus; a_sub := Qminus; a_mul := Qmult;
  a_div := Qdiv; a_ltb x y := negb (Qle_bool y x); a_leb := Qle_bool; a_ceil := Qceiling |}.

(** ** The script *)

Section Script.
Context {Num : Type} `{!Arith Num}.

(** A bucket's hash, and when Redis drops it. *)
Record entry := mkEntry { e_tokens : Num; e_ts : Num; e_exp : Z }.

(** [math.min(burst, x)]. *)
Definition lua_min (burst x : Num) : Num := if a_ltb x burst then x else burst.

Definition refill (rate burst now : Num) (b : Num * Num) : Num * Num :=
  let '(tokens, ts) := b in
  if a_ltb ts now
  then (lua_min burst (a_add tokens (a_mul (a_div (a_sub now ts) (a_of 1000)) rate)), now)
  else (tokens, ts).

Record reply := mkReply { allowed : bool; pre : Num; retry_ms : Z }.

(** The reply, the bucket's new hash and its time to live. *)
Definition tokenBucketScript (rate burst now cost : Num) (b : option (Num * Num)) : reply * (Num * Num) * Z :=
  let '(tokens, ts) := refill rate burst now (default (burst, now) b) in
  let ttl := (a_ceil (a_mul (a_div burst rate) (a_of 1000)) * 2)%Z in
  if a_leb cost tokens then (mkReply true tokens 0, (a_sub tokens cost, ts), ttl)
  else (mkReply false tokens (a_ceil (a_mul (a_div (a_sub cost tokens) rate) (a_of 1000))), (tokens, ts), ttl).

(** The reply on the wire: integers, and the token count as text. *)
Inductive redisValue := RInt (n : Z) | RString (s : string) | RNil.

Definition wireReply (tostring : Num → string) (r : reply) : list redisValue :=
  [RInt (if allowed r then 1 else 0); RString (tostring (pre r)); RInt (retry_ms r)].

Definition toInt64 (v : redisValue) : Z := match v with RInt n => n | _ => 0 end.

(** [ParseFloat] is the value [strconv.ParseFloat] gives, also next to an
    error. *)
Definition toFloat_ (ParseFloat : string → float64) (v : redisValue) : float64 :=
  match v with RString s => ParseFloat s | _ => float64_of_int 0 end.

Definition decodeReply (ParseFloat : string → float64) (res : list redisValue) : result string (bool * float64 * Z) :=
  match res with
  | [a; t; r] => Ok (toInt64 a =? 1, toFloat_ ParseFloat t, toInt64 r)%Z
  | _ => Err "rate limit script returned values, want 3"
  end.

(** Nothing of a reply is lost but what the text of the count loses. *)
Lemma decodeReply_wire tostring ParseFloat r :
  decodeReply ParseFloat (wireReply tostring r) = Ok (allowed r, ParseFloat (tostring (pre r)), retry_ms r).
Proof. by destruct r as [[]]. Qed.

(** ** [Allow] *)

(** What becomes of a call: Redis may execute it at its time [rt], in
    milliseconds, and the answer may still come too late. *)
Inductive event := Lost | Executed (rt : Z) (answered : bool).

Record RedisLimiter := mkRedisLimiter { rdb : gmap string entry; prefix : string; events : list event }.

Context `{!Crypto}.

Definition bucketKey (prefix key : string) (q : Quota) : string :=
  let fp := key +:+ String zero (Remap.FormatInt (Requests q) +:+ ":" +:+ Remap.FormatInt (Window q) +:+ ":" +:+
              Remap.FormatInt (Burst q)) in
  prefix +:+ Hex.EncodeToString (Cursor.take_str 16 (sha256 fp)).

Definition UnixMilli (now : Z) : Z := (now / 1000000)%Z.

(** The hash unless it has expired, which is after its expiry time. *)
Definition live (rt : Z) (store : gmap string entry) (k : string) : option (Num * Num) :=
  e ← store !! k; if (rt <=? e_exp e)%Z then Some (e_tokens e, e_ts e) else None.

(** [PEXPIRE] with a time to live that is not positive deletes the hash. *)
Definition runScript (rt now : Z) (k : string) (q : Quota) (store : gmap string entry) : reply * gmap string entry :=
  let rate := a_div (a_of (Requests q)) (a_seconds (Window q)) in
  let '(r, (tokens, ts), ttl) :=
    tokenBucketScript rate (a_of (burstOf q)) (a_of (UnixMilli now)) (a_of 1) (live rt store k) in
  (r, if (0 <? ttl)%Z then <[k := mkEntry tokens ts (rt + ttl)]> store else delete k store).

(** The token count as text, read back. *)
Variable toFloat : Num → float64.

Definition infoOf (now : Z) (q : Quota) (r : reply) : Info :=
  let preTokens := toFloat (pre r) in
  mkInfo (Requests q) (Z.max 0 (Floor preTokens))
    (Cursor.Unix (resetAt now preTokens (float64_of_int (burstOf q)) q))
    (if allowed r then 0 else Z.max 1 (Ceil (fdiv (float64_of_int (retry_ms r)) (float64_of_int 1000)))).

Definition degenerate (q : Quota) : bool := (Requests q <=? 0)%Z || (Window q <=? 0)%Z.

(** The decision on one call, and the store after it; a degenerate quota is
    refused without asking Redis. *)
Definition decide_ (e : event) (now : Z) (prefix key : string) (q : Quota) (store : gmap string entry)
    : result unit (bool * Info) * gmap string entry :=
  if degenerate q then (Ok (false, mkInfo (Requests q) 0 0 1), store) else
  match e with
  | Lost => (Err (), store)
  | Executed rt answered =>
      let '(r, store) := runScript rt now (bucketKey prefix key q) q store in
      (if answered then Ok (allowed r, infoOf now q r) else Err (), store)
  end.

Definition RedisLimiter_Allow (now : Z) (key : string) (q : Quota) (l : RedisLimiter)
    : result unit (bool * Info) * RedisLimiter :=
  let '(d, store) := decide_ (default Lost (head (events l))) now (prefix l) key q (rdb l) in
  (d, mkRedisLimiter store (prefix l) (if degenerate q then events l else tail (events l))).

#[global] Instance RedisLimiter_Limiter : Limiter RedisLimiter := {| Allow := RedisLimiter_Allow |}.
End Script.

#[global] Arguments entry : clear implicits.
#[global] Arguments reply : clear implicits.
#[global] Arguments RedisLimiter : clear implicits.

(** ** The rate bound *)

Record call := mkCall { c_event : event; c_now : Z; c_key : string; c_quota : Quota }.

Section Bound.
Context `{!Crypto} (toFloat : Q → float64) (prefix : string).
#[local] Open Scope Q_scope.

Abbreviation buckets := (gmap string (entry Q)).

Definition keyOf (c : call) : string := bucketKey prefix (c_key c) (c_quota c).

(** One call against the store, counting the calls let through to the
    bucket [B]. *)
Definition step (B : string) (st : nat * buckets) (c : call) : nat * buckets :=
  let '(d, store) := decide_ toFloat (c_event c) (c_now c) prefix (c_key c) (c_quota c) st.2 in
  ((match d with Ok (true, _) => if bool_decide (keyOf c = B) then S st.1 else st.1 | _ => st.1 end), store).

(** The same, counting the requests the middleware forwards: with the
    default failure mode also those whose call came to an error. *)
Definition forwardStep (closed : bool) (B : string) (st : nat * buckets) (c : call) : nat * buckets :=
  let '(d, store) := decide_ toFloat (c_event c) (c_now c) prefix (c_key c) (c_quota c) st.2 in
  (match decideOutcome (mkConfig (c_quota c) closed) ∅ d with
   | Forwarded _ => if bool_decide (keyOf c = B) then S st.1 else st.1
   | Refused _ _ => st.1
   end, store).

Definition forwarded (closed : bool) (B : string) (calls : list call) : nat := (foldl (forwardStep closed B) (0%nat, ∅) calls).1.

(** The calls of the bucket that got no answer in time. *)
Definition unanswered (B : string) (calls : list call) : nat :=
  length (List.filter (λ c, bool_decide (keyOf c = B) &&
    match c_event c with Executed _ true => false | _ => true end) calls).

Definition letThrough (B : string) (calls : list call) : nat := (foldl (step B) (0%nat, ∅) calls).1.

(** When Redis executed the calls, in order. *)
Definition times (calls : list call) : list Z :=
  omap (λ c, match c_event c with Executed rt _ => Some rt | Lost => None end) calls.

Lemma forwarded_let closed B calls n m store :
  ((foldl (forwardStep closed B) (n, store) calls).1 + m ≤
   (foldl (step B) (m, store) calls).1 + n + if closed then 0 else unanswered B calls)%nat.
Proof.
  revert n m store. induction calls as [|c calls IH]; intros n m store; [cbn; destruct closed; lia|].
  cbn [foldl]. unfold forwardStep at 2, step at 2. cbn [fst snd].
  assert (∀ d store', decide_ toFloat (c_event c) (c_now c) prefix (c_key c) (c_quota c) store = (d, store') →
    ∀ u, d = Err u → match c_event c with Executed _ true => false | _ => true end = true) as Herr.
  { intros d store'. unfold decide_. destruct (degenerate _); [by intros [= <- _]|].
    destruct (c_event c) as [|rt []]; [done| |done]. destruct (runScript _ _ _ _ _). by intros [= <- _]. }
  destruct (decide_ _ _ _ _ _ _ _) as [d store'] eqn:Ed. specialize (Herr d store' eq_refl).
  unfold unanswered. cbn [List.filter]. fold (unanswered B calls).
  destruct d as [[[] info]|u]; cbn [decideOutcome FailClosed].
  - destruct (bool_decide (keyOf c = B)); [specialize (IH (S n) (S m) store')|specialize (IH n m store')]; cbn [andb];
      destruct closed, (match c_event c with Executed _ true => false | _ => true end); cbn [length]; fold (unanswered B calls); lia.
  - specialize (IH n m store'). destruct closed, (bool_decide (keyOf c = B)),
      (match c_event c with Executed _ true => false | _ => true end); cbn [andb length]; fold (unanswered B calls); lia.
  - rewrite (Herr u eq_refl), andb_true_r. destruct closed; [specialize (IH n m store'); destruct (bool_decide (keyOf c = B)); lia|].
    destruct (bool_decide (keyOf c = B)); [specialize (IH (S n) m store')|specialize (IH n m store')];
      cbn [length]; fold (unanswered B calls); lia.
Qed.

Section Quota.
Variables (B : string) (q : Quota).
Hypotheses (Hreq : (0 < Requests q)%Z) (Hwin : (0 < Window q)%Z) (Hburst : (0 < burstOf q)%Z).

Definition rate : Q := inject_Z (Requests q) / (inject_Z (Window q) / inject_Z Second).
Definition burst : Q := inject_Z (burstOf q).
(** The time a bucket takes to fill, in milliseconds. *)
Definition fill : Q := burst / rate * inject_Z 1000.

Lemma rate_pos : 0 < rate.
Proof.
  unfold rate. apply Qlt_shift_div_l.
  - apply Qlt_shift_div_l; [done|]. rewrite Qmult_0_l. by rewrite <-(Zlt_Qlt 0).
  - rewrite Qmult_0_l. by rewrite <-(Zlt_Qlt 0).
Qed.

Lemma burst_pos : 0 < burst.
Proof. unfold burst. by rewrite <-(Zlt_Qlt 0). Qed.

Lemma fill_rate : fill / inject_Z 1000 * rate == burst.
Proof. unfold fill. field. intros Hz. pose proof rate_pos. lra. Qed.

(** The clocks of the replicas stay within half a filling time of Redis'. *)
Definition synchronised (c : call) : Prop :=
  match c_event c with
  | Executed rt _ => - (fill / 2) <= inject_Z (UnixMilli (c_now c)) - inject_Z rt <= fill / 2
  | Lost => True
  end.

(** What the bucket's hash says of the calls let through since [t0]: they
    are paid for by the first burst and the refills.  [w] is when it was
    last written. *)
Record paid (t0 t1 : Q) (n : nat) (w : Z) (e : entry Q) : Prop := {
  pd_tokens : 0 <= e_tokens e;
  pd_count : inject_Z (Z.of_nat n) + e_tokens e <= burst + rate / inject_Z 1000 * (e_ts e - t0);
  pd_ts : t0 <= e_ts e <= t1;
  pd_ahead : e_ts e <= inject_Z w + fill / 2;
  pd_exp : inject_Z w + 2 * fill <= inject_Z (e_exp e);
}.

Definition good (t0 t1 : Q) (st : nat * buckets) (w : Z) : Prop :=
  match st.2 !! B with None => st.1 = 0%nat | Some e => ∃ w', (w' <= w)%Z ∧ paid t0 t1 st.1 w' e end.

Lemma ltb_spec (x y : Q) : a_ltb x y = true ↔ x < y.
Proof. cbn. rewrite negb_true_iff, <-not_true_iff_false, Qle_bool_iff. split; [apply Qnot_le_lt|apply Qlt_not_le]. Qed.

(** The hash the script starts from, after the refill. *)
Lemma refilled t0 t1 n store w rt now :
  good t0 t1 (n, store) w → (w <= rt)%Z →
  - (fill / 2) <= now - inject_Z rt <= fill / 2 → t0 <= now <= t1 →
  let '(tokens, ts) := refill rate burst now (default (burst, now) (live rt store B)) in
  0 <= tokens ∧ inject_Z (Z.of_nat n) + tokens <= burst + rate / inject_Z 1000 * (ts - t0) ∧
  t0 <= ts <= t1 ∧ ts <= inject_Z rt + fill / 2.
Proof.
  intros Hg Hw Hsync Hnow. pose proof burst_pos as Hb. pose proof rate_pos as Hr. pose proof fill_rate as Hf.
  assert (0 < rate / inject_Z 1000) as Hms by (apply Qlt_shift_div_l; [done|lra]).
  assert (rate / inject_Z 1000 * fill == burst) as Hfill by (rewrite <-Hf; field).
  assert (fill == fill / 2 + fill / 2) as Hhalf by field.
  set (r := rate / inject_Z 1000) in *. set (half := fill / 2) in *. clear Hf.
  assert (∀ d, 0 <= d → 0 <= r * d) as Hmul by (intros d Hd; apply Qmult_le_0_compat; [lra|done]).
  unfold good in Hg. cbn in Hg. unfold live, refill.
  destruct (store !! B) as [e|]; cbn [mbind option_bind default].
  2: { subst n. assert (a_ltb now now = false) as -> by (apply not_true_iff_false; rewrite ltb_spec; lra).
       assert (0 <= r * (now - t0)) by (apply Hmul; lra). change (inject_Z (Z.of_nat 0)) with 0. split_and!; lra. }
  destruct Hg as (w' & Hw' & [Htok Hcnt Hts Hahead Hexp]). fold r in Hcnt. fold half in Hahead.
  assert (inject_Z w' <= inject_Z rt) as Hwr by (rewrite <-Zle_Qle; lia).
  destruct (rt <=? e_exp e)%Z eqn:El; unfold from_option, id; cbv beta match.
  - destruct (a_ltb (e_ts e) now) eqn:Et.
    + apply ltb_spec in Et. unfold lua_min. cbn [a_add a_mul a_div a_sub a_of rational_Arith].
      set (x := e_tokens e + (now - e_ts e) / inject_Z 1000 * rate).
      assert (x == e_tokens e + r * (now - e_ts e)) as Hx by (unfold x, r; field).
      assert (0 <= r * (now - e_ts e)) by (apply Hmul; lra).
      destruct (a_ltb x burst) eqn:Em; [apply ltb_spec in Em|apply not_true_iff_false in Em; rewrite ltb_spec in Em];
        split_and!; lra.
    + apply not_true_iff_false in Et. rewrite ltb_spec in Et. split_and!; lra.
  - apply Z.leb_gt, Z.lt_le_incl in El. rewrite Zle_Qle in El.
    assert (a_ltb now now = false) as -> by (apply not_true_iff_false; rewrite ltb_spec; lra).
    assert (0 <= r * (now - e_ts e - fill)) by (apply Hmul; lra). split_and!; lra.
Qed.

Lemma degenerate_false : degenerate q = false.
Proof. unfold degenerate. apply orb_false_iff. split; by apply Z.leb_gt. Qed.

(** An executed call of the bucket keeps it paid for. *)
Lemma step_paid t0 t1 st w c rt answered :
  good t0 t1 st w → (w <= rt)%Z → keyOf c = B → c_quota c = q → c_event c = Executed rt answered → synchronised c →
  t0 <= inject_Z (UnixMilli (c_now c)) <= t1 → good t0 t1 (step B st c) rt.
Proof.
  destruct st as [n store]. intros Hg Hw Hk Hq He Hsync Hnow. unfold synchronised in Hsync. rewrite He in Hsync.
  pose proof (refilled t0 t1 n store w rt _ Hg Hw Hsync Hnow) as Href.
  unfold step, decide_. rewrite Hq, degenerate_false, He. unfold keyOf in Hk. rewrite Hq in Hk. rewrite Hk. cbn [snd fst].
  unfold runScript, tokenBucketScript. change (a_div (a_of (Requests q)) (a_seconds (Window q))) with rate.
  change (a_of (burstOf q)) with burst. change (a_of (UnixMilli (c_now c))) with (inject_Z (UnixMilli (c_now c))).
  destruct (refill _ _ _ _) as [tokens ts]. destruct Href as (Htok & Hcnt & Hts & Hahead).
  change (a_mul (a_div burst rate) (a_of 1000)) with fill. change (a_ceil fill) with (Qceiling fill).
  assert (inject_Z rt + 2 * fill <= inject_Z (rt + Qceiling fill * 2)) as Hexp.
  { rewrite inject_Z_plus, inject_Z_mult. pose proof (Qle_ceiling fill). change (inject_Z 2) with 2. lra. }
  assert ((0 <? Qceiling fill * 2) = true)%Z as Httl.
  { apply Z.ltb_lt. assert (0 < fill)%Q.
    { unfold fill. apply Qmult_lt_0_compat; [|done]. apply Qlt_shift_div_l; [apply rate_pos|]. pose proof burst_pos. lra. }
    assert (0 < Qceiling fill)%Z; [|lia]. rewrite Zlt_Qlt. change (inject_Z 0) with 0. eapply Qlt_le_trans; [done|apply Qle_ceiling]. }
  change (a_leb (a_of 1) tokens) with (Qle_bool 1 tokens). destruct (Qle_bool 1 tokens) eqn:E1.
  - apply Qle_bool_iff in E1. unfold good. cbn [snd fst]. rewrite Httl, lookup_insert_eq. exists rt. split; [lia|].
    unfold keyOf. rewrite Hq, Hk, bool_decide_true by done.
    assert (inject_Z (Z.of_nat (S n)) == inject_Z (Z.of_nat n) + 1) as HS by (rewrite Nat2Z.inj_succ, <-Z.add_1_r, inject_Z_plus; reflexivity).
    destruct answered; cbn [allowed]; split; cbn [e_tokens e_ts e_exp]; change (a_sub tokens (a_of 1)) with (tokens - 1); lra.
  - unfold good. cbn [snd fst]. rewrite Httl, lookup_insert_eq. exists rt. split; [lia|].
    destruct answered; cbn [allowed]; by split.
Qed.

(** Other calls leave the bucket alone. *)
Lemma step_other st c : keyOf c ≠ B ∨ c_event c = Lost →
  (step B st c).1 = st.1 ∧ (step B st c).2 !! B = st.2 !! B.
Proof.
  intros Hother. unfold step, decide_. destruct (degenerate (c_quota c)); [done|].
  destruct (c_event c) as [|rt answered]; [done|]. destruct Hother as [Hne|]; [|done].
  unfold runScript. destruct (tokenBucketScript _ _ _ _ _) as [[r [tokens ts]] ttl]. cbn [fst snd].
  rewrite bool_decide_false by done. split; [by destruct answered, (allowed r)|].
  destruct (0 <? ttl)%Z; [by rewrite lookup_insert_ne|by rewrite lookup_delete_ne].
Qed.

Lemma run_good t0 t1 calls st w :
  good t0 t1 st w → Forall (Z.le w) (times calls) → StronglySorted Z.le (times calls) →
  (∀ c, c ∈ calls → keyOf c = B → c_quota c = q ∧ synchronised c ∧ t0 <= inject_Z (UnixMilli (c_now c)) <= t1) →
  ∃ w', good t0 t1 (foldl (step B) st calls) w'.
Proof.
  revert st w. induction calls as [|c calls IH]; intros st w Hg Hw Hs Hall; [by exists w|]. cbn [foldl].
  assert (∀ c', c' ∈ calls → keyOf c' = B → c_quota c' = q ∧ synchronised c' ∧ t0 <= inject_Z (UnixMilli (c_now c')) <= t1)
    as Hall' by (intros c' Hc'; apply Hall; by right).
  assert (∀ w', good t0 t1 st w' → keyOf c ≠ B ∨ c_event c = Lost → good t0 t1 (step B st c) w') as Hskip.
  { intros w' Hg' Hother. destruct (step_other st c Hother) as [E1 E2]. unfold good. rewrite E1, E2. exact Hg'. }
  unfold times in Hw, Hs. cbn in Hw, Hs. fold (times calls) in Hw, Hs.
  destruct (c_event c) as [|rt answered] eqn:He; cbn in Hw, Hs.
  - apply (IH _ w); auto.
  - apply Forall_cons in Hw as [Hwrt Hw]. apply StronglySorted_inv in Hs as [Hs Hrt].
    destruct (decide (keyOf c = B)) as [Hk|Hk]; [|apply (IH _ w); auto].
    destruct (Hall c) as (Hq & Hsync & Hnow); [by left|done|].
    apply (IH _ rt); auto. by eapply step_paid.
Qed.
End Quota.

(** The calls of a bucket that get a token. *)
Lemma letThrough_bound B q calls t0 t1 :
  (0 < Requests q)%Z → (0 < Window q)%Z → (0 < burstOf q)%Z → (t0 <= t1)%Z →
  StronglySorted Z.le (times calls) →
  (∀ c, c ∈ calls → keyOf c = B →
     c_quota c = q ∧ synchronised q c ∧ (t0 <= UnixMilli (c_now c) <= t1)%Z) →
  inject_Z (Z.of_nat (letThrough B calls)) <= burst q + rate q * (inject_Z (t1 - t0) / inject_Z 1000).
Proof.
  intros Hreq Hwin Hburst Ht Hs Hall. set (w := from_option id 0%Z (head (times calls))).
  destruct (run_good B q Hreq Hwin Hburst (inject_Z t0) (inject_Z t1) calls (0%nat, ∅) w) as [w' Hg].
  - unfold good. cbn. by rewrite lookup_empty.
  - unfold w. destruct (times calls) as [|t ts]; [done|]. apply StronglySorted_inv in Hs as [_ Hs]. by constructor.
  - done.
  - intros c Hc Hk. rewrite <-!Zle_Qle. by apply Hall.
  - unfold letThrough. pose proof (rate_pos q Hreq Hwin) as Hr. pose proof (burst_pos q Hburst) as Hb.
    assert (∀ d, 0 <= d → 0 <= rate q / inject_Z 1000 * d) as Hmul.
    { intros d Hd. apply Qmult_le_0_compat; [|done]. apply Qlt_le_weak, Qlt_shift_div_l; [done|lra]. }
    assert (rate q * (inject_Z (t1 - t0) / inject_Z 1000) == rate q / inject_Z 1000 * (inject_Z t1 - inject_Z t0)) as ->.
    { unfold Z.sub. rewrite inject_Z_plus, inject_Z_opp. field. }
    rewrite Zle_Qle in Ht. set (r := rate q / inject_Z 1000) in *.
    assert (0 <= r * (inject_Z t1 - inject_Z t0)) by (apply Hmul; lra).
    unfold good in Hg. destruct (foldl _ _ _) as [n store]. cbn in *. destruct (store !! B) as [e|].
    + destruct Hg as (w'' & _ & [Htok Hcnt Hts _ _]). fold r in Hcnt.
      assert (0 <= r * (inject_Z t1 - e_ts e)) by (apply Hmul; lra). lra.
    + subst n. change (inject_Z (Z.of_nat 0)) with 0. lra.
Qed.
(** The shared buckets bound the rate.  Whatever the replicas do, with calls
    of other buckets in between, calls lost on the way, answers that come too
    late, buckets that expire and replicas whose clocks are out of order, the
    requests of a bucket forwarded between [t0] and [t1] are at most the burst
    plus what the rate refills in that time, as long as the replicas' clocks
    stay within half a bucket's filling time of Redis' and the failure mode
    is closed; when it is open, the calls that got no answer in time are
    forwarded on top of that.  In exact arithmetic: the float64 the script
    computes with rounds. *)
Theorem redis_rate_bound closed B q calls t0 t1 :
  (0 < Requests q)%Z → (0 < Window q)%Z → (0 < burstOf q)%Z → (t0 <= t1)%Z →
  StronglySorted Z.le (times calls) →
  (∀ c, c ∈ calls → keyOf c = B →
     c_quota c = q ∧ synchronised q c ∧ (t0 <= UnixMilli (c_now c) <= t1)%Z) →
  inject_Z (Z.of_nat (forwarded closed B calls)) <=
    burst q + rate q * (inject_Z (t1 - t0) / inject_Z 1000) +
    inject_Z (Z.of_nat (if closed then 0 else unanswered B calls)).
Proof.
  intros Hreq Hwin Hburst Ht Hs Hall. pose proof (letThrough_bound B q calls t0 t1 Hreq Hwin Hburst Ht Hs Hall) as Hb.
  pose proof (forwarded_let closed B calls 0 0 ∅) as Hf. fold (forwarded closed B calls) (letThrough B calls) in Hf.
  set (u := if closed then 0%nat else unanswered B calls) in *.
  assert (inject_Z (Z.of_nat (forwarded closed B calls)) <= inject_Z (Z.of_nat (letThrough B calls)) + inject_Z (Z.of_nat u)) as Hle
    by (rewrite <-inject_Z_plus, <-Zle_Qle; lia).
  lra.
Qed.
End Bound.

Module Witness.
#[local] Instance plainHash : Crypto := {| sha256 s := s; hmac_sha256 k m := m |}.

Definition ms : Z := 1000000.
Definition quota : Quota := mkQuota 1 Second 2.
Definition at_ (t : Z) (e : event) : call := mkCall e (t * ms) "user:al" quota.
(** A burst, a call whose answer is late, one that is lost, and another a
    second later, by a replica whose clock is 300 ms ahead. *)
Definition calls : list call :=
  [at_ 10000 (Executed 10000 true); at_ 10300 (Executed 10001 true); mkCall (Executed 10002 true) (10002 * ms) "user:bo" quota;
   at_ 10002 (Executed 10003 true); at_ 10004 Lost; at_ 11300 (Executed 11004 false); at_ 11301 (Executed 11005 true)].
Definition bucket : string := bucketKey "rl:" "user:al" quota.

Lemma redis_rate_bound_witness :
  forwarded (λ _, float64_of_int 0) "rl:" true bucket calls = 2%nat ∧
  forwarded (λ _, float64_of_int 0) "rl:" false bucket calls = 4%nat ∧
  (inject_Z (Z.of_nat (forwarded (λ _, float64_of_int 0) "rl:" true bucket calls)) <= 2 + (1301 # 1000) + 0)%Q.
Proof.
  split_and!; [vm_compute; reflexivity..|].
  refine (Qle_trans _ _ _ (redis_rate_bound (λ _, float64_of_int 0) "rl:" true bucket quota calls 10000 11301
    eq_refl eq_refl eq_refl _ _ _) _).
  - discriminate.
  - repeat constructor; discriminate.
  - intros c Hc Hk. unfold calls in Hc. rewrite !elem_of_cons, elem_of_nil in Hc.
    destruct Hc as [->|[->|[->|[->|[->|[->|[->|[]]]]]]]];
      (split; [reflexivity|]; split; [try exact I; split; vm_compute; discriminate|split; vm_compute; discriminate]).
  - vm_compute. discriminate.
Defined.

(** The script on float64: a third of a token left is not enough, and the
    caller is told to come back in a second. *)
Lemma float_script :
  let q := mkQuota 3 Second 1 in
  let l : RedisLimiter float64 := mkRedisLimiter ∅ "rl:" [Executed 0 true; Executed 111 true] in
  let '(d1, l1) := RedisLimiter_Allow id 0 "k" q l in
  let '(d2, l2) := RedisLimiter_Allow id (111 * ms) "k" q l1 in
  let '(d3, l3) := RedisLimiter_Allow id (222 * ms) "k" q l2 in
  (fst <$> d1, (λ d, (d.1, i_Remaining d.2, i_RetryAfter d.2)) <$> d2, fst <$> d3) =
    (Ok true, Ok (false, 0%Z, 1%Z), Err ()).
Proof. vm_compute. reflexivity. Qed.

End Witness.

End RedisLimiter.
