(* ===== verification/Edge.v ===== *)
(** * Logging and health ([internal/middleware/logging],
      [internal/observability])

    The records the logging tier writes about a request, with the redaction
    of query parameters and the hashing of client identifiers, and the
    health checker: checks collected until the library's checker is built
    from them.  How the library aggregates and caches the checks is not
    modelled. *)

From S2P Require Import Prelude GoLib Cursor Httpx Middleware Query RateLimit.
From Stdlib Require Import Ascii.
Import Strings Middleware.

Module Logging.

Definition defaultRedactedQueryParams : list string :=
  ["token"; "access_token"; "refresh_token"; "id_token"; "signature"; "sig"; "api_key"; "apikey"; "key"; "password"].

Record Config := mkConfig { RedactedQueryParams : list string; LogRawUserAgent : bool }.

Definition redactedNames (cfg : Config) : list string :=
  match RedactedQueryParams cfg with [] => defaultRedactedQueryParams | names => names end.

Definition redacts (names : list string) (k : string) : bool := existsb (EqualFold k) names.

(** The loop over the parameters replaces the values of each in place. *)
Definition redactValues (names : list string) (m : Query.Values) : Query.Values :=
  map_imap (λ k vs, Some (if redacts names k then ["***"] else vs)) m.

Definition redactQuery (rawQuery : string) (names : list string) : string :=
  if String.eqb rawQuery "" then "" else
  match Query.ParseQuery rawQuery with
  | None => "[unparseable]"
  | Some values => Query.Encode (redactValues names values)
  end.

Inductive level := Info | Warn | Error.

Record started := mkStarted {
  st_RequestID : string; st_Method : string; st_Path : string; st_Query : string;
  st_RemoteAddrHash : string; st_UserAgent : string }.

Record completed := mkCompleted {
  co_Level : level; co_RequestID : string; co_Method : string; co_Path : string; co_Status : Z;
  co_DurationMs : Z; co_ResponseSize : Z }.

Section Records.
Context `{!Crypto}.

Definition hashShort (s : string) : string :=
  if String.eqb s "" then "" else Cursor.take_str 8 (Hex.EncodeToString (sha256 s)).

Definition hashRemoteAddr (addr : string) : string :=
  if String.eqb addr "" then "" else hashShort (default addr (RateLimit.SplitHostPort addr)).

Definition requestStarted (cfg : Config) (requestID storedIP : string) (r : httpRequest) : started :=
  let ua := Header.Get (ReqHeader r) "User-Agent" in
  mkStarted requestID (Method r) (URLPath r) (redactQuery (RawQuery r) (redactedNames cfg))
    (hashRemoteAddr (RateLimit.ClientIP storedIP r)) (if LogRawUserAgent cfg then ua else hashShort ua).

Definition requestCompleted (requestID : string) (r : httpRequest) (status durationMs size : Z) : completed :=
  mkCompleted (if (500 <=? status)%Z then Error else if (400 <=? status)%Z then Warn else Info)
    requestID (Method r) (URLPath r) status durationMs size.
End Records.

Lemma redactValues_lookup names m k :
  redactValues names m !! k = (λ vs, if redacts names k then ["***"] else vs) <$> m !! k.
Proof. unfold redactValues. rewrite map_lookup_imap. by destruct (m !! k). Qed.

Lemma redactQuery_Encode raw names m : Query.ParseQuery raw = Some m →
  redactQuery raw names = Query.Encode (redactValues names m).
Proof.
  intros Hm. unfold redactQuery. rewrite Hm. destruct (String.eqb_spec raw "") as [->|]; [|done].
  injection Hm as <-. reflexivity.
Qed.

(** The log shows the query with every value of a redacted parameter
    replaced: what is logged parses to the request's parameters, redacted;
    it is the same for any two queries that differ in such values only; and
    nothing of a query that does not parse is shown. *)
Theorem log_redaction names raw :
  match Query.ParseQuery raw with
  | None => redactQuery raw names = "[unparseable]"
  | Some m =>
      (∃ shown, Query.ParseQuery (redactQuery raw names) = Some shown ∧
         ∀ k, shown !! k = (λ vs, if redacts names k then ["***"] else vs) <$> m !! k) ∧
      ∀ raw' m', Query.ParseQuery raw' = Some m' → dom m' = dom m →
        (∀ k, redacts names k = false → m' !! k = m !! k) → redactQuery raw' names = redactQuery raw names
  end.
Proof.
  destruct (Query.ParseQuery raw) as [m|] eqn:Em.
  - split.
    + exists (redactValues names m). split; [|apply redactValues_lookup].
      rewrite (redactQuery_Encode _ _ _ Em). apply Query.ParseQuery_Encode. intros k. rewrite redactValues_lookup.
      pose proof (Query.ParseQuery_nonempty _ _ Em k) as Hk.
      destruct (m !! k) as [vs|]; [|done]. cbn. by destruct (redacts names k).
    + intros raw' m' Em' Hdom Hk. rewrite (redactQuery_Encode _ _ _ Em), (redactQuery_Encode _ _ _ Em').
      f_equal. apply map_eq. intros k. rewrite !redactValues_lookup.
      destruct (redacts names k) eqn:Er; [|by rewrite Hk].
      assert (is_Some (m' !! k) ↔ is_Some (m !! k)) as Hs by by rewrite <-!elem_of_dom, Hdom.
      destruct (m' !! k), (m !! k); cbn; try done; exfalso; [destruct (proj1 Hs)|destruct (proj2 Hs)]; by eauto.
  - unfold redactQuery. rewrite Em. destruct (String.eqb_spec raw "") as [->|]; [discriminate Em|done].
Qed.

(** The names are fixed: a custom API-key parameter is logged in the clear,
    and the configuration has no way to add it. *)
Lemma custom_key_logged :
  redactQuery "sig=abc&stac_key=s3cret" (redactedNames (mkConfig [] false)) = "sig=%2A%2A%2A&stac_key=s3cret".
Proof. vm_compute. reflexivity. Qed.

End Logging.

Module Health.

Section Health.
Context {Check : Type}.

(** The library's checker is the list of its checks; [stopped] once its
    [Stop] was called. *)
Record HealthChecker := mkChecker {
  pending : list Check;
  timeout : Z;
  cacheTTL : Z;
  checker : option (list Check);
  stopped : bool;
}.

Definition NewHealthChecker : HealthChecker := mkChecker [] (5 * 1000000000) (10 * 1000000000) None false.
Definition AddCheck (c : Check) (h : HealthChecker) : HealthChecker :=
  mkChecker (pending h ++ [c]) (timeout h) (cacheTTL h) (checker h) (stopped h).
(** [build], [Start] and [HealthHandler]: the checks of the first call are
    the ones that run. *)
Definition build (h : HealthChecker) : HealthChecker :=
  match checker h with
  | Some _ => h
  | None => mkChecker (pending h) (timeout h) (cacheTTL h) (Some (pending h)) (stopped h)
  end.
Definition Start (h : HealthChecker) : HealthChecker := build h.
Definition HealthHandler (h : HealthChecker) : list Check * HealthChecker :=
  let h := build h in (default [] (checker h), h).
Definition ReadinessHandler (h : HealthChecker) : list Check * HealthChecker := HealthHandler h.

Definition Stop (h : HealthChecker) : HealthChecker :=
  match checker h with
  | Some _ => mkChecker (pending h) (timeout h) (cacheTTL h) (checker h) true
  | None => h
  end.
End Health.

(** Alive as long as it answers. *)
Definition LivenessHandler `{!JSON} (w : Header.header) : response :=
  mkResponse 200 (Header.Set_ "Content-Type" "application/json" w)
    (default "" (value_Marshal (Values.VObj [("status", Values.VStr "alive")])) +:+ String "010"%char "").

(** The probe of an origin: [None] when the request fails. *)
Definition originUp (status : option Z) : bool :=
  match status with None => false | Some s => (s <? 500)%Z end.

(** A check added after the checker was built never runs. *)
Lemma late_check_ignored {Check : Type} (c : Check) (h : HealthChecker) :
  (HealthHandler (AddCheck c (Start h))).1 = (HealthHandler h).1.
Proof. unfold HealthHandler, Start, build. by destruct h as [pending ? ? [?|] ?]. Qed.

End Health.
