(* ===== verification/SearchHandler.v ===== *)
(** * The search handlers ([internal/federation/search.go], [status.go])

    [handleSearch] composes the router, the paginator, the fan-out and the
    merger modelled in the other files, and builds the HTTP response: cursor
    links, per-origin statuses, and the markers of a partial result.

    Parameters: the origins' search calls, the single-origin pass-through
    ([reverseProxyOnce], instantiated in [Catalog]), and [encoding/json] on the response documents
    ([DocCodec]).  The request is already parsed: the parser tier runs
    before this handler. *)

From S2P Require Import Prelude GoLib Stac Fanout Merger Cursor Store PageCache.
From S2P Require Import Pagination Router Httpx Middleware Auth Cql2 Authz Query Cache.
From Stdlib Require Import Ascii.
Import Strings Values Stac Merger Cursor Middleware.

Module SearchHandler.

(** A feature collection as the handlers write it. *)
Record featureCollection := mkFeatures {
  doc_Features : list Item;
  doc_Context : SearchContext;
  doc_Links : list Link;
}.

Class DocCodec := {
  doc_Marshal : featureCollection → option bytes;
  error_Marshal : string → string → bytes;      (* code, description *)
}.

(** ** The partial-result contract ([status.go]) *)

Definition HeaderFederationPartial : string := "X-Federation-Partial".
Definition HeaderFederationFailedOrigins : string := "X-Federation-Failed-Origins".

Definition stampPartialHeaders (h : Header.header) (failed : list string) : Header.header :=
  Header.Set_ "Cache-Control" "no-store"
    (Header.Set_ HeaderFederationFailedOrigins (join_sep "," failed)
      (Header.Set_ HeaderFederationPartial "true" h)).

Definition markPartial (resp : response) (failed : list string) : response :=
  match failed with
  | [] => resp
  | _ => mkResponse (resp_Status resp) (stampPartialHeaders (resp_Header resp) failed) (resp_Body resp)
  end.

Section Handler.
Context `{!DocCodec}.

Definition errorResponse (status : Z) (code description : string) : response :=
  mkResponse status {["Content-Type" := ["application/json"]]} (error_Marshal code description).

Definition federationFailureResponse (failed : list string) : response :=
  let resp := errorResponse 502 "UpstreamFederationFailure"
    ("all routed origins failed: " +:+ join_sep "," failed) in
  mkResponse (resp_Status resp) (stampPartialHeaders (resp_Header resp) failed) (resp_Body resp).

Definition respondIfAllFailed (failed : list string) (total : nat) : option response :=
  if (total =? 0) || negb (length failed =? total) then None
  else Some (federationFailureResponse failed).

(** ** Responses *)

Definition okResponse (body : bytes) : response :=
  mkResponse 200 {["Content-Type" := ["application/geo+json"]]} body.

Definition emptySearchResponse : option response :=
  okResponse <$> doc_Marshal (mkFeatures [] (mkSearchContext 0 0 0 []) []).

Definition buildSearchResponse (fc : FeatureCollection) (failedOrigins : list string)
    : option response :=
  body ← doc_Marshal (mkFeatures (Features fc) (Context_ fc) []);
  Some (markPartial (okResponse body) failedOrigins).

(** A pagination link: the cursor in the body of a POST, in the query of a
    GET. *)
Definition cursorSearchLink (proxyBaseURL : string) (r : httpRequest) (rel cursor : string) : Link :=
  let base := TrimRightSlash proxyBaseURL in
  let path := if String.eqb (URLPath r) "" then "/search" else URLPath r in
  if String.eqb (Method r) "POST" then
    mkLink (base +:+ path) rel "application/json" ""
      [("method", VStr "POST"); ("body", VObj [("token", VStr cursor)]); ("merge", VBool true)]
  else
    let q := delete "cursor" (<["token" := [cursor]]> (Query.URLQuery (RawQuery r))) in
    mkLink (base +:+ path +:+ "?" +:+ Query.Encode q) rel "application/geo+json" ""
      [("method", VStr "GET")].

Definition linkIf (proxyBaseURL : string) (r : httpRequest) (rel cursor : string) : list Link :=
  if String.eqb cursor "" then [] else [cursorSearchLink proxyBaseURL r rel cursor].

Definition buildPaginatedSearchResponse (proxyBaseURL : string) (result : Pagination.SearchResult)
    (searchReq : SearchRequest) (r : httpRequest) : option response :=
  let items := Pagination.res_Items result in
  let '(limit, matched, origins) :=
    match Pagination.res_Context result with
    | Some c => (sc_Limit c, sc_Matched c, sc_Origins c)
    | None => (0%Z, 0%Z, [])
    end in
  let failed := Pagination.failedFromStatuses origins in
  let limit := if ((limit =? 0) && (0 <? Limit searchReq))%Z then Limit searchReq else limit in
  let sc := mkSearchContext (Z.of_nat (length items)) limit matched origins in
  let allFailed :=
    match items, Pagination.res_Context result with
    | [], Some c => respondIfAllFailed failed (length (sc_Origins c))
    | _, _ => None
    end in
  match allFailed with
  | Some resp => Some resp
  | None =>
      let links :=
        linkIf proxyBaseURL r "self" (Pagination.res_SelfCursor result) ++
        linkIf proxyBaseURL r "prev" (Pagination.res_PrevCursor result) ++
        linkIf proxyBaseURL r "first" (Pagination.res_FirstCursor result) ++
        linkIf proxyBaseURL r "next" (Pagination.res_NextCursor result) in
      body ← doc_Marshal (mkFeatures items sc links);
      Some (markPartial (okResponse body) failed)
  end.

(** ** Adapting the request to an origin

    The request is copied shallowly, so without a collection mapping the
    origins of a fan-out share one slice of collection names, and stripping
    a prefix writes into it. *)

Definition stripPrefix (prefix coll : string) : string :=
  if String.length prefix <? String.length coll then drop_str (String.length prefix) coll else coll.

Definition mapped (o : Router.Origin) (colls : list string) : list string :=
  (λ c, default c (Router.o_CollectionMapping o !! c)) <$> colls.

Definition stripped (o : Router.Origin) (colls : list string) : list string :=
  if String.eqb (Router.o_CollectionPrefix o) "" then colls
  else stripPrefix (Router.o_CollectionPrefix o) <$> colls.

Definition hasMapping (o : Router.Origin) : bool := negb (bool_decide (Router.o_CollectionMapping o = ∅)).

(** The names an origin should be asked for. *)
Definition intended (o : Router.Origin) (colls : list string) : list string :=
  stripped o (if hasMapping o then mapped o colls else colls).

(** The shared slice, and the slice of the origins that have their own. *)
Record slices := mkSlices { shared : list string; own : gmap string (list string) }.

Definition adaptRequestForOrigin (s : slices) (o : Router.Origin) : slices :=
  if hasMapping o then
    mkSlices (shared s) (<[Router.o_ID o := stripped o (mapped o (shared s))]> (own s))
  else mkSlices (stripped o (shared s)) (own s).

(** What [client.Search] then reads. *)
Definition sentCollections (s : slices) (o : Router.Origin) : list string :=
  default (shared s) (own s !! Router.o_ID o).

(** The goroutines of a fan-out interleave their two steps. *)
Inductive fanEvent := Adapt (o : Router.Origin) | Send (o : Router.Origin).

Definition fanStep (st : slices * list (string * list string)) (e : fanEvent)
    : slices * list (string * list string) :=
  match e with
  | Adapt o => (adaptRequestForOrigin st.1 o, st.2)
  | Send o => (st.1, st.2 ++ [(Router.o_ID o, sentCollections st.1 o)])
  end.

Definition sentBy (colls : list string) (events : list fanEvent) : list (string * list string) :=
  (foldl fanStep (mkSlices colls ∅, []) events).2.

(** ** Searching *)

(** A client call: the decoded collection (nil is a panic when it is read),
    its [Matched] count and whether it failed. *)
Definition clientReply : Type := result originError (option (list (option Item) * option Z)).

(** What origin [o] was asked for under a schedule of the goroutines. *)
Definition adaptedReq (events : list fanEvent) (sr : SearchRequest) (o : Router.Origin) : SearchRequest :=
  Authz.withCollections
    (from_option snd (Collections sr)
      (List.find (λ p, String.eqb p.1 (Router.o_ID o)) (sentBy (Collections sr) events))) sr.

(** The goroutine of origin [o], whose client is given the adapted request. *)
Definition searchOrigin (baseURL : string) (client : SearchRequest → clientReply)
    (adapted : SearchRequest) (o : Router.Origin) : Fanout.call OriginSearchResult string :=
  match client adapted with
  | Err e =>
      Fanout.Returned (mkResult (Router.o_ID o) baseURL (Router.o_Priority o) [] None (Some e))
  | Ok None => Fanout.Panicked "nil feature collection"
  | Ok (Some (items, matched)) =>
      Fanout.Returned (mkResult (Router.o_ID o) baseURL (Router.o_Priority o) items matched None)
  end.

(** [baseURL] and [client] are the origins' clients: their base URL and what
    their search returns on a request; [events] is the order in which the
    goroutines adapt the request and send it. *)
Definition fanOutSearch (baseURL : Router.Origin → string)
    (client : Router.Origin → SearchRequest → clientReply) (events : list fanEvent)
    (origins : list Router.Origin) (sr : SearchRequest) : list OriginSearchResult :=
  Fanout.fanOut (λ o, searchOrigin (baseURL o) (client o) (adaptedReq events sr o) o)
    (λ o _, mkResult (Router.o_ID o) (Router.o_BaseURL o) (Router.o_Priority o) [] None
              (Some (ErrFetch "panicked"))) origins.

Record Handler := mkHandler {
  h_router : Router.CollectionRouter;
  h_searcher : option Pagination.PaginatedSearcher;
  h_proxyBaseURL : string;
  h_defaultPageSize : Z;
  h_maxPageSize : Z;
}.

Definition clampPage (h : Handler) (sr : SearchRequest) : SearchRequest :=
  let n := if (Limit sr <=? 0)%Z then h_defaultPageSize h else Limit sr in
  Authz.withLimit (if (h_maxPageSize h <? n)%Z then h_maxPageSize h else n) sr.

(** The request without its pagination fields. *)
Definition hashReq (sr : SearchRequest) : SearchRequest :=
  mkSearchRequest (Collections sr) (IDs sr) (BBox sr) (Stac.Intersects sr) (Datetime sr) (Limit sr)
    "" "" (Next sr) (Sortby sr) (Filter sr) (FilterLang sr) (FilterCRS sr) (Stac.Query sr)
    (Stac.Fields sr) (OverrideURL sr) (OverrideBody sr) (AdapterName sr).

Definition isCursorError (e : cursorError) : bool :=
  match e with
  | ErrCursorInvalid _ | ErrCursorTampered | ErrCursorExpired | ErrCursorPrincipalMismatch
  | ErrCursorOriginURLNotAllowed => true
  | ErrCursorSecretMissing | ErrCursorMarshal => false
  end.

(** The fan-out branch, without a paginator. *)
Definition fanOutBranch (sr : SearchRequest) (results : list OriginSearchResult) : option response :=
  let failed := Pagination.originFailures results
    (λ r, (r_OriginID r, match r_Error r with Some _ => true | None => false end)) in
  match respondIfAllFailed failed (length results) with
  | Some resp => Some resp
  | None => buildSearchResponse (MergeSearchResults results sr) failed
  end.

Inductive handlerError := MarshalFailed | SearchFailed (e : Pagination.searchError) | NoCollection.

Definition orMarshal (o : option response) : result handlerError response :=
  match o with Some r => Ok r | None => Err MarshalFailed end.

Context `{GoTime, !Crypto, !CursorCodec, !PageCache.PageCodec, !Pagination.QueryCodec,
  !Pagination.ContextCodec, !MapRange, Store St}.

(** The cursor-aware branch.  [describe] is the text of an error. *)
Definition paginatedBranch (describe : cursorError → string) (now : Z) (h : Handler)
    (s : Pagination.PaginatedSearcher) (principal : option string) (r : httpRequest)
    (sr : SearchRequest) (st : St) : result handlerError response * St :=
  let cursorStr := if String.eqb (Stac.Cursor sr) "" then Token sr else Stac.Cursor sr in
  let '(found, st) := Pagination.Search now s principal (hashReq sr) cursorStr st in
  (match found with
   | Ok result => orMarshal (buildPaginatedSearchResponse (h_proxyBaseURL h) result (hashReq sr) r)
   | Err (Pagination.CursorError e) =>
       if isCursorError e then Ok (errorResponse 400 "InvalidParameterValue" (describe e))
       else Err (SearchFailed (Pagination.CursorError e))
   | Err e => Err (SearchFailed e)
   end, st).

(** What a search comes to: the outcome of the pass-through to a single
    origin, of whatever type that is, or a response built here. *)
Inductive reply (R : Type) := Passed (r : R) | Built (r : result handlerError response).
#[global] Arguments Passed {R}.
#[global] Arguments Built {R}.

Definition handleSearch {R} (describe : cursorError → string)
    (reverseProxyOnce : Router.Origin → SearchRequest → R)
    (baseURL : Router.Origin → string) (client : Router.Origin → SearchRequest → clientReply)
    (schedule : list Router.Origin → list fanEvent)
    (now : Z) (h : Handler) (principal : option string) (r : httpRequest) (sr : SearchRequest) (st : St)
    : reply R * St :=
  let sr := clampPage h sr in
  match Router.Route (h_router h) (Collections sr) with
  | [] => (Built (orMarshal emptySearchResponse), st)
  | [o] => (Passed (reverseProxyOnce o sr), st)
  | origins =>
      match h_searcher h with
      | Some s => let '(found, st) := paginatedBranch describe now h s principal r sr st in (Built found, st)
      | None =>
          (Built (orMarshal (fanOutBranch sr (fanOutSearch baseURL client (schedule origins) origins sr))), st)
      end
  end.

(** The collection of the path overrides the ones asked for. *)
Definition handleItems {R} (describe : cursorError → string)
    (reverseProxyOnce : Router.Origin → SearchRequest → R)
    (baseURL : Router.Origin → string) (client : Router.Origin → SearchRequest → clientReply)
    (schedule : list Router.Origin → list fanEvent)
    (now : Z) (h : Handler) (principal : option string) (r : httpRequest)
    (collection : string) (sr : SearchRequest) (st : St) : reply R * St :=
  if String.eqb collection "" then (Built (Err NoCollection), st) else
  handleSearch describe reverseProxyOnce baseURL client schedule now h principal r
    (Authz.withCollections [collection] sr) st.
End Handler.

(** ** Lemmas *)

(** What the markers of a partial result promise. *)
Record partialMarked (failed : list string) (resp : response) : Prop := {
  pm_flag : Header.Get (resp_Header resp) HeaderFederationPartial = "true";
  pm_origins : Header.Get (resp_Header resp) HeaderFederationFailedOrigins = join_sep "," failed;
  pm_nostore : Cache.noStore (resp_Header resp) = true;
}.

Lemma stamped_marked failed st h b : partialMarked failed (mkResponse st (stampPartialHeaders h failed) b).
Proof.
  unfold stampPartialHeaders, HeaderFederationPartial, HeaderFederationFailedOrigins.
  split; cbn [resp_Header]; unfold Cache.noStore, Header.Get, Header.Values, Header.Set_.
  - rewrite lookup_insert_ne, lookup_insert_ne, lookup_insert_eq by done. done.
  - rewrite lookup_insert_ne, lookup_insert_eq by done. done.
  - rewrite lookup_insert_eq. done.
Qed.

Lemma markPartial_spec resp failed :
  (failed = [] → markPartial resp failed = resp) ∧
  (failed ≠ [] → partialMarked failed (markPartial resp failed)) ∧
  resp_Status (markPartial resp failed) = resp_Status resp.
Proof. destruct failed; cbn; split_and!; try done. intros _. apply stamped_marked. Qed.

Lemma respondIfAllFailed_spec `{!DocCodec} failed total :
  match respondIfAllFailed failed total with
  | Some resp => (total ≠ 0 ∧ length failed = total) ∧ resp_Status resp = 502%Z ∧ partialMarked failed resp
  | None => total = 0 ∨ length failed ≠ total
  end.
Proof.
  unfold respondIfAllFailed. destruct (Nat.eqb_spec total 0); cbn [orb]; [by left|].
  destruct (Nat.eqb_spec (length failed) total); cbn; [|by right].
  split_and!; [done|done|done|]. apply stamped_marked.
Qed.

(** A response with a no-store header never reaches the store of the
    response cache. *)
Lemma noStore_not_stored `{!Crypto, !MapRange, !Cache.EntryCodec, Store St} cfg now req cap (s : St) :
  Cache.noStore (Httpx.rc_header cap) = true → Cache.storeResponse cfg now req cap s = s.
Proof. intros Hn. unfold Cache.storeResponse. rewrite Hn. by case_match. Qed.

(** With its own slice for every origin that strips a prefix, each origin is
    asked for its intended names under every interleaving. *)
Definition ownSlice (o : Router.Origin) : Prop :=
  Router.o_CollectionPrefix o ≠ "" → hasMapping o = true.

(** Goroutine [o] adapts before it sends, and its ID is its own. *)
Definition ready (o : Router.Origin) (before : list fanEvent) : Prop :=
  Adapt o ∈ before ∧ ∀ o', Adapt o' ∈ before → Router.o_ID o' = Router.o_ID o → o' = o.

(** After [events]: the shared slice is untouched, own slices and what was
    sent are as intended. *)
Record fanInv (colls : list string) (events : list fanEvent)
    (st : slices * list (string * list string)) : Prop := {
  fi_shared : shared st.1 = colls;
  fi_own : ∀ id l, own st.1 !! id = Some l →
    ∃ o, Adapt o ∈ events ∧ Router.o_ID o = id ∧ l = intended o colls;
  fi_all : ∀ o, Adapt o ∈ events → hasMapping o = true → is_Some (own st.1 !! Router.o_ID o);
  fi_sent : Forall (λ p, ∃ o, Send o ∈ events ∧ p.1 = Router.o_ID o ∧ p.2 = intended o colls) st.2;
  fi_replied : ∀ o, Send o ∈ events → Router.o_ID o ∈ st.2.*1;
}.

Lemma stripped_shared o colls : ownSlice o → hasMapping o = false → stripped o colls = colls.
Proof.
  intros Ho Hm. unfold stripped. destruct (String.eqb_spec (Router.o_CollectionPrefix o) ""); [done|].
  by rewrite (Ho n) in Hm.
Qed.

(** The parts of the invariant that an adaptation leaves alone. *)
Lemma sent_mono colls events e l :
  Forall (λ p : string * list string,
    ∃ o, Send o ∈ events ∧ p.1 = Router.o_ID o ∧ p.2 = intended o colls) l →
  Forall (λ p, ∃ o, Send o ∈ events ++ [e] ∧ p.1 = Router.o_ID o ∧ p.2 = intended o colls) l.
Proof. intros Hl. eapply Forall_impl; [exact Hl|]. intros p (o & ? & ?). exists o. set_solver. Qed.

Lemma fanInv_adapt colls events st o :
  ownSlice o → fanInv colls events st → fanInv colls (events ++ [Adapt o]) (fanStep st (Adapt o)).
Proof.
  intros Hos [Hsh Hown Hall Hsent Hrep]. cbn. unfold adaptRequestForOrigin.
  assert (∀ o', Send o' ∈ events ++ [Adapt o] → Router.o_ID o' ∈ st.2.*1).
  { intros o' [Hin|Hx%list_elem_of_singleton]%elem_of_app; [by apply Hrep|done]. }
  apply (sent_mono _ _ (Adapt o)) in Hsent.
  destruct (hasMapping o) eqn:Em; split; cbn; try done.
  - intros id l. rewrite lookup_insert. case_decide as Hid.
    + intros [= <-]. exists o. rewrite Hsh. unfold intended. rewrite Em. set_solver.
    + intros Hl. destruct (Hown id l Hl) as (o' & ? & ? & ?). exists o'. set_solver.
  - intros o' Hin Hm'. rewrite lookup_insert. case_decide; [eauto|].
    apply elem_of_app in Hin as [Hin|Hx%list_elem_of_singleton]; [by apply Hall|congruence].
  - by rewrite stripped_shared.
  - intros id l Hl. destruct (Hown id l Hl) as (o' & ? & ?). exists o'. set_solver.
  - intros o' Hin Hm'.
    apply elem_of_app in Hin as [Hin|Hx%list_elem_of_singleton]; [by apply Hall|congruence].
Qed.

Lemma fanInv_send colls events st o :
  ownSlice o → ready o events → fanInv colls events st →
  fanInv colls (events ++ [Send o]) (fanStep st (Send o)).
Proof.
  intros Hos [Had Huniq] [Hsh Hown Hall Hsent Hrep]. split; cbn; [done|..].
  - intros id l Hl. destruct (Hown id l Hl) as (o' & ? & ?). exists o'. set_solver.
  - intros o' Hin Hm'.
    apply elem_of_app in Hin as [Hin|Hx%list_elem_of_singleton]; [by apply Hall|done].
  - apply Forall_app. split; [by apply sent_mono|]. apply Forall_singleton.
    exists o. split_and!; [set_solver|done|]. cbn.
    unfold sentCollections. destruct (own st.1 !! Router.o_ID o) as [l|] eqn:El; cbn.
    + destruct (Hown _ _ El) as (o' & Hin & Hid & ->). by rewrite (Huniq o').
    + rewrite Hsh. destruct (hasMapping o) eqn:Em.
      * destruct (Hall o Had Em) as [x Hx]. by rewrite El in Hx.
      * unfold intended. rewrite Em. by rewrite stripped_shared.
  - intros o' Hin. rewrite fmap_app, elem_of_app. cbn.
    apply elem_of_app in Hin as [Hin|[= ->]%list_elem_of_singleton]; [left; by apply Hrep|right; set_solver].
Qed.

(** The names the origins of a schedule can make of the collections of a
    search, one after the other in the slice they share. *)
Inductive renamed (events : list fanEvent) (colls : list string) : string → Prop :=
| renamed_same x : x ∈ colls → renamed events colls x
| renamed_mapped o x y :
    Adapt o ∈ events → renamed events colls x → Router.o_CollectionMapping o !! x = Some y → renamed events colls y
| renamed_stripped o x y :
    Adapt o ∈ events → renamed events colls x → Router.o_CollectionPrefix o ≠ "" →
    y = drop_str (String.length (Router.o_CollectionPrefix o)) x → renamed events colls y.

(** What a fan-out may ask an origin for a search: the same search in
    everything but the names of its collections, each of them a renaming of
    one of the search. *)
Record fanned (events : list fanEvent) (sr sr' : SearchRequest) : Prop := {
  fa_rest : Authz.untouched sr sr' ∧ Limit sr' = Limit sr ∧ Filter sr' = Filter sr ∧ FilterLang sr' = FilterLang sr;
  fa_length : length (Collections sr') = length (Collections sr);
  fa_names : ∀ x, x ∈ Collections sr' → renamed events (Collections sr) x;
}.

Abbreviation renaming_of events colls l := (length l = length colls ∧ Forall (renamed events colls) l).

Lemma adapt_renaming events colls o l :
  Adapt o ∈ events → renaming_of events colls l →
  renaming_of events colls (stripped o l) ∧ renaming_of events colls (mapped o l).
Proof.
  intros Ho [Hl Hr]. unfold stripped, mapped. split.
  - destruct (String.eqb_spec (Router.o_CollectionPrefix o) ""); [done|]. rewrite length_fmap. split; [done|].
    apply Forall_fmap. eapply Forall_impl; [exact Hr|]. intros x Hx. cbn. unfold stripPrefix. case_match; [|done].
    by eapply renamed_stripped.
  - rewrite length_fmap. split; [done|]. apply Forall_fmap. eapply Forall_impl; [exact Hr|]. intros x Hx. cbn.
    destruct (Router.o_CollectionMapping o !! x) as [y|] eqn:E; cbn; [by eapply renamed_mapped|done].
Qed.

Lemma sentBy_renaming events colls : Forall (λ p, renaming_of events colls p.2) (sentBy colls events).
Proof.
  assert (∀ pre, (∀ e, e ∈ pre → e ∈ events) →
    let st := foldl fanStep (mkSlices colls ∅, []) pre in
    renaming_of events colls (shared st.1) ∧ (∀ id l, own st.1 !! id = Some l → renaming_of events colls l) ∧
    Forall (λ p, renaming_of events colls p.2) st.2) as Hpre; [|by apply Hpre].
  induction pre as [|e pre IH] using rev_ind; intros Hin; cbn zeta.
  - cbn. split_and!; [done| | |constructor]; [apply Forall_forall; intros x; by apply renamed_same|done].
  - rewrite foldl_app. cbn [foldl]. destruct IH as (Hs & Ho & Hf); [set_solver|].
    assert (e ∈ events) as He by (apply Hin, elem_of_app; right; left).
    destruct (foldl fanStep _ pre) as [[sh ow] sent]. cbn in *. destruct e as [o|o]; cbn.
    + unfold adaptRequestForOrigin. case_match; cbn.
      * split; [done|]. split; [|done]. intros id l. destruct (decide (Router.o_ID o = id)) as [<-|];
          [rewrite lookup_insert_eq; intros [= <-]|rewrite lookup_insert_ne by done; apply Ho].
        apply adapt_renaming; [done|]. by apply adapt_renaming.
      * split; [by apply adapt_renaming|done].
    + split; [done|]. split; [done|]. apply Forall_app. split; [done|]. apply Forall_singleton. unfold sentCollections. cbn.
      destruct (ow !! Router.o_ID o) as [l|] eqn:E; [by eapply Ho|done].
Qed.

Lemma adaptedReq_fanned events sr o : fanned events sr (adaptedReq events sr o).
Proof.
  unfold adaptedReq. destruct (List.find _ _) as [[id l]|] eqn:E; cbn.
  - apply find_some in E as [E _]. pose proof (sentBy_renaming events (Collections sr)) as Hs.
    rewrite Forall_forall in Hs. destruct (Hs _ (proj2 (list_elem_of_In _ _) E)) as [Hl Hr]. rewrite Forall_forall in Hr.
    by split.
  - split; [done|done|]. intros x. by apply renamed_same.
Qed.

(** A schedule of a fan-out over [origins]: each goroutine adapts, then sends. *)
Record schedule_ok (origins : list Router.Origin) (events : list fanEvent) : Prop := {
  so_ready : ∀ l1 o l2, events = l1 ++ Send o :: l2 → ready o l1;
  so_sends : ∀ o, o ∈ origins ↔ Send o ∈ events;
}.

Lemma fanInv_events colls events :
  Forall (λ e, match e with Adapt o | Send o => ownSlice o end) events →
  (∀ l1 o l2, events = l1 ++ Send o :: l2 → ready o l1) →
  fanInv colls events (foldl fanStep (mkSlices colls ∅, []) events).
Proof.
  induction events as [|e events IH] using rev_ind; intros Hown Hs; [split; set_solver|].
  rewrite foldl_app. cbn [foldl]. apply Forall_app in Hown as [Hown He]. rewrite Forall_singleton in He.
  assert (fanInv colls events (foldl fanStep (mkSlices colls ∅, []) events)) as Hi.
  { apply IH; [done|]. intros l1 o l2 ->. apply (Hs l1 o (l2 ++ [e])). by rewrite <-List.app_assoc. }
  destruct e as [o|o]; [by apply fanInv_adapt|]. apply fanInv_send; [done|by apply (Hs events o [])|done].
Qed.

Lemma omap_failed_all {T} (l : list T) (status : T → string * bool) :
  length (omap (λ r, let '(id, f) := status r in if f then Some id else None) l) = length l ↔
  Forall (λ r, (status r).2 = true) l.
Proof.
  assert (Hle : ∀ l, length (omap (λ r, let '(id, f) := status r in if f then Some id else None) l)
    ≤ length l).
  { induction l0 as [|x l0 IH]; cbn; [lia|]. destruct (status x) as [id []]; cbn; lia. }
  induction l as [|x l IH]; cbn; [split; [constructor|done]|]. rewrite Forall_cons, <-IH.
  specialize (Hle l). destruct (status x) as [id []]; cbn; [|split; [lia|naive_solver]].
  split; [intros [= ->]; done|intros [_ ->]; done].
Qed.

(** Everything failed exactly when as many names as results are listed. *)
Lemma originFailures_all {T} (l : list T) (status : T → string * bool) :
  length (Pagination.originFailures l status) = length l ↔ Forall (λ r, (status r).2 = true) l.
Proof. unfold Pagination.originFailures, sort_Strings. by rewrite sort_stable_length, omap_failed_all. Qed.

(** The shape shared by both builders: an all-failed response, or a 200
    with the markers. *)
Lemma partial_or_ok `{!DocCodec} failed total serves (marshalled : option bytes) resp :
  match (if serves : bool then None else respondIfAllFailed failed total) with
  | Some r => Some r
  | None => body ← marshalled; Some (markPartial (okResponse body) failed)
  end = Some resp →
  resp_Status resp =
    (if decide (serves = false ∧ total ≠ 0%nat ∧ length failed = total) then 502 else 200)%Z ∧
  (failed ≠ [] → partialMarked failed resp) ∧
  (failed = [] → resp_Header resp = {["Content-Type" := ["application/geo+json"]]}).
Proof.
  assert (Hok : (body ← marshalled; Some (markPartial (okResponse body) failed)) = Some resp →
    resp_Status resp = 200%Z ∧ (failed ≠ [] → partialMarked failed resp) ∧
    (failed = [] → resp_Header resp = {["Content-Type" := ["application/geo+json"]]})).
  { destruct marshalled as [body|]; [|done]. intros [= <-].
    destruct (markPartial_spec (okResponse body) failed) as (Hn & Hm & Hs). rewrite Hs.
    split_and!; [done|done|]. intros ->. by rewrite Hn. }
  pose proof (respondIfAllFailed_spec failed total) as Hf. intros Hr. destruct serves.
  { rewrite decide_False by naive_solver. auto. }
  destruct (respondIfAllFailed failed total) as [r0|].
  - injection Hr as ->. destruct Hf as ((Ht & Hl) & Hst & Hmk). rewrite decide_True by done.
    split_and!; [done|done|]. intros ->. cbn in Hl. congruence.
  - rewrite decide_False by naive_solver. auto.
Qed.

Lemma paginated_partial_or_ok `{!DocCodec} base result sr r resp :
  let failed := Pagination.failedFromStatuses (Pagination.statusesOf result) in
  buildPaginatedSearchResponse base result sr r = Some resp →
  resp_Status resp =
    (if decide (bool_decide (Pagination.res_Items result ≠ []) = false ∧
        length (Pagination.statusesOf result) ≠ 0%nat ∧
        length failed = length (Pagination.statusesOf result)) then 502 else 200)%Z ∧
  (failed ≠ [] → partialMarked failed resp) ∧
  (failed = [] → resp_Header resp = {["Content-Type" := ["application/geo+json"]]}).
Proof.
  intros failed Hr. unfold buildPaginatedSearchResponse in Hr. unfold failed, Pagination.statusesOf in *.
  destruct (Pagination.res_Context result) as [c|] eqn:Ec; cbn zeta match in *.
  - destruct (Pagination.res_Items result) as [|x items];
      [apply (partial_or_ok _ (length (sc_Origins c)) false (doc_Marshal _)) in Hr
      |apply (partial_or_ok _ (length (sc_Origins c)) true (doc_Marshal _)) in Hr];
      destruct Hr as (-> & Hm & Hn); (split_and!; [|done|done]);
      by apply decide_ext; rewrite bool_decide_eq_false; naive_solver.
  - destruct (Pagination.res_Items result) as [|x items];
      apply (partial_or_ok _ 0 true (doc_Marshal _)) in Hr;
      destruct Hr as (-> & Hm & Hn); (split_and!; [|done|done]);
      by apply decide_ext; rewrite bool_decide_eq_false; naive_solver.
Qed.

(** ** Properties *)

(** C16: The partial-result contract of a federated search: the response is
    the 502 of a total failure exactly when some origin was asked and all of
    them failed (and, on a page, nothing is served), and 200 otherwise; if
    any origin failed it carries the partial marker, the sorted list of the
    failed origins and no-store, so the response cache never stores it; if
    none failed it carries no marker. *)
Theorem search_partial_contract `{!DocCodec, !Crypto, !MapRange, !Cache.EntryCodec, Store St}
    base result sr r resp results :
  let failed := Pagination.originFailures results
    (λ r, (r_OriginID r, match r_Error r with Some _ => true | None => false end)) in
  let pageFailed := Pagination.failedFromStatuses (Pagination.statusesOf result) in
  (fanOutBranch sr results = Some resp →
   resp_Status resp = (if decide (results ≠ [] ∧ Forall (λ r, r_Error r ≠ None) results) then 502 else 200)%Z ∧
   (failed ≠ [] → partialMarked failed resp) ∧
   (failed = [] → resp_Header resp = {["Content-Type" := ["application/geo+json"]]})) ∧
  (buildPaginatedSearchResponse base result sr r = Some resp →
   resp_Status resp = (if decide (Pagination.res_Items result = [] ∧ Pagination.statusesOf result ≠ [] ∧
     length pageFailed = length (Pagination.statusesOf result)) then 502 else 200)%Z ∧
   (pageFailed ≠ [] → partialMarked pageFailed resp) ∧
   (pageFailed = [] → resp_Header resp = {["Content-Type" := ["application/geo+json"]]})) ∧
  (∀ names cfg now req cap (s : St), partialMarked names resp → Httpx.rc_header cap = resp_Header resp →
     Cache.storeResponse cfg now req cap s = s).
Proof.
  intros failed pageFailed. split_and!.
  - intros Hr. destruct (partial_or_ok failed (length results) false
      (doc_Marshal (mkFeatures (Features (MergeSearchResults results sr))
        (Context_ (MergeSearchResults results sr)) [])) resp Hr) as (Hs & Hm & Hn).
    split_and!; [|done|done]. rewrite Hs. apply decide_ext.
    unfold failed. rewrite originFailures_all. split.
    + intros (_ & Hl & Hf). split; [by destruct results|]. eapply Forall_impl; [exact Hf|].
      intros x. cbn. by destruct (r_Error x).
    + intros (Hl & Hf). split_and!; [done|by destruct results|]. eapply Forall_impl; [exact Hf|].
      intros x. cbn. by destruct (r_Error x).
  - intros Hr. apply paginated_partial_or_ok in Hr as (Hs & Hm & Hn). split_and!; [|done|done].
    rewrite Hs. apply decide_ext. fold pageFailed.
    destruct (Pagination.res_Items result), (Pagination.statusesOf result); cbn; naive_solver.
  - intros names cfg now req cap s Hm Hc. apply noStore_not_stored. rewrite Hc. apply Hm.
Qed.

(** Following a pagination link repeats the request with the new cursor
    and nothing else changed: a POST link has the cursor as the token of a
    body to merge into the original one; the query of a GET link decodes to
    the parameters of the request it was built from, with the token
    replaced and any old cursor parameter gone. *)
Theorem cursorSearchLink_follow base r rel cursor :
  let l := cursorSearchLink base r rel cursor in
  let path := if String.eqb (URLPath r) "" then "/search" else URLPath r in
  Rel l = rel ∧
  if String.eqb (Method r) "POST" then
    Href l = TrimRightSlash base +:+ path ∧ index "method" (LinkFields l) = VStr "POST" ∧
    index "body" (LinkFields l) = VObj [("token", VStr cursor)] ∧
    index "merge" (LinkFields l) = VBool true
  else ∃ q, Href l = TrimRightSlash base +:+ path +:+ "?" +:+ q ∧
    Query.Get (Query.URLQuery q) "token" = cursor ∧
    Query.URLQuery q !! "cursor" = None ∧
    ∀ k, k ≠ "token" → k ≠ "cursor" → Query.URLQuery q !! k = Query.URLQuery (RawQuery r) !! k.
Proof.
  intros l path. unfold l, cursorSearchLink. fold path. destruct (String.eqb (Method r) "POST"); [done|].
  split; [done|].
  exists (Query.Encode (delete "cursor" (<["token" := [cursor]]> (Query.URLQuery (RawQuery r))))).
  split; [done|]. rewrite Query.URLQuery_Encode.
  - unfold Query.Get. rewrite lookup_delete_ne, lookup_insert_eq, lookup_delete_eq by done.
    split_and!; [done|done|]. intros k H1 H2. by rewrite lookup_delete_ne, lookup_insert_ne.
  - intros k. rewrite lookup_delete, lookup_insert. repeat case_decide; try done.
    apply Query.URLQuery_nonempty.
Qed.

(** Under every schedule in which the origins that strip a prefix have their
    own slice, the fan-out is the one that asks each origin for its intended
    names: the interleaving does not matter. *)
Theorem fanOutSearch_intended baseURL client events origins sr :
  (∀ o o', o ∈ origins → o' ∈ origins → Router.o_ID o = Router.o_ID o' → o = o') →
  Forall (λ e, match e with Adapt o | Send o => ownSlice o end) events →
  schedule_ok origins events →
  fanOutSearch baseURL client events origins sr =
  Fanout.fanOut
    (λ o, searchOrigin (baseURL o) (client o)
       (Authz.withCollections (intended o (Collections sr)) sr) o)
    (λ o _, mkResult (Router.o_ID o) (Router.o_BaseURL o) (Router.o_Priority o) [] None
       (Some (ErrFetch "panicked"))) origins.
Proof.
  intros Huniq Hown [Hready Hsends]. unfold fanOutSearch.
  destruct (fanInv_events (Collections sr) events Hown Hready) as [_ _ _ Hsent Hrep].
  unfold Fanout.fanOut. apply list_fmap_ext. intros i o Ho%list_elem_of_lookup_2.
  enough (Hc : adaptedReq events sr o = Authz.withCollections (intended o (Collections sr)) sr)
    by (unfold Fanout.slot; by rewrite Hc).
  unfold adaptedReq. f_equal. fold (sentBy (Collections sr) events) in *.
  destruct (List.find _ _) as [p|] eqn:Ef; cbn.
  - apply List.find_some in Ef as [Hin He%String.eqb_eq].
    rewrite Forall_forall in Hsent. destruct (Hsent p) as (o' & Hs & Hid & ->); [by apply list_elem_of_In|].
    rewrite (Huniq o o'); [done|done|by apply Hsends|congruence].
  - destruct (proj1 (list_elem_of_fmap _ _ _) (Hrep o (proj1 (Hsends o) Ho))) as (p & Hp & Hin).
    apply list_elem_of_In, (List.find_none _ _ Ef) in Hin. by rewrite Hp, String.eqb_refl in Hin.
Qed.

Module Witness.
#[local] Existing Instance Cache.Witness.plainHash.
#[local] Existing Instance Cache.Witness.okCodec.
#[local] Existing Instance StoreProperties.assoc_LRU.

#[local] Instance docs : DocCodec := {|
  doc_Marshal d := Some (join_sep "," (ID <$> doc_Features d)); error_Marshal c d := c |}.

Definition oneItem (id : string) : option Item := Some (mkItem id "c" [] None VNil).
Definition answers (failing : bool) : list OriginSearchResult :=
  [mkResult "b" "https://b" 0 [oneItem "x"] None None;
   mkResult "a" "https://a" 1 [] None (if failing then Some ErrCircuitOpen else None)].

Lemma search_partial_contract_witness :
  ∃ resp, fanOutBranch emptySearchRequest (answers true) = Some resp ∧ resp_Status resp = 200%Z ∧
    Header.Get (resp_Header resp) "X-Federation-Failed-Origins" = "a" ∧
    Cache.noStore (resp_Header resp) = true.
Proof.
  destruct (fanOutBranch emptySearchRequest (answers true)) as [resp|] eqn:E; [|vm_compute in E; discriminate E].
  destruct (search_partial_contract (St:=Memory.MemoryStore (L:=StoreProperties.assocLRU)) "" (Pagination.mkSearchResult [] 0 "" "" "" "" None)
    emptySearchRequest (mkRequest "GET" "/search" "" ∅ "") resp (answers true)) as (Hf & _ & _).
  exists resp. destruct (Hf E) as (Hs & Hm & _).
  destruct Hm as [_ Ho Hn]; [vm_compute; discriminate|].
  split_and!; [done| |exact Ho|done].
  rewrite Hs. vm_compute. reflexivity.
Defined.

Lemma cursorSearchLink_follow_witness :
  ∃ q, Href (cursorSearchLink "https://p/" (mkRequest "GET" "/search" "limit=5&cursor=old" ∅ "") "next" "t.1")
      = "https://p/search?" +:+ q ∧ Query.Get (Query.URLQuery q) "token" = "t.1" ∧
    Query.URLQuery q !! "limit" = Some ["5"] ∧ Query.URLQuery q !! "cursor" = None.
Proof.
  destruct (cursorSearchLink_follow "https://p/" (mkRequest "GET" "/search" "limit=5&cursor=old" ∅ "")
    "next" "t.1") as (_ & q & Hq & Ht & Hc & Hk).
  exists q. split_and!; [exact Hq|exact Ht| |exact Hc].
  rewrite (Hk "limit") by done. vm_compute. reflexivity.
Defined.

(** Two origins that both strip the prefix [s1-]: whichever adapts second
    finds the names already stripped and cuts them again. *)
Definition prefixed (id : string) : Router.Origin :=
  Router.mkOrigin id ("https://" +:+ id) true [] [] 0 false true "s1-" false false false ∅ "".

Lemma shared_slice_race :
  sentBy ["s1-landsat"] [Adapt (prefixed "a"); Send (prefixed "a"); Adapt (prefixed "b"); Send (prefixed "b")]
    = [("a", ["landsat"]); ("b", ["dsat"])] ∧
  intended (prefixed "b") ["s1-landsat"] = ["landsat"].
Proof. split; vm_compute; reflexivity. Qed.

(** Two origins with a prefix and a mapping, their goroutines interleaved. *)
Definition renaming (id name : string) : Router.Origin :=
  Router.mkOrigin id ("https://" +:+ id) true [] [] 0 false true "s1-" false false false
    {["landsat" := name]} "".
Definition interleaved : list fanEvent :=
  [Adapt (renaming "a" "s1-l8"); Adapt (renaming "b" "s1-l9");
   Send (renaming "b" "s1-l9"); Send (renaming "a" "s1-l8")].

Lemma interleaved_ok :
  schedule_ok [renaming "a" "s1-l8"; renaming "b" "s1-l9"] interleaved.
Proof.
  split.
  - intros [|? [|? [|? [|? [|]]]]] o l2 [=]; subst; split; try set_solver;
      intros o' Hin Hid; repeat (apply elem_of_cons in Hin as [[= ->]|Hin]; [by try discriminate Hid|]);
      by apply elem_of_nil in Hin.
  - intros o. unfold interleaved. set_solver.
Qed.

(** Each client answers with one item named after the first collection it
    was asked for. *)
Lemma fanOutSearch_intended_witness :
  (λ r, (r_OriginID r, fmap (M:=list) (fmap (M:=option) ID) (r_Items r))) <$>
    fanOutSearch Router.o_BaseURL (λ _ sr, Ok (Some ([oneItem (default "" (Collections sr !! 0))], None)))
      interleaved [renaming "a" "s1-l8"; renaming "b" "s1-l9"]
      (Authz.withCollections ["landsat"] emptySearchRequest)
  = [("a", [Some "l8"]); ("b", [Some "l9"])].
Proof.
  rewrite (fanOutSearch_intended Router.o_BaseURL
    (λ _ sr, Ok (Some ([oneItem (default "" (Collections sr !! 0))], None))) interleaved).
  - vm_compute. reflexivity.
  - set_solver.
  - repeat constructor; intros _; vm_compute; reflexivity.
  - exact interleaved_ok.
Defined.

(** A name that does not carry the prefix is cut all the same. *)
Lemma foreign_name_cut : intended (prefixed "a") ["modis"] = ["is"].
Proof. vm_compute. reflexivity. Qed.
End Witness.

End SearchHandler.
