(* ===== verification/Config.v ===== *)
(** * Configuration ([internal/config/config.go])

    The configuration structures, the expansion of environment references in
    the parsed YAML tree, and the defaults.  [Validation.v] has the validator
    and [Load], which composes them.

    Durations are nanoseconds.  A pointer field is an [option]; the
    [map[string]interface{}] of a middleware block is an [option] of the
    decoded object, [None] being the nil map. *)

From S2P Require Import Prelude GoLib.
From Stdlib Require Import Ascii.
From Equations Require Import Equations.
Import Strings Values.

Module Config.
#[local] Open Scope Z_scope.

Definition second : Z := 1000000000.
Definition minute : Z := 60 * second.

(** ** Structures *)

Record RedisTLSConfig := mkRedisTLS {
  rt_Enabled : bool;
  rt_CAFile : string;
  rt_CertFile : string;
  rt_KeyFile : string;
  rt_InsecureSkipVerify : bool;
}.

Record RedisConfig := mkRedis {
  rd_Addr : string;
  rd_Username : string;
  rd_Password : string;
  rd_DB : Z;
  rd_KeyPrefix : string;
  rd_PoolSize : Z;
  rd_MinIdleConns : Z;
  rd_DialTimeout : Z;
  rd_ReadTimeout : Z;
  rd_WriteTimeout : Z;
  rd_TLS : RedisTLSConfig;
}.

Record ClientIPConfig := mkClientIP {
  ci_Source : string;
  ci_Header : string;
  ci_TrustedProxies : list string;
  ci_TrustedCount : Z;
}.

Record TLSConfig := mkTLS { tls_Enabled : bool; tls_CertFile : string; tls_KeyFile : string }.

Record TimeoutConfig := mkTimeouts { t_Read : Z; t_ReadHeader : Z; t_Write : Z; t_Idle : Z }.

Record ServerConfig := mkServer {
  s_Host : string;
  s_Port : Z;
  s_TLS : TLSConfig;
  s_Timeouts : TimeoutConfig;
  s_MaxBodyBytes : Z;
  s_MaxHeaderBytes : Z;
  s_PublicBaseURL : string;
  s_ClientIP : ClientIPConfig;
}.

Record LoggingConfig := mkLogging { l_Level : string; l_Format : string }.

Record MiddlewareConfig := mkMiddleware {
  mw_Name : string;
  mw_Config : option (list (string * value));
}.

Record UpstreamConfig := mkUpstream {
  u_URL : string;
  u_Timeout : Z;
  u_SupportsFilterExtension : bool;
  u_SupportsSpatialFilter : bool;
  u_MaxResponseBytes : Z;
  u_AllowPrivateOrigin : bool;
}.

Record PageCacheConfig := mkPageCache {
  pc_Enabled : option bool;
  pc_Store : string;
  pc_MaxEntries : Z;
  pc_TTL : Z;
}.

Record PaginationConfig := mkPagination {
  pg_Adapter : string;
  pg_OffsetParam : string;
  pg_TokenParam : string;
}.

Record RetryConfig := mkRetry {
  ry_MaxRetries : Z;
  ry_InitialBackoff : Z;
  ry_MaxBackoff : Z;
  ry_RetryOn : list Z;
}.

Record CircuitBreakerConfig := mkBreaker {
  cb_Enabled : option bool;
  cb_FailureThreshold : Z;
  cb_OpenDuration : Z;
  cb_MaxOpenDuration : Z;
  cb_HalfOpenProbes : Z;
}.

Record OAuth2Config := mkOAuth2 {
  oa_TokenURL : string;
  oa_ClientID : string;
  oa_ClientSecret : string;
  oa_Scopes : list string;
  oa_Audience : string;
}.

Record AWSSigV4Config := mkSigV4 {
  sv_Region : string;
  sv_Service : string;
  sv_AccessKey : string;
  sv_SecretKey : string;
}.

Record OriginAuthConfig := mkOriginAuth {
  a_Type : string;
  a_Username : string;
  a_Password : string;
  a_Token : string;
  a_APIKeyHeader : string;
  a_APIKeyValue : string;
  a_APIKeyInQuery : bool;
  a_OAuth2 : option OAuth2Config;
  a_AWSSigV4 : option AWSSigV4Config;
  a_CustomHeaders : gmap string string;
}.

Record OriginConfig := mkOriginConfig {
  og_ID : string;
  og_Name : string;
  og_Description : string;
  og_BaseURL : string;
  og_Enabled : bool;
  og_Timeout : Z;
  og_Retry : option RetryConfig;
  og_CircuitBreaker : option CircuitBreakerConfig;
  og_MaxIdleConnsPerHost : Z;
  og_Auth : option OriginAuthConfig;
  og_Collections : list string;
  og_ExcludeCollections : list string;
  og_Priority : Z;
  og_ReadOnly : bool;
  og_Searchable : bool;
  og_AutoDiscover : bool;
  og_DiscoveryInterval : Z;
  og_CollectionPrefix : string;
  og_CollectionMapping : gmap string string;
  og_StripPathPrefix : string;
  og_SupportsFilterExtension : bool;
  og_SupportsSpatialFilter : bool;
  og_MaxResponseBytes : Z;
  og_ForwardUserIdentity : bool;
  og_RewriteAssets : string;
  og_AssetSignTTL : Z;
  og_Pagination : option PaginationConfig;
}.

Record FederationConfig := mkFederation {
  f_Origins : list OriginConfig;
  f_MaxConcurrent : Z;
  f_AggregateTimeout : Z;
  f_DefaultPageSize : Z;
  f_MaxPageSize : Z;
  f_AllowPrivateOrigins : bool;
  f_CursorSecret : string;
  f_PageCache : option PageCacheConfig;
}.

Record OPAConfig := mkOPA {
  op_PolicyPath : string;
  op_Embedded : bool;
  op_BundleURL : string;
  op_BundlePollInterval : Z;
  op_RegoFiles : list string;
  op_DataFiles : list string;
  op_Timeout : Z;
  op_CacheDecisions : bool;
  op_CacheTTL : Z;
}.

(** [az_CQL2Injection] is the [Enabled] flag of the block. *)
Record AuthzConfig := mkAuthz { az_OPA : option OPAConfig; az_CQL2Injection : option bool }.

Record Config := mkConfig {
  c_Server : ServerConfig;
  c_Logging : LoggingConfig;
  c_Middleware : list MiddlewareConfig;
  c_Mode : string;
  c_Upstream : option UpstreamConfig;
  c_Federation : option FederationConfig;
  c_HealthPath : string;
  c_Authz : option AuthzConfig;
  c_Redis : option RedisConfig;
}.

Definition IsFederation (c : Config) : bool := String.eqb (c_Mode c) "federation".

Definition GetOrigin (c : Config) (id : string) : option OriginConfig :=
  f ← c_Federation c; List.find (λ o, String.eqb (og_ID o) id) (f_Origins f).

(** ** Defaults *)

Definition DefaultMaxHeaderBytes : Z := 64 * 1024.

(** [if x == 0 { x = d }] and [if x == "" { x = d }]. *)
Definition orZ (d x : Z) : Z := if x =? 0 then d else x.
Definition orS (d x : string) : string := if String.eqb x "" then d else x.

Definition originDefaults (o : OriginConfig) : OriginConfig :=
  mkOriginConfig (og_ID o) (og_Name o) (og_Description o) (og_BaseURL o) (og_Enabled o)
    (orZ (30 * second) (og_Timeout o)) (og_Retry o) (og_CircuitBreaker o) (og_MaxIdleConnsPerHost o)
    (og_Auth o) (og_Collections o) (og_ExcludeCollections o) (og_Priority o) (og_ReadOnly o)
    (og_Searchable o) (og_AutoDiscover o) (og_DiscoveryInterval o) (og_CollectionPrefix o)
    (og_CollectionMapping o) (og_StripPathPrefix o) (og_SupportsFilterExtension o)
    (og_SupportsSpatialFilter o) (og_MaxResponseBytes o) (og_ForwardUserIdentity o)
    (og_RewriteAssets o) (og_AssetSignTTL o) (og_Pagination o).

Definition federationDefaults (f : FederationConfig) : FederationConfig :=
  mkFederation (originDefaults <$> f_Origins f) (orZ 10 (f_MaxConcurrent f))
    (orZ (60 * second) (f_AggregateTimeout f)) (orZ 100 (f_DefaultPageSize f))
    (orZ 1000 (f_MaxPageSize f)) (f_AllowPrivateOrigins f) (f_CursorSecret f) (f_PageCache f).

Definition upstreamDefaults (u : UpstreamConfig) : UpstreamConfig :=
  mkUpstream (u_URL u) (orZ (30 * second) (u_Timeout u)) (u_SupportsFilterExtension u)
    (u_SupportsSpatialFilter u) (u_MaxResponseBytes u) (u_AllowPrivateOrigin u).

Definition serverDefaults (s : ServerConfig) : ServerConfig :=
  let t := s_Timeouts s in
  let ci := s_ClientIP s in
  mkServer (orS "0.0.0.0" (s_Host s)) (orZ 8080 (s_Port s)) (s_TLS s)
    (mkTimeouts (orZ (30 * second) (t_Read t)) (orZ (10 * second) (t_ReadHeader t))
      (orZ (60 * second) (t_Write t)) (orZ (120 * second) (t_Idle t)))
    (s_MaxBodyBytes s) (orZ DefaultMaxHeaderBytes (s_MaxHeaderBytes s)) (s_PublicBaseURL s)
    (mkClientIP (orS "remote_addr" (ci_Source ci)) (ci_Header ci) (ci_TrustedProxies ci)
      (ci_TrustedCount ci)).

Definition setDefaults (c : Config) : Config :=
  mkConfig (serverDefaults (c_Server c))
    (mkLogging (orS "info" (l_Level (c_Logging c))) (orS "json" (l_Format (c_Logging c))))
    (c_Middleware c) (orS "single" (c_Mode c))
    (upstreamDefaults <$> c_Upstream c) (federationDefaults <$> c_Federation c)
    (orS "/health" (c_HealthPath c)) (c_Authz c) (c_Redis c).

(** ** Environment references

    [expandEnvStrict] scans a string from the left.  [next] is one turn of
    its loop: the piece recognised and the rest of the input. *)

Inductive piece := Byte (c : ascii) | Braced (expr : string).

Definition next (s : string) : option (piece * string) :=
  match s with
  | EmptyString => None
  | String c s' =>
      if negb (Ascii.eqb c "$") then Some (Byte c, s') else
      match s' with
      | String d rest =>
          if Ascii.eqb d "$" then Some (Byte "$", rest)
          else if Ascii.eqb d "{" then
            match CutSub "}" rest with
            | None => Some (Byte "$", s')
            | Some (expr, rest') => Some (Braced expr, rest')
            end
          else Some (Byte "$", s')
      | EmptyString => Some (Byte "$", s')
      end
  end.

Section Expand.
Context (lookup : string → option string).

(** What a piece writes, and the references it misses. *)
Definition emit (p : piece) : string * list string :=
  match p with
  | Byte c => (String c "", [])
  | Braced expr =>
      match CutSub ":-" expr with
      | Some (name, def) =>
          (match lookup name with
           | Some v => if String.eqb v "" then def else v
           | None => def
           end, [])
      | None => match lookup expr with Some v => (v, []) | None => ("", [expr]) end
      end
  end.

Lemma next_shorter s p rest : next s = Some (p, rest) → (String.length rest < String.length s)%nat.
Proof.
  destruct s as [|c [|d s]]; cbn; [done| |]; repeat case_match; intros [= <- <-]; cbn; try lia.
  match goal with H : CutSub _ _ = Some _ |- _ => apply CutSub_Some in H as -> end.
  rewrite length_append. cbn. lia.
Qed.

Definition keep {A} (a : A) : {b | a = b} := exist _ a eq_refl.

Equations? expandEnvStrict (s : string) : string * list string by wf (String.length s) lt :=
  expandEnvStrict s with keep (next s) => {
    | exist _ None _ := ("", [])
    | exist _ (Some (p, rest)) Hn :=
        let '(out, miss) := emit p in
        let '(out', miss') := expandEnvStrict rest in
        (out +:+ out', miss ++ miss') }.
Proof. by eapply next_shorter. Defined.

Lemma expand_None s : next s = None → expandEnvStrict s = ("", []).
Proof.
  intros Hn. simp expandEnvStrict. unfold expandEnvStrict_unfold_clause_1.
  by destruct (keep (next s)) as [[[p rest]|] E]; [congruence|].
Qed.

Lemma expand_Some s p rest :
  next s = Some (p, rest) →
  expandEnvStrict s = ((emit p).1 +:+ (expandEnvStrict rest).1, (emit p).2 ++ (expandEnvStrict rest).2).
Proof.
  intros Hn. rewrite (expandEnvStrict_equation_1 s). unfold expandEnvStrict_unfold_clause_1.
  destruct (keep (next s)) as [[[p' rest']|] E]; [|congruence].
  assert (p' = p ∧ rest' = rest) as [-> ->] by (split; congruence).
  by destruct (emit p), (expandEnvStrict rest).
Qed.

(** ** The YAML tree *)

Inductive nodeKind := DocumentNode | SequenceNode | MappingNode | ScalarNode | AliasNode.

Inductive node := mkNode {
  n_Kind : nodeKind;
  n_Tag : string;
  n_Style : Z;
  n_Value : string;
  n_Content : list node;
}.

Definition isString (n : node) : bool :=
  match n_Kind n with ScalarNode => String.eqb (n_Tag n) "!!str" | _ => false end.

(** The node itself: an expanded scalar loses its tag and style, so that it
    is resolved again. *)
Definition expandScalar (n : node) (content : list node) : node :=
  if isString n then
    let out := (expandEnvStrict (n_Value n)).1 in
    if String.eqb out (n_Value n) then mkNode (n_Kind n) (n_Tag n) (n_Style n) (n_Value n) content
    else mkNode (n_Kind n) "" 0 out content
  else mkNode (n_Kind n) (n_Tag n) (n_Style n) (n_Value n) content.

(** The expanded tree, and the missing references in document order. *)
Fixpoint expandNode (n : node) : node * list string :=
  let missing := if isString n then (expandEnvStrict (n_Value n)).2 else [] in
  let children := List.map expandNode (n_Content n) in
  (expandScalar n (List.map fst children), missing ++ List.concat (List.map snd children)).
End Expand.

(** ** What a reference means

    The syntax the comments of [expandEnvStrict] document, as tokens. *)

Inductive token :=
| TLit (c : ascii)                 (* any byte but the dollar sign *)
| TDollar                          (* $$ *)
| TBare (c : ascii)                (* $x: a dollar sign that starts no reference *)
| TVar (name : string)             (* ${name} *)
| TDef (name def : string).        (* ${name:-def} *)

Definition tokenOk (t : token) : Prop :=
  match t with
  | TLit c => c ≠ "$"%char
  | TDollar => True
  | TBare c => c ≠ "$"%char ∧ c ≠ "{"%char
  | TVar n => occurs "}" n = false ∧ Contains n ":-" = false
  | TDef n d => occurs "}" n = false ∧ Contains n ":-" = false ∧ occurs "}" d = false
  end.

Definition renderToken (t : token) : string :=
  match t with
  | TLit c => String c ""
  | TDollar => "$$"
  | TBare c => String "$" (String c "")
  | TVar n => "${" +:+ n +:+ "}"
  | TDef n d => "${" +:+ n +:+ ":-" +:+ d +:+ "}"
  end.

Definition meaning (lookup : string → option string) (t : token) : string :=
  match t with
  | TLit c => String c ""
  | TDollar => "$"
  | TBare c => String "$" (String c "")
  | TVar n => default "" (lookup n)
  | TDef n d => match lookup n with Some (String c v) => String c v | _ => d end
  end.

Definition misses (lookup : string → option string) (t : token) : list string :=
  match t with TVar n => match lookup n with Some _ => [] | None => [n] end | _ => [] end.

Definition concatS (l : list string) : string := foldr String.append "" l.

(** Every dollar sign is followed by something that starts no reference. *)
Fixpoint noRef (s : string) : bool :=
  match s with
  | EmptyString => true
  | String c s' =>
      (negb (Ascii.eqb c "$") ||
       match s' with
       | String d _ => negb (Ascii.eqb d "$" || Ascii.eqb d "{")
       | EmptyString => true
       end) && noRef s'
  end.

Lemma CutSub_default n d :
  Contains n ":-" = false → CutSub ":-" (n +:+ ":-" +:+ d) = Some (n, d).
Proof.
  induction n as [|a n IH]; intros Hn; [by destruct d|].
  cbn [Contains] in Hn. apply orb_false_elim in Hn as [Hp Hn].
  change (String a n +:+ ":-" +:+ d) with (String a (n +:+ ":-" +:+ d)). cbn [CutSub]. rewrite (IH Hn).
  enough (HasPrefix (String a (n +:+ ":-" +:+ d)) ":-" = false) as -> by done.
  rewrite HasPrefix_cons in *. destruct n as [|b n]; [by destruct (Ascii.eqb ":" a)|].
  change (String b n +:+ ":-" +:+ d) with (String b (n +:+ ":-" +:+ d)). rewrite HasPrefix_cons in *.
  by destruct (Ascii.eqb ":" a), (Ascii.eqb "-" b), n.
Qed.

Lemma next_braced expr rest :
  occurs "}" expr = false → next ("${" +:+ expr +:+ "}" +:+ rest) = Some (Braced expr, rest).
Proof. intros He. cbn. by rewrite CutSub_byte. Qed.

Lemma expand_token lookup t rest :
  tokenOk t →
  expandEnvStrict lookup (renderToken t +:+ rest) =
  (meaning lookup t +:+ (expandEnvStrict lookup rest).1, misses lookup t ++ (expandEnvStrict lookup rest).2).
Proof.
  destruct t as [c| |c|n|n d]; cbn [tokenOk renderToken meaning misses].
  - intros Hc. rewrite (expand_Some _ _ (Byte c) rest); [done|].
    cbn. by rewrite (proj2 (Ascii.eqb_neq c "$")).
  - intros _. by rewrite (expand_Some _ _ (Byte "$") rest).
  - intros [H1 H2]. rewrite (expand_Some _ _ (Byte "$") (String c rest)).
    + rewrite (expand_Some _ (String c rest) (Byte c) rest); [done|].
      cbn. by rewrite (proj2 (Ascii.eqb_neq c "$")).
    + cbn. rewrite (proj2 (Ascii.eqb_neq c "$")), (proj2 (Ascii.eqb_neq c "{")); done.
  - intros [H1 H2]. rewrite append_assoc, (append_assoc n). rewrite (expand_Some _ _ _ _ (next_braced _ _ H1)).
    cbn [emit]. rewrite (proj2 (CutSub_None _ _) H2). by destruct (lookup n).
  - intros (H1 & H2 & H3).
    assert (Hd : occurs "}" (n +:+ ":-" +:+ d) = false) by (by rewrite !occurs_append, H1, H3).
    assert (("${" +:+ n +:+ ":-" +:+ d +:+ "}") +:+ rest = "${" +:+ (n +:+ ":-" +:+ d) +:+ "}" +:+ rest)
      as -> by (by rewrite !append_assoc).
    rewrite (expand_Some _ _ _ _ (next_braced _ _ Hd)).
    cbn [emit]. rewrite CutSub_default by done. by destruct (lookup n) as [[]|].
Qed.

Lemma expand_noRef lookup s : noRef s = true → expandEnvStrict lookup s = (s, []).
Proof.
  induction s as [|c s IH]; intros Hn; [by apply expand_None|].
  cbn [noRef] in Hn. apply andb_prop in Hn as [Hc Hs].
  rewrite (expand_Some _ (String c s) (Byte c) s).
  - rewrite (IH Hs). done.
  - cbn [next]. destruct (Ascii.eqb_spec c "$") as [->|]; cbn in *; [|done].
    destruct s as [|d s]; [done|]. by destruct (Ascii.eqb d "$"), (Ascii.eqb d "{").
Qed.

(** Trees: an induction principle that reaches the children. *)
Section NodeInd.
Context (P : node → Prop) (Hnode : ∀ k tag style v ns, Forall P ns → P (mkNode k tag style v ns)).

Fixpoint node_induction (n : node) : P n :=
  match n with
  | mkNode k tag style v ns =>
      Hnode k tag style v ns
        ((fix go (l : list node) : Forall P l :=
            match l with [] => Forall_nil_2 P | x :: l => Forall_cons_2 P x l (node_induction x) (go l) end) ns)
  end.
End NodeInd.

(** The string scalars of a tree in document order, keys included. *)
Fixpoint strings (n : node) : list string :=
  (if isString n then [n_Value n] else []) ++ List.concat (List.map strings (n_Content n)).

Lemma expandNode_missing lookup n :
  (expandNode lookup n).2 = strings n ≫= λ s, (expandEnvStrict lookup s).2.
Proof.
  induction n as [k tag style v ns IH] using node_induction.
  cbn [expandNode strings n_Content n_Value snd].
  rewrite bind_app. f_equal; [by destruct (isString _); cbn; rewrite ?app_nil_r|].
  induction IH as [|x l Hx _ IHl]; cbn; [done|]. by rewrite bind_app, Hx, IHl.
Qed.

End Config.
