(* ===== verification/Validation.v ===== *)
(** * Validation of the configuration ([internal/config/validation.go])

    A validator method appends to two lists; here it returns the issues it
    adds, in order, and a constructor names each [addError] or [addWarning]
    call with the values it formats.  [Load] is the whole path from the file
    to an accepted configuration.

    Parameters: [url.Parse], [netip.ParsePrefix], [net.ParseIP] with its
    predicates, and [os.Stat], in the class [NetLib]; the YAML library in
    the arguments of [Load].  A middleware list read from YAML is always
    [[]interface{}], so the [[]string] branch of the CORS check is not
    reached. *)

From S2P Require Import Prelude GoLib Config.
From Stdlib Require Import Ascii.
Import Strings Values Config.

Module Validation.
#[local] Open Scope Z_scope.

(** ** Libraries *)

Record parsedURL := mkParsedURL {
  pu_Scheme : string;
  pu_Host : string;
  pu_Hostname : string;
  pu_RawQuery : string;
  pu_Fragment : string;
}.

Record parsedIP := mkParsedIP { IsLoopback : bool; IsPrivate : bool; IsLinkLocalUnicast : bool }.

Class NetLib := {
  cfg_url_Parse : string → option parsedURL;
  ParsePrefix : string → bool;
  ParseIP : string → option parsedIP;
  Stat : string → bool;
}.

(** ** Issues *)

(** The field a URL error names: [upstream], or the base URL of an origin. *)
Inductive field := FUpstream | FBaseURL (i : nat).

Inductive verr :=
| EUpstreamRequired | EFederationRequired | EMode (mode : string)
| EPort | ENegRead | ENegWrite | ENegIdle | ENegHeader
| EClientIPHeader | ETrustedProxy (p : string) | ETrustedCount | EClientIPSource (s : string)
| EBaseURL | EBaseURLScheme | EBaseURLHost | EBaseURLQuery
| ECertFile | EKeyFile | ELogLevel | ELogFormat
| EUpstreamURL | EUpstreamParse | EUpstreamTimeout | EUpstreamMaxBytes
| ENoOrigins | ECursorSecretMissing | ECursorSecretShort (len : nat)
| EPageCacheEntries | EPageCacheTTL | EPageCacheNoSecret | EPageCacheStore (s : string)
| EBreakerThreshold (i : nat) | EBreakerProbes (i : nat) | EBreakerDurations (i : nat) | EBreakerOrder (i : nat)
| EOriginID (i : nat) | EOriginDuplicate (i : nat) (id : string) | EOriginIDChars (i : nat) (id : string)
| EOriginURL (i : nat) | EOriginParse (i : nat) | EOriginTimeout (i : nat) | EOriginMaxBytes (i : nat)
| ERewriteAssets (i : nat) (mode : string) | EAssetTTL (i : nat) | EAdapter (i : nat) (a : string)
| EScheme (f : field) | ELoopback (f : field) | EPrivate (f : field) | ELinkLocal (f : field)
| EAuthType (i : nat) (t : string) | EAuthBasic (i : nat) | EAuthBearer (i : nat) | EAuthAPIKey (i : nat)
| EAuthOAuth2 (i : nat) | EAuthTokenURL (i : nat) | EAuthClientID (i : nat)
| EMiddleware (i : nat) (name : string) | EFailureMode (i : nat)
| EStoreNoRedis (i : nat) | EStore (i : nat) (s : string)
| ECorsList (i : nat) | ECorsItem (i j : nat) | ECorsWildcard (i : nat)
| EOPAEmbedded | EOPAPolicy | EPolicyPath (p : string) | ERegoFile (i : nat) (f : string)
| EPageCacheNoRedis | ERedisAddr | ERedisDB | ERedisPool | ERedisTimeouts | ERedisTLS
| EAssetSigning (ids : list string).

Inductive vwarn :=
| WHost | WShortRead | WHeaderIgnored | WProxiesIgnored | WNoTrustedProxies
| WUpstreamLarge | WOriginLarge (i : nat) | WAuthzIgnored (i : nat)
| WBundle | WDataFiles | WOPAUnimplemented | WFailureMode (i : nat) | WRedisUnused.

Inductive issue := Error (e : verr) | Warning (w : vwarn).

(** [if bad { v.addError(e) }], [if bad { v.addWarning(w) }]. *)
Definition err (bad : bool) (e : verr) : list issue := if bad then [Error e] else [].
Definition warn (bad : bool) (w : vwarn) : list issue := if bad then [Warning w] else [].

Definition isEmpty (s : string) : bool := String.eqb s "".
Definition oneOf (s : string) (l : list string) : bool := existsb (String.eqb s) l.
Definition nonempty {A} (l : list A) : bool := match l with [] => false | _ => true end.

(** A loop over a list with its index. *)
Definition each {A} (f : nat → A → list issue) (l : list A) : list issue := List.concat (imap f l).

Section Validator.
Context `{!NetLib}.

(** ** The server block *)

Definition validateClientIP (cfg : ClientIPConfig) : list issue :=
  let src := ci_Source cfg in
  if oneOf src [""; "remote_addr"] then
    warn (negb (isEmpty (ci_Header cfg))) WHeaderIgnored ++
    warn (nonempty (ci_TrustedProxies cfg)) WProxiesIgnored
  else if String.eqb src "header" then err (isEmpty (ci_Header cfg)) EClientIPHeader
  else if String.eqb src "xff" then
    each (λ _ p, err (negb (ParsePrefix p)) (ETrustedProxy p)) (ci_TrustedProxies cfg) ++
    warn (negb (nonempty (ci_TrustedProxies cfg))) WNoTrustedProxies
  else if String.eqb src "xff_trusted_count" then err (ci_TrustedCount cfg <? 1) ETrustedCount
  else [Error (EClientIPSource src)].

Definition httpScheme (u : parsedURL) : bool := oneOf (ToLower (pu_Scheme u)) ["http"; "https"].

Definition validatePublicBaseURL (raw : string) : list issue :=
  match cfg_url_Parse raw with
  | None => [Error EBaseURL]
  | Some u =>
      err (negb (httpScheme u)) EBaseURLScheme ++ err (isEmpty (pu_Host u)) EBaseURLHost ++
      err (negb (isEmpty (pu_RawQuery u)) || negb (isEmpty (pu_Fragment u))) EBaseURLQuery
  end.

Definition validateTLS (cfg : TLSConfig) : list issue :=
  err (isEmpty (tls_CertFile cfg)) ECertFile ++ err (isEmpty (tls_KeyFile cfg)) EKeyFile.

Definition validateServer (cfg : ServerConfig) : list issue :=
  let t := s_Timeouts cfg in
  err ((s_Port cfg <? 1) || (65535 <? s_Port cfg)) EPort ++
  warn (isEmpty (s_Host cfg)) WHost ++
  err (t_Read t <? 0) ENegRead ++ err (t_Write t <? 0) ENegWrite ++ err (t_Idle t <? 0) ENegIdle ++
  err (s_MaxHeaderBytes cfg <? 0) ENegHeader ++
  warn ((0 <? t_Read t) && (t_Read t <? 5 * second)) WShortRead ++
  (if tls_Enabled (s_TLS cfg) then validateTLS (s_TLS cfg) else []) ++
  (if isEmpty (s_PublicBaseURL cfg) then [] else validatePublicBaseURL (s_PublicBaseURL cfg)) ++
  validateClientIP (s_ClientIP cfg).

Definition validateLogging (cfg : LoggingConfig) : list issue :=
  err (negb (isEmpty (l_Level cfg)) && negb (oneOf (l_Level cfg) ["debug"; "info"; "warn"; "error"])) ELogLevel ++
  err (negb (isEmpty (l_Format cfg)) && negb (oneOf (l_Format cfg) ["json"; "text"; "console"])) ELogFormat.

(** ** Origins *)

Definition validateOriginURL (f : field) (u : parsedURL) (allowPrivate : bool) : list issue :=
  if negb (httpScheme u) then [Error (EScheme f)] else
  let host := pu_Hostname u in
  if isEmpty host || allowPrivate then [] else
  if String.eqb (ToLower host) "localhost" then [Error (ELoopback f)] else
  match ParseIP host with
  | None => []
  | Some ip =>
      if IsLoopback ip then [Error (ELoopback f)]
      else if IsPrivate ip then [Error (EPrivate f)]
      else err (IsLinkLocalUnicast ip) (ELinkLocal f)
  end.

Definition validateUpstream (cfg : UpstreamConfig) : list issue :=
  if isEmpty (u_URL cfg) then [Error EUpstreamURL] else
  match cfg_url_Parse (u_URL cfg) with
  | None => [Error EUpstreamParse]
  | Some u => validateOriginURL FUpstream u (u_AllowPrivateOrigin cfg)
  end ++
  err (u_Timeout cfg <? 0) EUpstreamTimeout ++
  err (u_MaxResponseBytes cfg <? 0) EUpstreamMaxBytes ++
  warn (2 ^ 30 <? u_MaxResponseBytes cfg) WUpstreamLarge.

Definition letter (c : ascii) : bool :=
  let n := N_of_ascii c in
  (((65 <=? n) && (n <=? 90)) || ((97 <=? n) && (n <=? 122)))%N.
Definition idChar (c : ascii) : bool :=
  let n := N_of_ascii c in
  letter c || ((48 <=? n) && (n <=? 57))%N || Ascii.eqb c "-".

(** [^[a-zA-Z][a-zA-Z0-9-]*$]. *)
Definition isValidID (id : string) : bool :=
  match id with EmptyString => false | String c s => letter c && Header.all_chars idChar s end.

Definition validateBreaker (i : nat) (cb : CircuitBreakerConfig) : list issue :=
  err (cb_FailureThreshold cb <? 0) (EBreakerThreshold i) ++
  err (cb_HalfOpenProbes cb <? 0) (EBreakerProbes i) ++
  err ((cb_OpenDuration cb <? 0) || (cb_MaxOpenDuration cb <? 0)) (EBreakerDurations i) ++
  err ((0 <? cb_OpenDuration cb) && (0 <? cb_MaxOpenDuration cb) &&
       (cb_MaxOpenDuration cb <? cb_OpenDuration cb)) (EBreakerOrder i).

Definition validAuthTypes : list string :=
  ["none"; "basic"; "bearer"; "api_key"; "oauth2"; "aws_sigv4"; "custom"].

Definition validateOriginAuth (i : nat) (a : OriginAuthConfig) : list issue :=
  let t := a_Type a in
  if negb (oneOf t validAuthTypes) then [Error (EAuthType i t)]
  else if String.eqb t "basic" then err (isEmpty (a_Username a) || isEmpty (a_Password a)) (EAuthBasic i)
  else if String.eqb t "bearer" then err (isEmpty (a_Token a)) (EAuthBearer i)
  else if String.eqb t "api_key" then
    err (isEmpty (a_APIKeyHeader a) || isEmpty (a_APIKeyValue a)) (EAuthAPIKey i)
  else if String.eqb t "oauth2" then
    match a_OAuth2 a with
    | None => [Error (EAuthOAuth2 i)]
    | Some o => err (isEmpty (oa_TokenURL o)) (EAuthTokenURL i) ++ err (isEmpty (oa_ClientID o)) (EAuthClientID i)
    end
  else [].

(** The checks of one origin other than those of its ID. *)
Definition validateOriginRest (i : nat) (allowPrivate : bool) (o : OriginConfig) : list issue :=
  (if isEmpty (og_BaseURL o) then [Error (EOriginURL i)] else
   match cfg_url_Parse (og_BaseURL o) with
   | None => [Error (EOriginParse i)]
   | Some u => validateOriginURL (FBaseURL i) u allowPrivate
   end) ++
  err (og_Timeout o <? 0) (EOriginTimeout i) ++
  err (og_MaxResponseBytes o <? 0) (EOriginMaxBytes i) ++
  warn (2 ^ 30 <? og_MaxResponseBytes o) (WOriginLarge i) ++
  err (negb (oneOf (og_RewriteAssets o) [""; "never"; "sign"; "proxy"])) (ERewriteAssets i (og_RewriteAssets o)) ++
  err (og_AssetSignTTL o <? 0) (EAssetTTL i) ++
  match og_Pagination o with
  | None => []
  | Some p =>
      err (negb (oneOf (pg_Adapter p) [""; "auto"; "token"; "next_url"; "offset"; "link_header"]))
        (EAdapter i (pg_Adapter p))
  end ++
  match og_Auth o with None => [] | Some a => validateOriginAuth i a end.

(** One origin; [seenIDs] is updated. *)
Definition validateOrigin (i : nat) (seenIDs : gset string) (allowPrivate : bool) (o : OriginConfig)
    : list issue * gset string :=
  let id := og_ID o in
  let '(idIssues, seen) :=
    if isEmpty id then ([Error (EOriginID i)], seenIDs)
    else if bool_decide (id ∈ seenIDs) then ([Error (EOriginDuplicate i id)], seenIDs)
    else ([], {[id]} ∪ seenIDs) in
  (match og_CircuitBreaker o with None => [] | Some cb => validateBreaker i cb end ++
   idIssues ++
   err (negb (isEmpty id) && negb (isValidID id)) (EOriginIDChars i id) ++
   validateOriginRest i allowPrivate o, seen).

Fixpoint validateOrigins (i : nat) (seenIDs : gset string) (allowPrivate : bool) (os : list OriginConfig)
    : list issue :=
  match os with
  | [] => []
  | o :: os =>
      let '(issues, seen) := validateOrigin i seenIDs allowPrivate o in
      issues ++ validateOrigins (S i) seen allowPrivate os
  end.

Definition minCursorSecretLen : nat := 16.

Definition validatePageCache (cursorSecret : string) (pc : PageCacheConfig) : list issue :=
  err (pc_MaxEntries pc <? 0) EPageCacheEntries ++
  err (pc_TTL pc <? 0) EPageCacheTTL ++
  err (bool_decide (pc_Enabled pc = Some true) && isEmpty cursorSecret) EPageCacheNoSecret ++
  err (negb (oneOf (pc_Store pc) [""; "memory"; "redis"])) (EPageCacheStore (pc_Store pc)).

Definition validateFederation (cfg : FederationConfig) : list issue :=
  if negb (nonempty (f_Origins cfg)) then [Error ENoOrigins] else
  validateOrigins 0 ∅ (f_AllowPrivateOrigins cfg) (f_Origins cfg) ++
  (let secret := TrimSpace (f_CursorSecret cfg) in
   if isEmpty secret then [Error ECursorSecretMissing]
   else err (String.length secret <? minCursorSecretLen)%nat (ECursorSecretShort (String.length secret))) ++
  match f_PageCache cfg with None => [] | Some pc => validatePageCache (f_CursorSecret cfg) pc end.

(** ** Middleware blocks *)

Definition cfgIndex (cfg : option (list (string * value))) (k : string) : value :=
  match cfg with Some m => index k m | None => VNil end.

Definition StoreSelection (cfg : option (list (string * value))) : string :=
  default "" (as_string (cfgIndex cfg "store")).

Definition validateStoreSelector (i : nat) (mwCfg : option (list (string * value))) (cfg : Config)
    : list issue * string :=
  let store := StoreSelection mwCfg in
  (if oneOf store [""; "memory"] then []
   else if String.eqb store "redis" then err (match c_Redis cfg with None => true | _ => false end) (EStoreNoRedis i)
   else [Error (EStore i store)], store).

Definition validateRateLimitMiddleware (i : nat) (mwCfg : option (list (string * value))) (cfg : Config)
    : list issue :=
  let '(issues, store) := validateStoreSelector i mwCfg cfg in
  issues ++
  match mwCfg ≫= get "failure_mode" with
  | None => []
  | Some fm =>
      if oneOf (default "" (as_string fm)) ["open"; "closed"]
      then warn (negb (String.eqb store "redis")) (WFailureMode i)
      else [Error (EFailureMode i)]
  end.

Definition isWildcard (v : value) : bool :=
  match v with VStr s => String.eqb s "*" | _ => false end.

Definition validateCorsMiddleware (i : nat) (cfg : option (list (string * value))) : list issue :=
  let allowCreds := match cfgIndex cfg "allow_credentials" with VBool b => b | _ => false end in
  match cfgIndex cfg "allowed_origins" with
  | VNil => []
  | VArr l =>
      each (λ j item, err (match item with VStr _ => false | _ => true end) (ECorsItem i j)) l ++
      err (allowCreds && existsb isWildcard l) (ECorsWildcard i)
  | _ => [Error (ECorsList i)]
  end.

Definition validMiddleware : list string :=
  ["logging"; "auth"; "authz"; "cache"; "rate_limit"; "url_remap"; "cors"].

Definition validateOneMiddleware (cfg : Config) (i : nat) (mw : MiddlewareConfig) : list issue :=
  let n := mw_Name mw in
  if negb (oneOf n validMiddleware) then [Error (EMiddleware i n)]
  else if String.eqb n "cors" then validateCorsMiddleware i (mw_Config mw)
  else if String.eqb n "cache" then (validateStoreSelector i (mw_Config mw) cfg).1
  else if String.eqb n "rate_limit" then validateRateLimitMiddleware i (mw_Config mw) cfg
  else if String.eqb n "authz" then [Warning (WAuthzIgnored i)]
  else [].

Definition validateMiddleware (cfg : Config) : list issue :=
  each (validateOneMiddleware cfg) (c_Middleware cfg).

(** ** Authorization, Redis, asset signing *)

Definition validateAuthz (cfg : Config) : list issue :=
  match c_Authz cfg ≫= az_OPA with
  | None => []
  | Some opa =>
      err (negb (op_Embedded opa)) EOPAEmbedded ++
      err (isEmpty (op_PolicyPath opa) && negb (nonempty (op_RegoFiles opa))) EOPAPolicy ++
      (if isEmpty (op_PolicyPath opa) then []
       else err (negb (Stat (op_PolicyPath opa))) (EPolicyPath (op_PolicyPath opa))) ++
      each (λ i f, err (negb (Stat f)) (ERegoFile i f)) (op_RegoFiles opa) ++
      warn (negb (isEmpty (op_BundleURL opa)) || negb (op_BundlePollInterval opa =? 0)) WBundle ++
      warn (nonempty (op_DataFiles opa)) WDataFiles ++
      warn (negb (op_Timeout opa =? 0) || op_CacheDecisions opa || negb (op_CacheTTL opa =? 0)) WOPAUnimplemented
  end.

Definition pageCacheRedis (cfg : Config) : bool :=
  match c_Federation cfg ≫= f_PageCache with
  | Some pc => String.eqb (pc_Store pc) "redis"
  | None => false
  end.

Definition SelectsRedis (cfg : Config) : bool :=
  existsb (λ mw, oneOf (mw_Name mw) ["cache"; "rate_limit"] &&
                 String.eqb (StoreSelection (mw_Config mw)) "redis") (c_Middleware cfg)
  || pageCacheRedis cfg.

Definition validateRedis (cfg : Config) : list issue :=
  match c_Redis cfg with
  | None => err (pageCacheRedis cfg) EPageCacheNoRedis
  | Some r =>
      err (isEmpty (TrimSpace (rd_Addr r))) ERedisAddr ++
      err (rd_DB r <? 0) ERedisDB ++
      err ((rd_PoolSize r <? 0) || (rd_MinIdleConns r <? 0)) ERedisPool ++
      err ((rd_DialTimeout r <? 0) || (rd_ReadTimeout r <? 0) || (rd_WriteTimeout r <? 0)) ERedisTimeouts ++
      err (rt_Enabled (rd_TLS r) &&
           negb (Bool.eqb (isEmpty (rt_CertFile (rd_TLS r))) (isEmpty (rt_KeyFile (rd_TLS r))))) ERedisTLS ++
      warn (negb (SelectsRedis cfg)) WRedisUnused
  end.

(** A [url_remap] block with a signing secret. *)
Definition signs (mw : MiddlewareConfig) : bool :=
  String.eqb (mw_Name mw) "url_remap" &&
  negb (isEmpty (TrimSpace (default "" (as_string (cfgIndex (mw_Config mw) "secret"))))).

Definition validateAssetSigning (cfg : Config) : list issue :=
  match c_Federation cfg with
  | None => []
  | Some f =>
      let signers := og_ID <$> List.filter (λ o, String.eqb (og_RewriteAssets o) "sign") (f_Origins f) in
      if negb (nonempty signers) then []
      else err (negb (existsb signs (c_Middleware cfg))) (EAssetSigning signers)
  end.

(** ** The whole *)

Definition validateMode (cfg : Config) : list issue :=
  if String.eqb (c_Mode cfg) "single" then
    match c_Upstream cfg with None => [Error EUpstreamRequired] | Some u => validateUpstream u end
  else if String.eqb (c_Mode cfg) "federation" then
    match c_Federation cfg with None => [Error EFederationRequired] | Some f => validateFederation f end
  else [Error (EMode (c_Mode cfg))].

Definition issues (cfg : Config) : list issue :=
  validateServer (c_Server cfg) ++ validateLogging (c_Logging cfg) ++ validateMode cfg ++
  validateMiddleware cfg ++ validateAuthz cfg ++ validateRedis cfg ++ validateAssetSigning cfg.

Definition errorsOf (l : list issue) : list verr :=
  omap (λ i, match i with Error e => Some e | Warning _ => None end) l.
Definition warningsOf (l : list issue) : list vwarn :=
  omap (λ i, match i with Warning w => Some w | Error _ => None end) l.

(** The errors and warnings of the [ValidationError], or acceptance. *)
Definition Validate (cfg : Config) : result (list verr * list vwarn) unit :=
  match errorsOf (issues cfg) with
  | [] => Ok ()
  | es => Err (es, warningsOf (issues cfg))
  end.

(** ** Loading *)

Inductive loadError :=
| ReadFailed | ParseFailed | MissingEnv (names : list string) | DecodeFailed
| ValidationFailed (es : list verr) (ws : list vwarn).

(** [parse] is the file as a node tree, [decode] the strict decoding of a
    re-encoded tree. *)
Definition Load (file : option (option node)) (env : string → option string)
    (decode : node → option Config) : result loadError Config :=
  match file with
  | None => Err ReadFailed
  | Some None => Err ParseFailed
  | Some (Some root) =>
      match expandNode env root with
      | (root, []) =>
          match decode root with
          | None => Err DecodeFailed
          | Some cfg =>
              let cfg := setDefaults cfg in
              match Validate cfg with Ok _ => Ok cfg | Err (es, ws) => Err (ValidationFailed es ws) end
          end
      | (_, missing) => Err (MissingEnv missing)
      end
  end.

(** ** Well-formed configurations *)

Definition absoluteHTTP (u : parsedURL) : Prop := ToLower (pu_Scheme u) ∈ ["http"; "https"].

(** The host is not a literal loopback, private or link-local address. *)
Definition publicHost (u : parsedURL) : Prop :=
  pu_Hostname u = "" ∨
  (ToLower (pu_Hostname u) ≠ "localhost" ∧
   ∀ ip, ParseIP (pu_Hostname u) = Some ip →
     IsLoopback ip = false ∧ IsPrivate ip = false ∧ IsLinkLocalUnicast ip = false).

Definition originURL (raw : string) (allowPrivate : bool) : Prop :=
  raw ≠ "" ∧ ∃ u, cfg_url_Parse raw = Some u ∧ absoluteHTTP u ∧ (allowPrivate = true ∨ publicHost u).

Record serverOK (s : ServerConfig) : Prop := {
  so_port : 1 ≤ s_Port s ≤ 65535;
  so_timeouts : 0 ≤ t_Read (s_Timeouts s) ∧ 0 ≤ t_Write (s_Timeouts s) ∧ 0 ≤ t_Idle (s_Timeouts s);
  so_header : 0 ≤ s_MaxHeaderBytes s;
  so_tls : tls_Enabled (s_TLS s) = true → tls_CertFile (s_TLS s) ≠ "" ∧ tls_KeyFile (s_TLS s) ≠ "";
  so_base : s_PublicBaseURL s ≠ "" → ∃ u, cfg_url_Parse (s_PublicBaseURL s) = Some u ∧ absoluteHTTP u ∧
    pu_Host u ≠ "" ∧ pu_RawQuery u = "" ∧ pu_Fragment u = "";
  so_source : ci_Source (s_ClientIP s) ∈ [""; "remote_addr"; "header"; "xff"; "xff_trusted_count"];
  so_ipheader : ci_Source (s_ClientIP s) = "header" → ci_Header (s_ClientIP s) ≠ "";
  so_proxies : ci_Source (s_ClientIP s) = "xff" →
    Forall (λ p, ParsePrefix p = true) (ci_TrustedProxies (s_ClientIP s));
  so_count : ci_Source (s_ClientIP s) = "xff_trusted_count" → 1 ≤ ci_TrustedCount (s_ClientIP s);
}.

Definition breakerOK (cb : CircuitBreakerConfig) : Prop :=
  0 ≤ cb_FailureThreshold cb ∧ 0 ≤ cb_HalfOpenProbes cb ∧ 0 ≤ cb_OpenDuration cb ∧
  0 ≤ cb_MaxOpenDuration cb ∧
  (cb_OpenDuration cb ≤ cb_MaxOpenDuration cb ∨ cb_OpenDuration cb = 0 ∨ cb_MaxOpenDuration cb = 0).

Definition authOK (a : OriginAuthConfig) : Prop :=
  a_Type a ∈ validAuthTypes ∧
  (a_Type a = "basic" → a_Username a ≠ "" ∧ a_Password a ≠ "") ∧
  (a_Type a = "bearer" → a_Token a ≠ "") ∧
  (a_Type a = "api_key" → a_APIKeyHeader a ≠ "" ∧ a_APIKeyValue a ≠ "") ∧
  (a_Type a = "oauth2" → ∃ o, a_OAuth2 a = Some o ∧ oa_TokenURL o ≠ "" ∧ oa_ClientID o ≠ "").

Record originOK (allowPrivate : bool) (o : OriginConfig) : Prop := {
  oo_id : isValidID (og_ID o) = true;
  oo_url : originURL (og_BaseURL o) allowPrivate;
  oo_timeout : 0 ≤ og_Timeout o;
  oo_bytes : 0 ≤ og_MaxResponseBytes o;
  oo_assets : og_RewriteAssets o ∈ [""; "never"; "sign"; "proxy"];
  oo_ttl : 0 ≤ og_AssetSignTTL o;
  oo_breaker : ∀ cb, og_CircuitBreaker o = Some cb → breakerOK cb;
  oo_adapter : ∀ p, og_Pagination o = Some p →
    pg_Adapter p ∈ [""; "auto"; "token"; "next_url"; "offset"; "link_header"];
  oo_auth : ∀ a, og_Auth o = Some a → authOK a;
}.

Record federationOK (f : FederationConfig) : Prop := {
  fo_some : f_Origins f ≠ [];
  fo_origins : Forall (originOK (f_AllowPrivateOrigins f)) (f_Origins f);
  fo_ids : NoDup (og_ID <$> f_Origins f);
  fo_secret : (minCursorSecretLen ≤ String.length (TrimSpace (f_CursorSecret f)))%nat;
  fo_cache : ∀ pc, f_PageCache f = Some pc →
    0 ≤ pc_MaxEntries pc ∧ 0 ≤ pc_TTL pc ∧ pc_Store pc ∈ [""; "memory"; "redis"];
}.

Definition modeOK (cfg : Config) : Prop :=
  (c_Mode cfg = "single" ∧ ∃ u, c_Upstream cfg = Some u ∧
     originURL (u_URL u) (u_AllowPrivateOrigin u) ∧ 0 ≤ u_Timeout u ∧ 0 ≤ u_MaxResponseBytes u) ∨
  (c_Mode cfg = "federation" ∧ ∃ f, c_Federation cfg = Some f ∧ federationOK f).

(** Every component that stores in Redis has a Redis. *)
Definition storesOK (cfg : Config) : Prop :=
  (∀ mw, mw ∈ c_Middleware cfg → mw_Name mw ∈ ["cache"; "rate_limit"] →
     StoreSelection (mw_Config mw) ∈ [""; "memory"; "redis"]) ∧
  (SelectsRedis cfg = true → c_Redis cfg ≠ None).

Definition corsOK (mw : MiddlewareConfig) : Prop :=
  match cfgIndex (mw_Config mw) "allowed_origins" with
  | VNil => True
  | VArr l => Forall (λ v, ∃ s, v = VStr s) l ∧
      ¬ (cfgIndex (mw_Config mw) "allow_credentials" = VBool true ∧ VStr "*" ∈ l)
  | _ => False
  end.

Definition rateOK (mw : MiddlewareConfig) : Prop :=
  ∀ fm, mw_Config mw ≫= get "failure_mode" = Some fm → fm ∈ [VStr "open"; VStr "closed"].

Definition opaOK (o : OPAConfig) : Prop :=
  op_Embedded o = true ∧ (op_PolicyPath o ≠ "" ∨ op_RegoFiles o ≠ []) ∧
  (op_PolicyPath o ≠ "" → Stat (op_PolicyPath o) = true) ∧
  Forall (λ f, Stat f = true) (op_RegoFiles o).

Definition redisOK (r : RedisConfig) : Prop :=
  TrimSpace (rd_Addr r) ≠ "" ∧ 0 ≤ rd_DB r ∧ 0 ≤ rd_PoolSize r ∧ 0 ≤ rd_MinIdleConns r ∧
  0 ≤ rd_DialTimeout r ∧ 0 ≤ rd_ReadTimeout r ∧ 0 ≤ rd_WriteTimeout r ∧
  (rt_Enabled (rd_TLS r) = true → (rt_CertFile (rd_TLS r) = "" ↔ rt_KeyFile (rd_TLS r) = "")).

Record WellFormed (cfg : Config) : Prop := {
  wf_server : serverOK (c_Server cfg);
  wf_level : l_Level (c_Logging cfg) ∈ [""; "debug"; "info"; "warn"; "error"];
  wf_format : l_Format (c_Logging cfg) ∈ [""; "json"; "text"; "console"];
  wf_mode : modeOK cfg;
  wf_middleware : Forall (λ mw, mw_Name mw ∈ validMiddleware) (c_Middleware cfg);
  wf_cors : ∀ mw, mw ∈ c_Middleware cfg → mw_Name mw = "cors" → corsOK mw;
  wf_rate : ∀ mw, mw ∈ c_Middleware cfg → mw_Name mw = "rate_limit" → rateOK mw;
  wf_stores : storesOK cfg;
  wf_opa : ∀ o, c_Authz cfg ≫= az_OPA = Some o → opaOK o;
  wf_redis : ∀ r, c_Redis cfg = Some r → redisOK r;
  wf_signing : ∀ f o, c_Federation cfg = Some f → o ∈ f_Origins f → og_RewriteAssets o = "sign" →
    ∃ mw, mw ∈ c_Middleware cfg ∧ signs mw = true;
}.

(** ** When a validator adds no error *)

Definition clean (l : list issue) : Prop := errorsOf l = [].

Lemma clean_nil : clean [] ↔ True.
Proof. done. Qed.
Lemma clean_Error e l : clean (Error e :: l) ↔ False.
Proof. done. Qed.
Lemma clean_Warning w l : clean (Warning w :: l) ↔ clean l.
Proof. done. Qed.
Lemma clean_app l1 l2 : clean (l1 ++ l2) ↔ clean l1 ∧ clean l2.
Proof. unfold clean, errorsOf. rewrite omap_app. apply app_nil. Qed.
Lemma clean_err b e : clean (err b e) ↔ b = false.
Proof. by destruct b. Qed.
Lemma clean_warn b w : clean (warn b w) ↔ True.
Proof. by destruct b. Qed.
Lemma clean_each {A} (f : nat → A → list issue) l :
  clean (each f l) ↔ ∀ i x, l !! i = Some x → clean (f i x).
Proof.
  unfold each. revert f. induction l as [|x l IH]; intros f; cbn; [done|].
  rewrite clean_app, (IH (f ∘ S)). split.
  - intros [Hx Hl] [|i] y; cbn; [naive_solver|]. apply Hl.
  - intros Hall. split; [by apply (Hall 0%nat)|]. intros i y Hy. by apply (Hall (S i)).
Qed.
Lemma clean_each_all {A} (f : A → list issue) l : clean (each (λ _, f) l) ↔ Forall (λ x, clean (f x)) l.
Proof. rewrite clean_each, Forall_lookup. done. Qed.

Lemma isEmpty_true s : isEmpty s = true ↔ s = "".
Proof. apply String.eqb_eq. Qed.
Lemma isEmpty_false s : isEmpty s = false ↔ s ≠ "".
Proof. apply String.eqb_neq. Qed.
Lemma oneOf_true s l : oneOf s l = true ↔ s ∈ l.
Proof.
  unfold oneOf. rewrite existsb_exists. setoid_rewrite list_elem_of_In.
  split; [intros (x & Hx & ->%String.eqb_eq); done|]. intros Hs. exists s. by rewrite String.eqb_refl.
Qed.
Lemma nonempty_true {A} (l : list A) : nonempty l = true ↔ l ≠ [].
Proof. by destruct l. Qed.
End Validator.

Create Rewrite HintDb validation.
#[export] Hint Rewrite @clean_nil @clean_Error @clean_Warning @clean_app @clean_err @clean_warn @clean_each_all
  isEmpty_true isEmpty_false oneOf_true @nonempty_true negb_false_iff negb_true_iff andb_true_iff
  andb_false_iff orb_true_iff orb_false_iff Z.ltb_lt Z.ltb_ge Z.eqb_eq Z.eqb_neq
  String.eqb_eq String.eqb_neq : validation.

(** Cases of a membership in a literal list. *)
Ltac in_cases H :=
  repeat (apply elem_of_cons in H as [H|H]); try by apply elem_of_nil in H.

Ltac literals := rewrite ?elem_of_cons, ?elem_of_nil in *; naive_solver.

(** Equivalence of a condition with one guarded by equations of constants. *)
Ltac iff_auto :=
  split; [intros; repeat split|let Hx := fresh in intros Hx; decompose [and] Hx; split_and?];
    try done; intuition.

(** Reduces [clean] to conditions on the fields. *)
Ltac vclean := autorewrite with validation.
Ltac vclean_in H := autorewrite with validation in H.

Section Clean.
Context `{!NetLib}.

Lemma httpScheme_spec u : httpScheme u = true ↔ absoluteHTTP u.
Proof. apply oneOf_true. Qed.

Lemma validateOriginURL_clean f u allowPrivate :
  clean (validateOriginURL f u allowPrivate) ↔ absoluteHTTP u ∧ (allowPrivate = true ∨ publicHost u).
Proof.
  unfold validateOriginURL, publicHost. rewrite <-httpScheme_spec.
  destruct (httpScheme u); cbn [negb]; [|vclean; naive_solver].
  destruct (isEmpty (pu_Hostname u)) eqn:Eh; cbn [orb]; vclean_in Eh; [vclean; naive_solver|].
  destruct allowPrivate; [vclean; naive_solver|].
  destruct (String.eqb_spec (ToLower (pu_Hostname u)) "localhost"); [vclean; naive_solver|].
  destruct (ParseIP (pu_Hostname u)) as [[[] [] []]|]; cbn; vclean; naive_solver.
Qed.

Lemma originURL_clean raw allowPrivate f (missing unparsed : verr) :
  clean (if isEmpty raw then [Error missing] else
         match cfg_url_Parse raw with
         | None => [Error unparsed]
         | Some u => validateOriginURL f u allowPrivate
         end) ↔ originURL raw allowPrivate.
Proof.
  unfold originURL. destruct (isEmpty raw) eqn:E; vclean_in E; [vclean; naive_solver|].
  destruct (cfg_url_Parse raw) as [u|]; [rewrite validateOriginURL_clean|vclean]; naive_solver.
Qed.

Lemma validateClientIP_clean cfg :
  clean (validateClientIP cfg) ↔
  ci_Source cfg ∈ [""; "remote_addr"; "header"; "xff"; "xff_trusted_count"] ∧
  (ci_Source cfg = "header" → ci_Header cfg ≠ "") ∧
  (ci_Source cfg = "xff" → Forall (λ p, ParsePrefix p = true) (ci_TrustedProxies cfg)) ∧
  (ci_Source cfg = "xff_trusted_count" → 1 ≤ ci_TrustedCount cfg).
Proof.
  unfold validateClientIP. generalize (ci_Source cfg). intros src.
  destruct (oneOf src [""; "remote_addr"]) eqn:E0.
  { apply oneOf_true in E0. vclean. literals. }
  destruct (String.eqb_spec src "header") as [->|]; [vclean; literals|].
  destruct (String.eqb_spec src "xff") as [->|].
  { rewrite clean_app, clean_each_all. setoid_rewrite clean_err. setoid_rewrite negb_false_iff.
    vclean. literals. }
  destruct (String.eqb_spec src "xff_trusted_count") as [->|]; [vclean; literals|].
  assert (src ∉ [""; "remote_addr"]) by (rewrite <-oneOf_true, E0; done). vclean. literals.
Qed.

Lemma validateServer_clean s : clean (validateServer s) ↔ serverOK s.
Proof.
  unfold validateServer. rewrite !clean_app, validateClientIP_clean.
  assert (Ht : clean (if tls_Enabled (s_TLS s) then validateTLS (s_TLS s) else []) ↔
    (tls_Enabled (s_TLS s) = true → tls_CertFile (s_TLS s) ≠ "" ∧ tls_KeyFile (s_TLS s) ≠ "")).
  { unfold validateTLS. destruct (tls_Enabled _); vclean; split; first [done|by auto]. }
  assert (Hb : clean (if isEmpty (s_PublicBaseURL s) then [] else validatePublicBaseURL (s_PublicBaseURL s)) ↔
    (s_PublicBaseURL s ≠ "" → ∃ u, cfg_url_Parse (s_PublicBaseURL s) = Some u ∧ absoluteHTTP u ∧
       pu_Host u ≠ "" ∧ pu_RawQuery u = "" ∧ pu_Fragment u = "")).
  { unfold validatePublicBaseURL. destruct (isEmpty _) eqn:E; vclean_in E; [vclean; naive_solver|].
    destruct (cfg_url_Parse _) as [u|]; vclean; rewrite ?httpScheme_spec; naive_solver. }
  rewrite Ht, Hb. vclean. split.
  - intros ([??] & _ & ? & ? & ? & ? & _ & ? & ? & ? & ? & ? & ?). split; try done; lia.
  - intros []. split_and!; try done; lia.
Qed.

Lemma validateLogging_clean l :
  clean (validateLogging l) ↔
  l_Level l ∈ [""; "debug"; "info"; "warn"; "error"] ∧ l_Format l ∈ [""; "json"; "text"; "console"].
Proof.
  unfold validateLogging. vclean. rewrite !(elem_of_cons _ _ "").
  destruct (decide (l_Level l = "")), (decide (l_Format l = "")); naive_solver.
Qed.

Lemma validateBreaker_clean i cb : clean (validateBreaker i cb) ↔ breakerOK cb.
Proof.
  unfold validateBreaker, breakerOK. rewrite !clean_app, !clean_err.
  rewrite orb_false_iff, !andb_false_iff, !Z.ltb_ge. lia.
Qed.

Lemma validateOriginAuth_clean i a : clean (validateOriginAuth i a) ↔ authOK a.
Proof.
  unfold validateOriginAuth, authOK. destruct (oneOf (a_Type a) validAuthTypes) eqn:E; cbn [negb].
  2:{ vclean. rewrite <-oneOf_true, E. naive_solver. }
  apply oneOf_true in E.
  destruct (String.eqb_spec (a_Type a) "basic") as [Ht|]; [rewrite Ht in *; vclean; iff_auto|].
  destruct (String.eqb_spec (a_Type a) "bearer") as [Ht|]; [rewrite Ht in *; vclean; iff_auto|].
  destruct (String.eqb_spec (a_Type a) "api_key") as [Ht|]; [rewrite Ht in *; vclean; iff_auto|].
  destruct (String.eqb_spec (a_Type a) "oauth2") as [Ht|]; [|vclean; iff_auto].
  rewrite Ht in *. destruct (a_OAuth2 a) as [o|]; vclean; [|naive_solver].
  split; [|naive_solver]. intros; split_and!; try done; eauto.
Qed.

Lemma clean_option {A} (o : option A) (f : A → list issue) (P : A → Prop) :
  (∀ a, clean (f a) ↔ P a) →
  clean (match o with None => [] | Some a => f a end) ↔ ∀ a, o = Some a → P a.
Proof. intros Hf. destruct o as [a|]; [rewrite Hf|vclean]; naive_solver. Qed.

Lemma isValidID_nonempty id : isValidID id = true → id ≠ "".
Proof. by destruct id. Qed.

Lemma validateOriginRest_clean i ap o :
  isValidID (og_ID o) = true →
  clean (match og_CircuitBreaker o with None => [] | Some cb => validateBreaker i cb end) ∧
  clean (validateOriginRest i ap o) ↔ originOK ap o.
Proof.
  intros Hid. unfold validateOriginRest. rewrite !clean_app, originURL_clean.
  rewrite (clean_option _ _ breakerOK) by (intros; apply validateBreaker_clean).
  rewrite (clean_option (og_Auth o) _ authOK) by (intros; apply validateOriginAuth_clean).
  rewrite (clean_option (og_Pagination o) _
    (λ p, pg_Adapter p ∈ [""; "auto"; "token"; "next_url"; "offset"; "link_header"])) by (intros; by vclean).
  vclean. split.
  - intros (? & ? & ? & ? & _ & ? & ? & ? & ?). by split.
  - intros []. split_and!; done.
Qed.

Lemma validateOrigin_clean i seen ap o :
  clean (validateOrigin i seen ap o).1 ↔ originOK ap o ∧ og_ID o ∉ seen.
Proof.
  unfold validateOrigin.
  destruct (isEmpty (og_ID o)) eqn:Ee; vclean_in Ee.
  { cbn [fst]. rewrite !clean_app. vclean. split; [tauto|].
    intros [[Hid] _]. by apply isValidID_nonempty in Hid. }
  destruct (bool_decide_reflect (og_ID o ∈ seen)); cbn [fst].
  { rewrite !clean_app. vclean. naive_solver. }
  rewrite !clean_app, clean_err. cbn [negb andb].
  destruct (isValidID (og_ID o)) eqn:Hid; cbn [negb].
  - rewrite <-(validateOriginRest_clean i ap o Hid). vclean. tauto.
  - split; [naive_solver|]. intros [[Hid'] _]. congruence.
Qed.

Lemma validateOrigins_clean i seen ap os :
  clean (validateOrigins i seen ap os) ↔
  Forall (originOK ap) os ∧ NoDup (og_ID <$> os) ∧ ∀ o, o ∈ os → og_ID o ∉ seen.
Proof.
  revert i seen. induction os as [|o os IH]; intros i seen; cbn [validateOrigins].
  { vclean. split; [|done]. intros _. split_and!; [constructor|constructor|set_solver]. }
  pose proof (validateOrigin_clean i seen ap o) as Ho.
  destruct (validateOrigin i seen ap o) as [iss seen'] eqn:E. cbn [fst] in Ho.
  rewrite clean_app, Ho, IH, fmap_cons, Forall_cons, NoDup_cons.
  assert (Hs : originOK ap o → og_ID o ∉ seen → seen' = {[og_ID o]} ∪ seen).
  { intros [Hid%isValidID_nonempty%isEmpty_false] Hn. unfold validateOrigin in E.
    rewrite Hid, bool_decide_false in E by done. congruence. }
  split.
  - intros ((H1 & H2) & H3 & H4 & H5). rewrite (Hs H1 H2) in H5. split_and!; try done.
    + intros (o' & Hid & Hin)%list_elem_of_fmap. specialize (H5 _ Hin). set_solver.
    + intros o' [->|Hin]%elem_of_cons; [done|]. specialize (H5 _ Hin). set_solver.
  - intros ((H1 & H2) & (H3 & H4) & H5). split_and!; try done; [set_solver|].
    intros o' Hin. rewrite (Hs H1) by set_solver. apply not_elem_of_union. split; [|set_solver].
    apply not_elem_of_singleton. intros Heq. apply H3. apply list_elem_of_fmap. eauto.
Qed.

Lemma validateFederation_clean f : clean (validateFederation f) ↔ federationOK f.
Proof.
  unfold validateFederation. destruct (nonempty (f_Origins f)) eqn:En; cbn [negb].
  2:{ vclean. split; [done|]. intros [Hn]. apply nonempty_true in Hn. congruence. }
  apply nonempty_true in En. rewrite !clean_app, validateOrigins_clean.
  assert (Hs : clean (let secret := TrimSpace (f_CursorSecret f) in
      if isEmpty secret then [Error ECursorSecretMissing]
      else err (String.length secret <? minCursorSecretLen)%nat (ECursorSecretShort (String.length secret))) ↔
    (minCursorSecretLen ≤ String.length (TrimSpace (f_CursorSecret f)))%nat).
  { cbn zeta. destruct (isEmpty _) eqn:E; vclean_in E; [rewrite E; vclean; cbv; lia|].
    rewrite clean_err, Nat.ltb_ge. done. }
  assert (Hc : (minCursorSecretLen ≤ String.length (TrimSpace (f_CursorSecret f)))%nat →
    clean (match f_PageCache f with None => [] | Some pc => validatePageCache (f_CursorSecret f) pc end) ↔
    ∀ pc, f_PageCache f = Some pc →
      0 ≤ pc_MaxEntries pc ∧ 0 ≤ pc_TTL pc ∧ pc_Store pc ∈ [""; "memory"; "redis"]).
  { intros Hl. apply clean_option. intros pc. unfold validatePageCache.
    assert (isEmpty (f_CursorSecret f) = false) as ->.
    { apply isEmpty_false. intros E. rewrite E in Hl. cbv in Hl. lia. }
    rewrite andb_false_r. vclean. tauto. }
  rewrite Hs. split.
  - intros ((? & ? & _) & Hl & Hpc). split; try done. by apply Hc.
  - intros [? ? ? Hl Hpc]. split_and!; try done; by apply Hc.
Qed.

Lemma validateMode_clean cfg : clean (validateMode cfg) ↔ modeOK cfg.
Proof.
  unfold validateMode, modeOK.
  destruct (String.eqb_spec (c_Mode cfg) "single") as [Hm|Hm].
  - rewrite Hm. destruct (c_Upstream cfg) as [u|]; [|vclean; naive_solver].
    assert (clean (validateUpstream u) ↔
      originURL (u_URL u) (u_AllowPrivateOrigin u) ∧ 0 ≤ u_Timeout u ∧ 0 ≤ u_MaxResponseBytes u) as ->.
    { rewrite <-(originURL_clean _ _ FUpstream EUpstreamURL EUpstreamParse). unfold validateUpstream.
      destruct (isEmpty (u_URL u)); vclean; tauto. }
    naive_solver.
  - destruct (String.eqb_spec (c_Mode cfg) "federation") as [Hf|Hf]; [|vclean; naive_solver].
    destruct (c_Federation cfg) as [f|]; [rewrite validateFederation_clean|vclean]; naive_solver.
Qed.

(** The store selected by a block, when it is usable. *)
Definition storeUsable (cfg : Config) (mw : MiddlewareConfig) : Prop :=
  StoreSelection (mw_Config mw) ∈ [""; "memory"; "redis"] ∧
  (StoreSelection (mw_Config mw) = "redis" → c_Redis cfg ≠ None).

Lemma validateStoreSelector_clean i cfg mw :
  clean (validateStoreSelector i (mw_Config mw) cfg).1 ↔ storeUsable cfg mw.
Proof.
  unfold validateStoreSelector, storeUsable. cbn [fst]. generalize (StoreSelection (mw_Config mw)). intros st.
  destruct (oneOf st [""; "memory"]) eqn:E; [apply oneOf_true in E; vclean; literals|].
  assert (st ∉ [""; "memory"]) by (rewrite <-oneOf_true, E; done).
  destruct (String.eqb_spec st "redis") as [->|]; [|vclean; literals].
  destruct (c_Redis cfg); vclean; literals.
Qed.

Lemma existsb_wildcard l : existsb isWildcard l = true ↔ VStr "*" ∈ l.
Proof.
  rewrite existsb_exists, list_elem_of_In. split.
  - intros ([] & Hin & Hw); try done. cbn in Hw. apply String.eqb_eq in Hw as ->. done.
  - intros Hin. by exists (VStr "*").
Qed.

Lemma validateCors_clean i mw : clean (validateCorsMiddleware i (mw_Config mw)) ↔ corsOK mw.
Proof.
  unfold validateCorsMiddleware, corsOK.
  destruct (cfgIndex (mw_Config mw) "allowed_origins") as [| | | | |l|]; try (by vclean).
  rewrite clean_app, clean_each, clean_err, andb_false_iff.
  rewrite <-(not_true_iff_false (existsb _ _)), existsb_wildcard.
  setoid_rewrite clean_err. rewrite Forall_lookup. f_equiv.
  - split; intros Hall j v Hv; specialize (Hall j v Hv); destruct v; naive_solver.
  - destruct (cfgIndex (mw_Config mw) "allow_credentials") as [|[]| | | | |]; naive_solver.
Qed.

Lemma validateRateLimit_clean i cfg mw :
  clean (validateRateLimitMiddleware i (mw_Config mw) cfg) ↔ storeUsable cfg mw ∧ rateOK mw.
Proof.
  unfold validateRateLimitMiddleware, rateOK. rewrite <-(validateStoreSelector_clean i).
  destruct (validateStoreSelector i (mw_Config mw) cfg) as [iss st]. cbn [fst].
  rewrite clean_app. f_equiv. destruct (mw_Config mw ≫= get "failure_mode") as [fm|]; [|vclean; naive_solver].
  destruct fm as [| | | |m| |]; cbn [as_string default]; try (vclean; split; [done|]; intros Hx;
    specialize (Hx _ eq_refl); literals).
  unfold id. destruct (oneOf m ["open"; "closed"]) eqn:E; vclean.
  - apply oneOf_true in E. split; [|done]. intros _ ? [= <-]. literals.
  - split; [done|]. intros Hx. specialize (Hx _ eq_refl).
    assert (m ∉ ["open"; "closed"]) by (rewrite <-oneOf_true, E; done). literals.
Qed.

Lemma validateOneMiddleware_clean cfg i mw :
  clean (validateOneMiddleware cfg i mw) ↔
  mw_Name mw ∈ validMiddleware ∧ (mw_Name mw = "cors" → corsOK mw) ∧
  (mw_Name mw = "rate_limit" → rateOK mw) ∧
  (mw_Name mw ∈ ["cache"; "rate_limit"] → storeUsable cfg mw).
Proof.
  unfold validateOneMiddleware. destruct (oneOf (mw_Name mw) validMiddleware) eqn:E; cbn [negb].
  2:{ vclean. rewrite <-oneOf_true, E. naive_solver. }
  apply oneOf_true in E. rewrite !elem_of_cons, elem_of_nil.
  destruct (String.eqb_spec (mw_Name mw) "cors") as [Hn|]; [rewrite validateCors_clean, Hn in *; naive_solver|].
  destruct (String.eqb_spec (mw_Name mw) "cache") as [Hn|];
    [rewrite validateStoreSelector_clean, Hn in *; naive_solver|].
  destruct (String.eqb_spec (mw_Name mw) "rate_limit") as [Hn|];
    [rewrite validateRateLimit_clean, Hn in *; naive_solver|].
  destruct (String.eqb (mw_Name mw) "authz"); vclean; naive_solver.
Qed.

Lemma validateAuthz_clean cfg :
  clean (validateAuthz cfg) ↔ ∀ o, c_Authz cfg ≫= az_OPA = Some o → opaOK o.
Proof.
  unfold validateAuthz. apply clean_option. intros o. unfold opaOK.
  rewrite !clean_app, clean_each, Forall_lookup.
  assert (clean (if isEmpty (op_PolicyPath o) then []
      else err (negb (Stat (op_PolicyPath o))) (EPolicyPath (op_PolicyPath o))) ↔
    (op_PolicyPath o ≠ "" → Stat (op_PolicyPath o) = true)) as ->.
  { destruct (isEmpty _) eqn:E; vclean_in E; vclean; naive_solver. }
  setoid_rewrite clean_err. setoid_rewrite negb_false_iff.
  rewrite !clean_warn, andb_false_iff, isEmpty_false, negb_false_iff, nonempty_true. tauto.
Qed.

Lemma validateRedis_clean cfg :
  clean (validateRedis cfg) ↔
  (∀ r, c_Redis cfg = Some r → redisOK r) ∧ (pageCacheRedis cfg = true → c_Redis cfg ≠ None).
Proof.
  unfold validateRedis. destruct (c_Redis cfg) as [r|].
  - assert (Ht : ∀ t, rt_Enabled t && negb (Bool.eqb (isEmpty (rt_CertFile t)) (isEmpty (rt_KeyFile t))) = false ↔
      (rt_Enabled t = true → (rt_CertFile t = "" ↔ rt_KeyFile t = ""))).
    { intros t. rewrite <-!isEmpty_true. destruct (rt_Enabled t), (isEmpty (rt_CertFile t)),
        (isEmpty (rt_KeyFile t)); cbn; naive_solver. }
    rewrite !clean_app, !clean_err, Ht. vclean. unfold redisOK. split.
    + intros (? & ? & [??] & [[??]?] & ? & _). split; [|done]. intros r' [= <-]. by split_and!.
    + intros [Hr _]. destruct (Hr r eq_refl) as (? & ? & ? & ? & ? & ? & ? & ?). by split_and!.
  - rewrite clean_err. destruct (pageCacheRedis cfg); naive_solver.
Qed.

Lemma storesOK_alt cfg :
  storesOK cfg ↔
  (∀ mw, mw ∈ c_Middleware cfg → mw_Name mw ∈ ["cache"; "rate_limit"] → storeUsable cfg mw) ∧
  (pageCacheRedis cfg = true → c_Redis cfg ≠ None).
Proof.
  unfold storesOK, storeUsable, SelectsRedis. rewrite orb_true_iff, existsb_exists.
  setoid_rewrite andb_true_iff. setoid_rewrite oneOf_true. setoid_rewrite String.eqb_eq.
  setoid_rewrite <-list_elem_of_In. naive_solver.
Qed.

Lemma validateAssetSigning_clean cfg :
  clean (validateAssetSigning cfg) ↔
  ∀ f o, c_Federation cfg = Some f → o ∈ f_Origins f → og_RewriteAssets o = "sign" →
    ∃ mw, mw ∈ c_Middleware cfg ∧ signs mw = true.
Proof.
  unfold validateAssetSigning. destruct (c_Federation cfg) as [f|]; [|vclean; naive_solver].
  assert (Hs : nonempty (og_ID <$> List.filter (λ o, String.eqb (og_RewriteAssets o) "sign") (f_Origins f)) = true ↔
    ∃ o, o ∈ f_Origins f ∧ og_RewriteAssets o = "sign").
  { transitivity (∃ o, In o (List.filter (λ o, String.eqb (og_RewriteAssets o) "sign") (f_Origins f))).
    - destruct (List.filter _ _) as [|o l]; cbn; naive_solver.
    - setoid_rewrite filter_In. setoid_rewrite String.eqb_eq. by setoid_rewrite list_elem_of_In. }
  destruct (nonempty _); cbn [negb].
  - rewrite clean_err, negb_false_iff, existsb_exists. setoid_rewrite <-list_elem_of_In.
    destruct (proj1 Hs eq_refl) as (o & Ho & Hsign). naive_solver.
  - vclean. split; [|done]. intros _ f' o [= <-] Ho Hsign.
    assert (false = true) by (apply Hs; eauto). done.
Qed.

Lemma issues_clean cfg : clean (issues cfg) ↔ WellFormed cfg.
Proof.
  unfold issues, validateMiddleware. rewrite !clean_app, clean_each, validateServer_clean, validateLogging_clean,
    validateMode_clean, validateAuthz_clean, validateRedis_clean, validateAssetSigning_clean.
  setoid_rewrite validateOneMiddleware_clean.
  assert (Hl : ∀ P, (∀ (i : nat) x, c_Middleware cfg !! i = Some x → P x) ↔ ∀ mw, mw ∈ c_Middleware cfg → P mw).
  { intros P. setoid_rewrite list_elem_of_lookup. naive_solver. }
  rewrite (Hl (λ x, mw_Name x ∈ validMiddleware ∧ (mw_Name x = "cors" → corsOK x) ∧
    (mw_Name x = "rate_limit" → rateOK x) ∧ (mw_Name x ∈ ["cache"; "rate_limit"] → storeUsable cfg x))).
  split.
  - intros (? & (? & ?) & ? & Hm & ? & (? & ?) & ?). split; try done; try (intros; by apply Hm).
    + apply Forall_forall. intros; by apply Hm.
    + apply storesOK_alt. split; [|done]. intros; by apply Hm.
  - intros [? ? ? ? Hmw Hc Hr Hst%storesOK_alt ? ? ?]. rewrite Forall_forall in Hmw.
    destruct Hst as [Hst1 Hst2]. split_and!; try done. intros mw Hin. split_and!; auto.
Qed.

Lemma Validate_clean cfg : Validate cfg = Ok () ↔ clean (issues cfg).
Proof. unfold Validate, clean. by destruct (errorsOf (issues cfg)). Qed.

Lemma validated cfg : Validate cfg = Ok () ↔ WellFormed cfg.
Proof. by rewrite Validate_clean, issues_clean. Qed.

(** ** Defaults in force *)

(** What the defaults leave positive in an accepted configuration. *)
Record effective (cfg : Config) : Prop := {
  ef_read : 0 < t_Read (s_Timeouts (c_Server cfg));
  ef_write : 0 < t_Write (s_Timeouts (c_Server cfg));
  ef_idle : 0 < t_Idle (s_Timeouts (c_Server cfg));
  ef_header : 0 < s_MaxHeaderBytes (c_Server cfg);
  ef_origins : ∀ f o, c_Mode cfg = "federation" → c_Federation cfg = Some f → o ∈ f_Origins f → 0 < og_Timeout o;
  ef_upstream : ∀ u, c_Mode cfg = "single" → c_Upstream cfg = Some u → 0 < u_Timeout u;
  ef_strings : s_Host (c_Server cfg) ≠ "" ∧ ci_Source (s_ClientIP (c_Server cfg)) ≠ "" ∧
    l_Level (c_Logging cfg) ≠ "" ∧ l_Format (c_Logging cfg) ≠ "" ∧ c_HealthPath cfg ≠ "";
}.

Lemma orZ_pos d x : 0 < d → 0 ≤ orZ d x → 0 < orZ d x.
Proof. unfold orZ. destruct (Z.eqb_spec x 0); lia. Qed.
Lemma orS_ne d x : d ≠ "" → orS d x ≠ "".
Proof. unfold orS. by destruct (String.eqb_spec x ""). Qed.
Lemma orZ_idem d x : orZ d (orZ d x) = orZ d x.
Proof. unfold orZ. destruct (Z.eqb_spec x 0) as [|Hx]; [by case_match|]. by rewrite (proj2 (Z.eqb_neq x 0) Hx). Qed.
Lemma orS_idem d x : orS d (orS d x) = orS d x.
Proof. unfold orS. destruct (String.eqb_spec x "") as [|Hx]; [by case_match|]. by rewrite (proj2 (String.eqb_neq x "") Hx). Qed.

Lemma setDefaults_idem c : setDefaults (setDefaults c) = setDefaults c.
Proof.
  unfold setDefaults, serverDefaults. cbn. rewrite !orZ_idem, !orS_idem. f_equal.
  - destruct (c_Upstream c) as [u|]; [|done]. unfold upstreamDefaults. cbn. by rewrite orZ_idem.
  - destruct (c_Federation c) as [f|]; [|done]. unfold federationDefaults. cbn. rewrite !orZ_idem. do 2 f_equal.
    induction (f_Origins f) as [|o os IH]; cbn; [done|]. rewrite IH. f_equal.
    unfold originDefaults. cbn. by rewrite orZ_idem.
Qed.

Lemma effective_defaults raw : WellFormed (setDefaults raw) → effective (setDefaults raw).
Proof.
  intros [[_ (Hr & Hw & Hi) Hh] _ _ Hm]. split.
  - by apply orZ_pos.
  - by apply orZ_pos.
  - by apply orZ_pos.
  - by apply orZ_pos.
  - intros f o Hf Hfed Ho. destruct Hm as [[Hs _]|(_ & f' & Hf' & Hok)]; [congruence|].
    assert (f' = f) as -> by congruence. pose proof (fo_origins f Hok) as Hall. rewrite Forall_forall in Hall.
    pose proof (oo_timeout _ _ (Hall o Ho)) as Ht. cbn in Hfed.
    destruct (c_Federation raw) as [fr|]; [|done]. cbn in Hfed. injection Hfed as <-.
    apply list_elem_of_fmap in Ho as (o' & -> & _). by apply orZ_pos.
  - intros u Hs Hu. destruct Hm as [(_ & u' & Hu' & _ & Ht & _)|[Hf _]]; [|congruence].
    assert (u' = u) as -> by congruence. cbn in Hu. destruct (c_Upstream raw) as [ur|]; [|done].
    cbn in Hu. injection Hu as <-. by apply orZ_pos.
  - cbn. split_and!; by apply orS_ne.
Qed.
End Clean.

(** ** Properties *)

(** C25: The validator accepts exactly the well-formed configurations: ports
    and timeouts in range, the block of the selected mode present, origins
    with distinct well-formed IDs, absolute HTTP base URLs that are not
    literal private addresses unless allowed, a cursor secret of at least
    sixteen characters, known middleware names, no credentials with a
    wildcard CORS origin, a Redis wherever one is selected, readable policy
    files, and a signing secret wherever assets are signed. *)
Theorem Validate_iff `{!NetLib} cfg : Validate cfg = Ok () ↔ WellFormed cfg.
Proof. apply validated. Qed.

(** Loading a file returns only configurations that are well formed,
    unchanged by a second application of the defaults and with every
    timeout the defaults cover positive; undefined references without a
    default are all reported, in document order, and nothing else is. *)
Theorem Load_spec `{!NetLib} file env decode :
  match Load file env decode with
  | Ok cfg =>
      WellFormed cfg ∧ effective cfg ∧ setDefaults cfg = cfg ∧
      ∃ root raw, file = Some (Some root) ∧ decode (expandNode env root).1 = Some raw ∧ cfg = setDefaults raw ∧
        ∀ s, s ∈ strings root → (expandEnvStrict env s).2 = []
  | Err (MissingEnv names) =>
      names ≠ [] ∧ ∃ root, file = Some (Some root) ∧
        names = strings root ≫= λ s, (expandEnvStrict env s).2
  | Err (ValidationFailed es _) =>
      es ≠ [] ∧ ∃ root raw, file = Some (Some root) ∧ decode (expandNode env root).1 = Some raw ∧
        ¬ WellFormed (setDefaults raw)
  | Err DecodeFailed => ∃ root, file = Some (Some root) ∧ decode (expandNode env root).1 = None
  | Err ParseFailed => file = Some None
  | Err ReadFailed => file = None
  end.
Proof.
  unfold Load. destruct file as [[root|]|]; try done.
  pose proof (expandNode_missing env root) as Hm. destruct (expandNode env root) as [root' [|n names]] eqn:E.
  - cbn [fst snd] in *. destruct (decode root') as [raw|] eqn:Ed; [|by exists root; rewrite E].
    destruct (Validate (setDefaults raw)) as [[]|[es ws]] eqn:Ev.
    + apply Validate_clean, issues_clean in Ev. split_and!; [done|by apply effective_defaults|apply setDefaults_idem|].
      exists root, raw. rewrite E. split_and!; try done. intros s Hs.
      destruct (expandEnvStrict env s).2 as [|x l] eqn:Ex; [done|].
      assert (x ∈ []) as []%elem_of_nil by (rewrite Hm; apply list_elem_of_bind; exists s; rewrite Ex; set_solver).
    + split; [unfold Validate in Ev; destruct (errorsOf _); [done|]; by injection Ev as <- <-|].
      exists root, raw. rewrite E, <-issues_clean, <-Validate_clean, Ev. done.
  - split; [done|]. exists root. by rewrite <-Hm.
Qed.

(** Environment expansion follows the documented syntax: on any text
    built of literal bytes, escaped dollars, bare dollars and references,
    each reference yields its variable or its default, each undefined
    reference without a default is reported, and values are never scanned
    again; a text in which no dollar starts a reference is unchanged. *)
Theorem expandEnvStrict_spec lookup toks s :
  (Forall tokenOk toks →
   expandEnvStrict lookup (concatS (renderToken <$> toks)) =
   (concatS (meaning lookup <$> toks), toks ≫= misses lookup)) ∧
  (noRef s = true → expandEnvStrict lookup s = (s, [])).
Proof.
  split; [|apply expand_noRef]. induction toks as [|t toks IH]; intros Hok; [by apply expand_None|].
  apply Forall_cons in Hok as [Ht Hok]. cbn [fmap list_fmap concatS foldr].
  rewrite expand_token by done. unfold concatS in IH. by rewrite (IH Hok).
Qed.

Module Witness.

(** URLs without escapes, and two literal addresses. *)
#[local] Instance plainNet : NetLib := {|
  cfg_url_Parse raw :=
    u ← URL.parsePlain raw;
    Some (mkParsedURL (URL.Scheme u) (URL.Host u) (URL.break ":" (URL.Host u)).1 (URL.RawQuery u) "");
  ParsePrefix p := Contains p "/";
  ParseIP h :=
    if String.eqb h "127.0.0.1" then Some (mkParsedIP true false false)
    else if String.eqb h "10.0.0.1" then Some (mkParsedIP false true false) else None;
  Stat _ := true |}.

Definition origin (id url : string) : OriginConfig :=
  mkOriginConfig id "" "" url true 0 None None 0 None [] [] 0 false true false 0 "" ∅ "" false false 0
    false "" 0 None.

Definition federated (secret : string) (origins : list OriginConfig) : Config :=
  mkConfig (mkServer "" 0 (mkTLS false "" "") (mkTimeouts 0 0 0 0) 0 0 "" (mkClientIP "" "" [] 0))
    (mkLogging "" "") [] "federation" None (Some (mkFederation origins 0 0 0 0 false secret None)) "" None None.

Definition good : Config := setDefaults (federated "0123456789abcdef" [origin "a" "https://a.org/v1"; origin "b" "https://b.org"]).
Definition bad : Config :=
  setDefaults (federated "short" [origin "a" "http://10.0.0.1/"; origin "a" "ftp://b"; origin "" "https://c"]).

Lemma Validate_iff_witness : WellFormed good ∧ ¬ WellFormed bad.
Proof.
  split; [apply Validate_iff; vm_compute; reflexivity|].
  intros Hbad%Validate_iff. vm_compute in Hbad. discriminate Hbad.
Defined.

(** All the errors of a configuration are reported, in order. *)
Lemma Validate_reports_all :
  Validate bad = Err ([EPrivate (FBaseURL 0); EOriginDuplicate 1 "a"; EScheme (FBaseURL 1); EOriginID 2;
    ECursorSecretShort 5], []).
Proof. vm_compute. reflexivity. Qed.

Definition leaf (v : string) : node := mkNode ScalarNode "!!str" 0 v [].
Definition doc : node := mkNode DocumentNode "" 0 "" [mkNode MappingNode "!!map" 0 "" [leaf "secret"; leaf "${SECRET}"]].
Definition readSecret (n : node) : option Config :=
  match n with
  | mkNode _ _ _ _ [mkNode _ _ _ _ [_; v]] =>
      Some (federated (n_Value v) [origin "a" "https://a.org"])
  | _ => None
  end.

Lemma Load_spec_witness :
  (∃ cfg, Load (Some (Some doc)) (λ _, Some "0123456789abcdef") readSecret = Ok cfg ∧ WellFormed cfg) ∧
  Load (Some (Some doc)) (λ _, None) readSecret = Err (MissingEnv ["SECRET"]).
Proof.
  split; [|vm_compute; reflexivity].
  pose proof (Load_spec (Some (Some doc)) (λ _, Some "0123456789abcdef") readSecret) as Hspec.
  destruct (Load (Some (Some doc)) (λ _, Some "0123456789abcdef") readSecret) as [cfg|e] eqn:E.
  - exists cfg. split; [reflexivity|]. apply Hspec.
  - vm_compute in E. discriminate E.
Defined.

Definition env (n : string) : option string :=
  if String.eqb n "A" then Some "x${B}" else if String.eqb n "E" then Some "" else None.

Lemma expandEnvStrict_spec_witness :
  expandEnvStrict env "p$1 $$ ${A} ${E:-d} ${E} ${C}" = ("p$1 $ x${B} d  ", ["C"]) ∧
  expandEnvStrict env "^/(.*)/$2" = ("^/(.*)/$2", []).
Proof.
  destruct (expandEnvStrict_spec env [TLit "p"; TBare "1"; TLit " "; TDollar; TLit " "; TVar "A"; TLit " ";
    TDef "E" "d"; TLit " "; TVar "E"; TLit " "; TVar "C"] "^/(.*)/$2") as [Ht Hn].
  split; [|apply Hn; vm_compute; reflexivity].
  apply Ht. repeat constructor; discriminate.
Defined.

(** A mapping key that looks like a reference is expanded too. *)
Lemma keys_are_expanded :
  (expandNode env (mkNode MappingNode "!!map" 0 "" [leaf "${C:-k}"; leaf "v"])).1 =
  mkNode MappingNode "!!map" 0 "" [mkNode ScalarNode "" 0 "k" []; leaf "v"].
Proof. vm_compute. reflexivity. Qed.

(** A negative header timeout, which switches the limit off, is accepted. *)
Lemma read_header_unchecked :
  Validate (mkConfig (mkServer "h" 80 (mkTLS false "" "") (mkTimeouts 1 (-1) 1 1) 0 0 "" (mkClientIP "" "" [] 0))
    (mkLogging "" "") [] "single" (Some (mkUpstream "https://a.org" 0 false false 0 false)) None "" None None) = Ok ().
Proof. vm_compute. reflexivity. Qed.

End Witness.

End Validation.
