(* ===== verification/Jwks.v ===== *)
(** * The JWKS client ([internal/middleware/auth/jwks.go])

    Parsing of published keys, the key cache with its soft and hard expiry,
    the negative cache and the refresh throttle.

    Every critical section of the client is a function on its state; a
    lookup that misses runs several of them with a network fetch in between.
    [step] interleaves the goroutines of any number of lookups, the
    background refreshes they start and the single shared flight
    ([singleflight.Group.Do] runs one function at a time and hands its result
    to the callers that joined it).  [KeyWithAlg] is the uninterrupted
    sequence of the sections.

    Parameters: the fetched documents (what the issuer answers), and the
    clock.  A zero [time.Time] is [None]. *)

From S2P Require Import Prelude GoLib.
From Stdlib Require Import Ascii.
Import Strings.

Module Jwks.
#[local] Open Scope Z_scope.

(** ** Keys *)

Record JWK := mkJWK {
  Kty : string; Kid : string; Use : string; Alg : string;
  N_ : string; E_ : string; Crv : string; X : string; Y : string;
}.

Inductive curve := P256 | P384 | P521.
Inductive publicKey := RSAKey (n : Z) (e : Z) | ECKey (c : curve) (x y : Z).

Inductive keyError := ErrKty (kty : string) | ErrMissing | ErrDecode | ErrCurve (crv : string).

Fixpoint bytesOf (s : bytes) : list Z :=
  match s with EmptyString => [] | String c s => Z.of_N (N_of_ascii c) :: bytesOf s end.

(** [big.Int.SetBytes]: big-endian. *)
Definition SetBytes (s : bytes) : Z := foldl (λ acc b, acc * 256 + b) 0 (bytesOf s).

(** [e = e<<8 | int(b)] on a 64-bit int. *)
Definition exponent (s : bytes) : Z := foldl (λ e b, wrap64 (Z.lor (Z.shiftl e 8) b)) 0 (bytesOf s).

Definition decodeField (s : string) : result keyError bytes :=
  match Base64.DecodeString s with Some b => Ok b | None => Err ErrDecode end.

Definition parseRSAKey (jwk : JWK) : result keyError publicKey :=
  if String.eqb (N_ jwk) "" || String.eqb (E_ jwk) "" then Err ErrMissing else
  nBytes ← decodeField (N_ jwk);
  eBytes ← decodeField (E_ jwk);
  Ok (RSAKey (SetBytes nBytes) (exponent eBytes)).

Definition parseECKey (jwk : JWK) : result keyError publicKey :=
  if String.eqb (X jwk) "" || String.eqb (Y jwk) "" || String.eqb (Crv jwk) "" then Err ErrMissing else
  c ← (if String.eqb (Crv jwk) "P-256" then Ok P256
       else if String.eqb (Crv jwk) "P-384" then Ok P384
       else if String.eqb (Crv jwk) "P-521" then Ok P521 else Err (ErrCurve (Crv jwk)));
  xBytes ← decodeField (X jwk);
  yBytes ← decodeField (Y jwk);
  Ok (ECKey c (SetBytes xBytes) (SetBytes yBytes)).

Definition parseJWK (jwk : JWK) : result keyError publicKey :=
  if String.eqb (Kty jwk) "RSA" then parseRSAKey jwk
  else if String.eqb (Kty jwk) "EC" then parseECKey jwk
  else Err (ErrKty (Kty jwk)).

Record cachedKey := mkCachedKey { ck_key : publicKey; ck_alg : string }.

(** ** The client *)

Record JWKSClientConfig := mkConfig {
  TTL : Z; HardTTL : Z; AllowInsecureHTTP : bool; MinRefreshInterval : Z; NegativeCacheTTL : Z;
}.

Record JWKSClient := mkClient {
  ttl : Z;
  hard : Z;
  minRefreshInterval : Z;
  negCacheTTL : Z;
  keys : gmap string cachedKey;
  softExpiry : option Z;
  hardExpiry : option Z;
  bgRefresh : bool;
  lastRefreshAttempt : option Z;
  negKids : gmap string Z;
}.

Definition second : Z := 1000000000.

(** [if x <= 0 { x = d }]. *)
Definition orPos (d x : Z) : Z := if x <=? 0 then d else x.

(** [None]: the URL is not https. *)
Definition NewJWKSClient (url : string) (cfg : JWKSClientConfig) : option JWKSClient :=
  if negb (AllowInsecureHTTP cfg) && negb (HasPrefix (ToLower url) "https://") then None else
  let ttl := orPos (3600 * second) (TTL cfg) in
  let hard := orPos (24 * 3600 * second) (HardTTL cfg) in
  let hard := if hard <? ttl then ttl else hard in
  Some (mkClient ttl hard (orPos (30 * second) (MinRefreshInterval cfg))
    (orPos (60 * second) (NegativeCacheTTL cfg)) ∅ None None false None ∅).

(** *** Critical sections *)

Inductive lookupState := lookupMiss | lookupFresh (k : cachedKey) | lookupStale (k : cachedKey).

(** [now.After(t)] with a zero-time check. *)
Definition past (now : Z) (t : option Z) : bool := match t with Some t => t <? now | None => false end.

Definition lookup_ (now : Z) (kid : string) (c : JWKSClient) : lookupState :=
  if past now (hardExpiry c) then lookupMiss else
  match keys c !! kid with
  | None => lookupMiss
  | Some k =>
      match softExpiry c with
      | None => lookupStale k
      | Some t => if t <? now then lookupStale k else lookupFresh k
      end
  end.

Definition shouldShortCircuit (now : Z) (kid : string) (c : JWKSClient) : bool :=
  match negKids c !! kid with Some expiry => now <? expiry | None => false end
  || match lastRefreshAttempt c with Some t => now - t <? minRefreshInterval c | None => false end.

Definition markNegative (now : Z) (kid : string) (c : JWKSClient) : JWKSClient :=
  mkClient (ttl c) (hard c) (minRefreshInterval c) (negCacheTTL c) (keys c) (softExpiry c) (hardExpiry c)
    (bgRefresh c) (lastRefreshAttempt c) (<[kid := now + negCacheTTL c]> (negKids c)).

Definition setBgRefresh (b : bool) (c : JWKSClient) : JWKSClient :=
  mkClient (ttl c) (hard c) (minRefreshInterval c) (negCacheTTL c) (keys c) (softExpiry c) (hardExpiry c)
    b (lastRefreshAttempt c) (negKids c).

(** The start of a refresh: the attempt is recorded whatever its outcome. *)
Definition recordAttempt (now : Z) (c : JWKSClient) : JWKSClient :=
  mkClient (ttl c) (hard c) (minRefreshInterval c) (negCacheTTL c) (keys c) (softExpiry c) (hardExpiry c)
    (bgRefresh c) (Some now) (negKids c).

Definition signing (jwk : JWK) : bool := String.eqb (Use jwk) "" || String.eqb (Use jwk) "sig".

(** One key of the document: encryption keys and keys that do not parse are
    skipped, a later key replaces an earlier one of the same ID. *)
Definition addKey (out : gmap string cachedKey) (jwk : JWK) : gmap string cachedKey :=
  if negb (signing jwk) then out else
  match parseJWK jwk with
  | Err _ => out
  | Ok key => <[Kid jwk := mkCachedKey key (Alg jwk)]> out
  end.

Definition keysOf (doc : list JWK) : gmap string cachedKey := foldl addKey ∅ doc.

(** The end of a successful refresh. *)
Definition publish (now : Z) (doc : list JWK) (c : JWKSClient) : JWKSClient :=
  mkClient (ttl c) (hard c) (minRefreshInterval c) (negCacheTTL c) (keysOf doc) (Some (now + ttl c))
    (Some (now + hard c)) (bgRefresh c) (lastRefreshAttempt c) ∅.

(** A fetch fails at the transport, on a status other than 200, or in the
    decoder. *)
Inductive fetchError := FetchFailed | BadStatus (code : Z) | BadDocument.

(** [refresh] outside the flight group: at [now] the attempt, at [now'] its
    outcome. *)
Definition refresh (now now' : Z) (outcome : result fetchError (list JWK)) (c : JWKSClient)
    : result fetchError unit * JWKSClient :=
  let c := recordAttempt now c in
  match outcome with
  | Err e => (Err e, c)
  | Ok doc => (Ok (), publish now' doc c)
  end.

Inductive jwksError := NegativeCached | RefreshFailed (e : fetchError) | NotPresent.

(** A whole lookup with nothing in between.  The flag tells whether the
    issuer was asked. *)
Definition KeyWithAlg (now now' : Z) (outcome : result fetchError (list JWK)) (kid : string) (c : JWKSClient)
    : result jwksError cachedKey * JWKSClient * bool :=
  match lookup_ now kid c with
  | lookupFresh k => (Ok k, c, false)
  | lookupStale k => (Ok k, setBgRefresh true c, false)
  | lookupMiss =>
      if shouldShortCircuit now kid c then (Err NegativeCached, c, false) else
      match refresh now now' outcome c with
      | (Err e, c) => (Err (RefreshFailed e), c, true)
      | (Ok _, c) =>
          match lookup_ now' kid c with
          | lookupFresh k | lookupStale k => (Ok k, c, true)
          | lookupMiss => (Err NotPresent, markNegative now' kid c, true)
          end
      end
  end.

(** [Key] drops the algorithm. *)
Definition Key (now now' : Z) (outcome : result fetchError (list JWK)) (kid : string) (c : JWKSClient)
    : result jwksError publicKey * JWKSClient :=
  let '(r, c, _) := KeyWithAlg now now' outcome kid c in (ck_key <$> r, c).

(** ** Interleavings *)

(** Where a lookup of [kid], or a background refresh, stands. *)
Inductive goroutine :=
| GCall (kid : string)                              (* before the first lookup *)
| GKick (kid : string) (at_ : Z) (k : cachedKey)    (* stale hit, before the kick *)
| GCheck (kid : string)                             (* missed, before the throttle *)
| GJoin (kid : string)                              (* about to enter the flight group *)
| GWait (kid : string)                              (* in the flight group *)
| GRelook (kid : string)                            (* refreshed, before the second lookup *)
| GMark (kid : string)
| GDone (kid : string) (at_ : Z) (r : result jwksError cachedKey)
| BJoin | BWait | BClear | BDone.

(** The flight: started, fetching, or returned with its outcome. *)
Inductive flight := FStarted | FFetching | FReturned (r : result fetchError unit).

Record system := mkSystem {
  client : JWKSClient;
  flying : option flight;
  gs : list goroutine;
  clock : Z;
  docs : list (Z * list JWK);      (* what was published and when, newest first *)
}.

(** The waiters when the flight returns. *)
Definition wake (now : Z) (r : result fetchError unit) (g : goroutine) : goroutine :=
  match g with
  | GWait kid => match r with Ok _ => GRelook kid | Err e => GDone kid now (Err (RefreshFailed e)) end
  | BWait => BClear
  | g => g
  end.

(** A step of one goroutine, at a given time and state of the client: its
    next state, the client, and the goroutines it starts. *)
Definition turn (now : Z) (c : JWKSClient) (g : goroutine) : option (goroutine * JWKSClient * list goroutine) :=
  match g with
  | GCall kid =>
      Some (match lookup_ now kid c with
            | lookupFresh k => GDone kid now (Ok k)
            | lookupStale k => GKick kid now k
            | lookupMiss => GCheck kid
            end, c, [])
  | GKick kid at_ k =>
      Some (GDone kid at_ (Ok k), setBgRefresh true c, if bgRefresh c then [] else [BJoin])
  | GCheck kid =>
      Some (if shouldShortCircuit now kid c then GDone kid now (Err NegativeCached) else GJoin kid, c, [])
  | GRelook kid =>
      Some (match lookup_ now kid c with
            | lookupFresh k | lookupStale k => GDone kid now (Ok k)
            | lookupMiss => GMark kid
            end, c, [])
  | GMark kid => Some (GDone kid now (Err NotPresent), markNegative now kid c, [])
  | BClear => Some (BDone, setBgRefresh false c, [])
  | GJoin _ | GWait _ | GDone _ _ _ | BJoin | BWait | BDone => None
  end.

Definition joining (g : goroutine) : option goroutine :=
  match g with GJoin kid => Some (GWait kid) | BJoin => Some BWait | _ => None end.

(** What happens without further input: goroutines and the flight move. *)
Inductive work : system → system → Prop :=
| WTurn c f l1 g l2 now ds g' c' new :
    turn now c g = Some (g', c', new) →
    work (mkSystem c f (l1 ++ g :: l2) now ds) (mkSystem c' f (l1 ++ g' :: l2 ++ new) now ds)
| WJoin c f l1 g l2 now ds g' :
    joining g = Some g' →
    work (mkSystem c f (l1 ++ g :: l2) now ds)
         (mkSystem c (Some (default FStarted f)) (l1 ++ g' :: l2) now ds)
| WAttempt c l now ds :
    work (mkSystem c (Some FStarted) l now ds) (mkSystem (recordAttempt now c) (Some FFetching) l now ds)
| WFail c l now ds e :
    work (mkSystem c (Some FFetching) l now ds) (mkSystem c (Some (FReturned (Err e))) l now ds)
| WPublish c l now ds doc :
    work (mkSystem c (Some FFetching) l now ds)
         (mkSystem (publish now doc c) (Some (FReturned (Ok ()))) l now ((now, doc) :: ds))
| WReturn c l now ds r :
    work (mkSystem c (Some (FReturned r)) l now ds) (mkSystem c None (wake now r <$> l) now ds).

(** Requests arrive and time passes. *)
Inductive step : system → system → Prop :=
| SCall s kid : step s (mkSystem (client s) (flying s) (gs s ++ [GCall kid]) (clock s) (docs s))
| STick s now : clock s ≤ now → step s (mkSystem (client s) (flying s) (gs s) now (docs s))
| SWork s s' : work s s' → step s s'.

Definition start (c : JWKSClient) (now : Z) : system := mkSystem c None [] now [].

(** ** Specification of the served keys *)

Definition usable (j : JWK) : option cachedKey :=
  if signing j then match parseJWK j with Ok k => Some (mkCachedKey k (Alg j)) | Err _ => None end else None.

(** [k] is the last usable key of [doc] with this ID. *)
Definition published (doc : list JWK) (kid : string) (k : cachedKey) : Prop :=
  ∃ l1 j l2, doc = l1 ++ j :: l2 ∧ Kid j = kid ∧ usable j = Some k ∧
    Forall (λ j', Kid j' = kid → usable j' = None) l2.

(** At time [at_], [k] was the key of the newest document, which was not
    past its hard expiry. *)
Definition served (hard : Z) (ds : list (Z * list JWK)) (kid : string) (at_ : Z) (k : cachedKey) : Prop :=
  ∃ newer t d older, ds = newer ++ (t, d) :: older ∧ Forall (λ x, at_ ≤ x.1) newer ∧
    t ≤ at_ ≤ t + hard ∧ published d kid k.

Definition finished (g : goroutine) : bool :=
  match g with GDone _ _ _ | BDone => true | _ => false end.
Definition waiting (g : goroutine) : bool :=
  match g with GWait _ | BWait => true | _ => false end.
Definition background (g : goroutine) : bool :=
  match g with BJoin | BWait | BClear => true | _ => false end.

(** Steps a goroutine, and the flight it may start, still have to take. *)
Definition weight (g : goroutine) : nat :=
  match g with
  | GCall _ => 9 | GCheck _ => 8 | GKick _ _ _ => 7 | GJoin _ => 7 | GWait _ => 3 | GRelook _ => 2 | GMark _ => 1
  | BJoin => 6 | BWait => 2 | BClear => 1 | GDone _ _ _ | BDone => 0
  end.
Definition flightWeight (f : option flight) : nat :=
  match f with Some FStarted => 3 | Some FFetching => 2 | Some (FReturned _) => 1 | None => 0 end.
Definition total (s : system) : nat := (sum_list_with weight (gs s) + flightWeight (flying s))%nat.

(** ** Lemmas *)

Lemma addKey_lookup out j kid :
  addKey out j !! kid =
  match usable j with Some k => if decide (Kid j = kid) then Some k else out !! kid | None => out !! kid end.
Proof.
  unfold addKey, usable. destruct (signing j); cbn; [|done].
  destruct (parseJWK j); [|done]. by rewrite lookup_insert.
Qed.

Lemma keysOf_spec doc kid k : keysOf doc !! kid = Some k ↔ published doc kid k.
Proof.
  unfold keysOf, published. revert k. induction doc as [|j doc IH] using rev_ind; intros k.
  { split; [done|]. intros (l1 & j & l2 & Hd & _). by destruct l1. }
  rewrite foldl_app. cbn [foldl]. rewrite addKey_lookup.
  assert (Hskip : (Kid j = kid → usable j = None) →
    foldl addKey ∅ doc !! kid = Some k ↔
    ∃ l1 j' l2, doc ++ [j] = l1 ++ j' :: l2 ∧ Kid j' = kid ∧ usable j' = Some k ∧
      Forall (λ j', Kid j' = kid → usable j' = None) l2).
  { intros Hj. rewrite IH. split.
    - intros (l1 & j' & l2 & -> & ? & ? & ?). exists l1, j', (l2 ++ [j]).
      rewrite <-List.app_assoc, Forall_app. naive_solver.
    - intros (l1 & j' & l2 & Hd & Hk & Hu & Hf).
      destruct l2 as [|x l2 _] using rev_ind.
      + apply app_inj_tail in Hd as [-> <-]. rewrite (Hj Hk) in Hu. done.
      + rewrite app_comm_cons, List.app_assoc in Hd. apply app_inj_tail in Hd as [-> <-].
        exists l1, j', l2. apply Forall_app in Hf as [Hf _]. done. }
  destruct (usable j) as [k'|] eqn:Eu; [|by apply Hskip].
  case_decide as Hk; [|by apply Hskip]. split.
  - intros [= ->]. exists doc, j, []. naive_solver.
  - intros (l1 & j' & l2 & Hd & Hk' & Hu & Hf). destruct l2 as [|x l2 _] using rev_ind.
    + apply app_inj_tail in Hd as [_ <-]. congruence.
    + rewrite app_comm_cons, List.app_assoc in Hd. apply app_inj_tail in Hd as [_ <-].
      rewrite Forall_app, Forall_singleton in Hf. destruct Hf as [_ Hf]. rewrite (Hf Hk) in Eu. done.
Qed.

(** The cache holds the newest document. *)
Definition holds (c : JWKSClient) (ds : list (Z * list JWK)) (now : Z) : Prop :=
  match ds with
  | [] => keys c = ∅ ∧ softExpiry c = None ∧ hardExpiry c = None
  | (t, d) :: _ => keys c = keysOf d ∧ softExpiry c = Some (t + ttl c) ∧ hardExpiry c = Some (t + hard c) ∧ t ≤ now
  end.

Definition hit (l : lookupState) : option cachedKey :=
  match l with lookupMiss => None | lookupFresh k | lookupStale k => Some k end.

Lemma lookup_served c ds now kid k :
  holds c ds now → hit (lookup_ now kid c) = Some k → served (hard c) ds kid now k.
Proof.
  intros Hh Hl. unfold lookup_ in Hl. destruct ds as [|[t d] ds]; cbn in Hh.
  { destruct Hh as (Hk & _ & He). rewrite He, Hk, lookup_empty in Hl. done. }
  destruct Hh as (Hk & Hs & He & Ht). rewrite He, Hk, Hs in Hl. cbn in Hl.
  destruct (Z.ltb_spec (t + hard c) now); [done|].
  destruct (keysOf d !! kid) as [k'|] eqn:E; [|done].
  assert (k' = k) as -> by (destruct (t + ttl c <? now); cbn in Hl; congruence).
  exists [], t, d, ds. split_and!; [done|constructor|done|lia|]. by apply keysOf_spec.
Qed.

Lemma served_publish h ds kid at_ k now d :
  at_ ≤ now → served h ds kid at_ k → served h ((now, d) :: ds) kid at_ k.
Proof.
  intros Ha (newer & t & d' & older & -> & Hn & Ht & Hp).
  exists ((now, d) :: newer), t, d', older. split; [done|]. split; [by constructor|done].
Qed.

(** ** Invariant *)

(** What a goroutine's state promises. *)
Definition good (h : Z) (ds : list (Z * list JWK)) (now : Z) (g : goroutine) : Prop :=
  match g with
  | GDone kid at_ (Ok k) | GKick kid at_ k => at_ ≤ now ∧ served h ds kid at_ k
  | _ => True
  end.

Definition countBg (l : list goroutine) : nat := length (List.filter background l).

#[global] Arguments countBg : simpl never.

Record inv (h : Z) (s : system) : Prop := {
  i_hard : hard (client s) = h;
  i_holds : holds (client s) (docs s) (clock s);
  i_good : Forall (good h (docs s) (clock s)) (gs s);
  i_bg : countBg (gs s) = if bgRefresh (client s) then 1%nat else 0%nat;
  i_wait : existsb waiting (gs s) = true ↔ flying s ≠ None;
}.

Lemma countBg_app l1 l2 : countBg (l1 ++ l2) = (countBg l1 + countBg l2)%nat.
Proof. unfold countBg. by rewrite List.filter_app, length_app. Qed.
Lemma countBg_cons g l : countBg (g :: l) = ((if background g then 1 else 0) + countBg l)%nat.
Proof. unfold countBg. cbn. by destruct (background g). Qed.

Lemma good_later h ds now now' g : now ≤ now' → good h ds now g → good h ds now' g.
Proof.
  intros Hn. destruct g as [|kid a k| | | | | |kid a [k|]| | | |]; cbn; try done; intros []; split; auto; lia.
Qed.

Lemma good_publish h ds now d g : good h ds now g → good h ((now, d) :: ds) now g.
Proof.
  destruct g as [|kid a k| | | | | |kid a [k|]| | | |]; cbn; try done; intros []; split; auto; by apply served_publish.
Qed.

(** A turn keeps the cached document, and promises what it should. *)
Lemma turn_good h ds now c g g' c' new :
  hard c = h → holds c ds now → good h ds now g → turn now c g = Some (g', c', new) →
  hard c' = h ∧ holds c' ds now ∧ good h ds now g' ∧ Forall (good h ds now) new.
Proof.
  intros <- Hh Hg Ht.
  assert (Hl : ∀ kid k, hit (lookup_ now kid c) = Some k → good (hard c) ds now (GDone kid now (Ok k))).
  { intros kid k Hk. split; [lia|]. by eapply lookup_served. }
  destruct g; cbn in Ht; try done; injection Ht as <- <- <-; split_and!; try done; try by constructor.
  - destruct (lookup_ now kid c) eqn:E; cbn; try done; apply (Hl kid); by rewrite E.
  - destruct (bgRefresh c); by repeat constructor.
  - by destruct (shouldShortCircuit now kid c).
  - destruct (lookup_ now kid c) eqn:E; cbn; try done; apply (Hl kid); by rewrite E.
Qed.

Lemma turn_bg now c g g' c' new n :
  ((if background g then 1 else 0) + n = if bgRefresh c then 1 else 0)%nat →
  turn now c g = Some (g', c', new) →
  ((if background g' then 1 else 0) + (n + countBg new) = if bgRefresh c' then 1 else 0)%nat.
Proof.
  intros Hb Ht. destruct g; cbn in Ht; try done; injection Ht as <- <- <-; unfold countBg; cbn in *.
  - destruct (lookup_ now kid c); cbn; lia.
  - destruct (bgRefresh c); cbn; lia.
  - destruct (shouldShortCircuit now kid c); cbn; lia.
  - destruct (lookup_ now kid c); cbn; lia.
  - lia.
  - destruct (bgRefresh c); lia.
Qed.

Lemma turn_waiting now c g g' c' new :
  turn now c g = Some (g', c', new) → waiting g = false ∧ waiting g' = false ∧ existsb waiting new = false.
Proof.
  intros Ht. destruct g; cbn in Ht; try done; injection Ht as <- <- <-; split_and!; try done;
    by repeat case_match.
Qed.

Lemma holds_later c ds now now' : now ≤ now' → holds c ds now → holds c ds now'.
Proof. destruct ds as [|[t d] ds]; cbn; [done|]. intros ? (? & ? & ? & ?). split_and!; try done; lia. Qed.

Lemma wake_bg now r l : countBg (wake now r <$> l) = countBg l.
Proof. induction l as [|g l IH]; [done|]. rewrite fmap_cons, !countBg_cons, IH. destruct g, r; done. Qed.
Lemma wake_waiting now r l : existsb waiting (wake now r <$> l) = false.
Proof. induction l as [|g l IH]; cbn; [done|]. rewrite IH. destruct g, r; done. Qed.

Lemma inv_work h s s' : inv h s → work s s' → inv h s'.
Proof.
  intros [Hhard Hh Hg Hb Hw] Hs. destruct Hs as [c f l1 g l2 now ds g' c' new Ht|c f l1 g l2 now ds g' Hj|c l now ds
    |c l now ds e|c l now ds doc|c l now ds r]; cbn in *.
  - rewrite Forall_app, Forall_cons in Hg. destruct Hg as (Hg1 & Hgg & Hg2).
    destruct (turn_good h ds now c g g' c' new Hhard Hh Hgg Ht) as (? & ? & ? & ?).
    destruct (turn_waiting _ _ _ _ _ _ Ht) as (Hwg & Hwg' & Hwn).
    split; cbn; [done|done| | |].
    + rewrite Forall_app, Forall_cons, Forall_app. auto.
    + rewrite countBg_app, countBg_cons in Hb. rewrite countBg_app, countBg_cons, countBg_app.
      apply (turn_bg now c g g' c' new (countBg l1 + countBg l2)) in Ht; lia.
    + rewrite <-Hw, !existsb_app. cbn. by rewrite existsb_app, Hwg, Hwg', Hwn, orb_false_r.
  - rewrite Forall_app, Forall_cons in Hg. destruct Hg as (Hg1 & Hgg & Hg2).
    split; cbn; [done|done| | |].
    + rewrite Forall_app, Forall_cons. destruct g; cbn in Hj; try done; by injection Hj as <-.
    + rewrite countBg_app, countBg_cons in *. destruct g; cbn in Hj; try done; by injection Hj as <-.
    + split; [done|]. intros _. rewrite existsb_app. cbn.
      destruct g; cbn in Hj; try done; injection Hj as <-; cbn; apply orb_true_r.
  - split; cbn; try done. rewrite Hw. done.
  - split; cbn; try done. rewrite Hw. done.
  - split; cbn; try done.
    + eapply Forall_impl; [exact Hg|]. intros g. apply good_publish.
    + rewrite Hw. done.
  - split; cbn; try done.
    + apply Forall_fmap. eapply Forall_impl; [exact Hg|]. intros g. cbn. destruct g, r; done.
    + by rewrite wake_bg.
    + by rewrite wake_waiting.
Qed.

Lemma jwks_inv_step h s s' : inv h s → step s s' → inv h s'.
Proof.
  intros Hi Hs. destruct Hs as [s kid|s now Hn|s s' Hs]; [..|by eapply inv_work];
    destruct Hi as [Hhard Hh Hg Hb Hw]; split; cbn; try done.
  - apply Forall_app. by repeat constructor.
  - by rewrite countBg_app, Hb, Nat.add_0_r.
  - by rewrite existsb_app, orb_false_r.
  - by eapply holds_later.
  - eapply Forall_impl; [exact Hg|]. intros g. by apply good_later.
Qed.

Lemma inv_start c now :
  keys c = ∅ → softExpiry c = None → hardExpiry c = None → bgRefresh c = false → inv (hard c) (start c now).
Proof. intros ? ? ? Hb. split; cbn; try done. by rewrite Hb. Qed.

Lemma NewJWKSClient_start url cfg c : NewJWKSClient url cfg = Some c → ∀ now, inv (hard c) (start c now).
Proof. unfold NewJWKSClient. case_match; [done|]. intros [= <-] now. by apply inv_start. Qed.

Lemma jwks_inv_reachable url cfg c now s :
  NewJWKSClient url cfg = Some c → rtc step (start c now) s → inv (hard c) s.
Proof.
  intros Hc Hs. assert (Hi : inv (hard c) (start c now)) by (by eapply NewJWKSClient_start).
  induction Hs as [|x y z Hxy _ IH]; [done|]. by eapply IH, jwks_inv_step.
Qed.

(** ** Progress *)

Lemma work_weight s s' : work s s' → (total s' < total s)%nat.
Proof.
  unfold total. intros Hs. destruct Hs as [c f l1 g l2 now ds g' c' new Ht|c f l1 g l2 now ds g' Hj|c l now ds
    |c l now ds e|c l now ds doc|c l now ds r]; cbn; try lia.
  - rewrite !sum_list_with_app. cbn. rewrite sum_list_with_app.
    enough (weight g' + sum_list_with weight new < weight g)%nat by lia.
    destruct g; cbn in Ht; try done; injection Ht as <- <- <-; cbn; repeat case_match; cbn; lia.
  - rewrite !sum_list_with_app. cbn.
    destruct g; cbn in Hj; try done; injection Hj as <-; cbn; destruct f as [[| |]|]; cbn; lia.
  - enough (sum_list_with weight (wake now r <$> l) ≤ sum_list_with weight l)%nat by lia.
    induction l as [|g l IH]; cbn; [lia|]. destruct g, r; cbn; lia.
Qed.

Lemma work_possible h s : inv h s → existsb (negb ∘ finished) (gs s) = true → ∃ s', work s s'.
Proof.
  intros Hi (g & Hg & Hn)%existsb_exists. destruct s as [c f l now ds]. cbn in *.
  destruct f as [[| |r]|].
  - eexists. apply WAttempt.
  - eexists. apply (WFail _ _ _ _ FetchFailed).
  - eexists. apply WReturn.
  - apply list_elem_of_In, list_elem_of_split in Hg as (l1 & l2 & ->).
    assert (waiting g = false) as Hwait.
    { destruct (waiting g) eqn:E; [|done]. destruct (proj1 (i_wait _ _ Hi)); [|done].
      apply existsb_exists. exists g. split; [|done]. apply list_elem_of_In. cbn. set_solver. }
    destruct (turn now c g) as [[[g' c'] new]|] eqn:Et; [eexists; by apply WTurn|].
    destruct (joining g) as [g'|] eqn:Ej; [eexists; by apply WJoin|].
    destruct g; cbn in *; done.
Qed.

(** ** The throttle *)

Inductive op :=
| OKey (now now' : Z) (kid : string) (outcome : result fetchError (list JWK))
| OBackground (now now' : Z) (outcome : result fetchError (list JWK)).

(** The fetches of a sequence of lookups and background refreshes: when, and
    whether a lookup caused it. *)
Fixpoint attempts (c : JWKSClient) (ops : list op) : list (Z * bool) :=
  match ops with
  | [] => []
  | OKey now now' kid outcome :: ops =>
      let '(_, c', fetched) := KeyWithAlg now now' outcome kid c in
      (if fetched : bool then [(now, true)] else []) ++ attempts c' ops
  | OBackground now now' outcome :: ops =>
      (now, false) :: attempts (setBgRefresh false (refresh now now' outcome c).2) ops
  end.

(** Time does not go backwards. *)
Fixpoint ordered (t : Z) (ops : list op) : Prop :=
  match ops with
  | [] => True
  | OKey now now' _ _ :: ops | OBackground now now' _ :: ops => t ≤ now ≤ now' ∧ ordered now' ops
  end.

(** A fetch caused by a lookup comes an interval after every earlier one. *)
Definition spaced (d : Z) (a b : Z * bool) : Prop := b.2 = true → a.1 + d ≤ b.1.

Definition afterLast (c : JWKSClient) (b : Z * bool) : Prop :=
  match lastRefreshAttempt c with Some t => spaced (minRefreshInterval c) (t, false) b ∧ t ≤ b.1 | None => True end.

Lemma KeyWithAlg_attempt now now' outcome kid c r c' fetched :
  KeyWithAlg now now' outcome kid c = (r, c', fetched) →
  minRefreshInterval c' = minRefreshInterval c ∧
  if fetched then lastRefreshAttempt c' = Some now ∧ shouldShortCircuit now kid c = false
  else lastRefreshAttempt c' = lastRefreshAttempt c.
Proof.
  unfold KeyWithAlg, refresh. destruct (lookup_ now kid c); [|naive_solver..].
  destruct (shouldShortCircuit now kid c); [naive_solver|].
  destruct outcome as [doc|e]; [|naive_solver]. destruct (lookup_ now' kid _); naive_solver.
Qed.

Lemma attempts_spaced ops : ∀ c t,
  0 ≤ minRefreshInterval c →
  match lastRefreshAttempt c with Some l => l ≤ t | None => True end → ordered t ops →
  StronglySorted (spaced (minRefreshInterval c)) (attempts c ops) ∧
  Forall (λ b, afterLast c b ∧ t ≤ b.1) (attempts c ops).
Proof.
  induction ops as [|o ops IH]; intros c t Hm Hl Ho; [by split; constructor|].
  assert (Hstep : ∀ c' now now' fg, minRefreshInterval c' = minRefreshInterval c →
    lastRefreshAttempt c' = Some now → afterLast c (now, fg) → t ≤ now ≤ now' → ordered now' ops →
    StronglySorted (spaced (minRefreshInterval c)) ((now, fg) :: attempts c' ops) ∧
    Forall (λ b, afterLast c b ∧ t ≤ b.1) ((now, fg) :: attempts c' ops)).
  { intros c' now now' fg Hm' Hl' Ha Ht Ho'.
    destruct (IH c' now') as [H1 H2]; [lia|rewrite Hl'; lia|done|]. rewrite Hm' in H1.
    assert (Hall : Forall (λ b, spaced (minRefreshInterval c) (now, fg) b ∧ now ≤ b.1) (attempts c' ops)).
    { eapply Forall_impl; [exact H2|]. intros b [Hb _]. unfold afterLast in Hb. rewrite Hl', Hm' in Hb. done. }
    split; constructor; try done.
    - eapply Forall_impl; [exact Hall|]. naive_solver.
    - split; [done|cbn; lia].
    - eapply Forall_impl; [exact Hall|]. intros b [Hb1 Hb2]. split; [|lia].
      unfold afterLast, spaced in *. destruct (lastRefreshAttempt c) as [l|]; [|done]. cbn in *.
      split; [|lia]. intros Hfg. specialize (Hb1 Hfg). lia. }
  destruct o as [now now' kid outcome|now now' outcome]; cbn in Ho |- *; destruct Ho as [Ht Ho].
  - destruct (KeyWithAlg now now' outcome kid c) as [[r c'] fetched] eqn:E.
    destruct (KeyWithAlg_attempt _ _ _ _ _ _ _ _ E) as [Hm' Hf]. destruct fetched.
    + destruct Hf as [Hl' Hs]. apply (Hstep c' now now' true); try done.
      unfold afterLast, spaced, shouldShortCircuit in *. destruct (lastRefreshAttempt c) as [l|]; [|done].
      apply orb_false_elim in Hs as [_ Hs]. bool_to_prop. cbn. lia.
    + destruct (IH c' now') as [H1 H2]; [lia|rewrite Hf; destruct (lastRefreshAttempt c); [lia|done]|done|].
      rewrite Hm' in H1. split; [done|]. eapply Forall_impl; [exact H2|].
      intros b [Hb ?]. split; [|lia]. unfold afterLast in *. by rewrite Hf, Hm' in Hb.
  - apply (Hstep _ now now' false); [by destruct outcome|by destruct outcome| |done|done].
    unfold afterLast, spaced. destruct (lastRefreshAttempt c); [|done]. cbn. split; [done|lia].
Qed.

(** ** RSA exponents *)

Lemma bytesOf_range s : Forall (λ b, 0 ≤ b < 256) (bytesOf s).
Proof.
  induction s as [|c s IH]; cbn; constructor; [|done]. pose proof (N_ascii_bounded c). lia.
Qed.

Lemma lor_shift e b : 0 ≤ b < 256 → Z.lor (Z.shiftl e 8) b = e * 256 + b.
Proof.
  intros Hb. rewrite <-Z.add_nocarry_lor; [by rewrite Z.shiftl_mul_pow2 by lia|].
  apply Z.bits_inj'. intros n Hn. rewrite Z.land_spec, Z.bits_0, Z.shiftl_spec by done.
  destruct (decide (n < 8)); [by rewrite Z.testbit_neg_r by lia|].
  rewrite (Z.bits_above_log2 b n), andb_false_r; [done|lia|].
  destruct (decide (b = 0)) as [->|]; [cbn; lia|].
  apply (Z.lt_le_trans _ 8); [apply Z.log2_lt_pow2; lia|lia].
Qed.

(** An exponent of at most seven bytes is read exactly; longer ones wrap. *)
Lemma exponent_exact s : (String.length s ≤ 7)%nat → exponent s = SetBytes s.
Proof.
  intros Hl. unfold exponent, SetBytes.
  assert (Hlen : length (bytesOf s) = String.length s) by (clear; by induction s; cbn; f_equal).
  rewrite <-Hlen in Hl. clear Hlen. pose proof (bytesOf_range s) as Hr. revert Hl Hr.
  generalize (bytesOf s) as l. intros l.
  enough (Hgen : ∀ k acc, (k + length l ≤ 7)%nat → 0 ≤ acc < 256 ^ Z.of_nat k → Forall (λ b, 0 ≤ b < 256) l →
    foldl (λ e b, wrap64 (Z.lor (Z.shiftl e 8) b)) acc l = foldl (λ a b, a * 256 + b) acc l).
  { intros Hl Hr. apply (Hgen 0%nat); [lia|cbn; lia|done]. }
  induction l as [|b l IH]; intros k acc Hk Ha Hr; cbn; [done|].
  apply Forall_cons in Hr as [Hb Hr]. cbn in Hk. rewrite lor_shift by done.
  assert (Hb2 : 0 ≤ acc * 256 + b < 256 ^ Z.of_nat (S k)).
  { rewrite Nat2Z.inj_succ, Z.pow_succ_r by lia. nia. }
  rewrite wrap64_id; [apply (IH (S k)); [lia|done|done]|].
  assert (256 ^ Z.of_nat (S k) ≤ 256 ^ 7) by (apply Z.pow_le_mono_r; lia). lia.
Qed.

(** Every key a lookup returned was served. *)
Lemma served_reachable url cfg c now s kid at_ k :
  NewJWKSClient url cfg = Some c → rtc step (start c now) s →
  GDone kid at_ (Ok k) ∈ gs s → served (hard c) (docs s) kid at_ k.
Proof.
  intros Hc Hs Hin. pose proof (i_good _ _ (jwks_inv_reachable _ _ _ _ _ Hc Hs)) as Hg.
  rewrite Forall_forall in Hg. by destruct (Hg _ Hin).
Qed.

(** ** Properties *)

(** C19: Over all interleavings of lookups, background refreshes and the
    shared fetch, every key handed out is the last usable signing key with
    its ID in the document that was newest when it was looked up, and that
    document was younger than the hard expiry; at most one background
    refresh runs, and exactly when the flag says so. *)
Theorem jwks_reachable url cfg c now s :
  NewJWKSClient url cfg = Some c → rtc step (start c now) s →
  (∀ kid at_ k, GDone kid at_ (Ok k) ∈ gs s → served (hard c) (docs s) kid at_ k) ∧
  countBg (gs s) = (if bgRefresh (client s) then 1 else 0)%nat ∧
  ttl c ≤ hard c.
Proof.
  intros Hc Hs. pose proof (jwks_inv_reachable _ _ _ _ _ Hc Hs) as Hi. split_and!.
  - intros kid at_ k. by eapply served_reachable.
  - apply Hi.
  - unfold NewJWKSClient in Hc. case_match; [done|]. injection Hc as <-. cbn [ttl hard].
    case_match eqn:E; [lia|]. by apply Z.ltb_ge in E.
Qed.

(** C29: Lookups are answered: from any reachable state, whatever the
    schedule, without further requests at most [total] steps can follow,
    and a state in which nothing can move has only finished goroutines. *)
Theorem jwks_answers url cfg c now s :
  NewJWKSClient url cfg = Some c → rtc step (start c now) s →
  (∀ n s', nsteps work n s s' → (n + total s' ≤ total s)%nat) ∧
  ((¬ ∃ s', work s s') → Forall (λ g, finished g = true) (gs s)).
Proof.
  intros Hc Hs. split.
  - intros n s' Hn. clear Hs. induction Hn as [|n x y z Hw _ IH]; [lia|]. apply work_weight in Hw. lia.
  - intros Hstuck. pose proof (jwks_inv_reachable _ _ _ _ _ Hc Hs) as Hi.
    apply Forall_forall. intros g Hg. destruct (finished g) eqn:E; [done|]. destruct Hstuck.
    apply (work_possible _ _ Hi), existsb_exists. exists g. split; [by apply list_elem_of_In|]. cbn. by rewrite E.
Qed.

(** Unknown key IDs cannot flood the issuer: in any sequence of lookups
    and background refreshes, a fetch caused by a lookup comes at least the
    minimum interval after every earlier fetch, successful or not. *)
Theorem jwks_throttle url cfg c t ops :
  NewJWKSClient url cfg = Some c → ordered t ops →
  0 < minRefreshInterval c ∧ StronglySorted (spaced (minRefreshInterval c)) (attempts c ops).
Proof.
  intros Hc Ho. assert (Hm : 0 < minRefreshInterval c ∧ lastRefreshAttempt c = None).
  { unfold NewJWKSClient in Hc. case_match; [done|]. injection Hc as <-. cbn. unfold orPos, second.
    split; [case_match; bool_to_prop; lia|done]. }
  split; [apply Hm|]. destruct Hm as [Hm Hl].
  apply (attempts_spaced ops c t); [lia|by rewrite Hl|done].
Qed.

Module Witness.

Definition client0 : JWKSClient :=
  mkClient (3600 * second) (24 * 3600 * second) (30 * second) (60 * second) ∅ None None false None ∅.
Definition rsa (kid use n : string) : JWK := mkJWK "RSA" kid use "RS256" n "AQAB" "" "" "".
Definition key (n : Z) : cachedKey := mkCachedKey (RSAKey n 65537) "RS256".
Definition doc : list JWK := [rsa "k" "" "AQ"; rsa "e" "enc" "Ag"; rsa "k" "sig" "Aw"].

Lemma client0_new : NewJWKSClient "HTTPS://idp" (mkConfig 0 0 false 0 0) = Some client0.
Proof. vm_compute. reflexivity. Qed.

(** One lookup of an unknown ID runs into a fetch and gets the key. *)
Definition end_ : system :=
  mkSystem (publish 7 doc (recordAttempt 7 client0)) None [GDone "k" 7 (Ok (key 3))] 7 [(7, doc)].

Lemma end_reached : rtc step (start client0 7) end_.
Proof.
  eapply rtc_l; [apply (SCall _ "k")|].
  eapply rtc_l; [eapply SWork, (WTurn _ _ [] (GCall "k") []); reflexivity|].
  eapply rtc_l; [eapply SWork, (WTurn _ _ [] (GCheck "k") []); reflexivity|].
  eapply rtc_l; [eapply SWork, (WJoin _ _ [] (GJoin "k") []); reflexivity|].
  eapply rtc_l; [eapply SWork, WAttempt|].
  eapply rtc_l; [eapply SWork, (WPublish _ _ _ _ doc)|].
  eapply rtc_l; [eapply SWork, WReturn|].
  eapply rtc_l; [eapply SWork, (WTurn _ _ [] (GRelook "k") []); vm_compute; reflexivity|].
  apply rtc_refl.
Qed.

Lemma jwks_reachable_witness : served (hard client0) [(7, doc)] "k" 7 (key 3).
Proof.
  destruct (jwks_reachable "HTTPS://idp" (mkConfig 0 0 false 0 0) client0 7 end_) as [Hs _].
  - vm_compute. reflexivity.
  - exact end_reached.
  - apply (Hs "k" 7 (key 3)). left.
Defined.

Lemma jwks_answers_witness : Forall (λ g, finished g = true) (gs end_).
Proof.
  destruct (jwks_answers "HTTPS://idp" (mkConfig 0 0 false 0 0) client0 7 end_) as [Hn Hd].
  - vm_compute. reflexivity.
  - exact end_reached.
  - apply Hd. intros [s' Hw]. specialize (Hn 1%nat s' (nsteps_once _ _ Hw)). cbn in Hn. lia.
Defined.

Definition burst : list op :=
  [OKey 0 1 "x" (Err FetchFailed); OKey 2 3 "y" (Ok doc); OKey (31 * second) (31 * second) "z" (Ok doc);
   OKey (40 * second) (40 * second) "w" (Ok doc)].

Lemma jwks_throttle_witness :
  attempts client0 burst = [(0, true); (31 * second, true)] ∧
  StronglySorted (spaced (30 * second)) (attempts client0 burst).
Proof.
  split; [vm_compute; reflexivity|].
  destruct (jwks_throttle "HTTPS://idp" (mkConfig 0 0 false 0 0) client0 0 burst) as [_ Hs].
  - vm_compute. reflexivity.
  - unfold burst, ordered, second. lia.
  - exact Hs.
Defined.

(** Two lookups that pass the throttle together but enter the flight group
    one after the other both fetch: the check and the attempt are separate
    critical sections. *)
Lemma throttle_race :
  rtc step (start client0 7)
    (mkSystem (recordAttempt 7 (recordAttempt 7 client0)) (Some FFetching)
       [GDone "a" 7 (Err (RefreshFailed FetchFailed)); GWait "b"] 7 []).
Proof.
  eapply rtc_l; [apply (SCall _ "a")|]. eapply rtc_l; [apply (SCall _ "b")|].
  eapply rtc_l; [eapply SWork, (WTurn _ _ [] (GCall "a") [GCall "b"]); reflexivity|].
  eapply rtc_l; [eapply SWork, (WTurn _ _ [GCheck "a"] (GCall "b") []); reflexivity|].
  eapply rtc_l; [eapply SWork, (WTurn _ _ [] (GCheck "a") [GCheck "b"]); reflexivity|].
  eapply rtc_l; [eapply SWork, (WTurn _ _ [GJoin "a"] (GCheck "b") []); reflexivity|].
  eapply rtc_l; [eapply SWork, (WJoin _ _ [] (GJoin "a") [GJoin "b"]); reflexivity|].
  eapply rtc_l; [eapply SWork, WAttempt|].
  eapply rtc_l; [eapply SWork, (WFail _ _ _ _ FetchFailed)|].
  eapply rtc_l; [eapply SWork, WReturn|].
  eapply rtc_l; [eapply SWork, (WJoin _ _ [GDone "a" 7 _] (GJoin "b") []); reflexivity|].
  eapply rtc_l; [eapply SWork, WAttempt|]. apply rtc_refl.
Qed.

(** A nine-byte exponent keeps its low eight bytes. *)
Lemma exponent_truncated :
  parseJWK (mkJWK "RSA" "k" "" "" "AQ" "AQAAAAAAAAAD" "" "" "") = Ok (RSAKey 1 3).
Proof. vm_compute. reflexivity. Qed.

End Witness.

End Jwks.
