(* ===== verification/AuthProviders.v ===== *)
(** * Credential providers ([internal/middleware/auth]: [basic.go],
      [bearer.go], [oidc.go], [mtls.go])

    The HTTP Basic, bearer-token, OIDC and client-certificate providers, and
    the chain made of them and of the API-key provider.

    Parameters, with their documented behaviour as class fields: bcrypt
    ([Bcrypt]), the JWT parser ([JWT]), the OIDC verifier ([OIDC]), X.509
    verification and the TLS state of a request ([X509]).  What the JWKS
    client answers for a key ID is an argument of the bearer provider, as
    the client is shared with other requests; [bearer_authentic] takes the
    answers from any reachable state of [Jwks.step]. *)

From S2P Require Import Prelude GoLib Stac Cursor Middleware Auth Jwks.
From Stdlib Require Import Ascii.
Import Strings Values Middleware Auth.

Module AuthProviders.

Abbreviation mapClaims := (list (string * value)).

(** ** HTTP Basic *)

Class Bcrypt := {
  CompareHashAndPassword : bytes → bytes → bool;
  GenerateFromPassword : bytes → option bytes;
  bcrypt_roundtrip : ∀ pw h, GenerateFromPassword pw = Some h → CompareHashAndPassword h pw = true;
  bcrypt_prefix : ∀ pw h, GenerateFromPassword pw = Some h → HasPrefix h "$2a$" = true;
}.

Module Basic.

Record hashedUser := mkHashed {
  passwordHash : bytes; roles : list string; attributes : list (string * value) }.

Record BasicAuthProvider := mkBasic { name : string; users : gmap string hashedUser; realm : string; cacheTTL : Z }.

Record BasicUser := mkUser {
  Username : string; PasswordHash : string; Roles : list string; Attributes : list (string * value) }.

Record BasicAuthConfig := mkBasicConfig { Name : string; Realm : string; Users : list BasicUser; CacheTTL : Z }.

Definition isBcryptHash (s : string) : bool :=
  HasPrefix s "$2a$" || HasPrefix s "$2b$" || HasPrefix s "$2y$".

Definition decodePasswordHash (s : string) : bytes :=
  if isBcryptHash s then s
  else match Base64.StdDecode s with Some decoded => decoded | None => s end.

Definition addUser (m : gmap string hashedUser) (u : BasicUser) : gmap string hashedUser :=
  <[Username u := mkHashed (decodePasswordHash (PasswordHash u)) (Roles u) (Attributes u)]> m.

(** The constructor never fails. *)
Definition NewBasicAuthProvider (cfg : BasicAuthConfig) : BasicAuthProvider :=
  mkBasic (Name cfg) (foldl addUser ∅ (Users cfg)) (Realm cfg) (CacheTTL cfg).

Definition ClaimsCredential (r : httpRequest) : bool :=
  HasPrefix (Header.Get (ReqHeader r) "Authorization") "Basic ".

(** The first colon separates the user name from the password. *)
Definition parseBasicAuth (auth : string) : option (string * string) :=
  c ← Base64.StdDecode (TrimPrefix auth "Basic ");
  CutSub ":" c.

(** [v.(string)] of every entry of a map. *)
Definition stringAttrs (m : list (string * value)) : gmap string string :=
  foldl (λ attrs kv, match as_string kv.2 with Some s => <[kv.1 := s]> attrs | None => attrs end) ∅ m.

Section Basic.
Context `{!Bcrypt}.

Definition principalOf (username : string) (u : hashedUser) : Principal :=
  mkPrincipal username "user" "" "" [] (roles u) (stringAttrs (attributes u)) [] "" 0.

Definition Authenticate (p : BasicAuthProvider) (r : httpRequest) : result authError (option Principal) :=
  let authHeader := Header.Get (ReqHeader r) "Authorization" in
  if String.eqb authHeader "" then Ok None else
  if negb (HasPrefix authHeader "Basic ") then Ok None else
  match parseBasicAuth authHeader with
  | None => Err "invalid basic auth format"
  | Some (username, password) =>
      match users p !! username with
      | None => Err "invalid credentials"
      | Some user =>
          if negb (CompareHashAndPassword (passwordHash user) password) then Err "invalid credentials"
          else Ok (Some (principalOf username user))
      end
  end.

Definition HashPassword (password : string) : option string := GenerateFromPassword password.

Definition basicProvider (p : BasicAuthProvider) : Provider :=
  mkProvider (name p) (Some ClaimsCredential) (Authenticate p).

(** The user a name stands for: the last one configured. *)
Definition configured (us : list BasicUser) (username : string) : option BasicUser :=
  find (λ u, String.eqb (Username u) username) (rev us).

Lemma users_lookup us username :
  foldl addUser ∅ us !! username =
  (λ u, mkHashed (decodePasswordHash (PasswordHash u)) (Roles u) (Attributes u)) <$> configured us username.
Proof.
  unfold configured. induction us as [|u us IH] using rev_ind; [done|].
  rewrite foldl_app, rev_app_distr. cbn. unfold addUser at 1.
  destruct (String.eqb_spec (Username u) username) as [->|Hne]; cbn.
  - by rewrite lookup_insert_eq.
  - rewrite lookup_insert_ne by done. apply IH.
Qed.

Lemma parseBasicAuth_encode username password :
  occurs ":" username = false →
  parseBasicAuth ("Basic " +:+ Base64.StdEncode (username +:+ ":" +:+ password)) = Some (username, password).
Proof.
  intros Hc. unfold parseBasicAuth. rewrite TrimPrefix_app, Base64.StdDecode_StdEncode. cbn.
  by apply CutSub_byte.
Qed.

Lemma decode_bcrypt pw h : HashPassword pw = Some h → decodePasswordHash h = h.
Proof. intros Hh%bcrypt_prefix. unfold decodePasswordHash, isBcryptHash. by rewrite Hh. Qed.

End Basic.
End Basic.

(** ** Bearer tokens *)

(** [jwt.SigningMethod]: the families the code distinguishes, with the name
    of the algorithm. *)
Inductive signingFamily := HMAC | RSA | RSAPSS | ECDSA | OtherFamily.
#[export] Instance signingFamily_eq_dec : EqDecision signingFamily.
Proof. solve_decision. Defined.

Record Token := mkToken {
  tok_Header : list (string * value);
  tok_Family : signingFamily;
  tok_Alg : string;               (* Method.Alg() *)
  tok_Claims : mapClaims;         (* [jwt.Parse] fills a [MapClaims] *)
  tok_Valid : bool;
}.

Inductive verifyKey := Secret (s : bytes) | Public (k : Jwks.publicKey).

(** The options of a parse. *)
Record parseOpts := mkOpts { ValidMethods : list string; Leeway_ : Z; WithIssuer : string; WithAudience : string }.

(** [jwt.Parse]: on success the algorithm is one of the valid methods and is
    the one of the header, the key function accepted the token, the
    signature verifies under its key, and the registered claims satisfy the
    options. *)
Class JWT := {
  jwt_Parse : string → (Token → result authError verifyKey) → parseOpts → result authError Token;
  signedBy : string → Token → verifyKey → Prop;
  registered : parseOpts → mapClaims → Prop;
  jwt_Parse_Ok : ∀ s kf o t, jwt_Parse s kf o = Ok t →
    tok_Alg t ∈ ValidMethods o ∧ index "alg" (tok_Header t) = VStr (tok_Alg t) ∧
    (∃ k, kf t = Ok k ∧ signedBy s t k) ∧ registered o (tok_Claims t);
}.

Definition asString (k : string) (c : mapClaims) : string := default "" (as_string (index k c)).

(** The strings of an array claim. *)
Definition stringsOf (v : value) : list string := match v with VArr l => omap as_string l | _ => [] end.

(** [m["exp"].(float64)], or the old value. *)
Definition expOf (c : mapClaims) (old : Z) : Z :=
  match index "exp" c with VFloat f => int64_of_float f | _ => old end.

Module Bearer.

Record BearerProvider := mkBearer {
  name : string;
  issuer : string;
  audience : string;
  jwks : option Jwks.JWKSClient;
  staticSecret : option bytes;
  claimsFunc : mapClaims → result authError Principal;
  leeway : Z;
  validMethods : list string;
}.

(** A custom [ClaimsFunc] returns a principal or an error: the caller
    dereferences the principal at once. *)
Record BearerConfig := mkBearerConfig {
  Name : string; Issuer : string; Audience : string; JWKSURL : string;
  ClaimsFunc : option (mapClaims → result authError Principal);
  Secret_ : option bytes; Leeway : Z; AllowInsecureHTTPJWKS : bool;
}.

Definition defaultLeeway : Z := 30 * Jwks.second.
Definition hmacMethods : list string := ["HS256"; "HS384"; "HS512"].
Definition asymmetricMethods : list string := ["RS256"; "RS384"; "RS512"; "ES256"; "ES384"; "ES512"].

Definition defaultClaimsFunc (c : mapClaims) : result authError Principal :=
  Ok (mkPrincipal (asString "sub" c) "user" (asString "email" c) (asString "name" c)
        (stringsOf (index "groups" c)) (stringsOf (index "roles" c)) ∅ [] "" (expOf c 0)).

Definition NewBearerProvider (cfg : BearerConfig) : result authError BearerProvider :=
  let mk := λ jwks secret methods,
    mkBearer (if String.eqb (Name cfg) "" then "bearer" else Name cfg) (Issuer cfg) (Audience cfg)
      jwks secret (default defaultClaimsFunc (ClaimsFunc cfg))
      (if (Leeway cfg <=? 0)%Z then defaultLeeway else Leeway cfg) methods in
  match Secret_ cfg with
  | Some secret =>
      if negb (String.eqb (JWKSURL cfg) "") then Err "bearer: Secret and JWKSURL are mutually exclusive"
      else Ok (mk None (Some secret) hmacMethods)
  | None =>
      if String.eqb (JWKSURL cfg) "" then Err "bearer: either Secret or JWKSURL must be provided" else
      match Jwks.NewJWKSClient (JWKSURL cfg)
              (Jwks.mkConfig (3600 * Jwks.second) 0 (AllowInsecureHTTPJWKS cfg) 0 0) with
      | None => Err "jwks: URL must use https scheme"
      | Some c => Ok (mk (Some c) None asymmetricMethods)
      end
  end.

Definition ClaimsCredential (r : httpRequest) : bool :=
  HasPrefix (Header.Get (ReqHeader r) "Authorization") "Bearer ".

Definition asymmetric (f : signingFamily) : bool :=
  match f with RSA | RSAPSS | ECDSA => true | _ => false end.

(** [answers kid]: what [p.jwks.KeyWithAlg] returns for this request. *)
Definition keyFuncFor (p : BearerProvider) (answers : string → result authError Jwks.cachedKey) (t : Token)
    : result authError verifyKey :=
  match staticSecret p with
  | Some secret => if bool_decide (tok_Family t = HMAC) then Ok (Secret secret) else Err "unexpected signing method"
  | None =>
      let kid := asString "kid" (tok_Header t) in
      if String.eqb kid "" then Err "token missing kid header" else
      if negb (asymmetric (tok_Family t)) then Err "unexpected signing method for JWKS" else
      k ← answers kid;
      if negb (String.eqb (Jwks.ck_alg k) "") &&
         negb (String.eqb (asString "alg" (tok_Header t)) (Jwks.ck_alg k))
      then Err "jwks: token alg does not match key alg"
      else Ok (Public (Jwks.ck_key k))
  end.

Section Bearer.
Context `{!JWT}.

Definition parseOptions (p : BearerProvider) : parseOpts :=
  mkOpts (validMethods p) (leeway p) (issuer p) (audience p).

Definition Authenticate (p : BearerProvider) (answers : string → result authError Jwks.cachedKey)
    (r : httpRequest) : result authError (option Principal) :=
  let authHeader := Header.Get (ReqHeader r) "Authorization" in
  if String.eqb authHeader "" || negb (HasPrefix authHeader "Bearer ") then Ok None else
  let tokenString := TrimPrefix authHeader "Bearer " in
  if String.eqb tokenString "" then Err "empty bearer token" else
  token ← jwt_Parse tokenString (keyFuncFor p answers) (parseOptions p);
  if negb (tok_Valid token) then Err "token is not valid" else
  principal ← claimsFunc p (tok_Claims token);
  Ok (Some (mkPrincipal (p_ID principal) (p_Type principal) (p_Email principal) (p_Name principal)
    (p_Groups principal) (p_Roles principal) (p_Attributes principal) (p_Collections principal)
    tokenString (expOf (tok_Claims token) (p_ExpiresAt principal)))).

Definition bearerProvider (p : BearerProvider) (answers : string → result authError Jwks.cachedKey) : Provider :=
  mkProvider (name p) (Some ClaimsCredential) (Authenticate p answers).

End Bearer.
End Bearer.

(** ** OIDC *)

Record verifierConfig := mkVerifierConfig {
  ClientID : string; SkipClientIDCheck : bool; SupportedSigningAlgs : list string }.

Class OIDC := {
  Verifier : Type;
  oidc_NewProvider : string → option (verifierConfig → Verifier);   (* discovery, then [Verifier] *)
  oidc_Verify : Verifier → string → option (option mapClaims);      (* [Verify], then [Claims] *)
}.

Module Oidc.
Section Oidc.
Context `{!OIDC}.

Record OIDCProvider := mkOIDC {
  name : string;
  verifier : Verifier;
  claimsFunc : option (mapClaims → result authError (option Principal));
  attributeAllow : gset string;
}.

Record OIDCConfig := mkOIDCConfig {
  Name : string; IssuerURL : string; Audience : string;
  ClaimsFunc : option (mapClaims → result authError (option Principal));
  AllowInsecureHTTP : bool; AttributeAllowlist : option (list string);
}.

Definition defaultOIDCAttributeAllowlist : list string := ["email"; "preferred_username"; "name"; "groups"].

Definition NewOIDCProvider (cfg : OIDCConfig) : result authError OIDCProvider :=
  if String.eqb (IssuerURL cfg) "" then Err "oidc: IssuerURL is required" else
  if negb (AllowInsecureHTTP cfg) && negb (HasPrefix (ToLower (IssuerURL cfg)) "https://")
  then Err "oidc: IssuerURL must use https scheme" else
  match oidc_NewProvider (IssuerURL cfg) with
  | None => Err "oidc: discovery"
  | Some provider =>
      Ok (mkOIDC (Name cfg)
            (provider (mkVerifierConfig (Audience cfg) (String.eqb (Audience cfg) "")
               ["RS256"; "RS384"; "RS512"; "ES256"; "ES384"; "ES512"]))
            (ClaimsFunc cfg)
            (list_to_set (default defaultOIDCAttributeAllowlist (AttributeAllowlist cfg))))
  end.

Definition ClaimsCredential (r : httpRequest) : bool :=
  HasPrefix (Header.Get (ReqHeader r) "Authorization") "Bearer ".

Definition extractRoles (c : mapClaims) : list string :=
  stringsOf (index "roles" c) ++
  match index "realm_access" c with VObj ra => stringsOf (index "roles" ra) | _ => [] end ++
  stringsOf (index "groups" c).

(** The claims the allowlist names, when they are strings. *)
Definition copyAttrs (allow : gset string) (c : mapClaims) : gmap string string :=
  foldl (λ attrs kv, if bool_decide (kv.1 ∈ allow) then
    match as_string kv.2 with Some s => <[kv.1 := s]> attrs | None => attrs end else attrs) ∅ c.

Definition defaultPrincipal (p : OIDCProvider) (c : mapClaims) : Principal :=
  mkPrincipal (asString "sub" c) "user" (asString "email" c) (asString "name" c) [] (extractRoles c)
    (copyAttrs (attributeAllow p) c) [] "" 0.

Definition stamp (p : Principal) : Principal :=
  mkPrincipal (p_ID p) (p_Type p) (p_Email p) (p_Name p) (p_Groups p) (p_Roles p)
    (<["auth_method" := "oidc"]> (p_Attributes p)) (p_Collections p) (p_Token p) (p_ExpiresAt p).

Definition Authenticate (p : OIDCProvider) (r : httpRequest) : result authError (option Principal) :=
  let authHeader := Header.Get (ReqHeader r) "Authorization" in
  if String.eqb authHeader "" || negb (HasPrefix authHeader "Bearer ") then Ok None else
  let tokenStr := TrimPrefix authHeader "Bearer " in
  if String.eqb tokenStr "" then Err "empty bearer token" else
  match oidc_Verify (verifier p) tokenStr with
  | None => Err "token validation failed"
  | Some None => Err "decode claims"
  | Some (Some c) =>
      custom ← match claimsFunc p with None => Ok None | Some f => f c end;
      Ok (Some (stamp (default (defaultPrincipal p c) custom)))
  end.

Definition oidcProvider (p : OIDCProvider) : Provider :=
  mkProvider (name p) (Some ClaimsCredential) (Authenticate p).

End Oidc.
End Oidc.

(** ** Client certificates *)

(** The fields of an [x509.Certificate] the mapping reads; distinguished
    names, addresses, URIs, the serial number and the dates as their
    [String] or [Format] renders them. *)
Record Certificate := mkCert {
  CommonName : string; Organization : list string; OrganizationalUnit : list string;
  subjectDN : string; issuerDN : string; SerialNumber : string; NotBefore : string; NotAfter : string;
  EmailAddresses : list string; DNSNames : list string; IPAddresses : list string; URIs : list string;
}.

(** [PeerCertificates]: empty also on a connection without TLS.  [x509_Verify]
    checks a chain to the pool for client authentication. *)
Class X509 := {
  CertPool : Type;
  PeerCertificates : httpRequest → list Certificate;
  x509_Verify : CertPool → Certificate → bool;
}.

Module Mtls.

(** The implementations of [SubjectMapper]. *)
Inductive SubjectMapper := DefaultSubjectMapper | SPIFFESubjectMapper (TrustDomains : list string).

Definition subjectID (cert : Certificate) : string :=
  if negb (String.eqb (CommonName cert) "") then CommonName cert else
  match EmailAddresses cert, DNSNames cert with
  | e :: _, _ => e
  | [], d :: _ => d
  | [], [] => ""
  end.

Definition certAttrs (cert : Certificate) : gmap string string :=
  let a := <["subject_dn" := subjectDN cert]> ∅ in
  let a := <["issuer_dn" := issuerDN cert]> a in
  let a := <["serial_number" := SerialNumber cert]> a in
  let a := <["not_before" := NotBefore cert]> a in
  let a := <["not_after" := NotAfter cert]> a in
  let a := match EmailAddresses cert with [] => a | e :: _ => <["email" := e]> a end in
  let a := match OrganizationalUnit cert with [] => a | ou => <["ou" := join_sep "," ou]> a end in
  match DNSNames cert ++ IPAddresses cert ++ URIs cert with
  | [] => a
  | sans => <["sans" := join_sep "," sans]> a
  end.

Definition defaultMapSubject (cert : Certificate) : Principal :=
  mkPrincipal (subjectID cert) "certificate" "" "" [] (Organization cert) (certAttrs cert) [] "" 0.

Definition ExtractSPIFFEID (cert : Certificate) : string :=
  default "" (find (λ uri, HasPrefix uri "spiffe://") (URIs cert)).

(** [strings.SplitN(s, "/", 4)]: the part after the third slash. *)
Definition workloadOf (spiffeID : string) : string :=
  default "" (
    '(_, s) ← CutSub "/" spiffeID;
    '(_, s) ← CutSub "/" s;
    '(_, s) ← CutSub "/" s;
    Some s).

Definition MapSPIFFE (domains : list string) (cert : Certificate) : result authError Principal :=
  let spiffeID := ExtractSPIFFEID cert in
  if String.eqb spiffeID "" then Err "no SPIFFE ID found in certificate" else
  if negb (bool_decide (domains = [])) &&
     negb (existsb (λ td, HasPrefix spiffeID ("spiffe://" +:+ td +:+ "/")) domains)
  then Err "SPIFFE ID not from trusted domain"
  else Ok (mkPrincipal spiffeID "spiffe" "" "" [] []
             (<["spiffe_id" := spiffeID]> (<["workload" := workloadOf spiffeID]> ∅)) [] "" 0).

Definition MapSubject (m : SubjectMapper) (cert : Certificate) : result authError Principal :=
  match m with
  | DefaultSubjectMapper => Ok (defaultMapSubject cert)
  | SPIFFESubjectMapper domains => MapSPIFFE domains cert
  end.

Section Mtls.
Context `{!X509}.

Record MTLSProvider := mkMTLS {
  name : string; trustedCAs : option CertPool; requireClientCA : bool; subjectMapper : option SubjectMapper }.

Record MTLSConfig := mkMTLSConfig {
  Name : string; TrustedCAs : option CertPool; RequireClientCA : bool; SubjectMapper_ : option SubjectMapper }.

Definition NewMTLSProvider (cfg : MTLSConfig) : result authError MTLSProvider :=
  match TrustedCAs cfg with
  | None => Err "mtls: trustedCAs must be non-nil; mTLS without an explicit CA pool is unsafe"
  | Some _ => Ok (mkMTLS (Name cfg) (TrustedCAs cfg) (RequireClientCA cfg) (SubjectMapper_ cfg))
  end.

Definition ClaimsCredential (r : httpRequest) : bool := negb (bool_decide (PeerCertificates r = [])).

Definition Authenticate (p : MTLSProvider) (r : httpRequest) : result authError (option Principal) :=
  match PeerCertificates r with
  | [] => Ok None
  | cert :: _ =>
      let rejected := match trustedCAs p with Some pool => negb (x509_Verify pool cert) | None => false end in
      if rejected then Err "certificate verification failed" else
      match subjectMapper p with
      | Some m => Some <$> MapSubject m cert
      | None => Ok (Some (defaultMapSubject cert))
      end
  end.

Definition mtlsProvider (p : MTLSProvider) : Provider :=
  mkProvider (name p) (Some ClaimsCredential) (Authenticate p).

End Mtls.
End Mtls.

(** ** The chain of the source's providers *)

Section Chain.
Context `{!Crypto, !URL.GoURL, !MapRange, !Bcrypt, !JWT, !OIDC, !X509}.

Inductive builtin :=
| BAPIKey (p : APIKeyProvider)
| BBasic (p : Basic.BasicAuthProvider)
| BBearer (p : Bearer.BearerProvider) (answers : string → result authError Jwks.cachedKey)
| BOIDC (p : Oidc.OIDCProvider)
| BMTLS (p : Mtls.MTLSProvider).

Definition build (b : builtin) : Provider :=
  match b with
  | BAPIKey p => apiKeyProvider p
  | BBasic p => Basic.basicProvider p
  | BBearer p answers => Bearer.bearerProvider p answers
  | BOIDC p => Oidc.oidcProvider p
  | BMTLS p => Mtls.mtlsProvider p
  end.

(** A provider stands aside exactly when it does not claim the request. *)
Definition strict (p : Provider) : Prop := ∀ r, claims p r = false ↔ prov_Authenticate p r = Ok None.

Lemma scheme_strict scheme r (f : string → result authError (option Principal)) :
  scheme ≠ "" → (∀ s, f s ≠ Ok None) →
  let h := Header.Get (ReqHeader r) "Authorization" in
  HasPrefix h scheme = false ↔
  (if String.eqb h "" || negb (HasPrefix h scheme) then Ok None else f h) = Ok None.
Proof.
  intros Hs Hf h. destruct (HasPrefix h scheme) eqn:E; cbn; [|by rewrite orb_true_r].
  destruct (String.eqb_spec h "") as [Hh|]; cbn; [|split; [done|by intros ?%Hf]].
  rewrite Hh in E. by destruct scheme.
Qed.

Lemma APIKey_strict p : strict (apiKeyProvider p).
Proof.
  intros r. cbn. unfold ClaimsCredential, Authenticate, presentedKey.
  destruct (String.eqb (ak_header p) ""); cbn;
    [|destruct (String.eqb (Header.Get _ _) "") eqn:Eh; cbn]; rewrite ?Eh.
  - destruct (ak_allowQueryParam p), (String.eqb (ak_queryParam p) ""); cbn; try done.
    destruct (String.eqb (queryGet _ _) ""); cbn; repeat case_match; done.
  - destruct (ak_allowQueryParam p), (String.eqb (ak_queryParam p) ""); cbn; try done; rewrite ?Eh; try done.
    destruct (String.eqb (queryGet _ _) ""); cbn; repeat case_match; done.
  - repeat case_match; done.
Qed.

Lemma Basic_strict p : strict (Basic.basicProvider p).
Proof.
  intros r. cbn. unfold Basic.ClaimsCredential, Basic.Authenticate.
  rewrite (scheme_strict "Basic " r (λ h, match Basic.parseBasicAuth h with
    | None => Err "invalid basic auth format"
    | Some (username, password) =>
        match Basic.users p !! username with
        | None => Err "invalid credentials"
        | Some user =>
            if negb (CompareHashAndPassword (Basic.passwordHash user) password) then Err "invalid credentials"
            else Ok (Some (Basic.principalOf username user))
        end
    end)); [by destruct (String.eqb _ "")|done|].
  intros s. repeat case_match; done.
Qed.

Lemma Bearer_strict p answers : strict (Bearer.bearerProvider p answers).
Proof.
  intros r. cbn. unfold Bearer.ClaimsCredential, Bearer.Authenticate. cbv zeta.
  apply (scheme_strict "Bearer " r (λ h, if String.eqb (TrimPrefix h "Bearer ") "" then _ else _)); [done|].
  intros s. case_match; [done|]. destruct (jwt_Parse _ _ _); cbn; [|done].
  case_match; [done|]. by destruct (Bearer.claimsFunc p _).
Qed.

Lemma OIDC_strict p : strict (Oidc.oidcProvider p).
Proof.
  intros r. cbn. unfold Oidc.ClaimsCredential, Oidc.Authenticate. cbv zeta.
  apply (scheme_strict "Bearer " r (λ h, if String.eqb (TrimPrefix h "Bearer ") "" then _ else _)); [done|].
  intros s. case_match; [done|]. destruct (oidc_Verify _ _) as [[c|]|]; [|done..].
  destruct (Oidc.claimsFunc p) as [f|]; [by destruct (f c)|done].
Qed.

Lemma MTLS_strict p : strict (Mtls.mtlsProvider p).
Proof.
  intros r. cbn. unfold Mtls.ClaimsCredential, Mtls.Authenticate.
  destruct (PeerCertificates r) as [|cert l]; cbn; [done|]. split; [done|].
  repeat case_match; try done. all: by match goal with |- Some <$> ?x = _ → _ => destruct x end.
Qed.

Lemma build_strict b : strict (build b).
Proof.
  destruct b; [apply APIKey_strict|apply Basic_strict|apply Bearer_strict|apply OIDC_strict|apply MTLS_strict].
Qed.

(** Attributes are copied from claims the allowlist names. *)
Lemma copyAttrs_sound allow c k s :
  Oidc.copyAttrs allow c !! k = Some s → k ∈ allow ∧ (k, VStr s) ∈ c.
Proof.
  unfold Oidc.copyAttrs. set (f := λ attrs kv, _).
  enough (Hgen : ∀ a, (a !! k = Some s → k ∈ allow ∧ (k, VStr s) ∈ c) →
    ∀ d, (∀ x, x ∈ d → x ∈ c) → foldl f a d !! k = Some s → k ∈ allow ∧ (k, VStr s) ∈ c).
  { apply (Hgen ∅); [by rewrite lookup_empty|done]. }
  intros a Ha d. revert a Ha. induction d as [|[k' v] d IH]; intros a Ha Hd; [done|]. cbn [foldl].
  apply IH; [|intros x Hx; apply Hd; set_solver]. unfold f. cbn. case_bool_decide; [|done].
  destruct v; try done. cbn. destruct (decide (k' = k)) as [->|]; [|by rewrite lookup_insert_ne].
  rewrite lookup_insert_eq. intros [= ->]. split; [done|]. apply Hd. left.
Qed.

Lemma NewBearerProvider_inv cfg p : Bearer.NewBearerProvider cfg = Ok p →
  Bearer.issuer p = Bearer.Issuer cfg ∧ Bearer.audience p = Bearer.Audience cfg ∧ (0 < Bearer.leeway p)%Z ∧
  match Bearer.Secret_ cfg with
  | Some secret => Bearer.staticSecret p = Some secret ∧ Bearer.validMethods p = Bearer.hmacMethods
  | None => ∃ c, Bearer.staticSecret p = None ∧ Bearer.validMethods p = Bearer.asymmetricMethods ∧
      Bearer.jwks p = Some c ∧
      Jwks.NewJWKSClient (Bearer.JWKSURL cfg)
        (Jwks.mkConfig (3600 * Jwks.second) 0 (Bearer.AllowInsecureHTTPJWKS cfg) 0 0) = Some c
  end.
Proof.
  unfold Bearer.NewBearerProvider. intros Hp.
  assert (Hl : (0 < if (Bearer.Leeway cfg <=? 0)%Z then Bearer.defaultLeeway else Bearer.Leeway cfg)%Z).
  { destruct (Z.leb_spec (Bearer.Leeway cfg) 0); [done|lia]. }
  destruct (Bearer.Secret_ cfg) as [secret|].
  - destruct (String.eqb (Bearer.JWKSURL cfg) ""); [|done]. injection Hp as <-. cbn. by split_and!.
  - destruct (String.eqb (Bearer.JWKSURL cfg) ""); [done|]. destruct (Jwks.NewJWKSClient _ _) as [c|]; [|done].
    injection Hp as <-. split_and!; try done. by exists c.
Qed.

Lemma keyFuncFor_jwks p answers t k :
  Bearer.staticSecret p = None → Bearer.keyFuncFor p answers t = Ok k →
  ∃ kid ck, index "kid" (tok_Header t) = VStr kid ∧ Bearer.asymmetric (tok_Family t) = true ∧
    answers kid = Ok ck ∧ k = Public (Jwks.ck_key ck) ∧
    (Jwks.ck_alg ck = "" ∨ Jwks.ck_alg ck = asString "alg" (tok_Header t)).
Proof.
  intros Hs. unfold Bearer.keyFuncFor, asString. rewrite Hs.
  destruct (index "kid" (tok_Header t)) as [| | | |kid| |] eqn:Ek; cbn; try done.
  destruct (String.eqb kid ""); [done|]. destruct (Bearer.asymmetric _); [|done]. cbn.
  destruct (answers kid) as [ck|e] eqn:Ec; cbn; [|done].
  destruct (String.eqb_spec (Jwks.ck_alg ck) "") as [Ha|_]; cbn.
  - intros [= <-]. exists kid, ck. split_and!; auto.
  - destruct (String.eqb_spec (default "" (as_string (index "alg" (tok_Header t)))) (Jwks.ck_alg ck)) as [Ha|]; [|done].
    intros [= <-]. exists kid, ck. split_and!; auto.
Qed.

Lemma NewOIDCProvider_inv cfg p : Oidc.NewOIDCProvider cfg = Ok p →
  Oidc.claimsFunc p = Oidc.ClaimsFunc cfg ∧
  Oidc.attributeAllow p = list_to_set (default Oidc.defaultOIDCAttributeAllowlist (Oidc.AttributeAllowlist cfg)).
Proof.
  unfold Oidc.NewOIDCProvider. intros Hp. destruct (String.eqb _ _); [done|]. destruct (_ && _); [done|].
  destruct (oidc_NewProvider _); [|done]. by injection Hp as <-.
Qed.

Lemma MapSPIFFE_inv domains cert p : Mtls.MapSPIFFE domains cert = Ok p →
  p_ID p ∈ URIs cert ∧ HasPrefix (p_ID p) "spiffe://" = true ∧
  (domains = [] ∨ ∃ td, td ∈ domains ∧ HasPrefix (p_ID p) ("spiffe://" +:+ td +:+ "/") = true).
Proof.
  unfold Mtls.MapSPIFFE, Mtls.ExtractSPIFFEID. destruct (find _ _) as [uri|] eqn:Ef; cbn; [|done].
  apply find_some in Ef as [Hin%list_elem_of_In Hu]. destruct (String.eqb uri ""); [done|].
  case_bool_decide as Hd; cbn [negb andb]; [intros [= <-]; cbn; auto|].
  destruct (existsb _ domains) eqn:Ex; [|done]. intros [= <-]. cbn. split_and!; [done..|]. right.
  apply existsb_exists in Ex as (td & Htd%list_elem_of_In & Hp). by exists td.
Qed.

(** ** Properties *)

(** In a chain of the built-in providers the first one that claims the
    request decides: it authenticates the caller or the request is refused;
    only a request no provider claims is anonymous, where that is allowed. *)
Theorem chain_dispatch anon bs r :
  authenticate (mkConfig anon (build <$> bs)) r =
  match find (λ b, claims (build b) r) bs with
  | Some b =>
      match prov_Authenticate (build b) r with
      | Ok (Some p) => Ok p
      | _ => Err unauthorized
      end
  | None => if anon then Ok AnonymousPrincipal else Err unauthorized
  end.
Proof.
  unfold authenticate. cbn. assert (Hw : walk (build <$> bs) r =
    match find (λ b, claims (build b) r) bs with
    | Some b => match prov_Authenticate (build b) r with Ok (Some p) => Authed p | _ => Rejected end
    | None => NoOne
    end).
  { induction bs as [|b bs IH]; cbn; [done|]. pose proof (build_strict b r) as Hb.
    destruct (claims (build b) r) eqn:Ec.
    - destruct (prov_Authenticate (build b) r) as [[p|]|e]; try done. by destruct Hb as [_ Hb]; discriminate Hb.
    - by destruct Hb as [-> _]. }
  rewrite Hw. destruct (find _ bs) as [b|]; [|by destruct anon].
  by destruct (prov_Authenticate (build b) r) as [[p|]|e].
Qed.

(** A user configured with the hash of a password logs in with exactly
    the passwords bcrypt accepts for it, sent as the base64 of
    [user:password], and the last user configured under a name counts. *)
Theorem basic_login cfg u pw h pw' r :
  Basic.configured (Basic.Users cfg) (Basic.Username u) = Some u →
  Basic.HashPassword pw = Some h → Basic.PasswordHash u = h →
  occurs ":" (Basic.Username u) = false →
  Header.Get (ReqHeader r) "Authorization" =
    "Basic " +:+ Base64.StdEncode (Basic.Username u +:+ ":" +:+ pw') →
  Basic.Authenticate (Basic.NewBasicAuthProvider cfg) r =
    (if CompareHashAndPassword h pw'
     then Ok (Some (mkPrincipal (Basic.Username u) "user" "" "" [] (Basic.Roles u)
                     (Basic.stringAttrs (Basic.Attributes u)) [] "" 0))
     else Err "invalid credentials") ∧
  CompareHashAndPassword h pw = true.
Proof.
  intros Hu Hh Hp Hc Hr. split; [|by eapply bcrypt_roundtrip].
  unfold Basic.Authenticate. rewrite Hr. cbv zeta. rewrite HasPrefix_app.
  change (String.eqb ("Basic " +:+ _) "") with false. cbn [negb].
  rewrite Basic.parseBasicAuth_encode by done.
  cbn [Basic.NewBasicAuthProvider Basic.users]. rewrite Basic.users_lookup, Hu. cbn.
  rewrite Hp, (Basic.decode_bcrypt pw h) by done. by destruct (CompareHashAndPassword h pw').
Qed.

(** C23: A bearer principal comes from a token whose algorithm belongs to the
    family of the configured key: with a shared secret an HMAC signature
    under that secret; with a JWKS an RSA or ECDSA signature under a key
    that the issuer's newest document published for the token's key ID and
    whose declared algorithm, if any, is the token's.  The answers are those
    of any reachable state of the key cache. *)
Theorem bearer_authentic cfg p now s answers r pr :
  Bearer.NewBearerProvider cfg = Ok p →
  (∀ c, Bearer.jwks p = Some c → rtc Jwks.step (Jwks.start c now) s) →
  (∀ kid k, answers kid = Ok k → ∃ at_, Jwks.GDone kid at_ (Ok k) ∈ Jwks.gs s) →
  Bearer.Authenticate p answers r = Ok (Some pr) →
  ∃ t, Header.Get (ReqHeader r) "Authorization" = "Bearer " +:+ p_Token pr ∧
    registered (mkOpts (Bearer.validMethods p) (Bearer.leeway p) (Bearer.Issuer cfg) (Bearer.Audience cfg))
      (tok_Claims t) ∧ (0 < Bearer.leeway p)%Z ∧
    match Bearer.Secret_ cfg with
    | Some secret =>
        tok_Family t = HMAC ∧ tok_Alg t ∈ Bearer.hmacMethods ∧ signedBy (p_Token pr) t (Secret secret)
    | None =>
        Bearer.asymmetric (tok_Family t) = true ∧ tok_Alg t ∈ Bearer.asymmetricMethods ∧
        ∃ c kid at_ k, Bearer.jwks p = Some c ∧ index "kid" (tok_Header t) = VStr kid ∧
          Jwks.served (Jwks.hard c) (Jwks.docs s) kid at_ k ∧
          (Jwks.ck_alg k = "" ∨ Jwks.ck_alg k = tok_Alg t) ∧
          signedBy (p_Token pr) t (Public (Jwks.ck_key k))
    end.
Proof.
  intros Hp Hreach Hans Ha. destruct (NewBearerProvider_inv _ _ Hp) as (Hi & Haud & Hl & Hk).
  unfold Bearer.Authenticate in Ha. set (h := Header.Get _ _) in *. cbv zeta in Ha.
  destruct (String.eqb h "" || negb (HasPrefix h "Bearer ")) eqn:Eh; [done|]. apply orb_false_elim in Eh as [_ Eh].
  destruct (String.eqb (TrimPrefix h "Bearer ") ""); [done|].
  destruct (jwt_Parse _ _ _) as [t|e] eqn:Et; cbn in Ha; [|done].
  destruct (tok_Valid t); [|done]. destruct (Bearer.claimsFunc p _) as [q|e]; cbn in Ha; [|done].
  injection Ha as <-. cbn [p_Token].
  apply jwt_Parse_Ok in Et as (Halg & Hhdr & (k & Hkf & Hsig) & Hreg). exists t.
  unfold Bearer.parseOptions in *. rewrite Hi, Haud in *. split_and!; [|done..|].
  - apply negb_false_iff, HasPrefix_spec in Eh as [x ->]. by rewrite TrimPrefix_app.
  - destruct (Bearer.Secret_ cfg) as [secret|].
    + destruct Hk as [Hs Hm]. rewrite Hm in Halg. unfold Bearer.keyFuncFor in Hkf. rewrite Hs in Hkf.
      case_bool_decide; [|done]. injection Hkf as <-. done.
    + destruct Hk as (c & Hs & Hm & Hc & Hnew). rewrite Hm in Halg.
      destruct (keyFuncFor_jwks _ _ _ _ Hs Hkf) as (kid & ck & Hkid & Hfam & Hck & -> & Hca).
      destruct (Hans _ _ Hck) as [at_ Hin]. split_and!; [done..|].
      exists c, kid, at_, ck. split_and!; [done|done| |by unfold asString in Hca; rewrite Hhdr in Hca|done].
      eapply Jwks.served_reachable; [exact Hnew|by apply Hreach|exact Hin].
Qed.

(** Identities the proxy asserts are not the token's or the
    certificate's to choose: an OIDC principal always carries
    [auth_method = oidc], and without a custom mapping its other attributes
    are string claims the allowlist names; a certificate principal comes
    from a first certificate that verifies against the configured pool, and
    a SPIFFE identity lies under a configured trust domain. *)
Theorem asserted_identities :
  (∀ cfg p r pr, Oidc.NewOIDCProvider cfg = Ok p → Oidc.Authenticate p r = Ok (Some pr) →
     p_Attributes pr !! "auth_method" = Some "oidc" ∧
     (Oidc.ClaimsFunc cfg = None → ∃ tok c,
        Header.Get (ReqHeader r) "Authorization" = "Bearer " +:+ tok ∧
        oidc_Verify (Oidc.verifier p) tok = Some (Some c) ∧
        ∀ k s, k ≠ "auth_method" → p_Attributes pr !! k = Some s →
          k ∈ default Oidc.defaultOIDCAttributeAllowlist (Oidc.AttributeAllowlist cfg) ∧ (k, VStr s) ∈ c)) ∧
  (∀ cfg p r pr, Mtls.NewMTLSProvider cfg = Ok p → Mtls.Authenticate p r = Ok (Some pr) →
     ∃ pool cert rest, Mtls.TrustedCAs cfg = Some pool ∧ PeerCertificates r = cert :: rest ∧
       x509_Verify pool cert = true ∧
       ∀ domains, Mtls.SubjectMapper_ cfg = Some (Mtls.SPIFFESubjectMapper domains) →
         p_ID pr ∈ URIs cert ∧ HasPrefix (p_ID pr) "spiffe://" = true ∧
         (domains = [] ∨ ∃ td, td ∈ domains ∧ HasPrefix (p_ID pr) ("spiffe://" +:+ td +:+ "/") = true)).
Proof.
  split.
  - intros cfg p r pr Hp Ha. unfold Oidc.Authenticate in Ha. cbv zeta in Ha. set (h := Header.Get _ _) in *.
    destruct (String.eqb h "" || negb (HasPrefix h "Bearer ")) eqn:Eh; [done|].
    apply orb_false_elim in Eh as [_ [x Ex]%negb_false_iff%HasPrefix_spec]. rewrite Ex, TrimPrefix_app in Ha.
    destruct (String.eqb x ""); [done|]. destruct (oidc_Verify _ _) as [[c|]|] eqn:Ev; [|done..].
    destruct (match Oidc.claimsFunc p with None => _ | Some f => _ end) as [custom|] eqn:Ef; [|done].
    injection Ha as <-. cbn. split; [by rewrite lookup_insert_eq|]. intros Hc. exists x, c. split_and!; [done..|].
    intros k s Hk. rewrite lookup_insert_ne by done. destruct (NewOIDCProvider_inv _ _ Hp) as [Hf Hal].
    rewrite Hf, Hc in Ef. injection Ef as <-. cbn. rewrite Hal.
    intros [Hin Hm]%copyAttrs_sound. by apply elem_of_list_to_set in Hin.
  - intros cfg p r pr Hp Ha. unfold Mtls.NewMTLSProvider in Hp.
    destruct (Mtls.TrustedCAs cfg) as [pool|] eqn:Et; [|done]. injection Hp as <-.
    unfold Mtls.Authenticate in Ha. destruct (PeerCertificates r) as [|cert rest]; [done|].
    cbn [Mtls.trustedCAs Mtls.subjectMapper] in Ha. rewrite ?Et in Ha. exists pool, cert, rest.
    destruct (x509_Verify pool cert); [|done]. split_and!; [done..|]. intros domains Hd. cbn in Ha.
    rewrite Hd in Ha. cbn in Ha. destruct (Mtls.MapSPIFFE domains cert) as [q|] eqn:Em; [|done].
    injection Ha as <-. by apply MapSPIFFE_inv.
Qed.

End Chain.

Module Witness.

#[local] Instance toyBcrypt : Bcrypt.
Proof.
  refine {| CompareHashAndPassword h pw := String.eqb h ("$2a$" +:+ pw);
            GenerateFromPassword pw := Some ("$2a$" +:+ pw) |}.
  - intros pw h [= <-]. apply String.eqb_refl.
  - intros pw h Hh. injection Hh as <-. by destruct pw.
Defined.

Definition alice : Basic.BasicUser := Basic.mkUser "alice" "$2a$s:cret" ["admin"] [("team", VStr "eo"); ("n", VNil)].
Definition basicCfg : Basic.BasicAuthConfig :=
  Basic.mkBasicConfig "basic" "stac" [Basic.mkUser "alice" "old" [] []; alice] 0.
Definition withAuth (v : string) : httpRequest :=
  mkRequest "GET" "/search" "" (Header.Set_ "Authorization" v ∅) "10.0.0.1:1".

(** The password contains a colon. *)
Lemma basic_login_witness :
  Basic.Authenticate (Basic.NewBasicAuthProvider basicCfg) (withAuth "Basic YWxpY2U6czpjcmV0") =
    Ok (Some (mkPrincipal "alice" "user" "" "" [] ["admin"] {["team" := "eo"]} [] "" 0)).
Proof.
  destruct (basic_login basicCfg alice "s:cret" "$2a$s:cret" "s:cret" (withAuth "Basic YWxpY2U6czpjcmV0"))
    as [-> _]; vm_compute; reflexivity.
Defined.

(** A parser of tokens [kid.alg], signed when the key function accepts. *)
Definition toyToken (s : string) : option Token :=
  '(kid, alg) ← CutSub "." s;
  Some (mkToken [("kid", VStr kid); ("alg", VStr alg)] RSA alg [("sub", VStr "bob")] true).
Definition toyParse (s : string) (kf : Token → result authError verifyKey) (o : parseOpts) : result authError Token :=
  match toyToken s with
  | None => Err "malformed"
  | Some t => if bool_decide (tok_Alg t ∈ ValidMethods o) then _ ← kf t; Ok t else Err "method"
  end.
#[local] Instance toyJWT : JWT.
Proof.
  refine {| jwt_Parse := toyParse; signedBy _ _ _ := True; registered _ _ := True |}.
  intros s kf o t. unfold toyParse, toyToken. destruct (CutSub "." s) as [[kid alg]|]; cbn; [|done].
  case_bool_decide; [|done]. destruct (kf _) as [k|] eqn:Ek; cbn; [|done]. intros [= <-]. cbn.
  split_and!; [done|done|by exists k|done].
Defined.

Definition bearerCfg : Bearer.BearerConfig := Bearer.mkBearerConfig "" "" "" "https://idp" None None 0 false.
Definition bearer : Bearer.BearerProvider :=
  Bearer.mkBearer "bearer" "" "" (Some Jwks.Witness.client0) None Bearer.defaultClaimsFunc
    Bearer.defaultLeeway Bearer.asymmetricMethods.
Definition answers (kid : string) : result authError Jwks.cachedKey :=
  if String.eqb kid "k" then Ok (Jwks.Witness.key 3) else Err "jwks: not present".
Definition bob : Principal := mkPrincipal "bob" "user" "" "" [] [] ∅ [] "k.RS256" 0.

Lemma bearer_authentic_witness :
  Bearer.Authenticate bearer answers (withAuth "Bearer k.RS256") = Ok (Some bob) ∧
  ∃ kid at_ k, Jwks.served (24 * 3600 * Jwks.second) [(7%Z, Jwks.Witness.doc)] kid at_ k.
Proof.
  split; [vm_compute; reflexivity|].
  destruct (bearer_authentic bearerCfg bearer 7 Jwks.Witness.end_ answers (withAuth "Bearer k.RS256") bob)
    as (t & _ & _ & _ & _ & _ & c & kid & at_ & k & Hc & _ & Hs & _).
  - reflexivity.
  - intros c [= <-]. exact Jwks.Witness.end_reached.
  - intros kid k. unfold answers. destruct (String.eqb_spec kid "k") as [->|]; [|done].
    intros [= <-]. exists 7%Z. left.
  - vm_compute. reflexivity.
  - injection Hc as <-. exists kid, at_, k. exact Hs.
Defined.

End Witness.
End AuthProviders.
