(* ===== verification/Parser.v ===== *)
(** * Search request parsing ([internal/stac/parser.go],
      [internal/server/searchparser.go])

    The parser of search requests, from a query string or a body, and the
    middleware that runs it before authorization.

    Parameters: [strconv.ParseFloat] and the JSON decoder of a
    [SearchRequest] ([SearchCodec]), the generic JSON decoder and the
    geometry library of [Cql2].  A body that cannot be read is [None]. *)

From S2P Require Import Prelude GoLib Stac PageAdapter Middleware Cql2 Query Remap.
From Stdlib Require Import Ascii.
Import Strings Values Stac Middleware.

Module Parser.

Class SearchCodec := {
  ParseFloat : string → option float64;
  search_Unmarshal : bytes → option SearchRequest;
}.

Inductive parseError :=
| ParseError (Param Value : string)
| BodyUnreadable
| BodyInvalid.

(** ** Fields and sort order *)

(** One part of the fields parameter. *)
Definition addField (spec : FieldsSpec) (part : string) : FieldsSpec :=
  let field := TrimSpace part in
  match field with
  | EmptyString => spec
  | String "-" rest =>
      let name := TrimSpace rest in
      if String.eqb name "" then spec else mkFieldsSpec (Include spec) (Exclude spec ++ [name])
  | String "+" rest =>
      let name := TrimSpace rest in
      if String.eqb name "" then spec else mkFieldsSpec (Include spec ++ [name]) (Exclude spec)
  | _ => mkFieldsSpec (Include spec ++ [field]) (Exclude spec)
  end.

Definition parseFieldsShorthand (raw : string) : option FieldsSpec :=
  let spec := foldl addField (mkFieldsSpec [] []) (Split raw ",") in
  match Include spec, Exclude spec with
  | [], [] => None
  | _, _ => Some spec
  end.

Definition sortSpec (s : string) : SortSpec :=
  match s with
  | String "-" rest => mkSortSpec rest "desc"
  | String "+" rest => mkSortSpec rest "asc"
  | _ => mkSortSpec s "asc"
  end.

(** ** The query string *)

(** [if s != "" { x = strings.Split(s, ",") }]. *)
Definition splitParam (s : string) : list string := if String.eqb s "" then [] else Split s ",".

Section Parser.
Context `{!SearchCodec, !JSON, !Geo.GeoLib}.

Fixpoint parseCoords (parts : list string) : result parseError (list float64) :=
  match parts with
  | [] => Ok []
  | s :: parts =>
      let s := TrimSpace s in
      match ParseFloat s with
      | None => Err (ParseError "bbox" s)
      | Some f => fs ← parseCoords parts; Ok (f :: fs)
      end
  end.

Definition parseBBox (bbox : string) : result parseError (list float64) :=
  if String.eqb bbox "" then Ok [] else
  coords ← parseCoords (Split bbox ",");
  if negb (length coords =? 4) && negb (length coords =? 6) then Err (ParseError "bbox" bbox) else Ok coords.

Definition parseLimit (limit : string) : result parseError Z :=
  if String.eqb limit "" then Ok 0%Z else
  match PageAdapter.Atoi (TrimSpace limit) with
  | None => Err (ParseError "limit" limit)
  | Some l => Ok l
  end.

(** The probe decodes into a map: an object, or null. *)
Definition isObject (v : value) : bool := match v with VObj _ | VNil => true | _ => false end.

Definition parseIntersects (intersects : string) : result parseError bytes :=
  if String.eqb intersects "" then Ok "" else
  if match value_Unmarshal intersects with Some v => isObject v | None => false end &&
     bool_decide (is_Some (Geo.ParseRaw intersects))
  then Ok intersects
  else Err (ParseError "intersects" intersects).

Definition parseSearchFromQuery (rawQuery : string) : result parseError SearchRequest :=
  let q := Query.Get (Query.URLQuery rawQuery) in
  bbox ← parseBBox (q "bbox");
  limit ← parseLimit (q "limit");
  intersects ← parseIntersects (q "intersects");
  let filter := q "filter" in
  Ok (mkSearchRequest
    (splitParam (q "collections"))
    (splitParam (q "ids"))
    bbox
    intersects
    (q "datetime")
    limit
    (q "cursor")
    (q "token")
    (q "next")
    (sortSpec <$> splitParam (q "sortby"))
    (if String.eqb filter "" then VNil else VStr filter)
    (if String.eqb filter "" then ""
     else if String.eqb (q "filter-lang") "" then "cql2-text" else q "filter-lang")
    "" []
    (if String.eqb (q "fields") "" then None else parseFieldsShorthand (q "fields"))
    "" "" "").

(** With the body the handlers downstream read: restored after it was
    read. *)
Definition ParseSearchRequestFromHTTP (r : httpRequest) (body : option bytes)
    : result parseError SearchRequest * option bytes :=
  if String.eqb (Method r) "GET" then (parseSearchFromQuery (RawQuery r), body) else
  match body with
  | None => (Err BodyUnreadable, body)
  | Some data =>
      (if String.eqb data "" then Ok emptySearchRequest
       else match search_Unmarshal data with None => Err BodyInvalid | Some sr => Ok sr end,
       Some data)
  end.

(** ** Documents

    The decoders of the STAC library are parameters; they check the [type]
    member of what they decode, except a feature collection's. *)

Definition parseDocument {A} (unmarshal : bytes → option A) (what : string) (data : bytes) : result string A :=
  match unmarshal data with None => Err ("failed to parse " +:+ what) | Some a => Ok a end.

Definition ParseItem {A} (unmarshal : bytes → option A) := parseDocument unmarshal "item".
Definition ParseCollection {A} (unmarshal : bytes → option A) := parseDocument unmarshal "collection".
Definition ParseCollections {A} (unmarshal : bytes → option A) := parseDocument unmarshal "collections".
Definition ParseCatalog {A} (unmarshal : bytes → option A) := parseDocument unmarshal "catalog".
Definition ParseSearchRequest (data : bytes) : result string SearchRequest := parseDocument search_Unmarshal "search request" data.

Definition ParseFeatureCollection {A} (unmarshal : bytes → option A) (fc_Type : A → string) (data : bytes) : result string A :=
  fc ← parseDocument unmarshal "feature collection" data;
  if String.eqb (fc_Type fc) "FeatureCollection" then Ok fc else Err "invalid response: type must be 'FeatureCollection'".

(** ** The middleware *)

Definition withSearchReq (sr : SearchRequest) (info : STACInfo) : STACInfo :=
  mkSTACInfo (info_Collection info) (info_ItemID info) (info_RequestType info) (Some sr).

Definition scopeTo (collection : string) (sr : SearchRequest) : SearchRequest :=
  if String.eqb collection "" then sr else
  mkSearchRequest [collection] (IDs sr) (BBox sr) (Intersects sr) (Datetime sr) (Limit sr) (Stac.Cursor sr)
    (Token sr) (Next sr) (Sortby sr) (Filter sr) (FilterLang sr) (FilterCRS sr) (Stac.Query sr) (Fields sr)
    (OverrideURL sr) (OverrideBody sr) (AdapterName sr).

(** The STAC information and the body the next handler gets, or a 400. *)
Definition searchParserMiddleware (info : option STACInfo) (r : httpRequest) (body : option bytes)
    : result parseError (option STACInfo * option bytes) :=
  match info with
  | None => Ok (None, body)
  | Some i =>
      if bool_decide (is_Some (info_SearchReq i)) then Ok (info, body) else
      match info_RequestType i with
      | RequestTypeSearch =>
          let '(parsed, body) := ParseSearchRequestFromHTTP r body in
          sr ← parsed; Ok (Some (withSearchReq sr i), body)
      | RequestTypeItems =>
          let '(parsed, body) := ParseSearchRequestFromHTTP r body in
          sr ← parsed; Ok (Some (withSearchReq (scopeTo (info_Collection i) sr) i), body)
      | _ => Ok (info, body)
      end
  end.

End Parser.

(** ** The query string of a request *)

(** How a client writes a request as query parameters. *)
Definition sortText (s : SortSpec) : string :=
  if String.eqb (Direction s) "desc" then "-" +:+ Field s else Field s.
Definition fieldsText (f : option FieldsSpec) : string :=
  match f with None => "" | Some f => join_sep "," (Include f ++ (String.append "-" <$> Exclude f)) end.
Definition filterText (v : value) : string := default "" (as_string v).

Definition paramsOf (bbox : list string) (sr : SearchRequest) : list (string * string) := [
  ("collections", join_sep "," (Collections sr));
  ("ids", join_sep "," (IDs sr));
  ("bbox", join_sep "," bbox);
  ("intersects", Intersects sr);
  ("datetime", Datetime sr);
  ("limit", if (Limit sr =? 0)%Z then "" else Remap.FormatInt (Limit sr));
  ("cursor", Stac.Cursor sr);
  ("token", Token sr);
  ("next", Next sr);
  ("sortby", join_sep "," (sortText <$> Sortby sr));
  ("filter", filterText (Filter sr));
  ("filter-lang", FilterLang sr);
  ("fields", fieldsText (Fields sr))].

(** Parameters without a value are left out. *)
Fixpoint valuesOf (kvs : list (string * string)) : Query.Values :=
  match kvs with
  | [] => ∅
  | (k, v) :: kvs => if String.eqb v "" then valuesOf kvs else <[k := [v]]> (valuesOf kvs)
  end.

Definition queryOf (bbox : list string) (sr : SearchRequest) : string :=
  Query.Encode (valuesOf (paramsOf bbox sr)).

Definition noComma (s : string) : Prop := occurs "," s = false.
Definition noSpace (s : string) : Prop := Header.all_chars (λ c, negb (isSpace c)) s = true.
Definition signed (s : string) : bool :=
  match s with String c _ => Ascii.eqb c "-" || Ascii.eqb c "+" | EmptyString => false end.

(** A list the comma-separated form can express. *)
Definition listable (l : list string) : Prop := l ≠ [""] ∧ Forall noComma l.

(** The requests the query parameters can express; [bbox] is the text of
    the bounding box. *)
Record expressible `{!SearchCodec, !JSON, !Geo.GeoLib} (bbox : list string) (sr : SearchRequest) : Prop := {
  x_coll : listable (Collections sr);
  x_ids : listable (IDs sr);
  x_bbox : Forall2 (λ t f, ParseFloat (TrimSpace t) = Some f) bbox (BBox sr);
  x_bboxc : listable bbox;
  x_len : length (BBox sr) ∈ [0; 4; 6];
  x_geo : Intersects sr = "" ∨
    ((∃ kvs, value_Unmarshal (Intersects sr) = Some (VObj kvs)) ∧ is_Some (Geo.ParseRaw (Intersects sr)));
  x_limit : (0 ≤ Limit sr < 2 ^ 63)%Z;
  x_sort : Forall (λ s, noComma (Field s) ∧ Field s ≠ "" ∧
    (Direction s = "desc" ∨ Direction s = "asc" ∧ signed (Field s) = false)) (Sortby sr);
  x_filter : (Filter sr = VNil ∧ FilterLang sr = "") ∨
    (∃ s, Filter sr = VStr s ∧ s ≠ "" ∧ FilterLang sr ≠ "");
  x_fields : match Fields sr with
    | None => True
    | Some f => Include f ++ Exclude f ≠ [] ∧ Forall (λ n, n ≠ "" ∧ noComma n ∧ noSpace n) (Include f ++ Exclude f) ∧
        Forall (λ n, signed n = false) (Include f)
    end;
  x_rest : FilterCRS sr = "" ∧ Stac.Query sr = [] ∧ OverrideURL sr = "" ∧ OverrideBody sr = "" ∧ AdapterName sr = "";
}.

(** ** Lemmas *)

Lemma get_valuesOf kvs k :
  NoDup kvs.*1 → Query.Get (valuesOf kvs) k = default "" (get k kvs).
Proof.
  unfold Query.Get. induction kvs as [|[k' v] kvs IH]; cbn; [done|].
  intros [Hk Hnd]%NoDup_cons. destruct (String.eqb_spec k k') as [->|Hne].
  - destruct (String.eqb_spec v "") as [->|]; [|by rewrite lookup_insert_eq].
    cbn. enough (valuesOf kvs !! k' = None) as -> by done.
    clear IH Hnd. induction kvs as [|[k v] kvs IH]; cbn; [done|]. cbn in Hk.
    destruct (String.eqb v ""); [|rewrite lookup_insert_ne by set_solver]; apply IH; set_solver.
  - destruct (String.eqb v ""); [|rewrite lookup_insert_ne by done]; by apply IH.
Qed.

Lemma valuesOf_nonempty kvs k : valuesOf kvs !! k ≠ Some [].
Proof.
  induction kvs as [|[k' v] kvs IH]; cbn; [done|]. destruct (String.eqb v ""); [done|].
  destruct (decide (k' = k)) as [->|]; [by rewrite lookup_insert_eq|by rewrite lookup_insert_ne].
Qed.

Lemma join_empty l : join_sep "," l = "" → l = [] ∨ l = [""].
Proof. destruct l as [|[|c s] [|t l]]; cbn; auto; done. Qed.

Lemma splitParam_join l : listable l → splitParam (join_sep "," l) = l.
Proof.
  intros [Hne Hc]. unfold splitParam. destruct (String.eqb_spec (join_sep "," l) "") as [He|He].
  - by destruct (join_empty l He).
  - apply Split_join_sep; [|done]. by intros ->.
Qed.

Lemma Split_join_param l : l ≠ [] → listable l → Split (join_sep "," l) "," = l ∧ String.eqb (join_sep "," l) "" = false.
Proof.
  intros Hl [Hne Hc]. split; [by apply Split_join_sep|]. apply String.eqb_neq. by intros [|]%join_empty.
Qed.

Lemma TrimSpace_id s : noSpace s → TrimSpace s = s.
Proof.
  unfold noSpace, TrimSpace. intros Hs.
  assert (TrimLeftSpace s = s) as ->.
  { destruct s as [|c s]; [done|]. cbn in *. by destruct (isSpace c). }
  induction s as [|c s IH]; [done|]. cbn in *. apply andb_true_iff in Hs as [Hc Hs]. rewrite (IH Hs).
  destruct s; [|done]. by destruct (isSpace c).
Qed.

Lemma all_chars_app p s t : Header.all_chars p (s +:+ t) = Header.all_chars p s && Header.all_chars p t.
Proof. induction s as [|c s IH]; cbn; [done|]. by rewrite IH, andb_assoc. Qed.

Lemma digitChar_noSpace d : (0 ≤ d < 10)%Z → isSpace (Remap.digitChar d) = false.
Proof.
  intros Hd. assert (d = 0 ∨ d = 1 ∨ d = 2 ∨ d = 3 ∨ d = 4 ∨ d = 5 ∨ d = 6 ∨ d = 7 ∨ d = 8 ∨ d = 9)%Z
    as Hcase by lia. by repeat destruct Hcase as [->|Hcase]; subst.
Qed.

Lemma FormatInt_noSpace z : (0 ≤ z)%Z → noSpace (Remap.FormatInt z).
Proof.
  intros Hz. unfold Remap.FormatInt, noSpace. rewrite (proj2 (Z.ltb_ge _ _)) by lia.
  generalize (S (Z.to_nat (Z.log2 z))) as fuel. intros fuel. revert z Hz.
  induction fuel as [|fuel IH]; intros z Hz; [done|]. cbn [Remap.showDigits].
  destruct (Z.ltb_spec z 10); cbn; [by rewrite digitChar_noSpace by lia|].
  rewrite all_chars_app, IH by (apply Z.div_pos; lia). cbn.
  rewrite digitChar_noSpace; [done|]. apply Z.mod_pos_bound. lia.
Qed.

Lemma addField_include spec n :
  n ≠ "" → noSpace n → signed n = false → addField spec n = mkFieldsSpec (Include spec ++ [n]) (Exclude spec).
Proof.
  intros Hne Hs Hsg. unfold addField. rewrite (TrimSpace_id n Hs). destruct n as [|c n]; [done|]. cbn in Hsg.
  by destruct c as [[] [] [] [] [] [] [] []].
Qed.

Lemma addField_exclude spec n :
  n ≠ "" → noSpace n → addField spec ("-" +:+ n) = mkFieldsSpec (Include spec) (Exclude spec ++ [n]).
Proof.
  intros Hne Hs. unfold addField. rewrite (TrimSpace_id ("-" +:+ n)) by exact Hs.
  change ("-" +:+ n) with (String "-" n). cbv beta iota zeta. rewrite (TrimSpace_id n Hs).
  by apply String.eqb_neq in Hne as ->.
Qed.

Lemma foldl_addField inc exc spec :
  Forall (λ n, n ≠ "" ∧ noComma n ∧ noSpace n) (inc ++ exc) → Forall (λ n, signed n = false) inc →
  foldl addField spec (inc ++ (String.append "-" <$> exc)) = mkFieldsSpec (Include spec ++ inc) (Exclude spec ++ exc).
Proof.
  intros [Hi He]%Forall_app Hs. rewrite foldl_app.
  assert (foldl addField spec inc = mkFieldsSpec (Include spec ++ inc) (Exclude spec)) as ->.
  { revert spec. induction inc as [|n inc IH]; intros spec; cbn; [destruct spec; cbn; by rewrite app_nil_r|].
    apply Forall_cons in Hi as [(? & _ & ?) Hi]. apply Forall_cons in Hs as [? Hs].
    rewrite addField_include by done. rewrite IH by done. cbn. by rewrite <-app_assoc. }
  generalize (Include spec ++ inc) as a. intros a. clear Hi Hs. generalize (Exclude spec) as b.
  induction exc as [|n exc IH]; intros b; cbn [foldl fmap list_fmap]; [by rewrite app_nil_r|].
  apply Forall_cons in He as [(? & _ & ?) He]. rewrite addField_exclude, IH by done. cbn. by rewrite <-app_assoc.
Qed.

Lemma fieldsText_roundtrip f :
  match f with
  | None => True
  | Some f => Include f ++ Exclude f ≠ [] ∧ Forall (λ n, n ≠ "" ∧ noComma n ∧ noSpace n) (Include f ++ Exclude f) ∧
      Forall (λ n, signed n = false) (Include f)
  end →
  (if String.eqb (fieldsText f) "" then None else parseFieldsShorthand (fieldsText f)) = f.
Proof.
  destruct f as [[inc exc]|]; [|done]. cbn [Include Exclude fieldsText]. intros (Hne & Hall & Hs).
  destruct (Split_join_param (inc ++ (String.append "-" <$> exc))) as [Hsplit ->].
  - destruct inc, exc; done.
  - split.
    + destruct inc as [|n [|]]; [by destruct exc as [|? [|]]| |done]. destruct exc; [|done]. cbn.
      intros [= ->]. apply Forall_cons in Hall as [[] _]. done.
    + apply Forall_app in Hall as [Hi He]. apply Forall_app. split; [by eapply Forall_impl; [exact Hi|naive_solver]|].
      apply Forall_fmap. eapply Forall_impl; [exact He|]. intros n (_ & Hn & _). exact Hn.
  - unfold parseFieldsShorthand. rewrite Hsplit, foldl_addField by done. cbn. by destruct inc, exc.
Qed.

Lemma sortText_roundtrip l :
  Forall (λ s, noComma (Field s) ∧ Field s ≠ "" ∧
    (Direction s = "desc" ∨ Direction s = "asc" ∧ signed (Field s) = false)) l →
  sortSpec <$> splitParam (join_sep "," (sortText <$> l)) = l.
Proof.
  intros Hl. rewrite splitParam_join.
  - induction Hl as [|[f d] l (_ & Hne & Hd) Hl IH]; [done|]. cbn [fmap list_fmap] in *. f_equal; [|exact IH].
    cbn in *. unfold sortText. cbn. destruct Hd as [->|[-> Hs]]; cbn; [done|].
    destruct f as [|c f]; [done|]. cbn in Hs. by destruct c as [[] [] [] [] [] [] [] []].
  - split.
    + destruct l as [|s [|]]; [done| |done]. apply Forall_cons in Hl as [(_ & Hne & _) _]. cbn.
      unfold sortText. case_match; [done|]. congruence.
    + apply Forall_fmap. eapply Forall_impl; [exact Hl|]. intros s (Hc & _ & _). cbn. unfold noComma, sortText.
      by case_match.
Qed.

Section Roundtrip.
Context `{!SearchCodec, !JSON, !Geo.GeoLib}.

Lemma parseBBox_join bbox fs :
  Forall2 (λ t f, ParseFloat (TrimSpace t) = Some f) bbox fs → listable bbox → length fs ∈ [0; 4; 6] →
  parseBBox (join_sep "," bbox) = Ok fs.
Proof.
  intros H2 Hl Hlen. destruct (decide (bbox = [])) as [->|Hne].
  { by apply Forall2_nil_inv_l in H2 as ->. }
  unfold parseBBox. destruct (Split_join_param bbox Hne Hl) as [-> ->].
  assert (parseCoords bbox = Ok fs) as ->.
  { clear Hne Hl Hlen. induction H2 as [|t f bbox fs Ht H2 IH]; [done|]. cbn. by rewrite Ht, IH. }
  cbn. assert (length fs ≠ 0) by (intros ?%nil_length_inv; subst; by apply Forall2_nil_inv_r in H2).
  assert (length fs = 4 ∨ length fs = 6) as [-> | ->] by set_solver; done.
Qed.

Lemma parseLimit_text z : (0 ≤ z < 2 ^ 63)%Z →
  parseLimit (if (z =? 0)%Z then "" else Remap.FormatInt z) = Ok z.
Proof.
  intros Hz. destruct (Z.eqb_spec z 0) as [->|Hne]; [done|]. destruct (Remap.Atoi_FormatInt z Hz) as [Ha He].
  unfold parseLimit. apply String.eqb_neq in He as ->.
  by rewrite TrimSpace_id, Ha by (apply FormatInt_noSpace; lia).
Qed.

Lemma parseIntersects_text s :
  s = "" ∨ ((∃ kvs, value_Unmarshal s = Some (VObj kvs)) ∧ is_Some (Geo.ParseRaw s)) → parseIntersects s = Ok s.
Proof.
  unfold parseIntersects. intros [->|[[kvs ->] Hg]]; [done|].
  destruct (String.eqb_spec s "") as [->|]; [done|]. by rewrite bool_decide_true by done.
Qed.

(** ** Properties *)

(** C33: Writing a search as query parameters loses nothing: parsing the
    encoded parameters of any request they can express gives back that
    request, field by field. *)
Theorem parse_query_roundtrip bbox sr :
  expressible bbox sr → parseSearchFromQuery (queryOf bbox sr) = Ok sr.
Proof.
  intros [Hc Hi Hb Hbl Hlen Hg Hl Hs Hf Hfl (Hr1 & Hr2 & Hr3 & Hr4 & Hr5)].
  unfold parseSearchFromQuery, queryOf. rewrite Query.URLQuery_Encode by apply valuesOf_nonempty.
  assert (Hget : ∀ k, Query.Get (valuesOf (paramsOf bbox sr)) k = default "" (get k (paramsOf bbox sr))).
  { intros k. apply get_valuesOf. cbn. apply (bool_decide_unpack _). by vm_compute. }
  cbv zeta. rewrite !Hget. cbn [get paramsOf String.eqb Ascii.eqb Bool.eqb default id].
  rewrite (parseBBox_join bbox (BBox sr)), parseLimit_text, parseIntersects_text by done. cbn [mbind result_bind].
  rewrite !splitParam_join, sortText_roundtrip, fieldsText_roundtrip by done.
  clear Hget Hc Hi Hb Hbl Hlen Hg Hl Hs Hfl.
  destruct sr as [? ? ? ? ? ? ? ? ? ? filter lang ? ? ? ? ? ?]. cbn in *. subst. do 2 f_equal.
  - destruct Hf as [[-> _]|(s & -> & Hs' & _)]; cbn; [done|]. by apply String.eqb_neq in Hs' as ->.
  - destruct Hf as [[-> ->]|(s & -> & Hs' & Hl')]; cbn; [done|].
    apply String.eqb_neq in Hs' as ->. by apply String.eqb_neq in Hl' as ->.
Qed.

(** Every search is parsed before authorization sees it: behind the
    middleware a search or items request carries its parsed request, an
    items request is about the collection of its path and no other, and the
    body can be read again; a request is refused exactly when it does not
    parse. *)
Theorem searchParser_contract i r body :
  info_SearchReq i = None →
  info_RequestType i = RequestTypeSearch ∨ info_RequestType i = RequestTypeItems →
  match searchParserMiddleware (Some i) r body, (ParseSearchRequestFromHTTP r body).1 with
  | Ok (Some i', body'), Ok sr =>
      body' = body ∧ info_Collection i' = info_Collection i ∧ info_RequestType i' = info_RequestType i ∧
      ∃ sr', info_SearchReq i' = Some sr' ∧ IDs sr' = IDs sr ∧ Filter sr' = Filter sr ∧
        Collections sr' =
          (if bool_decide (info_RequestType i = RequestTypeItems) && negb (String.eqb (info_Collection i) "")
           then [info_Collection i] else Collections sr)
  | Err e, Err e' => e = e'
  | _, _ => False
  end.
Proof.
  intros Hn Ht. unfold searchParserMiddleware. rewrite Hn. cbn [bool_decide].
  rewrite bool_decide_false by (by intros [? ?]).
  destruct (ParseSearchRequestFromHTTP r body) as [parsed body'] eqn:E.
  assert (body' = body) as ->.
  { unfold ParseSearchRequestFromHTTP in E. destruct (String.eqb _ _); [congruence|]. destruct body; congruence. }
  cbn [fst]. destruct Ht as [Ht|Ht]; rewrite Ht; destruct parsed as [sr|e]; cbn; try done.
  - split_and!; [done|done|done|]. by exists sr.
  - split_and!; [done|done|done|]. eexists. split; [done|]. unfold scopeTo. by destruct (String.eqb _ _).
Qed.

End Roundtrip.

Module Witness.

Definition point : bytes := "{POINT}".

(** Two numbers and one geometry. *)
#[local] Instance toyCodec : SearchCodec := {|
  ParseFloat s := if String.eqb s "1" then Some (float64_of_int 1) else None;
  search_Unmarshal _ := None;
|}.
#[local] Instance toyJSON : JSON := {|
  value_Marshal _ := None;
  value_Unmarshal s := if String.eqb s point then Some (VObj []) else None;
|}.
#[local] Instance toyGeo : Geo.GeoLib := {|
  Geo.Geom := unit; Geo.geojson_Unmarshal s := if String.eqb s point then Some tt else None;
  Geo.predicate_Covers _ _ := None; Geo.predicate_Intersects _ _ := None;
|}.

Definition one : float64 := float64_of_int 1.
Definition request : SearchRequest :=
  mkSearchRequest ["s2&l2a"; "landsat"] ["a"] [one; one; one; one] point "2024/.." 250 "" "t=1" ""
    [mkSortSpec "datetime" "desc"; mkSortSpec "id" "asc"] (VStr "a = 'b'") "cql2-text" "" []
    (Some (mkFieldsSpec ["id"] ["assets"])) "" "" "".

Lemma parse_query_roundtrip_witness :
  queryOf [" 1"; "1"; "1"; "1"] request =
    "bbox=+1%2C1%2C1%2C1&collections=s2%26l2a%2Clandsat&datetime=2024%2F..&fields=id%2C-assets&filter=a+%3D+%27b%27&filter-lang=cql2-text&ids=a&intersects=%7BPOINT%7D&limit=250&sortby=-datetime%2Cid&token=t%3D1" ∧
  parseSearchFromQuery (queryOf [" 1"; "1"; "1"; "1"] request) = Ok request.
Proof.
  split; [vm_compute; reflexivity|]. apply parse_query_roundtrip. constructor; cbn.
  - split; [done|by repeat constructor].
  - split; [done|by repeat constructor].
  - by repeat constructor.
  - split; [done|by repeat constructor].
  - set_solver.
  - right. split; [by exists []|by exists tt].
  - lia.
  - by repeat constructor.
  - right. by eexists.
  - split; [done|]. by repeat constructor.
  - done.
Defined.

Definition items : STACInfo := mkSTACInfo "s2" "" RequestTypeItems None.
Definition getItems : httpRequest := mkRequest "GET" "/collections/s2/items" "collections=secret&limit=5" ∅ "".

Lemma searchParser_contract_witness :
  searchParserMiddleware (Some items) getItems (Some "") =
    Ok (Some (withSearchReq (mkSearchRequest ["s2"] [] [] "" "" 5 "" "" "" [] VNil "" "" [] None "" "" "") items), Some "") ∧
  match searchParserMiddleware (Some items) getItems (Some ""), (ParseSearchRequestFromHTTP getItems (Some "")).1 with
  | Ok (Some i', body'), Ok sr => body' = Some "" ∧ ∃ sr', info_SearchReq i' = Some sr' ∧ Collections sr' = ["s2"]
  | _, _ => False
  end.
Proof.
  split; [vm_compute; reflexivity|].
  pose proof (searchParser_contract items getItems (Some "") eq_refl (or_intror eq_refl)) as H.
  destruct (searchParserMiddleware _ _ _) as [[[i'|] body']|e] eqn:E1; [|exact H|by vm_compute in E1].
  destruct (ParseSearchRequestFromHTTP _ _).1 as [sr|e]; [|exact H].
  destruct H as (Hb & _ & _ & sr' & Hs & _ & _ & Hc). split; [exact Hb|]. exists sr'. split; [exact Hs|exact Hc].
Defined.

(** A plus sign that is not percent-encoded decodes to a space, which stays
    in the name of the sort field. *)
Lemma sortby_plus :
  Sortby <$> parseSearchFromQuery "sortby=+datetime" = Ok [mkSortSpec " datetime" "asc"].
Proof. vm_compute. reflexivity. Qed.

(** The errors of a GET request, in the order they are looked for. *)
Lemma first_bad_parameter :
  parseSearchFromQuery "limit=x&bbox=1,2" = Err (ParseError "bbox" "2") ∧
  parseSearchFromQuery "limit=x&bbox=1,1" = Err (ParseError "bbox" "1,1") ∧
  parseSearchFromQuery "limit=x" = Err (ParseError "limit" "x").
Proof. vm_compute. done. Qed.

End Witness.
End Parser.
