(* ===== verification/OriginAuth.v ===== *)
(** * Upstream authentication ([internal/federation/auth.go],
      [auth_providers.go])

    The credentials the proxy attaches to the requests it sends: the
    provider kinds, the OAuth2 client-credentials token cache, AWS request
    signing, and the construction from configuration.

    An outbound request has a parsed URL.  Parameters: what the token
    endpoint answers, the clock, and the AWS signer ([Signer]).  Concurrent
    token refreshes share one fetch; [getToken] is one caller's sequence of
    check, second check inside the flight, fetch and publication. *)

From S2P Require Import Prelude GoLib Stac Cursor Query.
From Stdlib Require Import Ascii.
Import Strings.

Module OriginAuth.

(** ** Outbound requests *)

Record outRequest := mkOut {
  out_Method : string;
  out_URL : URL.URL;
  out_Header : Header.header;
  out_Body : option bytes;
}.

Definition setHeader (k v : string) (r : outRequest) : outRequest :=
  mkOut (out_Method r) (out_URL r) (Header.Set_ k v (out_Header r)) (out_Body r).
Definition setQuery (q : string) (r : outRequest) : outRequest :=
  let u := out_URL r in
  mkOut (out_Method r) (URL.mkURL (URL.Scheme u) (URL.Host u) (URL.Path u) q) (out_Header r) (out_Body r).

(** [SetBasicAuth]. *)
Definition SetBasicAuth (username password : string) (r : outRequest) : outRequest :=
  setHeader "Authorization" ("Basic " +:+ Base64.StdEncode (username +:+ ":" +:+ password)) r.

(** ** OAuth2 *)

Record OAuth2Config := mkOAuth2Config {
  TokenURL : string; ClientID : string; ClientSecret : string; Scopes : list string; Audience : string }.

Record OAuth2AuthProvider := mkOAuth2 { config : OAuth2Config; token : string; tokenExpiry : Z }.

(** A zero expiry time is long past. *)
Definition NewOAuth2AuthProvider (cfg : OAuth2Config) : result string OAuth2AuthProvider :=
  if String.eqb (TokenURL cfg) "" then Err "token_url is required"
  else if String.eqb (ClientID cfg) "" then Err "client_id is required"
  else Ok (mkOAuth2 cfg "" 0).

(** The answer of the token endpoint. *)
Inductive tokenReply :=
| TransportError
| BadStatus (code : Z)
| BadJSON
| Issued (access_token : string) (expires_in : Z).

Definition second : Z := 1000000000.

(** The form posted to the token endpoint. *)
Definition tokenForm (cfg : OAuth2Config) : Query.Values :=
  let data : Query.Values := <["grant_type" := ["client_credentials"]]> ∅ in
  let data := <["client_id" := [ClientID cfg]]> data in
  let data := <["client_secret" := [ClientSecret cfg]]> data in
  let data := match Scopes cfg with [] => data | ss => <["scope" := [join_sep " " ss]]> data end in
  if String.eqb (Audience cfg) "" then data else <["audience" := [Audience cfg]]> data.

Definition tokenRequest (cfg : OAuth2Config) : string * string * bytes :=
  ("POST", TokenURL cfg, Query.Encode (tokenForm cfg)).

(** A lifetime in seconds is multiplied out as a 64-bit duration. *)
Definition expiryOf (now expires_in : Z) : Z :=
  if (0 <? expires_in)%Z then (now + wrap64 (expires_in * second))%Z else (now + 3600 * second)%Z.

(** [fetchToken]; [now] is when the reply was read. *)
Definition fetchToken (now : Z) (reply : tokenReply) (p : OAuth2AuthProvider)
    : result string string * OAuth2AuthProvider :=
  match reply with
  | TransportError => (Err "transport", p)
  | BadStatus code => (Err "token request failed with status", p)
  | BadJSON => (Err "failed to parse token response", p)
  | Issued tok exp => (Ok tok, mkOAuth2 (config p) tok (expiryOf now exp))
  end.

(** [p.token != "" && time.Now().Before(p.tokenExpiry.Add(-30*time.Second))]. *)
Definition cached (now : Z) (p : OAuth2AuthProvider) : bool :=
  negb (String.eqb (token p) "") && (now <? tokenExpiry p - 30 * second)%Z.

(** The function run inside the flight. *)
Definition refreshOnce (now now' : Z) (reply : tokenReply) (p : OAuth2AuthProvider)
    : result string string * OAuth2AuthProvider :=
  if cached now p then (Ok (token p), p) else fetchToken now' reply p.

Definition getToken (now now' : Z) (reply : tokenReply) (p : OAuth2AuthProvider)
    : result string string * OAuth2AuthProvider :=
  if cached now p then (Ok (token p), p) else refreshOnce now now' reply p.

Definition Refresh (now now' : Z) (reply : tokenReply) (p : OAuth2AuthProvider)
    : result string unit * OAuth2AuthProvider :=
  let '(r, p) := refreshOnce now now' reply p in ((λ _, ()) <$> r, p).

(** ** AWS signatures *)

Record AWSSigV4Config := mkSigV4Config { Region : string; Service : string; AccessKey : string; SecretKey : string }.

(** [SignHTTP] with static credentials: access key, secret key, payload
    hash, service, region, time.  It only writes headers. *)
Class Signer := {
  SignHTTP : string → string → string → string → string → Z → outRequest → result string outRequest;
  SignHTTP_headers : ∀ ak sk h svc reg t r r', SignHTTP ak sk h svc reg t r = Ok r' →
    out_Method r' = out_Method r ∧ out_URL r' = out_URL r ∧ out_Body r' = out_Body r;
}.

Definition NewAWSSigV4Provider (cfg : AWSSigV4Config) : result string AWSSigV4Config :=
  if String.eqb (Region cfg) "" then Err "region is required" else
  Ok (mkSigV4Config (Region cfg) (if String.eqb (Service cfg) "" then "execute-api" else Service cfg)
        (AccessKey cfg) (SecretKey cfg)).

(** ** Providers *)

Inductive AuthProvider :=
| NoOpAuthProvider
| BasicAuthProvider (Username Password : string)
| BearerAuthProvider (Token : string)
| APIKeyAuthProvider (Header Value : string) (InQuery : bool)
| CustomHeadersProvider (Headers : gmap string string)
| OAuth2Provider (p : OAuth2AuthProvider)
| AWSSigV4Provider (cfg : AWSSigV4Config)
| ChainedAuthProvider (Providers : list AuthProvider).

Section Apply.
Context `{!Crypto, !MapRange, !Signer}.

Definition signAWS (now : Z) (cfg : AWSSigV4Config) (req : outRequest) : result string outRequest :=
  if String.eqb (AccessKey cfg) "" || String.eqb (SecretKey cfg) "" then Err "AWS credentials not configured" else
  let payloadHash := Hex.EncodeToString (sha256 (default "" (out_Body req))) in
  SignHTTP (AccessKey cfg) (SecretKey cfg) payloadHash (Service cfg) (Region cfg) now
    (setHeader "X-Amz-Content-Sha256" payloadHash req).

Definition applyBearer (token : string) (req : outRequest) : outRequest :=
  setHeader "Authorization" ("Bearer " +:+ token) req.

(** In the query the key replaces any parameter of its name. *)
Definition applyAPIKey (header value : string) (inQuery : bool) (req : outRequest) : outRequest :=
  if inQuery
  then setQuery (Query.Encode (<[header := [value]]> (Query.URLQuery (URL.RawQuery (out_URL req))))) req
  else setHeader header value req.

Definition applyCustomHeaders (headers : gmap string string) (req : outRequest) : outRequest :=
  foldl (λ r kv, setHeader kv.1 kv.2 r) req (range headers).

Definition applyOAuth2 (now now' : Z) (reply : tokenReply) (p : OAuth2AuthProvider) (req : outRequest)
    : result string outRequest * OAuth2AuthProvider :=
  let '(t, p) := getToken now now' reply p in ((λ t, applyBearer t req) <$> t, p).

(** At [now] the provider looks at the clock, at [now'] a token reply has
    been read. *)
Fixpoint ApplyAuth (now now' : Z) (reply : tokenReply) (a : AuthProvider) (req : outRequest)
    : result string outRequest * AuthProvider :=
  match a with
  | NoOpAuthProvider => (Ok req, a)
  | BasicAuthProvider u p => (Ok (SetBasicAuth u p req), a)
  | BearerAuthProvider t => (Ok (applyBearer t req), a)
  | APIKeyAuthProvider h v inQuery => (Ok (applyAPIKey h v inQuery req), a)
  | CustomHeadersProvider hs => (Ok (applyCustomHeaders hs req), a)
  | OAuth2Provider p => let '(r, p) := applyOAuth2 now now' reply p req in (r, OAuth2Provider p)
  | AWSSigV4Provider cfg => (signAWS now' cfg req, a)
  | ChainedAuthProvider ps =>
      let '(r, ps) := (fix all (ps : list AuthProvider) (req : outRequest) :=
        match ps with
        | [] => (Ok req, [])
        | p :: ps =>
            let '(r, p) := ApplyAuth now now' reply p req in
            match r with
            | Err e => (Err e, p :: ps)
            | Ok req => let '(r, ps) := all ps req in (r, p :: ps)
            end
        end) ps req in
      (r, ChainedAuthProvider ps)
  end.

(** [Refresh] of each provider: only OAuth2 has something to refresh; a
    chain stops at the first failure. *)
Fixpoint RefreshAuth (now now' : Z) (reply : tokenReply) (a : AuthProvider) : result string unit * AuthProvider :=
  match a with
  | OAuth2Provider p => let '(r, p) := Refresh now now' reply p in (r, OAuth2Provider p)
  | ChainedAuthProvider ps =>
      let '(r, ps) := (fix all (ps : list AuthProvider) :=
        match ps with
        | [] => (Ok (), [])
        | p :: ps =>
            let '(r, p) := RefreshAuth now now' reply p in
            match r with
            | Err e => (Err e, p :: ps)
            | Ok _ => let '(r, ps) := all ps in (r, p :: ps)
            end
        end) ps in
      (r, ChainedAuthProvider ps)
  | _ => (Ok (), a)
  end.

Record AuthConfig := mkAuthConfig {
  a_Type : string; a_Username : string; a_Password : string; a_Token : string;
  a_APIKeyHeader : string; a_APIKeyValue : string; a_APIKeyInQuery : bool;
  a_OAuth2 : option OAuth2Config; a_AWSSigV4 : option AWSSigV4Config; a_CustomHeaders : gmap string string;
}.

(** The providers a type asks for: none or one. *)
Definition providersOf (cfg : AuthConfig) : result string (list AuthProvider) :=
  if String.eqb (a_Type cfg) "basic" then Ok [BasicAuthProvider (a_Username cfg) (a_Password cfg)]
  else if String.eqb (a_Type cfg) "bearer" then Ok [BearerAuthProvider (a_Token cfg)]
  else if String.eqb (a_Type cfg) "api_key"
  then Ok [APIKeyAuthProvider (a_APIKeyHeader cfg) (a_APIKeyValue cfg) (a_APIKeyInQuery cfg)]
  else if String.eqb (a_Type cfg) "oauth2" then
    match a_OAuth2 cfg with None => Ok [] | Some c => p ← NewOAuth2AuthProvider c; Ok [OAuth2Provider p] end
  else if String.eqb (a_Type cfg) "aws_sigv4" then
    match a_AWSSigV4 cfg with None => Ok [] | Some c => p ← NewAWSSigV4Provider c; Ok [AWSSigV4Provider p] end
  else if String.eqb (a_Type cfg) "custom" then
    Ok (if bool_decide (a_CustomHeaders cfg = ∅) then [] else [CustomHeadersProvider (a_CustomHeaders cfg)])
  else Ok [].

Definition BuildAuthProvider (cfg : AuthConfig) : result string AuthProvider :=
  if String.eqb (a_Type cfg) "" || String.eqb (a_Type cfg) "none" then Ok NoOpAuthProvider else
  ps ← providersOf cfg;
  Ok (match ps with [] => NoOpAuthProvider | [p] => p | ps => ChainedAuthProvider ps end).

(** [authRoundTripper.RoundTrip]. *)
Definition RoundTrip {R} (next : outRequest → result string R) (now now' : Z) (reply : tokenReply)
    (a : AuthProvider) (req : outRequest) : result string R * AuthProvider :=
  let '(r, a) := ApplyAuth now now' reply a req in (r ≫= next, a).

End Apply.

(** ** Destinations *)

(** Credentials change neither where a request goes nor what it asks. *)
Definition sameDest (r r' : outRequest) : Prop :=
  out_Method r' = out_Method r ∧ out_Body r' = out_Body r ∧ URL.Scheme (out_URL r') = URL.Scheme (out_URL r) ∧
  URL.Host (out_URL r') = URL.Host (out_URL r) ∧ URL.Path (out_URL r') = URL.Path (out_URL r).

#[export] Instance sameDest_preorder : PreOrder sameDest.
Proof. split; [done|]. unfold sameDest. intros a b c. naive_solver congruence. Qed.

Section Dest.
Context `{!Crypto, !MapRange, !Signer}.

Lemma setHeader_dest k v r : sameDest r (setHeader k v r).
Proof. done. Qed.

Lemma custom_dest hs req : sameDest req (foldl (λ r (kv : string * string), setHeader kv.1 kv.2 r) req hs).
Proof.
  revert req. induction hs as [|kv hs IH]; intros req; [done|]. cbn.
  etrans; [apply (setHeader_dest kv.1 kv.2)|apply IH].
Qed.

(** Structural induction through the chains. *)
Lemma ApplyAuth_dest now now' reply : ∀ a req req',
  (ApplyAuth now now' reply a req).1 = Ok req' → sameDest req req'.
Proof.
  fix IH 1. intros [|u p|t|h v q|hs|p|cfg|ps] req req'; cbn [ApplyAuth fst].
  - by intros [= ->].
  - intros [= <-]. apply setHeader_dest.
  - intros [= <-]. apply setHeader_dest.
  - intros [= <-]. by destruct q.
  - intros [= <-]. apply custom_dest.
  - unfold applyOAuth2. destruct (getToken _ _ _ _) as [[t|e] p']; cbn; [|done]. intros [= <-]. apply setHeader_dest.
  - unfold signAWS. destruct (_ || _); [done|]. intros (Hm & Hu & Hb)%SignHTTP_headers.
    unfold sameDest. by rewrite Hm, Hu, Hb.
  - set (all := fix all (ps : list AuthProvider) (req : outRequest) := _).
    assert (Hall : (all ps req).1 = Ok req' → sameDest req req').
    { revert req. induction ps as [|p ps IHps]; intros req; cbn; [by intros [= ->]|].
      specialize (IH p req). destruct (ApplyAuth now now' reply p req) as [[req1|e] p1]; cbn; [|done].
      specialize (IHps req1). specialize (IH req1 eq_refl).
      destruct (all ps req1) as [r ps1]. cbn in *. intros Hr. etrans; [exact IH|]. by apply IHps. }
    by destruct (all ps req).
Qed.
End Dest.

(** ** The token cache over a run *)

(** Requests and refreshes, each with the time it looks at the clock, the
    time its reply is read and the reply. *)
Inductive tokenOp := OpGet (now now' : Z) (reply : tokenReply) | OpRefresh (now now' : Z) (reply : tokenReply).

Record tokenRun := mkRun {
  run_p : OAuth2AuthProvider;
  run_issued : list (Z * string * Z);    (* replies published: when read, token, lifetime *)
  run_used : list (Z * string * Z);      (* tokens handed out: when, and the expiry then stored *)
}.

Definition issuedBy (now' : Z) (reply : tokenReply) (fetched : bool) : list (Z * string * Z) :=
  match reply with Issued t e => if fetched then [(now', t, e)] else [] | _ => [] end.

Definition tokenStep (s : tokenRun) (o : tokenOp) : tokenRun :=
  let '(now, now', reply) := match o with OpGet a b c | OpRefresh a b c => (a, b, c) end in
  let fetched := negb (cached now (run_p s)) in
  let '(r, p') := getToken now now' reply (run_p s) in
  mkRun p' (run_issued s ++ issuedBy now' reply fetched)
    (match o, r with
     | OpGet _ _ _, Ok t => run_used s ++ [(if fetched then now' else now, t, tokenExpiry p')]
     | _, _ => run_used s
     end).

Definition startRun (p : OAuth2AuthProvider) : tokenRun := mkRun p [] [].

(** The stored token was issued with the stored expiry. *)
Definition runInv (s : tokenRun) : Prop :=
  (token (run_p s) = "" ∨
   ∃ t0 e, (t0, token (run_p s), e) ∈ run_issued s ∧ tokenExpiry (run_p s) = expiryOf t0 e) ∧
  Forall (λ u, ∃ t0 e, (t0, u.1.2, e) ∈ run_issued s ∧ u.2 = expiryOf t0 e ∧
    (u.1.1 = t0 ∨ (u.1.1 < u.2 - 30 * second)%Z)) (run_used s).

Lemma used_mono used l l' :
  Forall (λ u : Z * string * Z, ∃ t0 e, (t0, u.1.2, e) ∈ l ∧ u.2 = expiryOf t0 e ∧
    (u.1.1 = t0 ∨ (u.1.1 < u.2 - 30 * second)%Z)) used →
  Forall (λ u, ∃ t0 e, (t0, u.1.2, e) ∈ l ++ l' ∧ u.2 = expiryOf t0 e ∧
    (u.1.1 = t0 ∨ (u.1.1 < u.2 - 30 * second)%Z)) used.
Proof. intros H. eapply Forall_impl; [exact H|]. cbn. intros u (t0 & e & ? & ?). exists t0, e. set_solver. Qed.

Lemma runInv_step s o : runInv s → runInv (tokenStep s o).
Proof.
  intros [Ht Hu]. destruct s as [p issued used]. cbn in Ht, Hu.
  assert (Hgen : ∀ now now' reply get, runInv
    (let fetched := negb (cached now p) in
     let '(r, p') := getToken now now' reply p in
     mkRun p' (issued ++ issuedBy now' reply fetched)
       (match r with
        | Ok t => if get : bool then used ++ [(if fetched then now' else now, t, tokenExpiry p')] else used
        | Err _ => used end))).
  { intros now now' reply get. unfold getToken, refreshOnce, cached.
    destruct (String.eqb_spec (token p) "") as [He|Hne]; cbn [negb andb].
    - destruct reply as [|c| |t e]; cbn; rewrite ?app_nil_r; try (split; cbn; [by left|done]).
      split; cbn; [right; exists now', e; set_solver|]. destruct get; [|by apply used_mono].
      apply Forall_app. split; [by apply used_mono|]. constructor; [|done]. cbn. exists now', e.
      split_and!; [set_solver|done|by left].
    - destruct Ht as [?|(t0 & e0 & Hin & Hexp)]; [done|].
      destruct (Z.ltb_spec now (tokenExpiry p - 30 * second)); cbn.
      + assert (issuedBy now' reply false = []) as -> by (by destruct reply). rewrite app_nil_r.
        split; cbn; [right; by exists t0, e0|]. destruct get; [|done]. apply Forall_app. split; [done|].
        constructor; [|done]. cbn. exists t0, e0. split_and!; [done|done|by right].
      + destruct reply as [|c| |t e]; cbn; rewrite ?app_nil_r;
          try (split; cbn; [right; by exists t0, e0|done]).
        split; cbn; [right; exists now', e; set_solver|]. destruct get; [|by apply used_mono].
        apply Forall_app. split; [by apply used_mono|]. constructor; [|done]. cbn. exists now', e.
        split_and!; [set_solver|done|by left]. }
  destruct o as [now now' reply|now now' reply]; unfold tokenStep; cbn.
  - specialize (Hgen now now' reply true). cbn in Hgen. by destruct (getToken _ _ _ _) as [[t|e] p'].
  - specialize (Hgen now now' reply false). cbn in Hgen. by destruct (getToken _ _ _ _) as [[t|e] p'].
Qed.

(** ** Properties *)

(** In any run of requests and refreshes, a token attached to a request
    was issued by the token endpoint, and is either the one just fetched or
    one with more than thirty seconds of its stored lifetime left. *)
Theorem oauth_tokens_valid cfg p ops :
  NewOAuth2AuthProvider cfg = Ok p →
  Forall (λ u, ∃ t0 e, (t0, u.1.2, e) ∈ run_issued (foldl tokenStep (startRun p) ops) ∧
    u.2 = expiryOf t0 e ∧ (u.1.1 = t0 ∨ (u.1.1 < u.2 - 30 * second)%Z))
    (run_used (foldl tokenStep (startRun p) ops)).
Proof.
  intros Hp. assert (Hi : runInv (startRun p)).
  { unfold NewOAuth2AuthProvider in Hp. repeat case_match; try done. injection Hp as <-.
    split; cbn; [by left|constructor]. }
  revert Hi. generalize (startRun p) as s. clear Hp. induction ops as [|o ops IH]; intros s Hi; cbn.
  - apply Hi.
  - by apply IH, runInv_step.
Qed.

(** A configuration yields the credentials it names: a basic credential
    decodes to its user and password; a bearer token and a header key are
    set on the request; a query key is found by the server and the other
    parameters are as they were; without a type nothing is added. *)
Theorem origin_credentials `{!Crypto, !MapRange, !Signer} cfg a now now' reply req :
  BuildAuthProvider cfg = Ok a →
  (a_Type cfg ∈ [""; "none"] → ApplyAuth now now' reply a req = (Ok req, a)) ∧
  (a_Type cfg = "basic" → ∃ req', ApplyAuth now now' reply a req = (Ok req', a) ∧
     ∃ enc, Header.Get (out_Header req') "Authorization" = "Basic " +:+ enc ∧
       Base64.StdDecode enc = Some (a_Username cfg +:+ ":" +:+ a_Password cfg)) ∧
  (a_Type cfg = "bearer" → ∃ req', ApplyAuth now now' reply a req = (Ok req', a) ∧
     Header.Get (out_Header req') "Authorization" = "Bearer " +:+ a_Token cfg) ∧
  (a_Type cfg = "api_key" → ∃ req', ApplyAuth now now' reply a req = (Ok req', a) ∧
     if a_APIKeyInQuery cfg then
       let q := Query.URLQuery (URL.RawQuery (out_URL req')) in
       Query.Get q (a_APIKeyHeader cfg) = a_APIKeyValue cfg ∧
       (∀ k, k ≠ a_APIKeyHeader cfg → q !! k = Query.URLQuery (URL.RawQuery (out_URL req)) !! k) ∧
       out_Header req' = out_Header req
     else Header.Get (out_Header req') (a_APIKeyHeader cfg) = a_APIKeyValue cfg ∧ out_URL req' = out_URL req).
Proof.
  unfold BuildAuthProvider, providersOf. intros Ha. split_and!.
  - intros Ht. assert (String.eqb (a_Type cfg) "" || String.eqb (a_Type cfg) "none" = true) as E.
    { by repeat (apply elem_of_cons in Ht as [->|Ht]; [done|]); apply elem_of_nil in Ht. }
    rewrite E in Ha. by injection Ha as <-.
  - intros Ht. rewrite Ht in Ha. injection Ha as <-. eexists. split; [done|]. eexists. cbn [out_Header SetBasicAuth setHeader].
    rewrite Header.Get_Set_eq. split; [done|]. apply Base64.StdDecode_StdEncode.
  - intros Ht. rewrite Ht in Ha. injection Ha as <-. eexists. split; [done|]. apply Header.Get_Set_eq.
  - intros Ht. rewrite Ht in Ha. injection Ha as <-. eexists. split; [done|]. cbn [ApplyAuth]. unfold applyAPIKey.
    destruct (a_APIKeyInQuery cfg); [|split; [apply Header.Get_Set_eq|done]]. cbn [out_URL setQuery URL.RawQuery].
    rewrite Query.URLQuery_Encode.
    + split_and!; [unfold Query.Get; by rewrite lookup_insert_eq| |done]. intros k Hk. by rewrite lookup_insert_ne.
    + intros k. destruct (decide (a_APIKeyHeader cfg = k)) as [->|]; [by rewrite lookup_insert_eq|].
      rewrite lookup_insert_ne by done. apply Query.URLQuery_nonempty.
Qed.

Module Witness.

Definition cfg : OAuth2Config := mkOAuth2Config "https://idp/token" "stac" "s3cr&t" ["read"; "write"] "".

(** Fetched, reused until thirty seconds before its expiry, then replaced. *)
Definition ops : list tokenOp :=
  [OpGet 10 20 (Issued "t1" 60); OpGet (25 * second) (25 * second) TransportError;
   OpGet (31 * second) (32 * second) (Issued "t2" 60)].

Lemma oauth_tokens_valid_witness :
  run_used (foldl tokenStep (startRun (mkOAuth2 cfg "" 0)) ops) =
    [(20, "t1", 60 * second + 20); (25 * second, "t1", 60 * second + 20); (32 * second, "t2", 92 * second)]%Z ∧
  ∃ t0 e, (t0, "t1", e) ∈ run_issued (foldl tokenStep (startRun (mkOAuth2 cfg "" 0)) ops) ∧
    (25 * second = t0 ∨ 25 * second < 60 * second + 20 - 30 * second)%Z.
Proof.
  assert (E : run_used (foldl tokenStep (startRun (mkOAuth2 cfg "" 0)) ops) =
    [(20, "t1", 60 * second + 20); (25 * second, "t1", 60 * second + 20); (32 * second, "t2", 92 * second)]%Z)
    by (vm_compute; reflexivity).
  split; [exact E|]. pose proof (oauth_tokens_valid cfg (mkOAuth2 cfg "" 0) ops eq_refl) as H.
  rewrite E, Forall_forall in H. destruct (H (25 * second, "t1", 60 * second + 20)%Z) as (t0 & e & Hin & _ & Ht).
  - right. left.
  - exists t0, e. split; [exact Hin|exact Ht].
Defined.

(** The secret survives the form encoding. *)
Lemma token_form : Query.Get (Query.URLQuery (tokenRequest cfg).2) "client_secret" = "s3cr&t".
Proof. vm_compute. reflexivity. Qed.

(** A reply without an access token is accepted, stored and attached. *)
Lemma empty_token : getToken 0 0 (Issued "" 60) (mkOAuth2 cfg "" 0) = (Ok "", mkOAuth2 cfg "" (60 * second)).
Proof. reflexivity. Qed.

(** [Refresh] with a token still valid asks nobody. *)
Lemma refresh_not_forced :
  Refresh 0 0 (Issued "new" 60) (mkOAuth2 cfg "old" (60 * second)) = (Ok (), mkOAuth2 cfg "old" (60 * second)).
Proof. reflexivity. Qed.

(** A lifetime of three hundred years wraps to an expiry in the past. *)
Lemma lifetime_overflow : (expiryOf 0 9460800000 < 0)%Z.
Proof. vm_compute. reflexivity. Qed.

#[local] Instance toyCrypto : Crypto := {| sha256 s := s; hmac_sha256 k m := k +:+ m |}.
#[local] Instance toySigner : Signer.
Proof. refine {| SignHTTP _ _ _ _ _ _ r := Ok r |}. intros ak sk h svc reg t r r' H. injection H as <-. done. Defined.

Definition keyed : AuthConfig := mkAuthConfig "api_key" "" "" "" "k y" "v&1" true None None ∅.
Definition req : outRequest := mkOut "GET" (URL.mkURL "https" "o.example" "/search" "a=1&a=2") ∅ None.

Lemma origin_credentials_witness :
  ∃ req', ApplyAuth 0 0 TransportError (APIKeyAuthProvider "k y" "v&1" true) req =
    (Ok req', APIKeyAuthProvider "k y" "v&1" true) ∧
  URL.RawQuery (out_URL req') = "a=1&a=2&k+y=v%261" ∧
  Query.Get (Query.URLQuery (URL.RawQuery (out_URL req'))) "k y" = "v&1".
Proof.
  destruct (origin_credentials keyed (APIKeyAuthProvider "k y" "v&1" true) 0 0 TransportError req eq_refl)
    as (_ & _ & _ & H). destruct (H eq_refl) as (req' & Ha & Hq). exists req'. split; [exact Ha|].
  split; [|exact (proj1 Hq)]. injection Ha as <-. vm_compute. reflexivity.
Defined.

End Witness.

End OriginAuth.
