(* ===== verification/TokenFlight.v ===== *)
(** * Concurrent token requests ([OAuth2AuthProvider] in
      [internal/federation/auth_providers.go])

    [getToken] and [Refresh] called by any number of requests at once.  The
    provider's token is read and written under its lock, the token endpoint
    is asked without it, and callers share a refresh through a
    [singleflight.Group]: the first becomes its leader, the others wait for
    the leader's result.  The steps are the stretches of code between two
    synchronisations, decoding an answer and publishing its token being one;
    what the endpoint answers, and when, is the
    environment's, including [TransportError] when the context of the leader
    ends. *)

From S2P Require Import Prelude GoLib Stac Cursor PageAdapter Httpx Middleware Query OriginAuth.
From stdpp Require Import relations.
Import OriginAuth.

Module TokenFlight.
#[local] Open Scope Z_scope.

(** ** The system *)

(** Where a call is, with the time it began; [from] is when the call, or
    the flight it was part of, began. *)
Inductive caller :=
| Checking (since : Z)
| Wanting (since : Z)
| Waiting (since : Z)
| Returned (from at_ : Z) (r : result string string).

(** The function run in the group, with the time it began. *)
Inductive flight :=
| Looking (began : Z)
| Posting (began : Z)
| Landing (began : Z) (r : result string string).

(** What was exchanged with the token endpoint, newest first. *)
Inductive event := Posted (at_ : Z) | Answered (at_ : Z) (reply : tokenReply).

Record system := mkSystem {
  provider : OAuth2AuthProvider;
  flying : option flight;
  callers : list caller;
  clock : Z;
  log : list event;
}.

(** The end of a flight: everyone in it gets its result. *)
Definition land (began now : Z) (r : result string string) (c : caller) : caller :=
  match c with Waiting since => Returned (Z.min since began) now r | _ => c end.

Inductive work : system → system → Prop :=
| w_hit p f l1 since l2 now lg : cached now p = true →
    work (mkSystem p f (l1 ++ Checking since :: l2) now lg)
         (mkSystem p f (l1 ++ Returned since now (Ok (token p)) :: l2) now lg)
| w_stale p f l1 since l2 now lg : cached now p = false →
    work (mkSystem p f (l1 ++ Checking since :: l2) now lg) (mkSystem p f (l1 ++ Wanting since :: l2) now lg)
| w_lead p l1 since l2 now lg :
    work (mkSystem p None (l1 ++ Wanting since :: l2) now lg)
         (mkSystem p (Some (Looking now)) (l1 ++ Waiting since :: l2) now lg)
| w_join p f l1 since l2 now lg :
    work (mkSystem p (Some f) (l1 ++ Wanting since :: l2) now lg)
         (mkSystem p (Some f) (l1 ++ Waiting since :: l2) now lg)
| w_recheck p began l now lg : cached now p = true →
    work (mkSystem p (Some (Looking began)) l now lg) (mkSystem p (Some (Landing began (Ok (token p)))) l now lg)
| w_post p began l now lg : cached now p = false →
    work (mkSystem p (Some (Looking began)) l now lg) (mkSystem p (Some (Posting began)) l now (Posted now :: lg))
| w_answer p began l now lg reply :
    work (mkSystem p (Some (Posting began)) l now lg)
         (mkSystem (fetchToken now reply p).2 (Some (Landing began (fetchToken now reply p).1)) l now (Answered now reply :: lg))
| w_land p began r l now lg :
    work (mkSystem p (Some (Landing began r)) l now lg) (mkSystem p None (land began now r <$> l) now lg).

(** Requests and refreshes arrive, and time passes. *)
Inductive step : system → system → Prop :=
| s_get s : step s (mkSystem (provider s) (flying s) (callers s ++ [Checking (clock s)]) (clock s) (log s))
| s_refresh s : step s (mkSystem (provider s) (flying s) (callers s ++ [Wanting (clock s)]) (clock s) (log s))
| s_tick s now : clock s ≤ now → step s (mkSystem (provider s) (flying s) (callers s) now (log s))
| s_work s s' : work s s' → step s s'.

Definition start (p : OAuth2AuthProvider) (now : Z) : system := mkSystem p None [] now [].

(** ** Specification *)

Definition timeOf (e : event) : Z := match e with Posted t | Answered t _ => t end.

(** The provider the answers make. *)
Definition replay (p0 : OAuth2AuthProvider) (lg : list event) : OAuth2AuthProvider :=
  foldr (λ e p, match e with Posted _ => p | Answered t reply => (fetchToken t reply p).2 end) p0 lg.

(** Requests to the endpoint and its answers alternate. *)
Definition outstanding (lg : list event) : bool := match lg with Posted _ :: _ => true | _ => false end.
Fixpoint serial (lg : list event) : Prop :=
  match lg with
  | [] => True
  | Posted _ :: lg => outstanding lg = false ∧ serial lg
  | Answered _ _ :: lg => outstanding lg = true ∧ serial lg
  end.

(** The stored token is there and has more than thirty seconds left. *)
Definition good (now : Z) (p : OAuth2AuthProvider) : Prop := token p ≠ "" ∧ now + 30 * second < tokenExpiry p.

(** The result is owed to a moment between [from] and [till]: the token
    stored then, with more than thirty seconds left, or the endpoint's answer
    of that moment. *)
Definition accounted (p0 : OAuth2AuthProvider) (lg : list event) (from till : Z) (r : result string string) : Prop :=
  ∃ newer older m, lg = newer ++ older ∧ from ≤ m ≤ till ∧
    Forall (λ e, m ≤ timeOf e) newer ∧ Forall (λ e, timeOf e ≤ m) older ∧
    ((good m (replay p0 older) ∧ r = Ok (token (replay p0 older))) ∨
     (∃ reply before, older = Answered m reply :: before ∧ r = (fetchToken m reply (replay p0 before)).1)).

Definition returned (c : caller) : bool := match c with Returned _ _ _ => true | _ => false end.

(** Steps a call, and the flight it may start, still have to take. *)
Definition weight (c : caller) : nat :=
  match c with Checking _ => 6 | Wanting _ => 5 | Waiting _ => 1 | Returned _ _ _ => 0 end.
Definition flightWeight (f : option flight) : nat :=
  match f with Some (Looking _) => 3 | Some (Posting _) => 2 | Some (Landing _ _) => 1 | None => 0 end.
Definition total (s : system) : nat := (sum_list_with weight (callers s) + flightWeight (flying s))%nat.

(** ** Invariant *)

Section Invariant.
Variable p0 : OAuth2AuthProvider.

Definition callerOK (s : system) (c : caller) : Prop :=
  match c with
  | Checking t | Wanting t => t ≤ clock s
  | Waiting t => t ≤ clock s ∧ is_Some (flying s)
  | Returned from till r => till ≤ clock s ∧ accounted p0 (log s) from till r
  end.

Definition flightOK (s : system) : Prop :=
  match flying s with
  | None => outstanding (log s) = false
  | Some (Looking b) => b ≤ clock s ∧ outstanding (log s) = false
  | Some (Posting b) => b ≤ clock s ∧ outstanding (log s) = true
  | Some (Landing b r) => outstanding (log s) = false ∧ accounted p0 (log s) b (clock s) r
  end.

Record inv (s : system) : Prop := {
  i_provider : provider s = replay p0 (log s);
  i_times : Forall (λ e, timeOf e ≤ clock s) (log s);
  i_serial : serial (log s);
  i_posts : ∀ newer u older, log s = newer ++ Posted u :: older → ¬ good u (replay p0 older);
  i_flight : flightOK s;
  i_callers : Forall (callerOK s) (callers s);
}.

Lemma accounted_later lg e from till till' r : till ≤ timeOf e → till ≤ till' →
  accounted p0 lg from till r → accounted p0 (e :: lg) from till' r.
Proof.
  intros He Ht (newer & older & m & -> & [Hf Hm] & Hn & Ho & Hr). exists (e :: newer), older, m.
  split_and!; try done; try lia. constructor; [lia|done].
Qed.

Lemma accounted_mono lg from from' till till' r : from' ≤ from → till ≤ till' →
  accounted p0 lg from till r → accounted p0 lg from' till' r.
Proof. intros ?? (newer & older & m & ? & ? & ?). exists newer, older, m. split_and!; naive_solver lia. Qed.

Lemma cached_good m p : cached m p = true ↔ good m p.
Proof. unfold cached, good. rewrite andb_true_iff, negb_true_iff, String.eqb_neq, Z.ltb_lt. intuition lia. Qed.

(** The token stored now, if it is still good. *)
Lemma accounted_now lg from now : from ≤ now → Forall (λ e, timeOf e ≤ now) lg → cached now (replay p0 lg) = true →
  accounted p0 lg from now (Ok (token (replay p0 lg))).
Proof. intros Hf Hl Hc%cached_good. exists [], lg, now. split_and!; try done. by left. Qed.

Lemma callers_at (P : caller → Prop) l1 c c' l2 : Forall P (l1 ++ c :: l2) → (P c → P c') → Forall P (l1 ++ c' :: l2).
Proof. rewrite !Forall_app, !Forall_cons. naive_solver. Qed.

Lemma callerOK_clock p f f' l l' now now' lg c : now ≤ now' → (is_Some f → is_Some f') →
  callerOK (mkSystem p f l now lg) c → callerOK (mkSystem p f' l' now' lg) c.
Proof. destruct c; cbn; intuition lia. Qed.

Lemma callerOK_event p p' f f' l l' now lg e c : timeOf e = now → (is_Some f → is_Some f') →
  callerOK (mkSystem p f l now lg) c → callerOK (mkSystem p' f' l' now (e :: lg)) c.
Proof.
  intros He Hf. destruct c; cbn; [done|done|naive_solver|]. intros [Ht Ha]. split; [done|].
  eapply accounted_later; [|reflexivity|exact Ha]. lia.
Qed.

Lemma flights_work s s' : inv s → work s s' → inv s'.
Proof.
  intros [Hp Ht Hs Hposts Hf Hc] Hw.
  destruct Hw as [p f l1 t l2 now lg Hhit|p f l1 t l2 now lg Hhit|p l1 t l2 now lg|p f l1 t l2 now lg|
    p b l now lg Hhit|p b l now lg Hhit|p b l now lg reply|p b r l now lg]; cbn in *.
  - split; cbn; try done. eapply callers_at; [exact Hc|]. cbn. intros Hle. split; [lia|]. subst p. by apply accounted_now.
  - split; cbn; try done. by eapply callers_at.
  - split; cbn; try done. eapply callers_at.
    + eapply Forall_impl; [exact Hc|]. intros c. by eapply callerOK_clock.
    + cbn. intros Hle. split; [lia|by eexists].
  - split; cbn; try done. eapply callers_at; [exact Hc|]. cbn. intros Hle. split; [lia|by eexists].
  - destruct Hf as [Hb Ho]. split; cbn; try done; [split; [done|]; subst p; by apply accounted_now|].
    eapply Forall_impl; [exact Hc|]. intros c. apply callerOK_clock; [lia|by eexists].
  - destruct Hf as [Hb Ho]. split; cbn; try done.
    + by constructor.
    + intros [|e newer] u older [= ? Hlg]; [|by eapply Hposts]. subst. intros Hg%cached_good. unfold replay in Hg. congruence.
    + eapply Forall_impl; [exact Hc|]. intros c. apply callerOK_event; [done|by eexists].
  - destruct Hf as [Hb Ho]. split; cbn; try done.
    + by rewrite Hp.
    + by constructor.
    + intros [|e newer] u older [= ? Hlg]; by eapply Hposts.
    + split; [done|]. exists [], (Answered now reply :: lg), now. split_and!; try done; try lia.
      * by constructor.
      * right. exists reply, lg. split; [done|]. by rewrite Hp.
    + eapply Forall_impl; [exact Hc|]. intros c. apply callerOK_event; [done|by eexists].
  - destruct Hf as [Ho Ha]. split; cbn; try done. apply Forall_fmap. eapply Forall_impl; [exact Hc|].
    intros c Hok. destruct c as [t|t|t|from till r']; cbn in *; [done|done| |done].
    split; [lia|]. eapply accounted_mono; [| |exact Ha]; lia.
Qed.

Lemma flights_step s s' : inv s → step s s' → inv s'.
Proof.
  intros Hinv Hstep. destruct Hstep as [s|s|s now Hle|s s' Hw]; [| | |by eapply flights_work]; destruct Hinv as [Hp Ht Hs Hposts Hf Hc];
    destruct s as [p f l t lg]; cbn in *; split; cbn; try done.
  - apply Forall_app. split; [exact Hc|]. constructor; [cbn; lia|constructor].
  - apply Forall_app. split; [exact Hc|]. constructor; [cbn; lia|constructor].
  - eapply Forall_impl; [exact Ht|]. cbn. lia.
  - unfold flightOK in *. cbn in *. destruct f as [[b|b|b r]|]; [intuition lia..| |done].
    split; [tauto|]. eapply accounted_mono; [| |apply Hf]; lia.
  - eapply Forall_impl; [exact Hc|]. intros c. by apply callerOK_clock.
Qed.

Lemma flights_reachable now s : rtc step (start p0 now) s → inv s.
Proof.
  intros Hrun. assert (inv (start p0 now)) as Hinv by (split; cbn; try done; by intros [|]).
  induction Hrun; eauto using flights_step.
Qed.

(** ** Progress *)

Lemma sum_at {A} (f : A → nat) l1 x l2 : sum_list_with f (l1 ++ x :: l2) = (f x + sum_list_with f (l1 ++ l2))%nat.
Proof. rewrite !sum_list_with_app. cbn. lia. Qed.

Lemma land_weight b now r l : (sum_list_with weight (land b now r <$> l) ≤ sum_list_with weight l)%nat.
Proof. induction l as [|c l IH]; [done|]. cbn. destruct c; cbn; lia. Qed.

Lemma work_total s s' : work s s' → (total s' < total s)%nat.
Proof.
  destruct 1; unfold total; cbn; rewrite ?sum_at; cbn; try lia.
  pose proof (land_weight began now r l). lia.
Qed.

(** Someone who has not returned can move, or waits for a flight that
    can. *)
Lemma work_enabled s : inv s → Forall (λ c, returned c = true) (callers s) ∨ ∃ s', work s s'.
Proof.
  intros [_ _ _ _ _ Hc]. destruct s as [p f l now lg]. cbn in *.
  destruct f as [[b|b|b r]|].
  - right. destruct (cached now p) eqn:E; eexists; by constructor.
  - right. eexists. by apply (w_answer _ _ _ _ _ TransportError).
  - right. eexists. by constructor.
  - destruct (decide (Forall (λ c, returned c = true) l)) as [|Hn]; [by left|right].
    apply not_Forall_Exists in Hn; [|apply _]. apply Exists_exists in Hn as (c & Hin & Hr).
    rewrite Forall_forall in Hc. specialize (Hc _ Hin). apply list_elem_of_split in Hin as (l1 & l2 & ->).
    destruct c as [t|t|t|]; cbn in *; [|eexists; constructor|by destruct Hc as [_ []]|done].
    destruct (cached now p) eqn:E; eexists; by constructor.
Qed.

End Invariant.

(** ** Properties *)

(** C34: Whatever calls of [getToken] and [Refresh] overlap, and whatever the
    token endpoint answers: at most one request to the endpoint is
    outstanding at any time, and one is only sent when the stored token is
    missing or has no more than thirty seconds left, also by [Refresh], which
    its comment says forces a refresh and which does not
    ([refresh_not_forced]); the stored token is that
    of the newest successful answer; every call that returned got the token
    stored at some moment since it, or the flight it joined, began, with more
    than thirty seconds left then, or what the endpoint answered at such a
    moment; and every call returns: without new calls only a number of steps
    fixed by the state remains, and none is left only when all have
    returned. *)
Theorem token_flights p0 now s :
  rtc step (start p0 now) s →
  serial (log s) ∧
  (∀ newer u older, log s = newer ++ Posted u :: older → ¬ good u (replay p0 older)) ∧
  provider s = replay p0 (log s) ∧
  (∀ from till r, Returned from till r ∈ callers s → accounted p0 (log s) from till r) ∧
  (∀ n s', nsteps work n s s' → (n ≤ total s)%nat) ∧
  ((∀ s', ¬ work s s') → Forall (λ c, returned c = true) (callers s)).
Proof.
  intros Hrun. pose proof (flights_reachable p0 now s Hrun) as Hinv. pose proof Hinv as [Hp Ht Hs Hposts Hf Hc].
  split_and!; try done.
  - intros from till r Hin. rewrite Forall_forall in Hc. by apply Hc in Hin as [_ ?].
  - intros n s' Hn. clear -Hn. induction Hn as [s|n s s1 s2 Hw Hn IH]; [lia|]. apply work_total in Hw. lia.
  - intros Hstuck. destruct (work_enabled p0 s Hinv) as [?|[s' Hw]]; [done|]. by destruct (Hstuck s').
Qed.

Module Witness.
Definition p : OAuth2AuthProvider := mkOAuth2 (mkOAuth2Config "https://idp/token" "id" "secret" [] "") "" 0.

(** Two requests find no token and share one flight; a third, after it, uses
    the token it left. *)
Lemma shared_flight : ∃ s, rtc step (start p 0) s ∧
  callers s = [Returned 0 7 (Ok "t1"); Returned 0 7 (Ok "t1"); Returned 7 7 (Ok "t1")] ∧
  log s = [Answered 7 (Issued "t1" 3600); Posted 0].
Proof.
  eexists. split.
  { eapply rtc_l; [apply s_get|]. eapply rtc_l; [apply s_get|]. cbn.
    eapply rtc_l; [apply s_work, (w_stale _ _ [] 0 [Checking 0]); reflexivity|].
    eapply rtc_l; [apply s_work, (w_stale _ _ [Wanting 0] 0 []); reflexivity|].
    eapply rtc_l; [apply s_work, (w_lead _ [] 0 [Wanting 0])|].
    eapply rtc_l; [apply s_work, w_post; reflexivity|].
    eapply rtc_l; [apply s_work, (w_join _ _ [Waiting 0] 0 [])|].
    eapply rtc_l; [apply (s_tick _ 7); cbn; lia|]. cbn.
    eapply rtc_l; [apply s_work, (w_answer _ _ _ _ _ (Issued "t1" 3600))|].
    eapply rtc_l; [apply s_work, w_land|]. cbn.
    eapply rtc_l; [apply s_get|]. cbn.
    eapply rtc_l; [apply s_work, (w_hit _ _ [Returned 0 7 (Ok "t1"); Returned 0 7 (Ok "t1")] 7 []); reflexivity|].
    apply rtc_refl. }
  done.
Qed.

Lemma token_flights_witness : ∃ s, rtc step (start p 0) s ∧ Returned 7 7 (Ok "t1") ∈ callers s ∧
  serial (log s) ∧ accounted p (log s) 7 7 (Ok "t1").
Proof.
  destruct shared_flight as (s & Hrun & Hc & _). exists s.
  destruct (token_flights p 0 s Hrun) as (Hs & _ & _ & Ha & _).
  assert (Hin : Returned 7 7 (Ok "t1") ∈ callers s) by (rewrite Hc; set_solver).
  split; [exact Hrun|]. split; [exact Hin|]. split; [exact Hs|]. exact (Ha 7 7 (Ok "t1") Hin).
Defined.

(** The request to the endpoint runs under the leader's context: when that
    ends, everyone who joined the flight fails with it. *)
Lemma leader_fails_joiners : ∃ s, rtc step (start p 0) s ∧
  callers s = [Returned 0 1 (Err "transport"); Returned 0 1 (Err "transport")].
Proof.
  eexists. split.
  { eapply rtc_l; [apply s_refresh|]. eapply rtc_l; [apply s_refresh|]. cbn.
    eapply rtc_l; [apply s_work, (w_lead _ [] 0 [Wanting 0])|].
    eapply rtc_l; [apply s_work, w_post; reflexivity|].
    eapply rtc_l; [apply s_work, (w_join _ _ [Waiting 0] 0 [])|].
    eapply rtc_l; [apply (s_tick _ 1); cbn; lia|]. cbn.
    eapply rtc_l; [apply s_work, (w_answer _ _ _ _ _ TransportError)|].
    eapply rtc_l; [apply s_work, w_land|]. apply rtc_refl. }
  done.
Qed.
End Witness.
End TokenFlight.
