(* ===== verification/OriginClient.v ===== *)
(** * The client of an origin ([internal/federation/origin.go])

    Construction, the requests sent to one origin, the bounded decoding of
    its answers, and the cache of discovered collections.

    Parameters: URL parsing and reference resolution, what the network
    answers to a request ([wire], which stands for the breaker, the retry
    layer and the connection, and is opened up in [Transport]), and the JSON decoders, which report how many
    bytes they pulled from their reader.  [http.Client.Do] is modelled with
    the redirects it follows. *)

From S2P Require Import Prelude GoLib Breaker Stac Cursor PageAdapter Router Httpx Middleware Query OriginAuth.
From Stdlib Require Import Ascii.
Import Strings Values Stac Middleware OriginAuth.

Module OriginClient.

(** ** Configuration and construction *)

Record BreakerPolicy := mkBreakerPolicy {
  Disabled : bool; FailureThreshold : Z; OpenDuration : Z; MaxOpenDuration : Z; HalfOpenProbes : Z }.

Record RetryPolicy := mkRetryPolicy {
  rp_MaxRetries : Z; rp_InitialBackoff : Z; rp_MaxBackoff : Z; rp_RetryOn : list Z }.

(** [Origin]: the routing fields and the fields of the client. *)
Record OriginConfig := mkOriginConfig {
  oc_Origin : Router.Origin;
  oc_Auth : AuthConfig;
  oc_Retry : option RetryPolicy;
  oc_CircuitBreaker : option BreakerPolicy;
  oc_MaxIdleConnsPerHost : Z;
  oc_MaxResponseBytes : Z;
  oc_AssetSignTTL : Z;
  oc_AutoDiscover : bool;
  oc_Pagination : PageAdapter.Config;
}.

Definition defaultMaxResponseBytes : Z := Z.shiftl 32 20.

(** The layers of a transport, outermost first. *)
Inductive layer :=
| LBreaker (name : string) (cfg : Breaker.BreakerConfig)
| LAuth (a : AuthProvider)
| LRetry (cfg : Httpx.RetryConfig)
| LBase (maxIdle : Z).

Record OriginClient := mkClient {
  cl_origin : OriginConfig;
  cl_transport : list layer;
  cl_health : list layer;
  cl_auth : AuthProvider;
  cl_baseURL : URL.URL;
  cl_maxResponseBytes : Z;
  cl_collections : gmap string Collection;
  cl_lastDiscovery : option Z;
}.

Definition isNoop (a : AuthProvider) : bool := match a with NoOpAuthProvider => true | _ => false end.

(** No origin opts in to retrying methods that are not idempotent. *)
Definition retryConfigOf (r : option RetryPolicy) : Httpx.RetryConfig :=
  match r with
  | None => Httpx.mkRetryConfig 0 0 0 [] false
  | Some r => Httpx.mkRetryConfig (rp_MaxRetries r) (rp_InitialBackoff r) (rp_MaxBackoff r) (rp_RetryOn r) false
  end.

Definition breakerConfigOf (cb : option BreakerPolicy) : Breaker.BreakerConfig :=
  match cb with
  | None => Breaker.mkBreakerConfig 0 0 0 0
  | Some cb => Breaker.mkBreakerConfig (FailureThreshold cb) (OpenDuration cb) (MaxOpenDuration cb) (HalfOpenProbes cb)
  end.

Definition NewOriginClientWithContext `{!URL.GoURL} (o : OriginConfig) : result string OriginClient :=
  match URL.url_Parse (Router.o_BaseURL (oc_Origin o)) with
  | None => Err "invalid base URL"
  | Some baseURL =>
      let maxIdle := if (oc_MaxIdleConnsPerHost o <=? 0)%Z then 100%Z else oc_MaxIdleConnsPerHost o in
      let retry := [LRetry (retryConfigOf (oc_Retry o)); LBase maxIdle] in
      auth ← BuildAuthProvider (oc_Auth o);
      let probe := if isNoop auth then retry else LAuth auth :: retry in
      let enabled := match oc_CircuitBreaker o with None => true | Some cb => negb (Disabled cb) end in
      let rt :=
        if enabled then LBreaker (Router.o_ID (oc_Origin o)) (breakerConfigOf (oc_CircuitBreaker o)) :: probe
        else probe in
      let maxResp := if (oc_MaxResponseBytes o <=? 0)%Z then defaultMaxResponseBytes else oc_MaxResponseBytes o in
      Ok (mkClient o rt probe auth baseURL maxResp ∅ None)
  end.

(** ** Sending *)

(** [u.Parse(ref)]. *)
Class URLRef := { url_Resolve : URL.URL → string → option URL.URL }.

Section Send.
Context `{!URL.GoURL, !URLRef, !Crypto, !MapRange, !Signer}.
Variables (now now' : Z) (reply : tokenReply) (wire : outRequest → result string response).

(** One round trip: the request as it left, and the answer. *)
Definition hop (a : AuthProvider) (req : outRequest) : list outRequest * result string response :=
  match (ApplyAuth now now' reply a req).1 with
  | Err e => ([], Err e)
  | Ok req' => ([req'], wire req')
  end.

(** The request of a redirect: 301 to 303 turn a method other than HEAD
    into GET without a body, 307 and 308 repeat the request; other
    headers are those of the first request. *)
Definition redirect (initial req : outRequest) (resp : response) : option (result string outRequest) :=
  let again := existsb (Z.eqb (resp_Status resp)) [307; 308]%Z in
  if negb again && negb (existsb (Z.eqb (resp_Status resp)) [301; 302; 303]%Z) then None else
  let loc := Header.Get (resp_Header resp) "Location" in
  if String.eqb loc "" then None else
  match url_Resolve (out_URL req) loc with
  | None => Some (Err "failed to parse Location header")
  | Some u =>
      let method := if again then out_Method req
                    else if String.eqb (out_Method req) "HEAD" then "HEAD" else "GET" in
      Some (Ok (mkOut method u (out_Header initial) (if again then out_Body req else None)))
  end.

(** [http.Client.Do]: at most ten requests; with the requests sent. *)
Fixpoint follow (n : nat) (a : AuthProvider) (initial req : outRequest)
    : list outRequest * result string response :=
  let '(sent, r) := hop a req in
  match r with
  | Err e => (sent, Err e)
  | Ok resp =>
      match redirect initial req resp with
      | None => (sent, Ok resp)
      | Some (Err e) => (sent, Err e)
      | Some (Ok req') =>
          match n with
          | O => (sent, Err "stopped after 10 redirects")
          | S n => let '(more, r) := follow n a initial req' in (sent ++ more, r)
          end
      end
  end.

Definition Do (c : OriginClient) (req : outRequest) : list outRequest * result string response :=
  follow 9 (cl_auth c) req req.

Definition acceptJSON : string := "application/geo+json, application/json".

(** [ForwardRequestID]: the ID of the request context, empty when it has
    none. *)
Definition ForwardRequestID (rid : string) (req : outRequest) : outRequest :=
  if String.eqb rid "" then req else setHeader "X-Request-ID" rid req.

(** The path is a suffix of the base path. *)
Definition requestURL (base : URL.URL) (path : string) : URL.URL :=
  URL.mkURL (URL.Scheme base) (URL.Host base)
    (TrimSuffixSlash (URL.Path base) +:+ "/" +:+ TrimPrefix path "/") (URL.RawQuery base).

Definition originRequest (c : OriginClient) (rid method path : string) (body : option bytes) : outRequest :=
  let req := mkOut method (requestURL (cl_baseURL c) path) ∅ body in
  let req := setHeader "Accept" acceptJSON req in
  let req := match body with None => req | Some _ => setHeader "Content-Type" "application/json" req end in
  ForwardRequestID rid req.

Definition DoRequest (c : OriginClient) (rid method path : string) (body : option bytes)
    : list outRequest * result string response :=
  Do c (originRequest c rid method path body).

(** ** Bounded decoding *)

(** A streaming decoder: its result on the bytes it can get, and how many it
    pulled. *)
Record decoder (A : Type) := mkDecoder {
  dec : bytes → option A * Z;
  dec_pulled : ∀ b, (0 ≤ (dec b).2 ≤ Httpx.blen b)%Z;
}.
Arguments dec {A} _ _.

Inductive clientError :=
| Transport (e : string)
| StatusError (code : Z)
| TooLarge (max : Z)
| ParseFailed
| NotRootedAtBase (url : string)
| MarshalFailed.

Definition decodeCapped {A} (d : decoder A) (c : OriginClient) (body : bytes) : result clientError A :=
  let max := cl_maxResponseBytes c in
  let '(v, n) := dec d (Httpx.take_bytes (Z.to_nat (max + 1)) body) in
  match v with
  | None => if (max <? n)%Z then Err (TooLarge max) else Err ParseFailed
  | Some v => if (max <? n)%Z then Err (TooLarge max) else Ok v
  end.

(** ** Search *)

Context {FC : Type} (decodeFC : decoder FC) (decodeColls : decoder (list (option Collection)))
  (decodeColl : decoder Collection) (decodeItem : decoder Item)
  (searchJSON : option SearchRequest → option bytes).

Definition urlRootedAtBase (fullURL : string) (base : URL.URL) : bool :=
  if String.eqb fullURL "" then false else
  match URL.url_Parse fullURL with
  | None => false
  | Some u =>
      URL.IsAbs u && EqualFold (URL.Scheme u) (URL.Scheme base) && EqualFold (URL.Host u) (URL.Host base) &&
      HasPrefix (URL.Path u) (TrimSuffixSlash (URL.Path base))
  end.

(** The shared tail of the searches. *)
Definition readFC (c : OriginClient) (r : list outRequest * result string response)
    : list outRequest * result clientError (FC * Header.header) :=
  (r.1, match r.2 with
        | Err e => Err (Transport e)
        | Ok resp =>
            if negb (resp_Status resp =? 200)%Z then Err (StatusError (resp_Status resp)) else
            fc ← decodeCapped decodeFC c (resp_Body resp); Ok (fc, resp_Header resp)
        end).

(** [searchByURL] and [searchByPOST]: a captured link, replayed. *)
Definition searchByLink (c : OriginClient) (rid fullURL : string) (body : option bytes)
    : list outRequest * result clientError (FC * Header.header) :=
  if negb (urlRootedAtBase fullURL (cl_baseURL c)) then ([], Err (NotRootedAtBase fullURL)) else
  match URL.url_Parse fullURL with
  | None => ([], Err (Transport "parse"))
  | Some u =>
      let req := mkOut (match body with None => "GET" | Some _ => "POST" end) u ∅ body in
      let req := setHeader "Accept" acceptJSON req in
      let req := match body with None => req | Some _ => setHeader "Content-Type" "application/json" req end in
      readFC c (Do c (ForwardRequestID rid req))
  end.

Definition searchByURL (c : OriginClient) (rid fullURL : string) := searchByLink c rid fullURL None.
Definition searchByPOST (c : OriginClient) (rid fullURL : string) (body : bytes) := searchByLink c rid fullURL (Some body).

Definition Search (c : OriginClient) (rid : string) (req : option SearchRequest)
    : list outRequest * result clientError (FC * Header.header) :=
  let plain :=
    match searchJSON req with
    | None => ([], Err MarshalFailed)
    | Some body => readFC c (DoRequest c rid "POST" "/search" (Some body))
    end in
  match req with
  | Some sr =>
      if String.eqb (OverrideURL sr) "" then plain
      else if String.eqb (OverrideBody sr) "" then searchByURL c rid (OverrideURL sr)
      else searchByPOST c rid (OverrideURL sr) (OverrideBody sr)
  | None => plain
  end.

(** ** Collections and items *)

Definition getJSON {A} (d : decoder A) (c : OriginClient) (rid path : string) : result clientError (option A) :=
  match (DoRequest c rid "GET" path None).2 with
  | Err e => Err (Transport e)
  | Ok resp =>
      if (resp_Status resp =? 404)%Z then Ok None
      else if negb (resp_Status resp =? 200)%Z then Err (StatusError (resp_Status resp))
      else v ← decodeCapped d c (resp_Body resp); Ok (Some v)
  end.

Definition GetCollection (c : OriginClient) (rid collectionID : string) : result clientError (option Collection) :=
  getJSON decodeColl c rid ("/collections/" +:+ collectionID).
Definition GetItem (c : OriginClient) (rid collectionID itemID : string) : result clientError (option Item) :=
  getJSON decodeItem c rid ("/collections/" +:+ collectionID +:+ "/items/" +:+ itemID).

(** Unlike the two above, a 404 is an error here. *)
Definition GetCollections (c : OriginClient) (rid : string) : result clientError (list (option Collection)) :=
  match (DoRequest c rid "GET" "/collections" None).2 with
  | Err e => Err (Transport e)
  | Ok resp =>
      if negb (resp_Status resp =? 200)%Z then Err (StatusError (resp_Status resp))
      else decodeCapped decodeColls c (resp_Body resp)
  end.

(** ** Discovery *)

Definition addDiscovered (m : gmap string Collection) (c : option Collection) : gmap string Collection :=
  match c with None => m | Some coll => <[CollID coll := coll]> m end.

Definition withDiscovered (m : gmap string Collection) (at_ : Z) (c : OriginClient) : OriginClient :=
  mkClient (cl_origin c) (cl_transport c) (cl_health c) (cl_auth c) (cl_baseURL c) (cl_maxResponseBytes c) m (Some at_).

Definition DiscoverCollections (c : OriginClient) : result clientError unit * OriginClient :=
  match GetCollections c "" with
  | Err e => (Err e, c)
  | Ok colls => (Ok (), withDiscovered (foldl addDiscovered ∅ colls) now' c)
  end.

Definition CachedCollections (c : OriginClient) : list string := (range (cl_collections c)).*1.

Definition HasCollection (c : OriginClient) (collectionID : string) : bool :=
  let o := oc_Origin (cl_origin c) in
  match Router.o_Collections o with
  | [] =>
      if existsb (String.eqb collectionID) (Router.o_ExcludeCollections o) then false
      else bool_decide (is_Some (cl_collections c !! collectionID))
  | ids => existsb (String.eqb collectionID) ids
  end.

(** ** Lemmas *)

(** Scheme and host of the base up to case, and a path that starts with the
    characters of the base path.  That is a comparison of strings: a sibling
    such as [/stac-private] starts with [/stac] ([sibling_path_rooted]). *)
Definition startsAtBase (base u : URL.URL) : Prop :=
  EqualFold (URL.Scheme u) (URL.Scheme base) = true ∧ EqualFold (URL.Host u) (URL.Host base) = true ∧
  ∃ rest, URL.Path u = TrimSuffixSlash (URL.Path base) +:+ rest.

Lemma follow_length n a initial req : length (follow n a initial req).1 ≤ S n.
Proof.
  revert req. induction n as [|n IH]; intros req; cbn; unfold hop;
    destruct (ApplyAuth _ _ _ _ _) as [[r1|] p1]; cbn; try lia;
    destruct (wire r1) as [resp|]; cbn; try lia; destruct (redirect _ _ _) as [[r2|]|]; cbn; try lia.
  specialize (IH r2). destruct (follow n a initial r2). cbn in *. lia.
Qed.

(** The first request sent is the one asked for, with credentials. *)
Lemma follow_head n a initial req r rest :
  (follow n a initial req).1 = r :: rest → sameDest req r.
Proof.
  intros Hf. assert (Hh : ∃ p1, ApplyAuth now now' reply a req = (Ok r, p1)).
  { destruct n; cbn in Hf; unfold hop in Hf; destruct (ApplyAuth _ _ _ _ _) as [[r1|] p1]; cbn in Hf; try done;
      destruct (wire r1); cbn in Hf; try (injection Hf as ->; by eexists);
      destruct (redirect _ _ _) as [[r2|]|]; cbn in Hf; try (injection Hf as ->; by eexists).
    destruct (follow n a initial r2). injection Hf as -> _. by eexists. }
  destruct Hh as [p1 Hp]. apply (ApplyAuth_dest now now' reply a). by rewrite Hp.
Qed.

(** Without redirects there is one request. *)
Lemma follow_single n a initial req :
  (∀ r resp, wire r = Ok resp → ¬ (300 ≤ resp_Status resp < 400)%Z) →
  length (follow n a initial req).1 ≤ 1.
Proof.
  intros Hw. destruct n; cbn; unfold hop; destruct (ApplyAuth _ _ _ _ _) as [[r1|] p1]; cbn; try lia;
    destruct (wire r1) as [resp|] eqn:E; cbn; try lia; apply Hw in E;
    (assert (redirect initial req resp = None) as ->; [|cbn; lia]); unfold redirect;
    destruct (existsb (Z.eqb (resp_Status resp)) [307; 308]%Z) eqn:E1;
    destruct (existsb (Z.eqb (resp_Status resp)) [301; 302; 303]%Z) eqn:E2; cbn; try done;
    repeat match goal with Hx : existsb _ _ = true |- _ => apply existsb_exists in Hx as (? & ? & ?); bool_to_prop end;
    cbn in *; lia.
Qed.

Lemma decodeCapped_Ok {A} (d : decoder A) c body v :
  decodeCapped d c body = Ok v →
  let seen := Httpx.take_bytes (Z.to_nat (cl_maxResponseBytes c + 1)) body in
  (dec d seen).1 = Some v ∧ ((dec d seen).2 ≤ cl_maxResponseBytes c)%Z.
Proof.
  unfold decodeCapped. destruct (dec d _) as [[v'|] n]; cbn; destruct (Z.ltb_spec (cl_maxResponseBytes c) n); try done.
  intros [= ->]. done.
Qed.

Lemma foldl_discovered colls m id :
  is_Some (foldl addDiscovered m colls !! id) ↔ is_Some (m !! id) ∨ ∃ c, Some c ∈ colls ∧ CollID c = id.
Proof.
  revert m. induction colls as [|c colls IH]; intros m; cbn [foldl]; [set_solver|]. rewrite IH.
  destruct c as [c|]; cbn [addDiscovered]; [|set_solver].
  destruct (decide (CollID c = id)) as [<-|Hne].
  - rewrite lookup_insert_eq. split; [intros _; right; exists c; set_solver|intros _; left; by eexists].
  - rewrite lookup_insert_ne by done. set_solver.
Qed.

Lemma urlRootedAtBase_starts url base : urlRootedAtBase url base = true →
  ∃ u, URL.url_Parse url = Some u ∧ startsAtBase base u.
Proof.
  unfold urlRootedAtBase. destruct (String.eqb url ""); [done|]. destruct (URL.url_Parse url) as [u|]; [|done].
  intros Hu. exists u. unfold startsAtBase. bool_to_prop. split_and!; try done. by apply HasPrefix_spec.
Qed.

(** What [Do] sends: the request, then redirects. *)
Lemma Do_sends c req :
  length (Do c req).1 ≤ 10 ∧
  match (Do c req).1 with q :: _ => sameDest req q | [] => True end ∧
  ((∀ q resp, wire q = Ok resp → ¬ (300 ≤ resp_Status resp < 400)%Z) → length (Do c req).1 ≤ 1).
Proof.
  unfold Do. split_and!; [apply (follow_length 9)| |by apply follow_single].
  destruct (follow 9 _ _ _).1 as [|q rest] eqn:Ef; [done|]. by eapply follow_head.
Qed.

Lemma ForwardRequestID_dest rid q : sameDest q (ForwardRequestID rid q).
Proof. unfold ForwardRequestID. by destruct (String.eqb rid ""). Qed.

(** ** Properties *)

(** The next-page link a search carries. *)
Definition linkOf (req : option SearchRequest) : string := match req with Some sr => OverrideURL sr | None => "" end.

(** The request a search is sent as, up to headers and query: a POST of it to
    the search endpoint of the base, or the link it carries, replayed. *)
Definition searchRequest (base : URL.URL) (req : option SearchRequest) (q : outRequest) : Prop :=
  match req with
  | Some sr =>
      if String.eqb (OverrideURL sr) ""
      then sameDest (mkOut "POST" (URL.mkURL (URL.Scheme base) (URL.Host base)
             (TrimSuffixSlash (URL.Path base) +:+ "/search") "") ∅ (searchJSON req)) q
      else ∃ u, URL.url_Parse (OverrideURL sr) = Some u ∧ startsAtBase base u ∧
             sameDest (if String.eqb (OverrideBody sr) "" then mkOut "GET" u ∅ None
                       else mkOut "POST" u ∅ (Some (OverrideBody sr))) q
  | None => sameDest (mkOut "POST" (URL.mkURL (URL.Scheme base) (URL.Host base)
             (TrimSuffixSlash (URL.Path base) +:+ "/search") "") ∅ (searchJSON req)) q
  end.

Lemma searchByLink_sends c rid url body :
  let '(sent, r) := searchByLink c rid url body in
  length sent ≤ 10 ∧
  match sent with
  | q :: _ => ∃ u, URL.url_Parse url = Some u ∧ startsAtBase (cl_baseURL c) u ∧
      sameDest (mkOut (match body with None => "GET" | Some _ => "POST" end) u ∅ body) q
  | [] => True
  end ∧
  (¬ (∃ u, URL.url_Parse url = Some u ∧ startsAtBase (cl_baseURL c) u) → sent = [] ∧ r = Err (NotRootedAtBase url)) ∧
  ((∀ q resp, wire q = Ok resp → ¬ (300 ≤ resp_Status resp < 400)%Z) → length sent ≤ 1).
Proof.
  unfold searchByLink. destruct (urlRootedAtBase url (cl_baseURL c)) eqn:Er; cbn [negb]; [|split_and!; cbn; try done; lia].
  destruct (urlRootedAtBase_starts _ _ Er) as (u & Hp & Hu). rewrite Hp. unfold readFC.
  match goal with |- context [Do c ?q] => destruct (Do_sends c q) as (Hs1 & Hs2 & Hs3);
    assert (sameDest (mkOut (match body with None => "GET" | Some _ => "POST" end) u ∅ body) q) as Hq
      by (etrans; [|apply ForwardRequestID_dest]; by destruct body) end.
  split_and!; [done| | |done].
  - destruct (Do c _).1 as [|q rest]; [done|]. exists u. split_and!; [done|done|]. by etrans.
  - intros Hn. destruct Hn. by exists u.
Qed.

Lemma plain_sends c rid body :
  let sent := (DoRequest c rid "POST" "/search" (Some body)).1 in
  length sent ≤ 10 ∧
  match sent with
  | q :: _ => sameDest (mkOut "POST" (URL.mkURL (URL.Scheme (cl_baseURL c)) (URL.Host (cl_baseURL c))
                (TrimSuffixSlash (URL.Path (cl_baseURL c)) +:+ "/search") "") ∅ (Some body)) q
  | [] => True
  end ∧
  ((∀ q resp, wire q = Ok resp → ¬ (300 ≤ resp_Status resp < 400)%Z) → length sent ≤ 1).
Proof.
  cbv zeta. unfold DoRequest. destruct (Do_sends c (originRequest c rid "POST" "/search" (Some body))) as (Hs1 & Hs2 & Hs3).
  split_and!; [done| |done]. destruct (Do c _).1 as [|q rest]; [done|]. etrans; [|exact Hs2].
  unfold originRequest, ForwardRequestID. by destruct (String.eqb rid "").
Qed.

(** C21: A search goes to its origin: the first request sent is a POST of the
    search to the search endpoint of the base URL, or, when the cursor
    carries a next-page link, that link replayed, and then the link has the
    scheme and host of the base URL (up to case) and a path that starts with
    the characters of its path (a string prefix, without a segment boundary:
    [sibling_path_rooted]); any other link is refused before anything is
    sent.  The client hands at most ten requests to its transport, redirects
    included, and one if it sees no redirect. *)
Theorem search_contained c rid req :
  let base := cl_baseURL c in
  let '(sent, r) := Search c rid req in
  length sent ≤ 10 ∧
  match sent with q :: _ => searchRequest base req q | [] => True end ∧
  (linkOf req ≠ "" → ¬ (∃ u, URL.url_Parse (linkOf req) = Some u ∧ startsAtBase base u) →
     sent = [] ∧ r = Err (NotRootedAtBase (linkOf req))) ∧
  ((∀ q resp, wire q = Ok resp → ¬ (300 ≤ resp_Status resp < 400)%Z) → length sent ≤ 1).
Proof.
  cbv zeta. unfold Search, searchRequest, linkOf.
  destruct req as [sr|]; [destruct (String.eqb_spec (OverrideURL sr) "") as [Hn|Hn]|].
  - destruct (searchJSON _) as [body|]; [|by split_and!; cbn; (lia || done)].
    destruct (plain_sends c rid body) as (Hs1 & Hs2 & Hs3). by split_and!.
  - destruct (String.eqb (OverrideBody sr) "");
      [pose proof (searchByLink_sends c rid (OverrideURL sr) None) as Hl|
       pose proof (searchByLink_sends c rid (OverrideURL sr) (Some (OverrideBody sr))) as Hl];
      unfold searchByURL, searchByPOST; destruct (searchByLink _ _ _ _) as [sent r]; destruct Hl as (Hs1 & Hs2 & Hs3 & Hs4);
      by split_and!; auto.
  - destruct (searchJSON _) as [body|]; [|by split_and!; cbn; (lia || done)].
    destruct (plain_sends c rid body) as (Hs1 & Hs2 & Hs3). by split_and!.
Qed.

(** A body larger than the cap is never decoded: a result came out of a
    decoder that pulled at most the configured number of bytes, and the
    configured number is positive. *)
Theorem decode_bounded {A} (d : decoder A) o c body v :
  NewOriginClientWithContext o = Ok c → decodeCapped d c body = Ok v →
  (0 < cl_maxResponseBytes c)%Z ∧
  let seen := Httpx.take_bytes (Z.to_nat (cl_maxResponseBytes c + 1)) body in
  (dec d seen).1 = Some v ∧ ((dec d seen).2 ≤ cl_maxResponseBytes c)%Z.
Proof.
  intros Hn Hd. split; [|by apply decodeCapped_Ok].
  unfold NewOriginClientWithContext in Hn. destruct (URL.url_Parse _); [|done].
  destruct (BuildAuthProvider _); [|done]. injection Hn as <-. cbn [cl_maxResponseBytes].
  destruct (Z.leb_spec (oc_MaxResponseBytes o) 0); [done|lia].
Qed.

(** Discovery fills the cache the membership test reads. *)
Lemma discover_has c c' colls id :
  GetCollections c "" = Ok colls → DiscoverCollections c = (Ok (), c') →
  Router.o_Collections (oc_Origin (cl_origin c)) = [] →
  HasCollection c' id = true ↔
  ((id ∉ Router.o_ExcludeCollections (oc_Origin (cl_origin c))) ∧ ∃ coll, Some coll ∈ colls ∧ CollID coll = id).
Proof.
  unfold DiscoverCollections. intros -> [= <-] Hn. unfold HasCollection. cbn. rewrite Hn.
  destruct (existsb _ _) eqn:Ex.
  - apply existsb_exists in Ex as (x & Hx & ->%String.eqb_eq). split; [done|]. intros [Hni _]. by apply list_elem_of_In in Hx.
  - rewrite bool_decide_eq_true, foldl_discovered, lookup_empty. split.
    + intros [[? ?]|Hc]; [done|]. split; [|done]. intros Hin%list_elem_of_In.
      enough (existsb (String.eqb id) (Router.o_ExcludeCollections (oc_Origin (cl_origin c))) = true) by congruence.
      apply existsb_exists. exists id. split; [done|apply String.eqb_refl].
    + intros [_ Hc]. by right.
Qed.

End Send.

Module Witness.

#[local] Existing Instance URL.PlainURL.
#[local] Instance toyRef : URLRef := {| url_Resolve _ s := URL.parsePlain s |}.
#[local] Instance toyCrypto : Crypto := {| sha256 s := s; hmac_sha256 k m := k +:+ m |}.
#[local] Instance toySigner : Signer.
Proof. refine {| SignHTTP _ _ _ _ _ _ r := Ok r |}. intros ak sk h svc reg t r r' Hr. injection Hr as <-. done. Defined.

Definition origin : Router.Origin :=
  Router.mkOrigin "a" "https://a.example/stac/" true [] [] 0 false true "" false false false ∅ "".
Definition config (auth : string) : OriginConfig :=
  mkOriginConfig origin (mkAuthConfig auth "" "" "tok" "" "" false None None ∅) None None 0 1000 0 false (PageAdapter.mkConfig "" "" "").
Definition client (auth : string) : OriginClient :=
  let a := if String.eqb auth "bearer" then BearerAuthProvider "tok" else NoOpAuthProvider in
  let retry := [LRetry (Httpx.mkRetryConfig 0 0 0 [] false); LBase 100] in
  let probe := if isNoop a then retry else LAuth a :: retry in
  mkClient (config auth) (LBreaker "a" (Breaker.mkBreakerConfig 0 0 0 0) :: probe) probe a
    (URL.mkURL "https" "a.example" "/stac/" "") 1000 ∅ None.

(** The probes bypass the breaker the requests go through. *)
Lemma client_new : NewOriginClientWithContext (config "bearer") = Ok (client "bearer").
Proof. vm_compute. reflexivity. Qed.

(** The whole body, or nothing when it is empty. *)
Definition wholeDecoder : decoder bytes.
Proof.
  refine (mkDecoder _ (λ b, (if String.eqb b "" then None else Some b, Httpx.blen b)) _).
  intros b. cbn. unfold Httpx.blen. lia.
Defined.

Definition small (auth : string) : OriginClient :=
  mkClient (cl_origin (client auth)) [] [] (cl_auth (client auth)) (cl_baseURL (client auth)) 4 ∅ None.

Lemma decode_bounded_witness :
  decodeCapped wholeDecoder (small "none") "12345" = Err (TooLarge 4) ∧
  decodeCapped wholeDecoder (client "none") "12345" = Ok "12345" ∧
  (0 < cl_maxResponseBytes (client "none"))%Z.
Proof.
  split; [vm_compute; reflexivity|]. split; [vm_compute; reflexivity|].
  refine (proj1 (decode_bounded wholeDecoder (config "none") (client "none") "12345" "12345" _ _));
    vm_compute; reflexivity.
Defined.

(** An origin that redirects gets its credentials sent to another host:
    they are attached below the client that follows the redirect. *)
Definition hijack (r : outRequest) : result string response :=
  if String.eqb (URL.Host (out_URL r)) "a.example"
  then Ok (mkResponse 302 (Header.Set_ "Location" "https://evil.example/x" ∅) "")
  else Ok (mkResponse 200 ∅ "{}").

Lemma redirect_leaks_credentials :
  ((λ q, (URL.Host (out_URL q), Header.Get (out_Header q) "Authorization")) <$>
     (Search 0 0 TransportError hijack wholeDecoder (λ _, Some "{}") (client "bearer") "" None).1) =
  [("a.example", "Bearer tok"); ("evil.example", "Bearer tok")].
Proof. vm_compute. reflexivity. Qed.

(** The path test has no segment boundary: a sibling of the base path
    passes, and so do parent directories. *)
Lemma sibling_path_rooted :
  urlRootedAtBase "https://a.example/stac-private/search" (URL.mkURL "https" "a.example" "/stac/" "") = true ∧
  urlRootedAtBase "https://a.example/stac/../admin" (URL.mkURL "https" "a.example" "/stac/" "") = true.
Proof. vm_compute. done. Qed.

End Witness.

End OriginClient.
