(* ===== verification/Transport.v ===== *)
(** * The transport of an origin ([internal/httpx/transport.go],
      [authRoundTripper] in [internal/federation/auth_providers.go], and the
      stack [NewOriginClientWithContext] builds in
      [internal/federation/origin.go])

    One request through the breaker, the credentials and the retry layer,
    down to the exchanges on the network.  The layers are the ones the client
    was built with; the breaker, the credentials and the network carry state
    from one exchange to the next.

    [hashicorp/go-retryablehttp] is a parameter ([Retryable]) with the
    documented contract of its [Do]; [net/http]'s client is modelled with the
    redirects it follows and the headers it withholds from another domain
    (not the [Referer] it adds).  The retry layer sends through a client of
    its own, so that redirects of a retried request are followed below the
    credentials. *)

From S2P Require Import Prelude GoLib Breaker Stac Cursor PageAdapter Router Httpx Middleware Query OriginAuth OriginClient.
From Stdlib Require Import Ascii.
Import Strings Values Stac Middleware OriginAuth OriginClient.

Module Transport.
#[local] Open Scope Z_scope.

(** ** Bodies *)

(** A request body: what reading it to the end gives, and closing it. *)
Record reader := mkReader { rd_All : result string bytes; rd_Close : option string }.

(** The bytes that [Body] and every [GetBody] then read, and the
    [ContentLength]. *)
Definition BufferAndSetGetBody (body : option reader) : result string (option (bytes * Z)) :=
  match body with
  | None => Ok None
  | Some r =>
      match rd_All r with
      | Err e => Err ("buffer request body: " +:+ e)
      | Ok b => match rd_Close r with
                | Some e => Err ("close request body: " +:+ e)
                | None => Ok (Some (b, Httpx.blen b))
                end
      end
  end.

(** ** Exchanges *)

Inductive transportError := Canceled | Failed (e : string).
Abbreviation answer := (result transportError response).

Definition statusOf (a : answer) : option Z := match a with Ok r => Some (resp_Status r) | Err _ => None end.
Definition errOf (a : answer) : option Breaker.roundTripError :=
  match a with Ok _ => None | Err Canceled => Some Breaker.ErrCanceled | Err (Failed _) => Some Breaker.ErrTransport end.

(** What the stack runs in: the connection, the clock, the random source,
    the token endpoint with the time its reply is read, the request's
    context, and a timer that the context may interrupt. *)
Class World (W : Type) := {
  w_exchange : outRequest → W → answer * W;
  w_now : W → Z;
  w_draw : W → Z;
  w_token : W → tokenReply * Z;
  w_ctxErr : W → option transportError;
  w_sleep : Z → W → option transportError * W;
}.

(** ** [http.Client.Do] *)

Definition sensitiveHeaders : list string :=
  ["Authorization"; "Www-Authenticate"; "Cookie"; "Cookie2"; "Proxy-Authorization"; "Proxy-Authenticate"].

(** The host without its port, in lower case. *)
Definition hostname (u : URL.URL) : string := ToLower (URL.break ":" (URL.Host u)).1.

Fixpoint hasSuffix (s p : string) : bool :=
  String.eqb s p || match s with EmptyString => false | String _ s => hasSuffix s p end.

Definition isDomainOrSubdomain (sub parent : string) : bool := String.eqb sub parent || hasSuffix sub ("." +:+ parent).

Section HTTPClient.
Context `{!URL.GoURL, !URLRef} {S : Type}.
Variable rt : outRequest → S → answer * S.

(** The next request of a redirect; once the redirects have left the domain
    of the first request, the sensitive headers stay behind. *)
Definition nextRequest (initial req : outRequest) (away : bool) (resp : response) : option (result string (outRequest * bool)) :=
  match redirect initial req resp with
  | None => None
  | Some (Err e) => Some (Err e)
  | Some (Ok r) =>
      let away := away || (negb (String.eqb (URL.Host (out_URL initial)) (URL.Host (out_URL r))) &&
                           negb (isDomainOrSubdomain (hostname (out_URL r)) (hostname (out_URL initial)))) in
      Some (Ok (if away then mkOut (out_Method r) (out_URL r) (foldr Header.Del (out_Header r) sensitiveHeaders) (out_Body r) else r, away))
  end.

Fixpoint following (n : nat) (initial req : outRequest) (away : bool) (s : S) : answer * S :=
  let '(a, s) := rt req s in
  match a with
  | Err e => (Err e, s)
  | Ok resp =>
      match nextRequest initial req away resp with
      | None => (Ok resp, s)
      | Some (Err e) => (Err (Failed e), s)
      | Some (Ok (req', away)) =>
          match n with
          | O => (Err (Failed "stopped after 10 redirects"), s)
          | Datatypes.S n => following n initial req' away s
          end
      end
  end.

Definition clientDo (req : outRequest) (s : S) : answer * S := following 9 req req false s.
End HTTPClient.

(** ** Retries *)

(** The fields [NewRetryTransport] sets. *)
Record retryClient (S : Type) := mkRetryClient {
  rc_Do : outRequest → S → answer * S;                            (* HTTPClient.Do *)
  rc_RetryMax : Z;
  rc_RetryWaitMin : Z;
  rc_RetryWaitMax : Z;
  rc_CheckRetry : S → answer → result transportError bool;        (* with the request's context *)
  rc_Backoff : S → Z → Z → Z → option (Z * Header.header) → Z;
  rc_sleep : Z → S → option transportError * S;
}.
Arguments rc_Do {S}. Arguments rc_RetryMax {S}. Arguments rc_RetryWaitMin {S}. Arguments rc_RetryWaitMax {S}.
Arguments rc_CheckRetry {S}. Arguments rc_Backoff {S}. Arguments rc_sleep {S}. Arguments mkRetryClient {S}.

Definition replied (a : answer) : option (Z * Header.header) :=
  match a with Ok r => Some (resp_Status r, resp_Header r) | Err _ => None end.

(** The documented loop of the library's [Do], with the pass-through error
    handler: attempt, ask [CheckRetry], and while it says so and attempt [i]
    is not the last, wait and send the same request again. *)
Inductive attempts {S} (rc : retryClient S) (req : outRequest) : Z → S → answer → S → Prop :=
| att_final i s a s' : rc_Do rc req s = (a, s') → rc_CheckRetry rc s' a = Ok false → attempts rc req i s a s'
| att_context i s a s' e : rc_Do rc req s = (a, s') → rc_CheckRetry rc s' a = Err e → attempts rc req i s (Err e) s'
| att_spent i s a s' : rc_Do rc req s = (a, s') → rc_CheckRetry rc s' a = Ok true → rc_RetryMax rc ≤ i → attempts rc req i s a s'
| att_interrupted i s a s' e s'' : rc_Do rc req s = (a, s') → rc_CheckRetry rc s' a = Ok true → i < rc_RetryMax rc →
    rc_sleep rc (rc_Backoff rc s' (rc_RetryWaitMin rc) (rc_RetryWaitMax rc) i (replied a)) s' = (Some e, s'') →
    attempts rc req i s (Err e) s''
| att_again i s a s' s'' a' t : rc_Do rc req s = (a, s') → rc_CheckRetry rc s' a = Ok true → i < rc_RetryMax rc →
    rc_sleep rc (rc_Backoff rc s' (rc_RetryWaitMin rc) (rc_RetryWaitMax rc) i (replied a)) s' = (None, s'') →
    attempts rc req (i + 1) s'' a' t → attempts rc req i s a' t.

Class Retryable := {
  DefaultBackoff : Z → Z → Z → option (Z * Header.header) → Z;
  retry_Do : ∀ {S}, retryClient S → outRequest → S → answer * S;
  retry_Do_attempts : ∀ S (rc : retryClient S) req s,
    attempts rc req 0 s (retry_Do rc req s).1 (retry_Do rc req s).2;
}.

(** ** The stack *)

Section Stack.
Context `{!URL.GoURL, !URLRef, !Crypto, !MapRange, !Signer, !Retryable, HW : !World W}.

Record conn := mkConn {
  cn_breaker : Breaker.BreakerTransport;
  cn_auth : AuthProvider;
  cn_world : W;
  cn_sent : list outRequest;           (* what went over the network *)
}.

Definition withWorld (w : W) (s : conn) : conn := mkConn (cn_breaker s) (cn_auth s) w (cn_sent s).

Definition exchange (req : outRequest) (s : conn) : answer * conn :=
  let '(a, w) := w_exchange req (cn_world s) in
  (a, mkConn (cn_breaker s) (cn_auth s) w (cn_sent s ++ [req])).

Definition sleep (d : Z) (s : conn) : option transportError * conn :=
  let '(e, w) := w_sleep d (cn_world s) in (e, withWorld w s).

(** [checkRetryFunc] with the context of the request. *)
Definition checkRetry (retryOn : list Z) (s : conn) (a : answer) : result transportError bool :=
  let ctx := w_ctxErr (cn_world s) in
  match Httpx.checkRetryFunc retryOn (bool_decide (is_Some ctx)) (statusOf a) with
  | Ok b => Ok b
  | Err _ => Err (default Canceled ctx)
  end.

Definition NewRetryTransport (inner : outRequest → conn → answer * conn) (cfg : Httpx.RetryConfig) (req : outRequest) (s : conn)
    : answer * conn :=
  let retry := retry_Do (mkRetryClient (clientDo inner) (Httpx.MaxRetries cfg) (Httpx.InitialBackoff cfg) (Httpx.MaxBackoff cfg)
    (checkRetry (Httpx.RetryOn cfg))
    (λ s min max i resp, Httpx.jitteredBackoff (DefaultBackoff min max i resp) (w_draw (cn_world s)) resp) sleep) in
  match Httpx.routeMethod cfg (out_Method req) with
  | Httpx.Direct => inner req s
  | Httpx.Retried => retry req s
  end.

Definition authRoundTrip (next : outRequest → conn → answer * conn) (req : outRequest) (s : conn) : answer * conn :=
  let w := cn_world s in
  let '(r, a) := ApplyAuth (w_now w) (w_token w).2 (w_token w).1 (cn_auth s) req in
  let s := mkConn (cn_breaker s) a w (cn_sent s) in
  match r with Err e => (Err (Failed e), s) | Ok req => next req s end.

Definition breakerRoundTrip (name : string) (next : outRequest → conn → answer * conn) (req : outRequest) (s : conn) : answer * conn :=
  match Breaker.admitRequest (w_now (cn_world s)) (cn_breaker s) with
  | (Err _, b) => (Err (Failed ("origin " +:+ name +:+ ": circuit breaker open")), mkConn b (cn_auth s) (cn_world s) (cn_sent s))
  | (Ok g, b) =>
      let '(a, s) := next req (mkConn b (cn_auth s) (cn_world s) (cn_sent s)) in
      let w := cn_world s in
      (a, mkConn (Breaker.record (w_now w) (w_draw w) g (statusOf a) (errOf a) (cn_breaker s)) (cn_auth s) w (cn_sent s))
  end.

Fixpoint RoundTrip (l : list layer) (req : outRequest) (s : conn) : answer * conn :=
  match l with
  | [] | LBase _ :: _ => exchange req s
  | LRetry cfg :: l => NewRetryTransport (RoundTrip l) cfg req s
  | LAuth _ :: l => authRoundTrip (RoundTrip l) req s
  | LBreaker name _ :: l => breakerRoundTrip name (RoundTrip l) req s
  end.

(** The state of a client that has sent nothing. *)
Definition dial (c : OriginClient) (w : W) : conn :=
  mkConn (Breaker.NewBreakerTransport (breakerConfigOf (oc_CircuitBreaker (cl_origin c)))) (cl_auth c) w [].

(** The state after some requests. *)
Definition after (c : OriginClient) (w : W) (reqs : list outRequest) : conn :=
  foldl (λ s r, (RoundTrip (cl_transport c) r s).2) (dial c w) reqs.

(** ** What goes over the network *)

(** No answer is a redirect. *)
Definition calm : Prop := ∀ q w resp, (w_exchange q w).1 = Ok resp → ¬ 300 ≤ resp_Status resp < 400.

(** Below the credentials: at least the request itself, at most [n] requests;
    the breaker and the credentials are left alone. *)
Record sends (n : nat) (same : Prop) (req : outRequest) (s s' : conn) : Prop := {
  sd_new : ∃ new, cn_sent s' = cn_sent s ++ req :: new ∧ (Datatypes.S (length new) ≤ n)%nat ∧ (same → Forall (eq req) new);
  sd_breaker : cn_breaker s' = cn_breaker s;
  sd_auth : cn_auth s' = cn_auth s;
}.

Lemma sends_again n m same req req' s s1 s2 : (same → req' = req) →
  sends n same req s s1 → sends m same req' s1 s2 → sends (n + m) same req s s2.
Proof.
  intros Heq [(l1 & E1 & Hl1 & Hs1) Hb1 Ha1] [(l2 & E2 & Hl2 & Hs2) Hb2 Ha2]. split; [|congruence..].
  exists (l1 ++ req' :: l2). split; [by rewrite E2, E1, <-app_assoc|]. split; [rewrite length_app; cbn; lia|].
  intros Hs. pose proof (Heq Hs) as ->. apply Forall_app. split; [auto|]. constructor; auto.
Qed.

Lemma sends_weaken n m same req s s' : (n ≤ m)%nat → sends n same req s s' → sends m same req s s'.
Proof. intros Hle [(l & E & Hl & Hs) Hb Ha]. split; [|done..]. exists l. split_and!; [done|lia|done]. Qed.

Lemma exchange_sends same req s : sends 1 same req s (exchange req s).2.
Proof. unfold exchange. destruct (w_exchange _ _). split; cbn; try done. exists []. cbn. by repeat split; auto. Qed.

Lemma following_sends n initial req away s : sends (Datatypes.S n) False req s (following exchange n initial req away s).2.
Proof.
  revert req away s. induction n as [|n IH]; intros req away s; cbn [following];
    pose proof (exchange_sends False req s) as He; destruct (exchange req s) as [[resp|e] s1]; cbn in He;
    try destruct (nextRequest _ _ _ _) as [[[req' away']|]|]; cbn; try done.
  all: try (eapply sends_weaken; [|exact He]; lia).
  apply (sends_again 1 (Datatypes.S n) _ req req' s s1); auto; done.
Qed.

Lemma clientDo_sends req s : sends 10 False req s (clientDo exchange req s).2.
Proof. apply (following_sends 9). Qed.

Lemma redirect_calm initial req resp : ¬ 300 ≤ resp_Status resp < 400 → redirect initial req resp = None.
Proof.
  intros Hr. unfold redirect.
  destruct (existsb (Z.eqb (resp_Status resp)) [307; 308]%Z) eqn:E1;
  destruct (existsb (Z.eqb (resp_Status resp)) [301; 302; 303]%Z) eqn:E2; cbn; try done;
  repeat match goal with Hx : existsb _ _ = true |- _ => apply existsb_exists in Hx as (? & ? & ?); bool_to_prop end;
  cbn in *; lia.
Qed.

Lemma clientDo_calm req s : calm → sends 1 True req s (clientDo exchange req s).2.
Proof.
  intros Hc. unfold clientDo. cbn [following].
  pose proof (exchange_sends True req s) as He. destruct (exchange req s) as [[resp|e] s1] eqn:Ee; cbn in He; [|done].
  assert (¬ 300 ≤ resp_Status resp < 400) as Hr.
  { unfold exchange in Ee. destruct (w_exchange req (cn_world s)) as [a w] eqn:Ew. injection Ee as -> _.
    apply (Hc req (cn_world s)). by rewrite Ew. }
  unfold nextRequest. by rewrite (redirect_calm req req resp Hr).
Qed.

(** A loop of attempts multiplies what one attempt sends. *)
Lemma attempts_sends h same (rc : retryClient conn) req i s a s' :
  (∀ s, sends h same req s (rc_Do rc req s).2) →
  (∀ d s, let s' := (rc_sleep rc d s).2 in
     cn_sent s' = cn_sent s ∧ cn_breaker s' = cn_breaker s ∧ cn_auth s' = cn_auth s) →
  attempts rc req i s a s' → sends (h * (1 + Z.to_nat (rc_RetryMax rc - i))) same req s s'.
Proof.
  intros Hdo Hsleep Hrun. induction Hrun as [i s a s' Hd|i s a s' e Hd|i s a s' Hd|i s a s' e s'' Hd ? Hi|i s a s' s'' a' t Hd ? Hi].
  all: pose proof (Hdo s) as Hs; rewrite Hd in Hs; cbn in Hs.
  1-3: eapply sends_weaken; [|exact Hs]; nia.
  all: match goal with Hx : rc_sleep _ ?d ?t = _ |- _ => pose proof (Hsleep d t) as Hq; rewrite Hx in Hq; cbn in Hq; destruct Hq as (Hq1 & Hq2 & Hq3) end.
  all: assert (sends h same req s s'') as Hs' by
    (destruct Hs as [(l & E & Hl & Hal) Hb Ha]; split; [exists l; by rewrite Hq1|congruence..]).
  - eapply sends_weaken; [|exact Hs']. nia.
  - assert ((h * (1 + Z.to_nat (rc_RetryMax rc - i)) = h + h * (1 + Z.to_nat (rc_RetryMax rc - (i + 1))))%nat) as -> by nia.
    by eapply sends_again.
Qed.

(** How often a request is sent, and how many requests each time takes. *)
Definition tries (cfg : Httpx.RetryConfig) (method : string) : nat :=
  match Httpx.routeMethod cfg method with Httpx.Direct => 1 | Httpx.Retried => 1 + Z.to_nat (Httpx.MaxRetries cfg) end.
Definition hops (cfg : Httpx.RetryConfig) (method : string) : nat :=
  match Httpx.routeMethod cfg method with Httpx.Direct => 1 | Httpx.Retried => 10 end.

Lemma retry_sends h same cfg req s :
  (∀ s, sends h same req s (clientDo exchange req s).2) →
  sends ((match Httpx.routeMethod cfg (out_Method req) with Httpx.Direct => 1 | Httpx.Retried => h end) *
         tries cfg (out_Method req)) same req s (NewRetryTransport exchange cfg req s).2.
Proof.
  intros Hdo. unfold NewRetryTransport, tries. destruct (Httpx.routeMethod _ _); [apply exchange_sends|].
  set (rc := mkRetryClient _ _ _ _ _ _ _).
  eapply sends_weaken; [|apply (attempts_sends h same rc req 0 s (retry_Do rc req s).1 _ Hdo); [|apply retry_Do_attempts]].
  - cbn. rewrite Z.sub_0_r. lia.
  - intros d t. cbn. unfold sleep. by destruct (w_sleep _ _).
Qed.

(** ** The stack as built *)

Definition retryOf (o : OriginConfig) : Httpx.RetryConfig := retryConfigOf (oc_Retry o).
Definition maxRetries (o : OriginConfig) : nat := Z.to_nat (from_option rp_MaxRetries 0 (oc_Retry o)).
Definition enabled (o : OriginConfig) : bool :=
  match oc_CircuitBreaker o with None => true | Some cb => negb (Disabled cb) end.

Lemma tries_bound o m : (tries (retryOf o) m ≤ 1 + maxRetries o)%nat ∧ (hops (retryOf o) m ≤ 10)%nat ∧
  (m ∈ ["POST"; "PATCH"] ∨ maxRetries o = 0%nat → tries (retryOf o) m = 1%nat ∧ hops (retryOf o) m = 1%nat).
Proof.
  unfold tries, hops, retryOf, maxRetries, Httpx.routeMethod.
  destruct (oc_Retry o) as [r|]; cbn [retryConfigOf from_option Httpx.MaxRetries Httpx.RetryNonIdempotent]; [|cbn; split_and!; [lia..|done]].
  destruct (Z.leb_spec (rp_MaxRetries r) 0); [split_and!; [lia..|done]|].
  destruct (String.eqb m "POST" || String.eqb m "PATCH") eqn:E; [split_and!; [lia..|done]|].
  split_and!; [lia..|]. apply orb_false_elim in E as [E1%String.eqb_neq E2%String.eqb_neq].
  intros [Hm|Hm]; [|lia]. exfalso. set_solver.
Qed.

(** Credentials and retries, whether or not there are credentials. *)
Definition authorised (o : OriginConfig) : outRequest → conn → answer * conn := authRoundTrip (NewRetryTransport exchange (retryOf o)).

Lemma client_stack o c : NewOriginClientWithContext o = Ok c → enabled o = true → ∀ req s, isNoop (cn_auth s) = isNoop (cl_auth c) →
  RoundTrip (cl_transport c) req s = breakerRoundTrip (Router.o_ID (oc_Origin o)) (authorised o) req s.
Proof.
  unfold NewOriginClientWithContext, enabled. destruct (URL.url_Parse _); [|done].
  destruct (BuildAuthProvider _) as [a|]; [|done]. intros [= <-] -> req s. cbn [cl_auth cl_transport].
  intros Hn. cbn [RoundTrip]. unfold breakerRoundTrip. destruct (Breaker.admitRequest _ _) as [[g|] b]; [|done].
  unfold authorised, retryOf. destruct (isNoop a) eqn:Ea; cbn [RoundTrip]; [|done].
  unfold authRoundTrip. destruct (cn_auth s) as [| | | | | | |]; try done.
Qed.

Lemma ApplyAuth_isNoop now now' reply a req : isNoop (ApplyAuth now now' reply a req).2 = isNoop a.
Proof.
  destruct a; cbn; try done; [by destruct (applyOAuth2 _ _ _ _ _)|].
  by match goal with |- context [let '(_, _) := ?e in _] => destruct e end.
Qed.

(** What the stack below the breaker does to a request. *)
Lemma authorised_spec o req s :
  let w := cn_world s in
  let cred := ApplyAuth (w_now w) (w_token w).2 (w_token w).1 (cn_auth s) req in
  let s' := (authorised o req s).2 in
  cn_breaker s' = cn_breaker s ∧ cn_auth s' = cred.2 ∧
  match cred.1 with
  | Err e => (authorised o req s).1 = Err (Failed e) ∧ cn_sent s' = cn_sent s
  | Ok q => ∃ new, cn_sent s' = cn_sent s ++ q :: new ∧
      (Datatypes.S (length new) ≤ hops (retryOf o) (out_Method req) * tries (retryOf o) (out_Method req))%nat ∧
      (calm → (Datatypes.S (length new) ≤ tries (retryOf o) (out_Method req))%nat ∧ Forall (eq q) new)
  end.
Proof.
  cbv zeta. unfold authorised, authRoundTrip.
  destruct (ApplyAuth _ _ _ _ req) as [[q|e] a] eqn:E; cbn [fst snd]; [|done].
  assert (out_Method q = out_Method req) as Hm.
  { eapply proj1, (ApplyAuth_dest _ _ _ (cn_auth s) req q). by rewrite E. }
  set (s1 := mkConn (cn_breaker s) a (cn_world s) (cn_sent s)).
  pose proof (retry_sends 10 False (retryOf o) q s1 (clientDo_sends q)) as [(new & Es & Hl & _) Hb Ha].
  split; [exact Hb|]. split; [exact Ha|]. exists new. rewrite Hm in Hl. split; [exact Es|]. split; [exact Hl|].
  intros Hc. pose proof (retry_sends 1 True (retryOf o) q s1 (λ s, clientDo_calm q s Hc)) as [(new' & Es' & Hl' & Hf) _ _].
  rewrite Es in Es'. cbn in Es'. apply app_inv_head in Es'. injection Es' as <-. rewrite Hm in Hl'. split; [|by apply Hf].
  destruct (Httpx.routeMethod _ _); lia.
Qed.

Lemma after_isNoop o c w reqs : NewOriginClientWithContext o = Ok c → enabled o = true →
  isNoop (cn_auth (after c w reqs)) = isNoop (cl_auth c).
Proof.
  intros Hc He. unfold after. assert (isNoop (cn_auth (dial c w)) = isNoop (cl_auth c)) as Hn by done.
  revert Hn. generalize (dial c w). induction reqs as [|r reqs IH]; intros s Hn; [done|]. cbn [foldl].
  apply IH. rewrite (client_stack o c Hc He r s Hn). unfold breakerRoundTrip.
  destruct (Breaker.admitRequest _ _) as [[g|] b]; [|done].
  pose proof (authorised_spec o r (mkConn b (cn_auth s) (cn_world s) (cn_sent s))) as (_ & Ha & _).
  destruct (authorised _ _ _) as [a s1]. cbn in *. by rewrite Ha, ApplyAuth_isNoop.
Qed.

(** C12: One request through the transport of an origin, whatever the client
    did before and whatever the network and the retry library do.  While the
    breaker refuses, the request fails at once: nothing is sent and nothing
    changes, not even a token is fetched.  Otherwise its outcome is one
    sample for the breaker, recorded under the generation that admitted it,
    however often it was retried; what is sent first is the request with the
    origin's credentials, to the destination it names, and it is not sent
    at all when they cannot be obtained; a POST or PATCH is exchanged exactly
    once, and so is every request to an origin without a retry policy;
    another method takes at most [MaxRetries + 1] attempts, each the same
    request and one exchange unless the origin redirects, which takes at most
    ten exchanges an attempt. *)
Theorem transport_contract o c w reqs req :
  NewOriginClientWithContext o = Ok c → enabled o = true →
  let s := after c w reqs in
  let '(a, s') := RoundTrip (cl_transport c) req s in
  let cred := (ApplyAuth (w_now (cn_world s)) (w_token (cn_world s)).2 (w_token (cn_world s)).1 (cn_auth s) req).1 in
  match Breaker.admitRequest (w_now (cn_world s)) (cn_breaker s) with
  | (Err _, _) => s' = s ∧ ∃ e, a = Err (Failed e)
  | (Ok g, b) =>
      cn_breaker s' = Breaker.record (w_now (cn_world s')) (w_draw (cn_world s')) g (statusOf a) (errOf a) b ∧
      match cred with
      | Err e => a = Err (Failed e) ∧ cn_sent s' = cn_sent s
      | Ok q => sameDest req q ∧ ∃ new, cn_sent s' = cn_sent s ++ q :: new ∧
          (out_Method req ∈ ["POST"; "PATCH"] ∨ maxRetries o = 0%nat → new = []) ∧
          (Datatypes.S (length new) ≤ 10 * (1 + maxRetries o))%nat ∧
          (calm → (Datatypes.S (length new) ≤ 1 + maxRetries o)%nat ∧ Forall (eq q) new)
      end
  end.
Proof.
  intros Hc He s. pose proof (client_stack o c Hc He req s (after_isNoop o c w reqs Hc He)) as ->.
  unfold breakerRoundTrip. destruct (Breaker.admitRequest _ _) as [[g|e] b] eqn:Ea.
  - pose proof (authorised_spec o req (mkConn b (cn_auth s) (cn_world s) (cn_sent s))) as (Hb & _ & Hs).
    destruct (authorised _ _ _) as [a s1]. cbn in *. split; [by rewrite Hb|].
    pose proof (ApplyAuth_dest (w_now (cn_world s)) (w_token (cn_world s)).2 (w_token (cn_world s)).1 (cn_auth s) req) as Hd.
    destruct (ApplyAuth _ _ _ _ req) as [[q|e] p]; cbn in *; [|done].
    split; [by apply Hd|]. destruct Hs as (new & Es & Hl & Hcalm). exists new. split; [done|].
    pose proof (tries_bound o (out_Method req)) as (Ht & Hh & Hone). split_and!.
    + intros Hr. destruct (Hone Hr) as [E1 E2]. rewrite E1, E2 in Hl. destruct new; [done|cbn in Hl; lia].
    + nia.
    + intros Hc'. destruct (Hcalm Hc') as [Hn Hf]. split; [lia|done].
  - apply Breaker.admit_reject in Ea as ->. split; [by destruct s|]. by eexists.
Qed.

(** One [hop] of the client is this stack, with the retry layer as its
    wire. *)
Definition plainErr (a : answer) : result string response :=
  match a with Ok r => Ok r | Err Canceled => Err "context canceled" | Err (Failed e) => Err e end.

Lemma authorised_hop o req s :
  let w := cn_world s in
  let s1 := mkConn (cn_breaker s) (ApplyAuth (w_now w) (w_token w).2 (w_token w).1 (cn_auth s) req).2 w (cn_sent s) in
  plainErr (authorised o req s).1 =
  (hop (w_now w) (w_token w).2 (w_token w).1 (λ r, plainErr (NewRetryTransport exchange (retryOf o) r s1).1) (cn_auth s) req).2.
Proof. cbv zeta. unfold authorised, authRoundTrip, hop. by destruct (ApplyAuth _ _ _ _ req) as [[q|e] a]. Qed.

End Stack.

Module Witness.
#[local] Existing Instance URL.PlainURL.
#[local] Instance toyRef : URLRef := {| url_Resolve _ s := URL.parsePlain s |}.
#[local] Instance toyCrypto : Crypto := {| sha256 s := s; hmac_sha256 k m := k +:+ m |}.
#[local] Instance toySigner : Signer.
Proof. refine {| SignHTTP _ _ _ _ _ _ r := Ok r |}. intros ak sk h svc reg t r r' Hr. injection Hr as <-. done. Defined.

(** The loop, with as many turns left as the bound allows. *)
Fixpoint loop {S} (n : nat) (rc : retryClient S) (req : outRequest) (i : Z) (s : S) : answer * S :=
  let '(a, s1) := rc_Do rc req s in
  match rc_CheckRetry rc s1 a with
  | Err e => (Err e, s1)
  | Ok false => (a, s1)
  | Ok true =>
      match n with
      | O => (a, s1)
      | Datatypes.S n =>
          let '(e, s2) := rc_sleep rc (rc_Backoff rc s1 (rc_RetryWaitMin rc) (rc_RetryWaitMax rc) i (replied a)) s1 in
          match e with Some e => (Err e, s2) | None => loop n rc req (i + 1) s2 end
      end
  end.

Lemma loop_attempts {S} n (rc : retryClient S) req i s : Z.to_nat (rc_RetryMax rc - i) = n →
  attempts rc req i s (loop n rc req i s).1 (loop n rc req i s).2.
Proof.
  revert i s. induction n as [|n IH]; intros i s Hn; cbn [loop]; destruct (rc_Do rc req s) as [a s1] eqn:E;
    destruct (rc_CheckRetry rc s1 a) as [[|]|e] eqn:Ec; cbn; eauto using @attempts.
  - apply att_spent; [done|done|lia].
  - destruct (rc_sleep _ _ _) as [[e|] s2] eqn:Es; cbn.
    + eapply att_interrupted; [done|done|lia|done].
    + eapply att_again; [done|done|lia|exact Es|]. apply IH. lia.
Qed.

#[local] Instance looping : Retryable := {|
  DefaultBackoff min max i _ := Z.min max (min * 2 ^ i);
  retry_Do S rc req s := loop (Z.to_nat (rc_RetryMax rc)) rc req 0 s;
  retry_Do_attempts S rc req s := loop_attempts _ rc req 0 s (f_equal Z.to_nat (Z.sub_0_r (rc_RetryMax rc)));
|}.

(** A network that answers from a script; a timer that is never
    interrupted. *)
#[local] Instance scripted : World (Z * list response) := {|
  w_exchange _ w := match w.2 with [] => (Err (Failed "connection refused"), w) | r :: rs => (Ok r, (w.1, rs)) end;
  w_now w := w.1; w_draw _ := 0; w_token _ := (TransportError, 0); w_ctxErr _ := None;
  w_sleep d w := (None, (w.1 + d, w.2));
|}.

Definition config (auth : string) : OriginConfig :=
  mkOriginConfig OriginClient.Witness.origin (mkAuthConfig auth "" "" "tok" "X-API-Key" "key" false None None ∅)
    (Some (mkRetryPolicy 2 100 1000 [])) None 0 1000 0 false (PageAdapter.mkConfig "" "" "").
Definition answered (status : Z) : response := mkResponse status ∅ "".
Definition req (method : string) : outRequest := mkOut method (URL.mkURL "https" "a.example" "/stac/search" "") ∅ None.
Definition client (auth : string) : option OriginClient :=
  match NewOriginClientWithContext (config auth) with Ok c => Some c | Err _ => None end.

Lemma client_is auth c : client auth = Some c → NewOriginClientWithContext (config auth) = Ok c.
Proof. unfold client. destruct (NewOriginClientWithContext _); [|done]. by intros [= ->]. Qed.

(** A GET answered 500 twice and then 200 is sent three times, a POST
    once. *)
Lemma transport_contract_witness : ∃ c, client "bearer" = Some c ∧
  let w := (5, [answered 500; answered 500; answered 200]) in
  length (cn_sent (RoundTrip (cl_transport c) (req "GET") (dial c w)).2) = 3%nat ∧
  length (cn_sent (RoundTrip (cl_transport c) (req "POST") (dial c w)).2) = 1%nat ∧
  ∃ q, cn_sent (RoundTrip (cl_transport c) (req "POST") (after c w [])).2 = [q] ∧ sameDest (req "POST") q.
Proof.
  destruct (client "bearer") as [c|] eqn:E; [|vm_compute in E; discriminate].
  exists c. split; [reflexivity|]. cbv zeta.
  pose proof (transport_contract (config "bearer") c (5, [answered 500; answered 500; answered 200]) [] (req "POST")
    (client_is _ _ E) eq_refl) as Ht.
  vm_compute in E. injection E as <-.
  split; [vm_compute; reflexivity|]. split; [vm_compute; reflexivity|].
  cbv zeta in Ht. destruct (RoundTrip _ _ _) as [a s']. cbn -[sameDest hops tries] in Ht.
  destruct Ht as (_ & Hd & new & Hs & Hn & _). rewrite (Hn (or_introl (list_elem_of_here _ _))) in Hs. eexists. split; [exact Hs|exact Hd].
Defined.

(** The retry layer's client follows a redirect with the headers it was
    given: to another domain it withholds [Authorization], but not the key
    of another header. *)
Definition moved : response := mkResponse 302 (Header.Set_ "Location" "https://evil.example/x" ∅) "".
Definition credentialsSeen (auth header : string) : option (list (string * string)) :=
  c ← client auth;
  Some ((λ q, (URL.Host (out_URL q), Header.Get (out_Header q) header)) <$>
    cn_sent (RoundTrip (cl_transport c) (req "GET") (dial c (5, [moved; answered 200]))).2).

Lemma retried_redirect_leaks_key :
  credentialsSeen "bearer" "Authorization" = Some [("a.example", "Bearer tok"); ("evil.example", "")] ∧
  credentialsSeen "api_key" "X-API-Key" = Some [("a.example", "key"); ("evil.example", "key")].
Proof. vm_compute. done. Qed.
End Witness.
End Transport.
