(* ===== verification/Proxy.v ===== *)
(** * Pass-through to one origin ([internal/federation/proxy.go],
      [assets.go])

    The request forwarded to an origin and the headers it may carry, the
    captured response and its size limit, the rewriting of links and asset
    references, and the asset endpoint.

    [httputil.ReverseProxy] is modelled as far as the code relies on it: the
    rewritten request ([dispatch]) and the copying of the answer into the
    capture, which panics with [ErrAbortHandler] when the writer fails under
    an HTTP server ([copyBody], [underServer]).  Parameters: JSON, URL
    parsing and printing, and what the origin answers. *)

From S2P Require Import Prelude GoLib Breaker Stac Cursor PageAdapter Router Httpx Middleware Auth Cql2 Query Remap RateLimit OriginAuth OriginClient.
From Stdlib Require Import Ascii.
Import Strings Values Stac Middleware OriginAuth OriginClient.

Module Proxy.

(** [federation.request], with the parts of the [http.Request] and its
    context that are read here. *)
Record request := mkFedRequest {
  fr_Request : httpRequest;
  fr_Host : string;
  fr_TLS : bool;
  fr_Body : option bytes;
  fr_RequestID : string;
  fr_Collection : string;
  fr_ItemID : string;
  fr_RequestType : RequestType;
  fr_SearchReq : option SearchRequest;
}.

(** [url.URL.String]. *)
Class URLPrint := { url_String : URL.URL → string }.

Definition BaseURL `{!URLPrint} (c : OriginClient) : string := url_String (cl_baseURL c).

(** ** The outbound request *)

Definition isSearchLike (rt : RequestType) : bool :=
  match rt with RequestTypeSearch | RequestTypeItems => true | _ => false end.

Definition isInboundAuthHeader (name : string) : bool :=
  existsb (String.eqb (Header.CanonicalHeaderKey name))
    ["Authorization"; "Cookie"; "Set-Cookie"; "Proxy-Authorization"; "X-Api-Key"].

Definition isHopByHop (name : string) : bool :=
  existsb (String.eqb (Header.CanonicalHeaderKey name))
    ["Connection"; "Proxy-Connection"; "Keep-Alive"; "Proxy-Authenticate"; "Proxy-Authorization"; "Te";
     "Trailer"; "Transfer-Encoding"; "Upgrade"].

(** The headers that are not copied. *)
Definition skipped (c : OriginClient) (k : string) : bool :=
  let originAuthHeader := Header.CanonicalHeaderKey (a_APIKeyHeader (oc_Auth (cl_origin c))) in
  isHopByHop k ||
  (negb (Router.o_ForwardUserIdentity (oc_Origin (cl_origin c))) && isInboundAuthHeader k) ||
  (negb (String.eqb originAuthHeader "") && String.eqb (Header.CanonicalHeaderKey k) originAuthHeader).

Section Proxy.
Context `{!MapRange}.

Definition copyHeaders (c : OriginClient) (inbound out : Header.header) : Header.header :=
  foldl (λ out kv, if skipped c kv.1 then out else foldl (λ out v, Header.Add kv.1 v out) out kv.2)
    out (range inbound).

(** [marshal] is [json.Marshal] of a search request. *)
Definition buildOutboundRequest (marshal : SearchRequest → option bytes) (c : OriginClient) (req : request)
    : result string outRequest :=
  let r := fr_Request req in
  let inbound := Ok (Method r, URL.mkURL "" "" (URLPath r) (RawQuery r), fr_Body req) in
  '(method, u, body) ←
    match fr_SearchReq req with
    | Some sr =>
        if isSearchLike (fr_RequestType req) then
          match marshal sr with
          | None => Err "re-serialize SearchReq"
          | Some marshaled => Ok ("POST", URL.mkURL "" "" "/search" "", Some marshaled)
          end
        else inbound
    | None => inbound
    end;
  let h := match body with None => ∅ | Some _ => Header.Set_ "Content-Type" "application/json" ∅ end in
  Ok (ForwardRequestID (fr_RequestID req) (mkOut method u (copyHeaders c (ReqHeader r) h) body)).

(** *** [ReverseProxy] with the [Rewrite] function *)

Definition singleJoiningSlash (a b : string) : string :=
  let bare := String.eqb (TrimSuffixSlash a) a in
  match bare, HasPrefix b "/" with
  | false, true => a +:+ drop_str 1 b
  | true, false => a +:+ "/" +:+ b
  | _, _ => a +:+ b
  end.

(** Parameters that do not parse are dropped. *)
Definition cleanQueryParams (s : string) : string :=
  match Query.ParseQuery s with Some _ => s | None => Query.Encode (Query.URLQuery s) end.

Definition joinQuery (a b : string) : string :=
  if String.eqb a "" || String.eqb b "" then a +:+ b else a +:+ "&" +:+ b.

(** [SetURL]. *)
Definition rebase (base u : URL.URL) : URL.URL :=
  URL.mkURL (URL.Scheme base) (URL.Host base) (singleJoiningSlash (URL.Path base) (URL.Path u))
    (joinQuery (URL.RawQuery base) (cleanQueryParams (URL.RawQuery u))).

Definition forwardedHeaders : list string := ["Forwarded"; "X-Forwarded-For"; "X-Forwarded-Host"; "X-Forwarded-Proto"].

Definition dispatch (c : OriginClient) (req : request) (out : outRequest) : outRequest :=
  let h := foldl (λ h name, Header.Del name h) (out_Header out) forwardedHeaders in
  let h := match RateLimit.SplitHostPort (RemoteAddr (fr_Request req)) with
           | Some ip => Header.Set_ "X-Forwarded-For" ip h | None => h end in
  let h := Header.Set_ "X-Forwarded-Host" (fr_Host req) h in
  let h := Header.Set_ "X-Forwarded-Proto" (if fr_TLS req then "https" else "http") h in
  let h := Header.Set_ "Accept" acceptJSON h in
  let h := if bool_decide (is_Some (h !! "User-Agent")) then h else Header.Set_ "User-Agent" "" h in
  mkOut (out_Method out) (rebase (cl_baseURL c) (out_URL out)) h (out_Body out).

(** ** Rewriting *)

Inductive assetMode := AssetSign | AssetProxy | AssetNever.
Definition assetModeOf (s : string) : assetMode :=
  if String.eqb s "sign" then AssetSign else if String.eqb s "proxy" then AssetProxy else AssetNever.

(** The fields of the handler read here; the signer is a function of the
    reference and the lifetime. *)
Record Handler := mkHandler {
  ph_origins : gmap string OriginClient;
  ph_proxyBaseURL : string;
  ph_assetSigner : option (string → Z → string);
}.

Context `{!URL.GoURL, !URLPrint, !JSON}.

Definition assetHrefUnderOrigin (href originBase : string) : bool :=
  match URL.url_Parse href, URL.url_Parse originBase with
  | Some hu, Some ou =>
      if negb (EqualFold (URL.Scheme hu) (URL.Scheme ou)) then false
      else if negb (EqualFold (URL.Host hu) (URL.Host ou)) then false
      else
        let basePath := TrimSuffixSlash (URL.Path ou) in
        String.eqb basePath "" || String.eqb (URL.Path hu) basePath || HasPrefix (URL.Path hu) (basePath +:+ "/")
  | _, _ => false
  end.

Definition rewriteURL (h : Handler) (c : OriginClient) (href : string) : string :=
  if HasPrefix href (BaseURL c) then ph_proxyBaseURL h +:+ TrimPrefix href (BaseURL c) else href.

Definition originID (c : OriginClient) : string := Router.o_ID (oc_Origin (cl_origin c)).

Definition rewriteAssetHref (h : Handler) (c : OriginClient) (href : string) : string :=
  match assetModeOf (Router.o_RewriteAssets (oc_Origin (cl_origin c))) with
  | AssetSign =>
      match ph_assetSigner h with
      | None => href
      | Some sign =>
          let ttl := oc_AssetSignTTL (cl_origin c) in
          sign href (if (ttl <=? 0)%Z then (15 * 60 * second)%Z else ttl)
      end
  | AssetProxy =>
      if String.eqb (ph_proxyBaseURL h) "" then href
      else if negb (assetHrefUnderOrigin href (BaseURL c)) then href
      else TrimRightSlash (ph_proxyBaseURL h) +:+ "/assets/" +:+ originID c +:+ "/" +:+ Base64.EncodeToString href
  | AssetNever => href
  end.

(** Rewrites the [href] of an object that has one. *)
Definition rewriteHref (f : string → string) (v : value) : value :=
  match v with
  | VObj m => match get "href" m with Some (VStr s) => VObj (put "href" (VStr (f s)) m) | _ => v end
  | _ => v
  end.

Definition rewriteLinksRecurseKeys : list string := ["features"; "collections"; "included"; "items"; "children"].
Definition rewriteLinksMaxDepth : nat := 16.

(** One value of an object, by its key. *)
Definition rewriteMember (h : Handler) (c : OriginClient) (recurse : value → value) (kv : string * value)
    : string * value :=
  let '(k, v) := kv in
  (k, if String.eqb k "links" then
        match v with VArr l => VArr (rewriteHref (rewriteURL h c) <$> l) | _ => v end
      else if String.eqb k "assets" then
        match v with VObj m => VObj (prod_map id (rewriteHref (rewriteAssetHref h c)) <$> m) | _ => v end
      else if existsb (String.eqb k) rewriteLinksRecurseKeys then recurse v
      else v).

(** [n] is how many more levels may be entered:
    [rewriteLinksMaxDepth + 1 - depth]. *)
Fixpoint rewriteLinksDepth (h : Handler) (c : OriginClient) (n : nat) (data : value) : value :=
  match n with
  | O => data
  | S n =>
      match data with
      | VObj m => VObj (rewriteMember h c (rewriteLinksDepth h c n) <$> m)
      | VArr l => VArr (rewriteLinksDepth h c n <$> l)
      | _ => data
      end
  end.

Definition rewriteLinks (h : Handler) (c : OriginClient) (data : value) : value :=
  rewriteLinksDepth h c (S rewriteLinksMaxDepth) data.

Definition quoted (s : string) : string := String (ascii_of_N 34) (s +:+ String (ascii_of_N 34) "").
Definition bodyMayContainRewritableKeys (body : bytes) : bool :=
  Contains body (quoted "links") || Contains body (quoted "assets").

Definition withBody (b : bytes) (r : response) : response := mkResponse (resp_Status r) (resp_Header r) b.

Definition transformResponse (h : Handler) (c : OriginClient) (resp : response) : response :=
  if String.eqb (ph_proxyBaseURL h) "" then resp
  else if negb (Contains (Header.Get (resp_Header resp) "Content-Type") "json") then resp
  else if negb (bodyMayContainRewritableKeys (resp_Body resp)) then resp
  else match value_Unmarshal (resp_Body resp) with
  | Some (VObj m) =>
      match value_Marshal (rewriteLinks h c (VObj m)) with
      | Some newBody => withBody newBody resp
      | None => resp
      end
  | Some VNil => match value_Marshal VNil with Some b => withBody b resp | None => resp end
  | _ => resp
  end.

(** *** Origin metadata *)

Definition originLinkValue (id url : string) : value :=
  VObj [("href", VStr url); ("rel", VStr OriginLinkRel); ("type", VStr "application/json"); ("title", VStr id)].

Definition isOriginLinkValue (id : string) (l : value) : bool :=
  match l with
  | VObj m => String.eqb (default "" (as_string (index "rel" m))) OriginLinkRel &&
              String.eqb (default "" (as_string (index "title" m))) id
  | _ => false
  end.

(** [None]: a body [null] decodes to a nil map, and storing in it panics. *)
Definition injectOriginMetadata (id url : string) (resp : response) : option response :=
  match value_Unmarshal (resp_Body resp) with
  | Some (VObj m) =>
      let links := default [] (as_array (index "links" m)) in
      if existsb (isOriginLinkValue id) links then Some resp
      else Some match value_Marshal (VObj (put "links" (VArr (links ++ [originLinkValue id url])) m)) with
                | Some b => withBody b resp
                | None => resp
                end
  | Some VNil => None
  | _ => Some resp
  end.

(** ** [reverseProxyOnce] *)

(** What the origin answers: status, headers, the chunks of the body, and
    whether reading the body fails after them. *)
Record upstream := mkUpstream { up_Status : Z; up_Header : Header.header; up_Chunks : list bytes; up_Broken : bool }.

(** [boundedCapture]: the capture and its overflow mark. *)
Definition boundedWrite (p : bytes) (b : Httpx.ResponseCapture * bool) : bool * (Httpx.ResponseCapture * bool) :=
  let '(_, failed, rc) := Httpx.Write p b.1 in (failed, (rc, b.2 || failed)).

(** Copies until a write or, after the last chunk, a read fails. *)
Fixpoint copyBody (broken : bool) (chunks : list bytes) (b : Httpx.ResponseCapture * bool)
    : bool * (Httpx.ResponseCapture * bool) :=
  match chunks with
  | [] => (broken, b)
  | p :: chunks => let '(failed, b) := boundedWrite p b in if failed then (true, b) else copyBody broken chunks b
  end.

Inductive internalError := UnknownOrigin (id : string) | BuildFailed (e : string) | UpstreamFailed (e : string).

(** The handler returned, or panicked with [ErrAbortHandler], which closes
    the connection. *)
Inductive outcome := Aborted | Returned (r : result internalError response).

Definition errorResponse (status : Z) (code description : string) : response :=
  mkResponse status {["Content-Type" := ["application/json"]]}
    (default "" (value_Marshal (VObj [("code", VStr code); ("description", VStr description)]))).

Definition tooLarge (max : Z) : response :=
  errorResponse 502 "BadGateway" ("upstream response exceeded " +:+ Remap.FormatInt max +:+ " bytes").

(** The capture after the headers of the answer. *)
Definition openCapture (max : Z) (up : upstream) : Httpx.ResponseCapture :=
  Httpx.WriteHeader (up_Status up)
    (let rc := Httpx.NewResponseCaptureWithLimit max in
     Httpx.mkCapture (Httpx.StripHopByHopHeaders (up_Header up)) (Httpx.rc_status rc) (Httpx.rc_body rc)
       (Httpx.rc_max rc) (Httpx.rc_written rc) (Httpx.rc_closed rc)).

Context `{!Crypto, !Signer}.
Variables (marshal : SearchRequest → option bytes) (underServer : bool)
  (now now' : Z) (reply : tokenReply) (wire : outRequest → result string upstream).

(** What leaves for the origin. *)
Definition outbound (c : OriginClient) (req : request) : result string outRequest :=
  out ← buildOutboundRequest marshal c req;
  (ApplyAuth now now' reply (cl_auth c) (dispatch c req out)).1.

Definition receive (h : Handler) (c : OriginClient) (up : upstream) : outcome :=
  let max := if (cl_maxResponseBytes c <=? 0)%Z then defaultMaxResponseBytes else cl_maxResponseBytes c in
  let '(failed, (rc, over)) := copyBody (up_Broken up) (up_Chunks up) (openCapture max up, false) in
  if failed && underServer then Aborted
  else if over then Returned (Ok (tooLarge max))
  else
    let resp := mkResponse (Httpx.Status rc) (Httpx.StripHopByHopHeaders (Httpx.rc_header rc)) (Httpx.BodyBytes rc) in
    Returned (Ok (if negb (String.eqb (ph_proxyBaseURL h) "") && (Httpx.Status rc =? 200)%Z
                  then transformResponse h c resp else resp)).

Definition reverseProxyOnce (h : Handler) (id : string) (req : request) : outcome :=
  match ph_origins h !! id with
  | None => Returned (Err (UnknownOrigin id))
  | Some c =>
      match buildOutboundRequest marshal c req with
      | Err e => Returned (Err (BuildFailed e))
      | Ok out =>
          match (ApplyAuth now now' reply (cl_auth c) (dispatch c req out)).1 ≫= wire with
          | Err e => Returned (Err (UpstreamFailed e))
          | Ok up => receive h c up
          end
      end
  end.

(** ** The asset endpoint *)

Definition assetRequestPassthroughHeaders : list string :=
  ["Range"; "If-Match"; "If-None-Match"; "If-Modified-Since"; "If-Unmodified-Since"; "Accept";
   "Accept-Encoding"; "User-Agent"].
Definition assetResponsePassthroughHeaders : list string :=
  ["Content-Type"; "Content-Length"; "Content-Range"; "Content-Encoding"; "Content-Disposition"; "Accept-Ranges";
   "ETag"; "Last-Modified"; "Cache-Control"; "Expires"; "Vary"].

Definition passHeaders (names : list string) (from to : Header.header) : Header.header :=
  foldl (λ h name, let v := Header.Get from name in if String.eqb v "" then h else Header.Set_ name v h) to names.

(** The request an asset reference stands for, or the error response. *)
Definition assetRequest (h : Handler) (r : httpRequest) (rid id ref : string)
    : result (Z * string) (OriginClient * outRequest) :=
  if negb (String.eqb (Method r) "GET") && negb (String.eqb (Method r) "HEAD") then Err (405%Z, "method not allowed") else
  match ph_origins h !! id with
  | None => Err (404%Z, "unknown origin")
  | Some c =>
      match assetModeOf (Router.o_RewriteAssets (oc_Origin (cl_origin c))) with
      | AssetProxy =>
          match Base64.DecodeString ref with
          | None => Err (400%Z, "invalid asset reference")
          | Some href =>
              if negb (assetHrefUnderOrigin href (BaseURL c)) then Err (400%Z, "asset reference does not belong to origin")
              else match URL.url_Parse href with
              | None => Err (400%Z, "invalid asset url")
              | Some u =>
                  let out := mkOut (Method r) u (passHeaders assetRequestPassthroughHeaders (ReqHeader r) ∅) None in
                  Ok (c, ForwardRequestID rid out)
              end
          end
      | _ => Err (404%Z, "asset proxying not enabled for this origin")
      end
  end.

Inductive assetReply := AssetError (status : Z) (msg : string) | ClientGone | Streamed (r : response).

(** [canceled] tells whether the client has gone; when the body of the asset
    breaks off, what was read of it has been written and the error is only
    logged. *)
Definition ServeAssetHTTP (canceled : bool) (h : Handler) (r : httpRequest) (rid id ref : string) : assetReply :=
  match assetRequest h r rid id ref with
  | Err (status, msg) => AssetError status msg
  | Ok (c, out) =>
      match (ApplyAuth now now' reply (cl_auth c) out).1 ≫= wire with
      | Err _ => if canceled then ClientGone else AssetError 502 "upstream asset fetch failed"
      | Ok up => Streamed (mkResponse (up_Status up) (passHeaders assetResponsePassthroughHeaders (up_Header up) ∅)
                             (foldr String.append "" (up_Chunks up)))
      end
  end.

(** *** Stripping the collection prefix *)

(** [strings.Replace(s, old, new, 1)]. *)
Definition ReplaceFirst (s old new : string) : string :=
  match CutSub old s with Some (a, b) => a +:+ new +:+ b | None => s end.

Definition adaptRequestStripCollectionPrefix (req : request) (prefix : string) : request :=
  if String.eqb prefix "" then req else
  let r := fr_Request req in
  let coll := TrimPrefix (fr_Collection req) prefix in
  mkFedRequest
    (mkRequest (Method r)
       (ReplaceFirst (URLPath r) ("/collections/" +:+ fr_Collection req) ("/collections/" +:+ coll))
       (RawQuery r) (ReqHeader r) (RemoteAddr r))
    (fr_Host req) (fr_TLS req) (fr_Body req) (fr_RequestID req) coll (fr_ItemID req) (fr_RequestType req)
    (fr_SearchReq req).

(** ** Lemmas *)

(** Header maps of a server hold canonical names. *)
Definition canonical (h : Header.header) : Prop :=
  ∀ k vs, h !! k = Some vs → Header.CanonicalHeaderKey k = k.

Lemma foldl_Add k vs out k' :
  Header.CanonicalHeaderKey k = k →
  foldl (λ out v, Header.Add k v out) out vs !! k' =
  (if decide (k = k') then match vs with [] => out !! k | _ => Some (default [] (out !! k) ++ vs) end else out !! k').
Proof.
  intros Hk. revert out. induction vs as [|v vs IH]; intros out; cbn [foldl]; [by case_decide; subst|].
  rewrite IH. unfold Header.Add, Header.Values. rewrite Hk. case_decide as Hd; [subst k'|by rewrite lookup_insert_ne].
  rewrite lookup_insert_eq. cbn. destruct vs; [done|]. by rewrite <-app_assoc.
Qed.

Lemma copyHeaders_lookup c h out k :
  canonical h →
  copyHeaders c h out !! k =
  (if skipped c k then out !! k else
   match h !! k with Some (v :: vs) => Some (default [] (out !! k) ++ v :: vs) | _ => out !! k end).
Proof.
  intros Hc. unfold copyHeaders.
  assert (Hl : Forall (λ kv, Header.CanonicalHeaderKey kv.1 = kv.1) (range h)).
  { apply Forall_forall. intros [k' vs] Hin%elem_of_range. by eapply Hc. }
  assert (h = list_to_map (range h)) as Hh.
  { apply map_eq. intros i. apply option_eq. intros v. rewrite <-elem_of_list_to_map by apply NoDup_range.
    symmetry. apply elem_of_range. }
  rewrite Hh at 2. generalize (NoDup_range h) as Hnd. revert Hl. clear Hh Hc.
  generalize (range h) as l. clear h. intros l. revert out.
  induction l as [|[k' vs] l IH]; intros out Hl Hnd; cbn [foldl].
  - rewrite list_to_map_nil, lookup_empty. by destruct (skipped c k).
  - apply Forall_cons in Hl as [Hk Hl]. apply NoDup_cons in Hnd as [Hni Hnd]. cbn in Hk.
    rewrite IH by done. rewrite list_to_map_cons. cbn [fst snd].
    destruct (decide (k' = k)) as [->|Hne].
    + rewrite lookup_insert_eq, (not_elem_of_list_to_map_1 _ _ Hni).
      destruct (skipped c k); [done|]. rewrite foldl_Add by done. rewrite decide_True by done. by destruct vs.
    + rewrite lookup_insert_ne by done. destruct (skipped c k'); [done|].
      rewrite foldl_Add by done. by rewrite decide_False.
Qed.

Definition withHeaders (h : Header.header) (req : request) : request :=
  let r := fr_Request req in
  mkFedRequest (mkRequest (Method r) (URLPath r) (RawQuery r) h (RemoteAddr r)) (fr_Host req) (fr_TLS req)
    (fr_Body req) (fr_RequestID req) (fr_Collection req) (fr_ItemID req) (fr_RequestType req) (fr_SearchReq req).

Lemma copyHeaders_credentials c h1 h2 out :
  Router.o_ForwardUserIdentity (oc_Origin (cl_origin c)) = false →
  canonical h1 → canonical h2 → (∀ k, isInboundAuthHeader k = false → h1 !! k = h2 !! k) →
  copyHeaders c h1 out = copyHeaders c h2 out.
Proof.
  intros Hf Hc1 Hc2 Heq. apply map_eq. intros k. rewrite !copyHeaders_lookup by done.
  destruct (isInboundAuthHeader k) eqn:Ek; [|by rewrite Heq].
  assert (skipped c k = true) as ->; [|done]. unfold skipped. rewrite Hf, Ek. cbn. by rewrite orb_true_r.
Qed.

(** *** Size limit *)

Definition bodyOf (chunks : list bytes) : bytes := foldr String.append "" chunks.

(** An open capture that has not overflowed. *)
Record openAt (max : Z) (body : bytes) (rc : Httpx.ResponseCapture) : Prop := {
  op_body : Httpx.rc_body rc = body;
  op_max : Httpx.rc_max rc = max;
  op_written : Httpx.rc_written rc = Httpx.blen body;
  op_closed : Httpx.rc_closed rc = false;
}.

Lemma copyBody_spec broken max chunks body rc :
  (0 < max)%Z → openAt max body rc → Httpx.rc_status rc ≠ 0%Z →
  if (Httpx.blen (body +:+ bodyOf chunks) <=? max)%Z then
    ∃ rc', copyBody broken chunks (rc, false) = (broken, (rc', false)) ∧ openAt max (body +:+ bodyOf chunks) rc' ∧
      Httpx.rc_header rc' = Httpx.rc_header rc ∧ Httpx.rc_status rc' = Httpx.rc_status rc
  else (Httpx.blen body ≤ max)%Z → ∃ rc', copyBody broken chunks (rc, false) = (true, (rc', true)).
Proof.
  intros Hmax. revert body rc. induction chunks as [|p chunks IH]; intros body rc [Hb Hm Hw Hcl] Hs; cbn [bodyOf foldr copyBody].
  - rewrite append_nil_r. destruct (Z.leb_spec (Httpx.blen body) max); [|lia]. by exists rc.
  - unfold boundedWrite, Httpx.Write. cbn [fst snd]. rewrite Hcl, Hm, Hw.
    apply Z.eqb_neq in Hs as Hs'. rewrite Hs'. rewrite (proj2 (Z.ltb_lt 0 max)) by done. cbn [andb].
    destruct (Z.ltb_spec max (Httpx.blen body + Httpx.blen p)) as [Hover|Hfit].
    + rewrite !Httpx.blen_app. fold (bodyOf chunks).
      destruct (Z.leb_spec (Httpx.blen body + (Httpx.blen p + Httpx.blen (bodyOf chunks))) max).
      * unfold Httpx.blen in *. lia.
      * intros _. cbn. by eexists.
    + fold (bodyOf chunks). rewrite <-append_assoc.
      specialize (IH (body +:+ p) (Httpx.mkCapture (Httpx.rc_header rc) (Httpx.rc_status rc) (Httpx.rc_body rc +:+ p)
        (Httpx.rc_max rc) (Httpx.rc_written rc + Httpx.blen p) false)).
      rewrite Hb, Hm, Hw in IH. cbn in IH.
      destruct (Z.leb_spec (Httpx.blen ((body +:+ p) +:+ bodyOf chunks)) max).
      * destruct IH as (rc' & Hc & Ho & Hh & Hst); [constructor; cbn; try done; by rewrite Httpx.blen_app|done|].
        rewrite Hb. by exists rc'.
      * intros _. rewrite Hb. apply IH; [constructor; cbn; try done; by rewrite Httpx.blen_app|done|].
        rewrite Httpx.blen_app. lia.
Qed.

(** *** Positions in a document *)

Inductive seg := K (key : string) | I (index : nat).

Definition child (v : value) (s : seg) : option value :=
  match s, v with
  | K k, VObj m => get k m
  | I i, VArr l => l !! i
  | _, _ => None
  end.

Fixpoint at_ (path : list seg) (v : value) : option value :=
  match path with [] => Some v | s :: path => child v s ≫= at_ path end.

(** What a position means to the rewriter. *)
Inductive zone := Doc (n : nat) | Links_ | LinkObj | Assets_ | AssetObj | LinkHref | AssetHref | Opaque.

Definition enter (z : zone) (s : seg) : zone :=
  match z, s with
  | Doc (S n), K k =>
      if String.eqb k "links" then Links_ else if String.eqb k "assets" then Assets_
      else if existsb (String.eqb k) rewriteLinksRecurseKeys then Doc n else Opaque
  | Doc (S n), I _ => Doc n
  | Links_, I _ => LinkObj
  | LinkObj, K k => if String.eqb k "href" then LinkHref else Opaque
  | Assets_, K _ => AssetObj
  | AssetObj, K k => if String.eqb k "href" then AssetHref else Opaque
  | _, _ => Opaque
  end.

Definition inString (f : string → string) (v : value) : value := match v with VStr s => VStr (f s) | _ => v end.

Definition rewriteIn (h : Handler) (c : OriginClient) (z : zone) (v : value) : value :=
  match z with
  | Doc n => rewriteLinksDepth h c n v
  | Links_ => match v with VArr l => VArr (rewriteHref (rewriteURL h c) <$> l) | _ => v end
  | Assets_ => match v with VObj m => VObj (prod_map id (rewriteHref (rewriteAssetHref h c)) <$> m) | _ => v end
  | LinkObj => rewriteHref (rewriteURL h c) v
  | AssetObj => rewriteHref (rewriteAssetHref h c) v
  | LinkHref => inString (rewriteURL h c) v
  | AssetHref => inString (rewriteAssetHref h c) v
  | Opaque => v
  end.

Lemma get_fmap {A B} (f : string → A → B) k m :
  get k ((λ kv, (kv.1, f kv.1 kv.2)) <$> m) = f k <$> get k m.
Proof.
  induction m as [|[k' v] m IH]; cbn; [done|]. destruct (String.eqb_spec k k') as [->|]; [done|]. apply IH.
Qed.

Lemma child_rewriteHref f v k :
  child (rewriteHref f v) (K k) = (if String.eqb k "href" then inString f else id) <$> child v (K k).
Proof.
  destruct v as [| | | | | |m]; try (by destruct (String.eqb k "href")). cbn.
  destruct (get "href" m) as [w|] eqn:E.
  - destruct w; cbn; destruct (String.eqb_spec k "href") as [->|]; cbn; rewrite ?get_put, ?E; cbn; try done;
      try (by destruct (get k m)). rewrite (proj2 (String.eqb_neq _ _)) by done. by destruct (get k m).
  - cbn. destruct (String.eqb_spec k "href") as [->|]; [by rewrite E|]. by destruct (get k m).
Qed.

Lemma id_fmap {A} (o : option A) : o = id <$> o.
Proof. by destruct o. Qed.

Lemma child_rewriteIn h c z v s : child (rewriteIn h c z v) s = rewriteIn h c (enter z s) <$> child v s.
Proof.
  destruct z as [[|n]| | | | | | |]; cbn [rewriteIn].
  - cbn [rewriteLinksDepth]. destruct s; apply id_fmap.
  - destruct s as [k|i], v as [| | | | |l|m]; try done; cbn [rewriteLinksDepth child].
    + rewrite <-(get_fmap (λ k, rewriteIn h c (enter (Doc (S n)) (K k)))). f_equal.
      apply list_fmap_ext. intros i [k' v'] _. unfold rewriteMember. cbn [fst snd enter].
      destruct (String.eqb k' "links"); [done|]. destruct (String.eqb k' "assets"); [done|].
      by destruct (existsb (String.eqb k') rewriteLinksRecurseKeys).
    + by rewrite list_lookup_fmap.
  - destruct s as [k|i], v as [| | | | |l|m]; try done; cbn [child]; [apply id_fmap|]. by rewrite list_lookup_fmap.
  - destruct s as [k|i]; [rewrite child_rewriteHref; cbn [enter]; by destruct (String.eqb k "href")|].
    destruct v as [| | | | |l|m]; try done; cbn [rewriteHref child]; [apply id_fmap|]. by repeat case_match.
  - destruct s as [k|i], v as [| | | | |l|m]; try done; cbn [child]; [|apply id_fmap].
    by rewrite <-(get_fmap (λ _, rewriteHref (rewriteAssetHref h c))).
  - destruct s as [k|i]; [rewrite child_rewriteHref; cbn [enter]; by destruct (String.eqb k "href")|].
    destruct v as [| | | | |l|m]; try done; cbn [rewriteHref child]; [apply id_fmap|]. by repeat case_match.
  - destruct v, s; try done; apply id_fmap.
  - destruct v, s; try done; apply id_fmap.
  - apply id_fmap.
Qed.

(** ** Properties *)

(** C20: A client's credentials do not reach an origin that was not given
    them: unless the origin forwards user identity, what is sent to it is
    the same whatever the inbound Authorization, Cookie, Set-Cookie,
    Proxy-Authorization and X-Api-Key headers are. *)
Theorem no_credential_leak c req headers :
  Router.o_ForwardUserIdentity (oc_Origin (cl_origin c)) = false →
  canonical (ReqHeader (fr_Request req)) → canonical headers →
  (∀ k, isInboundAuthHeader k = false → headers !! k = ReqHeader (fr_Request req) !! k) →
  outbound c (withHeaders headers req) = outbound c req.
Proof.
  intros Hf Hc1 Hc2 Heq. unfold outbound, buildOutboundRequest. cbn [withHeaders fr_Request fr_SearchReq fr_RequestType
    fr_Body fr_RequestID ReqHeader Method URLPath RawQuery].
  assert (Hcopy : ∀ out, copyHeaders c headers out = copyHeaders c (ReqHeader (fr_Request req)) out)
    by (intros out; by apply copyHeaders_credentials).
  destruct (match fr_SearchReq req with Some _ => _ | None => _ end) as [[[method u] body]|e]; cbn; [|done].
  by rewrite Hcopy.
Qed.

(** Constraints reach the origin: a search or items request goes out as
    a POST of the constrained search to the origin's search endpoint,
    whatever method, path, query or body the client sent, at the origin's
    scheme and host. *)
Theorem outbound_search c req sr out :
  fr_SearchReq req = Some sr → isSearchLike (fr_RequestType req) = true → outbound c req = Ok out →
  out_Method out = "POST" ∧ out_Body out = marshal sr ∧
  URL.Scheme (out_URL out) = URL.Scheme (cl_baseURL c) ∧ URL.Host (out_URL out) = URL.Host (cl_baseURL c) ∧
  URL.Path (out_URL out) = singleJoiningSlash (URL.Path (cl_baseURL c)) "/search".
Proof.
  intros Hs Hl. unfold outbound, buildOutboundRequest. rewrite Hs, Hl. destruct (marshal sr) as [b|] eqn:Em; cbn; [|done].
  intros (Hm & Hb & Hsc & Hh & Hp)%ApplyAuth_dest. rewrite Hm, Hb, Hsc, Hh, Hp.
  unfold ForwardRequestID. by destruct (String.eqb (fr_RequestID req) "").
Qed.


(** Only a body above the limit, or one that breaks off, aborts. *)
Lemma receive_fits h c up :
  (0 < cl_maxResponseBytes c)%Z → up_Status up ≠ 0%Z → (Httpx.blen (bodyOf (up_Chunks up)) ≤ cl_maxResponseBytes c)%Z →
  up_Broken up = false → receive h c up ≠ Aborted.
Proof.
  intros Hmax Hst Hle Hbr. unfold receive. rewrite (proj2 (Z.leb_gt (cl_maxResponseBytes c) 0)) by done.
  pose proof (copyBody_spec (up_Broken up) (cl_maxResponseBytes c) (up_Chunks up) "" (openCapture (cl_maxResponseBytes c) up) Hmax)
    as Hcopy. change ("" +:+ bodyOf (up_Chunks up)) with (bodyOf (up_Chunks up)) in Hcopy.
  rewrite (proj2 (Z.leb_le _ _) Hle) in Hcopy.
  destruct Hcopy as (rc & -> & _); [by constructor|done|]. by rewrite Hbr.
Qed.

(** C35: Link rewriting touches exactly the link and asset references of the
    document and of the documents nested in it up to the depth limit: at
    every path the rewritten document holds the original value, changed as
    the meaning of that path says; everything outside those positions, such
    as the properties of an item, is unchanged. *)
Theorem rewriteLinks_at h c path v :
  at_ path (rewriteLinks h c v) = rewriteIn h c (foldl enter (Doc 17) path) <$> at_ path v.
Proof.
  change (rewriteLinks h c v) with (rewriteIn h c (Doc 17) v). generalize (Doc 17) as z. revert v.
  induction path as [|s path IH]; intros v z; cbn [at_ foldl]; [done|]. rewrite child_rewriteIn.
  destruct (child v s) as [w|]; cbn; [apply IH|done].
Qed.

Lemma passHeaders_only names from to k vs :
  passHeaders names from to !! k = Some vs →
  to !! k = Some vs ∨ ∃ name, name ∈ names ∧ k = Header.CanonicalHeaderKey name ∧ vs = [Header.Get from name].
Proof.
  revert to. induction names as [|name names IH]; intros to; cbn; [by left|]. intros [Hto|(n & Hn & Hk)]%IH.
  - case_match; [by left|]. unfold Header.Set_ in Hto.
    destruct (decide (Header.CanonicalHeaderKey name = k)) as [<-|]; [|rewrite lookup_insert_ne in Hto by done; by left].
    rewrite lookup_insert_eq in Hto. injection Hto as <-. right. exists name. split; [left|done].
  - right. exists n. split; [by right|done].
Qed.

(** The URL belongs to the origin: scheme and host of its base up to case,
    and the base path itself or a path that continues it after a slash.  Dot
    segments are not resolved ([asset_parent_directory]). *)
Definition belongsTo (c : OriginClient) (u : URL.URL) : Prop :=
  ∃ base, URL.url_Parse (BaseURL c) = Some base ∧
    EqualFold (URL.Scheme u) (URL.Scheme base) = true ∧ EqualFold (URL.Host u) (URL.Host base) = true ∧
    (TrimSuffixSlash (URL.Path base) = "" ∨ URL.Path u = TrimSuffixSlash (URL.Path base) ∨
     ∃ rest, URL.Path u = (TrimSuffixSlash (URL.Path base) +:+ "/") +:+ rest).

Lemma assetHrefUnderOrigin_belongs href c u :
  assetHrefUnderOrigin href (BaseURL c) = true → URL.url_Parse href = Some u → belongsTo c u.
Proof.
  unfold assetHrefUnderOrigin, belongsTo. intros Ha Hu. rewrite Hu in Ha.
  destruct (URL.url_Parse (BaseURL c)) as [base|]; [|done]. exists base. split; [done|].
  destruct (EqualFold (URL.Scheme u) _); [|done]. destruct (EqualFold (URL.Host u) _); [|done]. split_and!; [done..|].
  cbn [negb] in Ha. apply orb_true_iff in Ha as [[Ha|Ha]%orb_true_iff|Ha]; [left|right; left|right; right].
  - by apply String.eqb_eq.
  - by apply String.eqb_eq.
  - by apply HasPrefix_spec.
Qed.

(** C36: Asset references survive the trip through the client: the reference
    a response hands out for an asset of the origin is one path segment that
    the asset endpoint decodes to the same asset and fetches.  Whatever
    reference the client sends, what is fetched has the scheme and host of
    the origin's base and a path that starts with the base path up to a
    slash (as strings: dot segments are not resolved, see
    [asset_parent_directory]), and the headers sent are the client's [Range],
    [If-Match], [If-None-Match], [If-Modified-Since], [If-Unmodified-Since],
    [Accept], [Accept-Encoding] and [User-Agent], and the request ID. *)
Theorem asset_roundtrip h c r rid href u :
  ph_origins h !! originID c = Some c → Router.o_RewriteAssets (oc_Origin (cl_origin c)) = "proxy" →
  ph_proxyBaseURL h ≠ "" → Method r = "GET" →
  assetHrefUnderOrigin href (BaseURL c) = true → URL.url_Parse href = Some u →
  ∃ ref, rewriteAssetHref h c href = TrimRightSlash (ph_proxyBaseURL h) +:+ "/assets/" +:+ originID c +:+ "/" +:+ ref ∧
    occurs "/" ref = false ∧
    assetRequest h r rid (originID c) ref =
      Ok (c, ForwardRequestID rid (mkOut "GET" u (passHeaders assetRequestPassthroughHeaders (ReqHeader r) ∅) None)) ∧
    ∀ ref' c' out, assetRequest h r rid (originID c) ref' = Ok (c', out) →
      c' = c ∧ (∃ href', Base64.DecodeString ref' = Some href' ∧ URL.url_Parse href' = Some (out_URL out)) ∧
      belongsTo c (out_URL out) ∧ out_Body out = None ∧
      ∀ k vs, out_Header out !! k = Some vs →
        (k = "X-Request-Id" ∧ vs = [rid]) ∨
        (vs = [Header.Get (ReqHeader r) k] ∧
         k ∈ ["Range"; "If-Match"; "If-None-Match"; "If-Modified-Since"; "If-Unmodified-Since"; "Accept";
              "Accept-Encoding"; "User-Agent"]).
Proof.
  intros Hc Hm Hb Hg Hu Hp. exists (Base64.EncodeToString href). unfold rewriteAssetHref, assetRequest.
  rewrite Hm, Hc, Hg. cbn [assetModeOf]. change (assetModeOf "proxy") with AssetProxy. cbv iota beta.
  rewrite (proj2 (String.eqb_neq _ _) Hb), Hu, Hm. change (assetModeOf "proxy") with AssetProxy. cbn [negb].
  rewrite Base64.DecodeString_EncodeToString, Hu, Hp. split_and!; [done|apply Base64.EncodeToString_clean|done|].
  intros ref' c' out. destruct (Base64.DecodeString ref') as [href'|]; [|done].
  destruct (assetHrefUnderOrigin href' (BaseURL c)) eqn:Eu; [|done]. destruct (URL.url_Parse href') as [u'|] eqn:Ep; [|done].
  cbn [negb]. intros [= <- <-].
  set (out := mkOut _ _ _ _). assert (out_URL (ForwardRequestID rid out) = u' ∧ out_Body (ForwardRequestID rid out) = None)
    as [-> ->] by (unfold ForwardRequestID; by destruct (String.eqb rid "")).
  split; [done|]. split; [by exists href'|]. split; [by eapply assetHrefUnderOrigin_belongs|]. split; [done|].
  intros k vs Hk.
  assert (passHeaders assetRequestPassthroughHeaders (ReqHeader r) ∅ !! k = Some vs ∨ (k = "X-Request-Id" ∧ vs = [rid])) as Hk'.
  { unfold ForwardRequestID in Hk. destruct (String.eqb rid ""); [by left|]. cbn in Hk. unfold Header.Set_ in Hk.
    change (Header.CanonicalHeaderKey "X-Request-ID") with "X-Request-Id" in Hk.
    destruct (decide ("X-Request-Id" = k)) as [<-|]; [rewrite lookup_insert_eq in Hk; injection Hk as <-; by right|].
    rewrite lookup_insert_ne in Hk by done. by left. }
  destruct Hk' as [[Hk'|(name & Hn & -> & ->)]%passHeaders_only|Hk']; [by rewrite lookup_empty in Hk'| |by left]. right.
  assert (Header.CanonicalHeaderKey name = name) as ->; [|done].
  unfold assetRequestPassthroughHeaders in Hn. rewrite !elem_of_cons, elem_of_nil in Hn.
  by destruct Hn as [->|[->|[->|[->|[->|[->|[->|[->|[]]]]]]]]].
Qed.

End Proxy.

Module Witness.

#[local] Existing Instance URL.PlainURL.
#[local] Instance plainPrint : URLPrint := {|
  url_String u := URL.Scheme u +:+ "://" +:+ URL.Host u +:+ URL.Path u;
|}.
#[local] Instance toyCrypto : Crypto := {| sha256 s := s; hmac_sha256 k m := k +:+ m |}.
#[local] Instance toySigner : Signer.
Proof. refine {| SignHTTP _ _ _ _ _ _ r := Ok r |}. intros ak sk h svc reg t r r' Hr. injection Hr as <-. done. Defined.
#[local] Instance toyJSON : JSON := {|
  value_Marshal v := match v with VStr s => Some s | VObj ((_, VStr s) :: _) => Some s | _ => None end;
  value_Unmarshal s := if String.eqb s "null" then Some VNil else None;
|}.

Definition origin : Router.Origin :=
  Router.mkOrigin "a" "https://a.example/stac" true [] [] 0 false true "" false false false ∅ "proxy".
Definition config : OriginConfig :=
  mkOriginConfig origin (mkAuthConfig "bearer" "" "" "tok" "" "" false None None ∅) None None 0 4 0 false (PageAdapter.mkConfig "" "" "").
Definition client : OriginClient :=
  mkClient config [] [] (BearerAuthProvider "tok") (URL.mkURL "https" "a.example" "/stac" "") 4 ∅ None.
Definition handler : Handler := mkHandler {["a" := client]} "https://proxy/" None.

Definition inbound (h : Header.header) : request :=
  mkFedRequest (mkRequest "GET" "/search" "collections=x" h "10.0.0.1:99") "proxy" true (Some "") "rid"
    "" "" RequestTypeSearch (Some emptySearchRequest).
Definition sent (h : Header.header) : result string outRequest :=
  outbound (λ _, Some "{}") 0 0 TransportError client (inbound h).
Definition plainHeaders : Header.header := {["User-Agent" := ["c"]; "X-Forwarded-For" := ["1.2.3.4"]]}.
Definition withSecrets : Header.header := <["Authorization" := ["Bearer user"]]> (<["Cookie" := ["s=1"]]> plainHeaders).

(** The origin sees its own token, not the user's. *)
Definition expected : outRequest :=
  mkOut "POST" (URL.mkURL "https" "a.example" "/stac/search" "")
    {["Accept" := [acceptJSON]; "Authorization" := ["Bearer tok"]; "Content-Type" := ["application/json"];
      "User-Agent" := ["c"]; "X-Forwarded-For" := ["10.0.0.1"]; "X-Forwarded-Host" := ["proxy"];
      "X-Forwarded-Proto" := ["https"]; "X-Request-Id" := ["rid"]]} (Some "{}").

Lemma canonical_plain : canonical plainHeaders.
Proof.
  intros k vs Hk%elem_of_dom_2. unfold plainHeaders in Hk. rewrite dom_insert_L, dom_singleton_L in Hk.
  apply elem_of_union in Hk as [->%elem_of_singleton| ->%elem_of_singleton]; vm_compute; reflexivity.
Qed.

Lemma canonical_secret : canonical withSecrets.
Proof.
  intros k vs Hk. unfold withSecrets in Hk.
  apply lookup_insert_Some in Hk as [[<- _]|[_ Hk]]; [vm_compute; reflexivity|].
  apply lookup_insert_Some in Hk as [[<- _]|[_ Hk]]; [vm_compute; reflexivity|]. by eapply canonical_plain.
Qed.

Lemma no_credential_leak_witness : sent withSecrets = sent plainHeaders ∧ sent withSecrets = Ok expected.
Proof.
  split; [|vm_compute; reflexivity].
  refine (no_credential_leak (λ _, Some "{}") 0 0 TransportError client (inbound plainHeaders) withSecrets _ _ _ _).
  - vm_compute. reflexivity.
  - exact canonical_plain.
  - exact canonical_secret.
  - intros k Hk. unfold withSecrets. rewrite !lookup_insert_ne; [reflexivity|intros <-; vm_compute in Hk; discriminate..].
Defined.

Lemma outbound_search_witness : out_Method expected = "POST" ∧ URL.Path (out_URL expected) = "/stac/search".
Proof.
  destruct (outbound_search (λ _, Some "{}") 0 0 TransportError client (inbound plainHeaders) emptySearchRequest expected)
    as (Hm & _ & _ & _ & Hp); [vm_compute; reflexivity..|].
  split; [exact Hm|]. rewrite Hp. vm_compute. reflexivity.
Defined.

Definition two : upstream := mkUpstream 201 ∅ ["ab"; "cd"] false.


Definition asset : string := "https://A.example/stac/t.tif".

Lemma asset_roundtrip_witness :
  ∃ ref, rewriteAssetHref handler client asset = "https://proxy/assets/a/" +:+ ref ∧
    ∃ out, assetRequest handler (mkRequest "GET" "/" "" ∅ "") "" "a" ref = Ok (client, out) ∧
      out_URL out = URL.mkURL "https" "A.example" "/stac/t.tif" "".
Proof.
  destruct (asset_roundtrip handler client (mkRequest "GET" "/" "" ∅ "") "" asset
    (URL.mkURL "https" "A.example" "/stac/t.tif" "")) as (ref & Hr & _ & Ha & _).
  - vm_compute. reflexivity.
  - reflexivity.
  - discriminate.
  - reflexivity.
  - vm_compute. reflexivity.
  - vm_compute. reflexivity.
  - exists ref. split; [exact Hr|]. eexists. split; [exact Ha|reflexivity].
Defined.

(** A longer body aborts the connection under a server; the 502 is reached
    only without one. *)
Lemma oversize_aborts :
  receive true handler client (mkUpstream 200 ∅ ["abcde"] false) = Aborted ∧
  receive false handler client (mkUpstream 200 ∅ ["abcde"] false) = Returned (Ok (tooLarge 4)).
Proof. vm_compute. done. Qed.

(** An asset whose stream breaks off is answered like the shorter asset: the
    error is only logged. *)
Lemma interrupted_asset_looks_whole canceled h r rid id ref :
  ServeAssetHTTP 0 0 TransportError (λ _, Ok (mkUpstream 200 ∅ ["ab"] true)) canceled h r rid id ref =
  ServeAssetHTTP 0 0 TransportError (λ _, Ok (mkUpstream 200 ∅ ["ab"] false)) canceled h r rid id ref.
Proof.
  unfold ServeAssetHTTP. destruct (assetRequest h r rid id ref) as [[c out]|[]]; [|done].
  by destruct (ApplyAuth _ _ _ _ _).1.
Qed.

(** Links of a sibling path, or of another host with the base as a prefix,
    are rewritten to addresses that do not exist. *)
Lemma sibling_link_rewritten :
  rewriteURL handler client "https://a.example/stac2/x" = "https://proxy/2/x" ∧
  rewriteURL handler client "https://a.example/stac.evil/x" = "https://proxy/.evil/x".
Proof. vm_compute. done. Qed.

(** A reference with parent directories leaves the base path. *)
Lemma asset_parent_directory :
  assetHrefUnderOrigin "https://a.example/stac/../admin" "https://a.example/stac" = true.
Proof. vm_compute. done. Qed.

(** Only [X-Api-Key] is a credential header: a key the clients send under
    another name is forwarded. *)
Lemma custom_key_forwarded :
  (λ o, Header.Get (out_Header o) "X-Stac-Key") <$> sent {["X-Stac-Key" := ["user-key"]]} = Ok "user-key".
Proof. vm_compute. reflexivity. Qed.

(** An inbound content type is added to the one that is set. *)
Lemma content_type_twice :
  (λ o, out_Header o !! "Content-Type") <$> sent {["Content-Type" := ["text/x"]]} =
  Ok (Some ["application/json"; "text/x"]).
Proof. vm_compute. reflexivity. Qed.

(** The client's [Accept-Encoding] reaches the origin, and a compressed
    answer is passed on with its links as they are. *)
Lemma compressed_not_rewritten body :
  bodyMayContainRewritableKeys body = false →
  (λ o, Header.Get (out_Header o) "Accept-Encoding") <$> sent {["Accept-Encoding" := ["gzip"]]} = Ok "gzip" ∧
  transformResponse handler client (mkResponse 200 {["Content-Type" := ["application/json"]]} body) =
    mkResponse 200 {["Content-Type" := ["application/json"]]} body.
Proof. intros Hb. split; [vm_compute; reflexivity|]. unfold transformResponse. cbn [resp_Body]. by rewrite Hb. Qed.

(** A document [null] makes the annotation panic. *)
Lemma null_document_panics : injectOriginMetadata "a" "u" (mkResponse 200 ∅ "null") = None.
Proof. vm_compute. reflexivity. Qed.

End Witness.

End Proxy.
