(* ===== verification/Catalog.v ===== *)
(** * The federation handler ([internal/federation/handler.go],
      [catalog.go])

    Construction, dispatch by request type, and the handlers of collections,
    single resources, queryables, conformance and the landing page; the
    searches are those of [SearchHandler], given the parsed request and the
    pass-through of [Proxy].

    Parameters: what the origins answer, [encoding/json], and the iteration
    order of Go maps ([MapRange]). *)

From S2P Require Import Prelude GoLib Breaker Stac Fanout Merger Cursor Store PageCache PageAdapter Pagination Router Httpx.
From S2P Require Import Middleware Auth Cql2 Authz Query Cache SearchHandler Parser OriginAuth OriginClient Proxy.
From Stdlib Require Import Ascii.
Import Strings Values Stac Merger Middleware SearchHandler OriginClient.

Module Catalog.

Record Handler := mkHandler {
  h_proxy : Proxy.Handler;
  h_router : Router.CollectionRouter;
  h_maxConcurrent : Z;
  h_aggregateTimeout : Z;
  h_defaultPageSize : Z;
  h_maxPageSize : Z;
  h_caps : ConformanceCaps;
  h_searcher : option Pagination.PaginatedSearcher;
}.

Definition h_origins (h : Handler) : gmap string OriginClient := Proxy.ph_origins (h_proxy h).
Definition h_proxyBaseURL (h : Handler) : string := Proxy.ph_proxyBaseURL (h_proxy h).

(** ** Construction *)

Record HandlerConfig := mkHandlerConfig {
  hc_Origins : list OriginConfig;
  hc_MaxConcurrent : Z;
  hc_AggregateTimeout : Z;
  hc_ProxyBaseURL : string;
  hc_DefaultPageSize : Z;
  hc_MaxPageSize : Z;
  hc_ConformanceCaps : ConformanceCaps;
  hc_AssetSigner : option (string → Z → string);
  hc_CursorSecret : bytes;
  hc_PageCache : option PageCache.Cache;
}.

Definition orDefault (d x : Z) : Z := if (x <=? 0)%Z then d else x.

(** One origin: the clients and the router grow together. *)
Definition addOrigin `{!URL.GoURL} (acc : result string (gmap string OriginClient * Router.CollectionRouter))
    (o : OriginConfig) : result string (gmap string OriginClient * Router.CollectionRouter) :=
  '(clients, router) ← acc;
  if negb (Router.o_Enabled (oc_Origin o)) then Ok (clients, router) else
  client ← NewOriginClientWithContext o;
  Ok (<[Router.o_ID (oc_Origin o) := client]> clients, Router.Register (oc_Origin o) router).

(** The searcher of an origin: its client, seen through [Pagination]'s
    interface, behind its pagination adapter. *)
Definition searcherOf `{!URL.GoURL, !PageAdapter.BodyCodec} (iface : OriginClient → Pagination.OriginClient)
    (c : OriginClient) : result string Pagination.Searcher :=
  match Pagination.NewOriginClientSearcher (iface c) (oc_Pagination (cl_origin c)) with
  | Ok s => Ok (Pagination.mkSearcher (Pagination.OriginClientSearcher_Search s)
                  (Pagination.client_BaseURL (Pagination.ocs_Client s)))
  | Err _ => Err "pagination adapter"
  end.

Definition addSearcher `{!URL.GoURL, !PageAdapter.BodyCodec} (iface : OriginClient → Pagination.OriginClient)
    (acc : result string (gmap string Pagination.Searcher)) (kv : string * OriginClient)
    : result string (gmap string Pagination.Searcher) :=
  m ← acc; s ← searcherOf iface kv.2; Ok (<[kv.1 := s]> m).

(** Federated pagination needs a cursor secret; without one searches are
    single pages. *)
Definition buildSearcher `{!URL.GoURL, !PageAdapter.BodyCodec, !MapRange} (iface : OriginClient → Pagination.OriginClient)
    (cfg : HandlerConfig) (clients : gmap string OriginClient) : result string (option Pagination.PaginatedSearcher) :=
  if negb (String.eqb (hc_CursorSecret cfg) "") && negb (bool_decide (clients = ∅)) then
    os ← foldl (addSearcher iface) (Ok ∅) (range clients);
    match Pagination.NewPaginatedSearcher os (orDefault 100 (hc_DefaultPageSize cfg))
            (orDefault 1000 (hc_MaxPageSize cfg)) (hc_CursorSecret cfg) (hc_PageCache cfg) with
    | Some p => Ok (Some p)
    | None => Err "paginated searcher"
    end
  else Ok None.

Definition NewHandler `{!URL.GoURL, !PageAdapter.BodyCodec, !MapRange} (iface : OriginClient → Pagination.OriginClient)
    (cfg : HandlerConfig) : result string Handler :=
  '(clients, router) ← foldl addOrigin (Ok (∅, Router.NewCollectionRouter)) (hc_Origins cfg);
  searcher ← buildSearcher iface cfg clients;
  Ok (mkHandler (Proxy.mkHandler clients (hc_ProxyBaseURL cfg) (hc_AssetSigner cfg)) router
        (orDefault 10 (hc_MaxConcurrent cfg)) (orDefault (60 * OriginAuth.second) (hc_AggregateTimeout cfg))
        (orDefault 100 (hc_DefaultPageSize cfg)) (orDefault 1000 (hc_MaxPageSize cfg)) (hc_ConformanceCaps cfg)
        searcher).

(** ** Outcomes *)

Inductive handlerError :=
| Internal (e : Proxy.internalError) | Marshal | AssetRoute
| InvalidSearch (e : Parser.parseError) | Search (e : SearchHandler.handlerError).

(** A handler replies or fails, panics on a nil pointer, or aborts the
    connection. *)
Inductive handled := NilPanic | Abort | Reply (r : result handlerError response).

Definition lift (o : Proxy.outcome) : handled :=
  match o with
  | Proxy.Aborted => Abort
  | Proxy.Returned (Ok r) => Reply (Ok r)
  | Proxy.Returned (Err e) => Reply (Err (Internal e))
  end.

(** A JSON schema document. *)
Abbreviation schema := (list (string * value)).

Section Catalog.
Context `{!MapRange, !DocCodec, !JSON}.

(** The largest [Priority] wins, the first one registered among equals. *)
Definition better (best o : Router.Origin) : Router.Origin :=
  if (Router.o_Priority best <? Router.o_Priority o)%Z then o else best.
Definition primaryOrigin (h : Handler) : option Router.Origin :=
  match Router.EnabledOrigins (h_router h) with
  | [] => None
  | o :: rest => Some (foldl better o rest)
  end.

Definition clientsOf (h : Handler) : list OriginClient := (range (h_origins h)).*2.
Definition OriginIDs (h : Handler) : list string := (range (h_origins h)).*1.
Definition OriginCount (h : Handler) : nat := size (h_origins h).

Variable reverseProxyOnce : string → Proxy.request → Proxy.outcome.

(** [h.reverseProxyOnce(ctx, origin, req)]: a nil origin is dereferenced. *)
Definition proxyTo (o : option Router.Origin) (req : Proxy.request) : handled :=
  match o with None => NilPanic | Some o => lift (reverseProxyOnce (Router.o_ID o) req) end.

(** ** Collections *)

Definition prefixColl (prefix : string) (c : option Collection) : option Collection :=
  (λ c, if String.eqb prefix "" then c else mkCollection (prefix +:+ CollID c) (CollLinks c) (CollRest c)) <$> c.

(** [fetch]: what [GetCollections] of a client does. *)
Definition collectionsOf (baseURL : OriginClient → string)
    (fetch : OriginClient → Fanout.call (result originError (list (option Collection))) string)
    (c : OriginClient) : Fanout.call OriginCollectionsResult string :=
  let o := oc_Origin (cl_origin c) in
  match fetch c with
  | Fanout.Panicked p => Fanout.Panicked p
  | Fanout.Returned (Err e) => Fanout.Returned (mkCollResult (Router.o_ID o) (baseURL c) [] (Some e))
  | Fanout.Returned (Ok colls) =>
      Fanout.Returned (mkCollResult (Router.o_ID o) (baseURL c) (prefixColl (Router.o_CollectionPrefix o) <$> colls) None)
  end.

Definition panickedCollections (baseURL : OriginClient → string) (c : OriginClient) (p : string) : OriginCollectionsResult :=
  mkCollResult (Router.o_ID (oc_Origin (cl_origin c))) (baseURL c) [] (Some (ErrFetch "panicked")).

Definition handleGetCollections (baseURL : OriginClient → string)
    (fetch : OriginClient → Fanout.call (result originError (list (option Collection))) string)
    (marshalColls : list Collection → option bytes) (h : Handler) (req : Proxy.request) : handled :=
  if size (h_origins h) =? 1 then proxyTo (primaryOrigin h) req else
  let results := Fanout.fanOut (collectionsOf baseURL fetch) (panickedCollections baseURL) (clientsOf h) in
  let failed := Pagination.originFailures results
    (λ r, (c_OriginID r, match c_Error r with Some _ => true | None => false end)) in
  match respondIfAllFailed failed (length results) with
  | Some resp => Reply (Ok resp)
  | None =>
      match marshalColls (MergeCollections results) with
      | None => Reply (Err Marshal)
      | Some body =>
          Reply (Ok (markPartial (mkResponse 200 {["Content-Type" := ["application/json"]]} body) failed))
      end
  end.

(** ** One collection or item *)

Definition notFoundResponse (description : string) : response := errorResponse 404 "NotFound" description.

(** The request for one origin, with its collection prefix stripped. *)
Definition requestFor (req : Proxy.request) (o : Router.Origin) : Proxy.request :=
  if negb (String.eqb (Router.o_CollectionPrefix o) "") &&
     HasPrefix (Proxy.fr_Collection req) (Router.o_CollectionPrefix o)
  then Proxy.adaptRequestStripCollectionPrefix req (Router.o_CollectionPrefix o)
  else req.

Fixpoint tryOrigins (annotate : bool) (req : Proxy.request) (description : string) (origins : list Router.Origin)
    : handled :=
  match origins with
  | [] => Reply (Ok (notFoundResponse description))
  | o :: rest =>
      match reverseProxyOnce (Router.o_ID o) (requestFor req o) with
      | Proxy.Aborted => Abort
      | Proxy.Returned (Err _) => tryOrigins annotate req description rest
      | Proxy.Returned (Ok resp) =>
          if (resp_Status resp =? 404)%Z then tryOrigins annotate req description rest
          else if negb (resp_Status resp =? 200)%Z then Reply (Ok resp)
          else if annotate then
            match Proxy.injectOriginMetadata (Router.o_ID o) (Router.o_BaseURL o) resp with
            | None => NilPanic
            | Some resp => Reply (Ok resp)
            end
          else Reply (Ok resp)
      end
  end.

Definition handleSingleResource (h : Handler) (req : Proxy.request) (description : string) : handled :=
  match Router.RouteCollection (h_router h) (Proxy.fr_Collection req) with
  | [] => Reply (Ok (notFoundResponse description))
  | origins => tryOrigins (1 <? size (h_origins h)) req description origins
  end.

Definition handleGetCollection (h : Handler) (req : Proxy.request) : handled :=
  handleSingleResource h req "Collection not found".
Definition handleGetItem (h : Handler) (req : Proxy.request) : handled :=
  handleSingleResource h req "Item not found".

(** ** Queryables *)

Definition propsOf (s : schema) : list (string * value) :=
  match index "properties" s with VObj m => m | _ => [] end.

Definition countProp (acc : gmap string nat * gmap string value) (kv : string * value)
    : gmap string nat * gmap string value :=
  (<[kv.1 := S (default 0 (acc.1 !! kv.1))]> acc.1,
   match acc.2 !! kv.1 with Some _ => acc.2 | None => <[kv.1 := kv.2]> acc.2 end).

Definition countProps (schemas : list schema) : gmap string nat * gmap string value :=
  foldl (λ acc s, foldl countProp acc (propsOf s)) (∅, ∅) schemas.

(** A count equal to the number of schemas keeps a name. *)
Definition keepProps (schemas : list schema) : gmap string value :=
  let '(counts, firstSeen) := countProps schemas in
  map_imap (λ name n, if n =? length schemas then Some (default VNil (firstSeen !! name)) else None) counts.

Definition intersectQueryables (schemas : list schema) (proxyBase path : string) : schema :=
  [("$schema", VStr "https://json-schema.org/draft/2019-09/schema"); ("type", VStr "object");
   ("title", VStr "Queryables"); ("description", VStr "Federated queryables (intersection across origins)");
   ("additionalProperties", VBool false)] ++
  (if String.eqb proxyBase "" then [] else [("$id", VStr (TrimRightSlash proxyBase +:+ path))]) ++
  [("properties", VObj (if bool_decide (schemas = []) then [] else range (keepProps schemas)))].

Definition queryablesPath (collection : string) : string :=
  if String.eqb collection "" then "/queryables" else "/collections/" +:+ collection +:+ "/queryables".

Definition queryablesClients (h : Handler) (collection : string) : list OriginClient :=
  if String.eqb collection "" then clientsOf h
  else omap (λ o, h_origins h !! Router.o_ID o) (Router.Route (h_router h) [collection]).

(** [fetch]: the schema an origin returns for a path, [None] on any
    failure. *)
Definition handleQueryables (fetch : OriginClient → string → Fanout.call (option schema) string)
    (h : Handler) (req : Proxy.request) : handled :=
  let path := queryablesPath (Proxy.fr_Collection req) in
  match queryablesClients h (Proxy.fr_Collection req) with
  | [] => Reply (Ok (errorResponse 503 "ServiceUnavailable" "no origins available for queryables"))
  | [c] => lift (reverseProxyOnce (Router.o_ID (oc_Origin (cl_origin c))) req)
  | clients =>
      let results := Fanout.fanOut (λ c, fetch c path) (λ _ _, None) clients in
      match omap id results with
      | [] => Reply (Ok (errorResponse 503 "ServiceUnavailable" "queryables unavailable from all origins"))
      | schemas =>
          match value_Marshal (VObj (intersectQueryables schemas (h_proxyBaseURL h) path)) with
          | None => Reply (Err Marshal)
          | Some body => Reply (Ok (mkResponse 200 {["Content-Type" := ["application/schema+json"]]} body))
          end
      end
  end.

(** ** Conformance and the landing page *)

(** [fetch]: the classes an origin lists; [None] when it did not answer. *)
Definition advertisedConformance (fetch : OriginClient → Fanout.call (option (list string)) string) (h : Handler)
    : list string :=
  let proxy := ProxyConformanceFor (h_caps h) in
  if size (h_origins h) =? 0 then Intersect proxy [] else
  match omap id (Fanout.fanOut fetch (λ _ _, None) (clientsOf h)) with
  | [] => Intersect proxy []
  | originSets => Intersect proxy originSets
  end.

Definition jsonReply (v : value) : handled :=
  match value_Marshal v with
  | None => Reply (Err Marshal)
  | Some body => Reply (Ok (mkResponse 200 {["Content-Type" := ["application/json"]]} body))
  end.

Definition strings (l : list string) : value := VArr (VStr <$> l).

Definition handleConformance (fetch : OriginClient → Fanout.call (option (list string)) string) (h : Handler) : handled :=
  jsonReply (VObj [("conformsTo", strings (advertisedConformance fetch h))]).

Definition landingLink (base rel path type method title : string) : value :=
  VObj ([("rel", VStr rel); ("href", VStr (base +:+ path)); ("type", VStr type)] ++
        (if String.eqb method "" then [] else [("method", VStr method)]) ++ [("title", VStr title)]).

Definition landingLinks (h : Handler) : list value :=
  let base := TrimRightSlash (h_proxyBaseURL h) in
  [landingLink base "self" "/" "application/json" "" "Landing page";
   landingLink base "root" "/" "application/json" "" "Landing page";
   landingLink base "data" "/collections" "application/json" "" "Collections";
   landingLink base "conformance" "/conformance" "application/json" "" "Conformance";
   landingLink base "search" "/search" "application/geo+json" "GET" "STAC search (GET)";
   landingLink base "search" "/search" "application/geo+json" "POST" "STAC search (POST)"].

Definition handleLanding (fetch : OriginClient → Fanout.call (option (list string)) string) (h : Handler) : handled :=
  jsonReply (VObj [("type", VStr "Catalog"); ("stac_version", VStr "1.0.0"); ("id", VStr "stac-proxy");
    ("description", VStr "Federated STAC proxy"); ("conformsTo", strings (advertisedConformance fetch h));
    ("links", VArr (landingLinks h))]).

Definition handleGenericProxy (h : Handler) (req : Proxy.request) : handled :=
  match primaryOrigin h with
  | None => Reply (Ok (errorResponse 503 "NoOrigins" "No origins available"))
  | Some o => lift (reverseProxyOnce (Router.o_ID o) req)
  end.

(** ** Dispatch *)

(** What the origins answer: their clients' searches, with the order in
    which the goroutines of a fan-out run, and the fetches of the other
    handlers. *)
Record backends := mkBackends {
  b_describe : Cursor.cursorError → string;
  b_client : Router.Origin → SearchRequest → SearchHandler.clientReply;
  b_schedule : list Router.Origin → list SearchHandler.fanEvent;
  b_baseURL : OriginClient → string;
  b_collections : OriginClient → Fanout.call (result originError (list (option Collection))) string;
  b_marshalColls : list Collection → option bytes;
  b_queryables : OriginClient → string → Fanout.call (option schema) string;
  b_conformance : OriginClient → Fanout.call (option (list string)) string;
}.

(** *** Searches *)

Context `{GoTime, !Crypto, !Cursor.CursorCodec, !PageCache.PageCodec, !Pagination.QueryCodec,
  !Pagination.ContextCodec, Store St, !Geo.GeoLib, !Parser.SearchCodec}.

(** The part of the handler the searches read. *)
Definition searchPart (h : Handler) : SearchHandler.Handler :=
  SearchHandler.mkHandler (h_router h) (h_searcher h) (h_proxyBaseURL h) (h_defaultPageSize h) (h_maxPageSize h).

Definition withSearchReq (sr : SearchRequest) (req : Proxy.request) : Proxy.request :=
  Proxy.mkFedRequest (Proxy.fr_Request req) (Proxy.fr_Host req) (Proxy.fr_TLS req) (Proxy.fr_Body req)
    (Proxy.fr_RequestID req) (Proxy.fr_Collection req) (Proxy.fr_ItemID req) (Proxy.fr_RequestType req) (Some sr).

(** The search of the request, parsed here if no tier did. *)
Definition parseSearchRequest (req : Proxy.request) : result Parser.parseError SearchRequest :=
  match Proxy.fr_SearchReq req with
  | Some sr => Ok sr
  | None => (Parser.ParseSearchRequestFromHTTP (Proxy.fr_Request req) (Proxy.fr_Body req)).1
  end.

(** The client's base URL; a routed origin without a client panics. *)
Definition baseURLOf (b : backends) (h : Handler) (o : Router.Origin) : string :=
  from_option (b_baseURL b) "" (h_origins h !! Router.o_ID o).

Definition searched (o : SearchHandler.reply Proxy.outcome * St) : handled * St :=
  (match o.1 with
   | SearchHandler.Passed o => lift o
   | SearchHandler.Built (Ok resp) => Reply (Ok resp)
   | SearchHandler.Built (Err (SearchHandler.SearchFailed Pagination.NilDereference)) => NilPanic
   | SearchHandler.Built (Err e) => Reply (Err (Search e))
   end, o.2).

Definition handleSearch (b : backends) (now : Z) (h : Handler) (principal : option string) (req : Proxy.request)
    (st : St) : handled * St :=
  match parseSearchRequest req with
  | Err e => (Reply (Err (InvalidSearch e)), st)
  | Ok sr =>
      searched (SearchHandler.handleSearch (b_describe b)
        (λ o sr, reverseProxyOnce (Router.o_ID o) (withSearchReq sr req)) (baseURLOf b h) (b_client b) (b_schedule b)
        now (searchPart h) principal (Proxy.fr_Request req) sr st)
  end.

Definition handleItems (b : backends) (now : Z) (h : Handler) (principal : option string) (req : Proxy.request)
    (st : St) : handled * St :=
  if String.eqb (Proxy.fr_Collection req) "" then (Reply (Err (Search SearchHandler.NoCollection)), st) else
  match parseSearchRequest req with
  | Err e => (Reply (Err (InvalidSearch e)), st)
  | Ok sr =>
      searched (SearchHandler.handleItems (b_describe b)
        (λ o sr, reverseProxyOnce (Router.o_ID o) (withSearchReq sr req)) (baseURLOf b h) (b_client b) (b_schedule b)
        now (searchPart h) principal (Proxy.fr_Request req) (Proxy.fr_Collection req) sr st)
  end.

(** The page cache is the only state: the searches read and write it. *)
Definition Handle (b : backends) (now : Z) (h : Handler) (principal : option string) (req : Proxy.request) (st : St)
    : handled * St :=
  match Proxy.fr_RequestType req with
  | RequestTypeSearch => handleSearch b now h principal req st
  | RequestTypeItems => handleItems b now h principal req st
  | RequestTypeQueryables | RequestTypeCollectionQueryables => (handleQueryables (b_queryables b) h req, st)
  | RequestTypeCollections => (handleGetCollections (b_baseURL b) (b_collections b) (b_marshalColls b) h req, st)
  | RequestTypeCollection => (handleGetCollection h req, st)
  | RequestTypeItem => (handleGetItem h req, st)
  | RequestTypeConformance => (handleConformance (b_conformance b) h, st)
  | RequestTypeLanding => (handleLanding (b_conformance b) h, st)
  | RequestTypeAsset => (Reply (Err AssetRoute), st)
  | RequestTypeUnknown => (handleGenericProxy h req, st)
  end.

(** ** [ServeHTTP] *)

Definition copyHeader (w : Header.header) (kv : string * list string) : Header.header :=
  if String.eqb (Header.CanonicalHeaderKey kv.1) "Content-Length" then w
  else foldl (λ w v, Header.Add kv.1 v w) w kv.2.

Definition writeResponse (w : Header.header) (resp : response) : response :=
  let w := foldl copyHeader w (range (resp_Header resp)) in
  let w := if String.eqb (Header.Get w "Content-Type") "" then Header.Set_ "Content-Type" "application/json" w else w in
  mkResponse (if (resp_Status resp =? 0)%Z then 200%Z else resp_Status resp) w (resp_Body resp).

Definition writeFederationError (w : Header.header) (e : handlerError) : response :=
  writeJSONError w
    match e with
    | Internal (Proxy.UnknownOrigin id) => mkJSONError 502 "BadGateway" ("unknown origin: " +:+ id)
    | Internal (Proxy.UpstreamFailed cause) => mkJSONError 502 "BadGateway" ("upstream request failed: " +:+ cause)
    | _ => mkJSONError 500 "InternalError" "internal error"
    end.

(** The handler left the response, or panicked: on a nil pointer, or to
    abort the connection.  [w] holds the headers set before; a panicking
    handler has written nothing. *)
Inductive served := Wrote (resp : response) | Crashed | Closed.

Definition ServeHTTP (b : backends) (now : Z) (h : Handler) (principal : option string) (w : Header.header)
    (info : option STACInfo) (req : STACInfo → Proxy.request) (st : St) : served * St :=
  match info with
  | None => (Wrote (httpError w "missing STAC info" 500), st)
  | Some i =>
      let '(out, st) := Handle b now h principal (req i) st in
      (match out with
       | NilPanic => Crashed
       | Abort => Closed
       | Reply (Err e) => Wrote (writeFederationError w e)
       | Reply (Ok resp) => Wrote (writeResponse w resp)
       end, st)
  end.

End Catalog.

(** ** Lemmas *)

Section Facts.
Context `{!MapRange, !DocCodec, !JSON}.

(** Every origin the router knows satisfies [Q]. *)
Record knows (Q : Router.Origin → Prop) (r : Router.CollectionRouter) : Prop := {
  kn_all : Forall Q (Router.allOrigins r);
  kn_coll : ∀ k l, Router.collectionToOrigins r !! k = Some l → Forall Q l;
  kn_implicit : Forall Q (Router.implicitAllOrigins r);
}.

Lemma Forall_filter {A} (P : A → Prop) (f : A → bool) l : Forall P l → Forall P (List.filter f l).
Proof.
  rewrite !Forall_forall. intros Hp x Hx%list_elem_of_In. apply filter_In in Hx as [Hx _].
  apply Hp. by apply list_elem_of_In.
Qed.

Lemma addMapping_knows (Q : Router.Origin → Prop) o cs m :
  Q o → (∀ k l, m !! k = Some l → Forall Q l) →
  ∀ k l, foldl (Router.addMapping o) m cs !! k = Some l → Forall Q l.
Proof.
  intros Ho. revert m. induction cs as [|c cs IH]; intros m Hm; cbn [foldl]; [done|]. apply IH.
  intros k l. unfold Router.addMapping. cbv zeta.
  destruct (decide (Router.o_CollectionPrefix o +:+ c = k)) as [<-|]; [|rewrite lookup_insert_ne by done; apply Hm].
  rewrite lookup_insert_eq. intros [= <-]. apply Forall_app. split; [|by constructor].
  destruct (m !! _) eqn:E; cbn; [by eapply Hm|constructor].
Qed.

Lemma Register_knows (Q : Router.Origin → Prop) o r : Q o → knows Q r → knows Q (Router.Register o r).
Proof.
  intros Ho [Ha Hc Hi]. unfold Router.Register, Router.recomputeImplicitAllLocked. cbv zeta.
  assert (Hall : Forall Q (if Router.o_Searchable o || negb (Router.noCollections o)
    then Router.allOrigins r ++ [o] else Router.allOrigins r)).
  { case_match; [|done]. apply Forall_app. by repeat constructor. }
  constructor; cbn [Router.allOrigins Router.collectionToOrigins Router.implicitAllOrigins]; [done| |].
  - by apply addMapping_knows.
  - by apply Forall_filter.
Qed.

Lemma knows_impl (P Q : Router.Origin → Prop) r : (∀ o, P o → Q o) → knows P r → knows Q r.
Proof.
  intros Hpq [Ha Hc Hi]. constructor; [by eapply Forall_impl| |by eapply Forall_impl].
  intros k l Hk. eapply Forall_impl; [by eapply Hc|done].
Qed.

Lemma addOrigin_set (Q : Router.Origin → Prop) l set :
  (∀ k o, set !! k = Some o → Q o ∧ Router.o_Enabled o = true) → Forall (λ o, Q o ∧ Router.o_Enabled o = true) l →
  ∀ k o, foldl Router.addOrigin set l !! k = Some o → Q o ∧ Router.o_Enabled o = true.
Proof.
  intros Hs Hl. revert set Hs. induction Hl as [|x l Hx Hl IH]; intros set Hs; cbn [foldl]; [done|].
  apply IH. intros k o. unfold Router.addOrigin.
  destruct (decide (Router.o_ID x = k)) as [<-|]; [|rewrite lookup_insert_ne by done; apply Hs].
  rewrite lookup_insert_eq. by intros [= <-].
Qed.

Lemma Route_knows (Q : Router.Origin → Prop) r colls o :
  knows Q r → o ∈ Router.Route r colls → Q o ∧ Router.o_Enabled o = true.
Proof.
  intros [Ha Hc Hi]. assert (Hf : ∀ f l, Forall Q l → (∀ x, f x = true → Router.o_Enabled x = true) →
    Forall (λ o, Q o ∧ Router.o_Enabled o = true) (List.filter f l)).
  { intros f l Hl Hen. apply Forall_forall. intros x Hx%list_elem_of_In. apply filter_In in Hx as [Hx Hfx].
    split; [|by apply Hen]. rewrite Forall_forall in Hl. by apply Hl, list_elem_of_In. }
  unfold Router.Route. destruct colls as [|c0 colls].
  - intros Hin.
    assert (Hall := Hf (λ o, Router.o_Enabled o && Router.o_Searchable o) (Router.allOrigins r) Ha).
    rewrite Forall_forall in Hall. apply Hall; [|done]. intros x. by destruct (Router.o_Enabled x).
  - intros ([k o'] & -> & Hin%elem_of_range)%list_elem_of_fmap. revert Hin.
    assert (Hset : ∀ cs set, (∀ k o, set !! k = Some o → Q o ∧ Router.o_Enabled o = true) →
      ∀ k o, foldl (Router.routeOne r) set cs !! k = Some o → Q o ∧ Router.o_Enabled o = true).
    { induction cs as [|x cs IH]; intros set Hs; cbn [foldl]; [done|]. apply IH. unfold Router.routeOne.
      apply addOrigin_set; [apply addOrigin_set; [done|]|].
      - apply Hf; [|done]. destruct (Router.collectionToOrigins r !! x) eqn:E; cbn; [by eapply Hc|constructor].
      - apply Hf; [done|]. intros y. by destruct (Router.o_Enabled y). }
    apply (Hset (c0 :: colls) ∅). intros k' o'' Hk. by rewrite lookup_empty in Hk.
Qed.

(** What construction establishes: an origin the router knows is enabled
    and has a client, and clients belong to the origin they are stored
    under. *)
Definition wired (clients : gmap string OriginClient) (router : Router.CollectionRouter) : Prop :=
  knows (λ o, Router.o_Enabled o = true ∧ is_Some (clients !! Router.o_ID o)) router ∧
  ∀ id c, clients !! id = Some c → Router.o_ID (oc_Origin (cl_origin c)) = id ∧ (0 < cl_maxResponseBytes c)%Z.

Lemma client_origin `{!URL.GoURL} o c : NewOriginClientWithContext o = Ok c →
  cl_origin c = o ∧ (0 < cl_maxResponseBytes c)%Z.
Proof.
  unfold NewOriginClientWithContext. intros Hc. destruct (URL.url_Parse _); [|done].
  destruct (OriginAuth.BuildAuthProvider _); [|done]. injection Hc as <-. cbn. split; [done|].
  destruct (Z.leb_spec (oc_MaxResponseBytes o) 0); [done|lia].
Qed.

Lemma wired_add `{!URL.GoURL} os clients router clients' router' :
  wired clients router → foldl addOrigin (Ok (clients, router)) os = Ok (clients', router') → wired clients' router'.
Proof.
  revert clients router. induction os as [|o os IH]; intros clients router Hw; cbn [foldl].
  - by intros [= <- <-].
  - assert (Herr : ∀ e, foldl addOrigin (Err e) os ≠ Ok (clients', router')).
    { intros e. clear. by induction os. }
    cbn. destruct (Router.o_Enabled (oc_Origin o)) eqn:Een; cbn; [|by apply IH].
    destruct (NewOriginClientWithContext o) as [c|e] eqn:Ec; cbn; [|by intros ?%Herr].
    apply client_origin in Ec as [Hco Hmax]. apply IH. destruct Hw as [Hk Hid]. split.
    + apply Register_knows; [by rewrite lookup_insert_eq|]. eapply knows_impl; [|exact Hk].
      intros x [Hx [y Hy]]. split; [done|]. destruct (decide (Router.o_ID (oc_Origin o) = Router.o_ID x)) as [->|];
        [by rewrite lookup_insert_eq|by rewrite lookup_insert_ne, Hy by done].
    + intros id c'. destruct (decide (Router.o_ID (oc_Origin o) = id)) as [<-|]; [|rewrite lookup_insert_ne by done; apply Hid].
      rewrite lookup_insert_eq. intros [= <-]. by rewrite Hco.
Qed.

Lemma addSearcher_dom `{!URL.GoURL, !PageAdapter.BodyCodec} iface l m os :
  foldl (addSearcher iface) (Ok m) l = Ok os → dom os = dom m ∪ list_to_set l.*1.
Proof.
  revert m. induction l as [|[id c] l IH]; intros m; cbn [foldl].
  - intros [= <-]. set_solver.
  - assert (Herr : ∀ e, foldl (addSearcher iface) (Err e) l ≠ Ok os) by (intros e; clear; by induction l).
    cbn. destruct (searcherOf iface c) as [s|e]; cbn; [|by intros ?%Herr]. intros Hf. apply IH in Hf as ->.
    rewrite dom_insert_L. set_solver.
Qed.

(** With a cursor secret every client has a searcher. *)
Lemma buildSearcher_dom `{!URL.GoURL, !PageAdapter.BodyCodec} iface cfg clients searcher :
  buildSearcher iface cfg clients = Ok searcher →
  match searcher with
  | None => hc_CursorSecret cfg = "" ∨ clients = ∅
  | Some p => hc_CursorSecret cfg ≠ "" ∧ dom (Pagination.origins p) = dom clients
  end.
Proof.
  unfold buildSearcher. destruct (String.eqb_spec (hc_CursorSecret cfg) "") as [He|He]; cbn; [intros [= <-]; by left|].
  case_bool_decide as Hc; cbn; [intros [= <-]; by right|].
  destruct (foldl (addSearcher iface) _ _) as [os|e] eqn:Ef; cbn; [|done].
  unfold Pagination.NewPaginatedSearcher. rewrite (proj2 (String.eqb_neq _ _) He). intros [= <-]. cbn. split; [done|].
  apply addSearcher_dom in Ef. rewrite Ef, dom_empty_L, union_empty_l_L.
  apply set_eq. intros id. rewrite elem_of_list_to_set, list_elem_of_fmap, elem_of_dom. split.
  - intros ([id' c] & -> & Hin%elem_of_range). by exists c.
  - intros [c Hc']. exists (id, c). split; [done|]. by apply elem_of_range.
Qed.

(** *** Counting properties *)

Lemma foldl_countProp props acc name :
  NoDup props.*1 →
  (foldl countProp acc props).1 !! name =
    (match get name props with Some _ => Some (S (default 0 (acc.1 !! name))) | None => acc.1 !! name end) ∧
  (foldl countProp acc props).2 !! name = (match acc.2 !! name with Some d => Some d | None => get name props end).
Proof.
  revert acc. induction props as [|[k v] props IH]; intros acc Hnd; cbn [foldl get].
  - split; [done|]. by destruct (acc.2 !! name).
  - apply NoDup_cons in Hnd as [Hni Hnd]. destruct (IH (countProp acc (k, v)) Hnd) as [-> ->].
    unfold countProp. cbn [fst snd]. destruct (String.eqb_spec name k) as [->|Hne].
    + assert (get k props = None) as ->.
      { destruct (get k props) as [w|] eqn:E; [|done]. apply get_In in E. destruct Hni.
        apply list_elem_of_fmap. exists (k, w). split; [done|]. by apply list_elem_of_In. }
      rewrite lookup_insert_eq. split; [done|]. destruct (acc.2 !! k) eqn:E; [by rewrite E|by rewrite lookup_insert_eq].
    + rewrite lookup_insert_ne by done. split; [done|].
      destruct (acc.2 !! k); [done|]. by rewrite lookup_insert_ne by done.
Qed.

Definition declares (name : string) (s : schema) : bool := bool_decide (is_Some (get name (propsOf s))).

Lemma foldl_countProps schemas acc name :
  Forall (λ s, NoDup (propsOf s).*1) schemas →
  let r := foldl (λ acc s, foldl countProp acc (propsOf s)) acc schemas in
  default 0 (r.1 !! name) = default 0 (acc.1 !! name) + length (List.filter (declares name) schemas) ∧
  (is_Some (r.1 !! name) ↔ is_Some (acc.1 !! name) ∨ ∃ s, s ∈ schemas ∧ declares name s = true) ∧
  r.2 !! name = (match acc.2 !! name with Some d => Some d | None => first_some (λ s, get name (propsOf s)) schemas end).
Proof.
  intros Hnd. revert acc. induction Hnd as [|s schemas Hs Hnd IH]; intros acc; cbn [foldl first_some].
  - cbn. split_and!; [lia|set_solver|by destruct (acc.2 !! name)].
  - cbv zeta in *. destruct (IH (foldl countProp acc (propsOf s))) as (Hn & Hd2 & Hf3).
    destruct (foldl_countProp (propsOf s) acc name Hs) as [Hc Hf]. rewrite Hn, Hd2, Hf3, Hc, Hf. clear IH Hn Hd2 Hf3 Hc Hf.
    unfold declares. cbn [List.filter]. destruct (get name (propsOf s)) as [d|] eqn:E.
    + rewrite bool_decide_true by done. cbn. split_and!.
      * lia.
      * split; [intros _; right; exists s; rewrite E; split; [left|done]|intros _; left; done].
      * by destruct (acc.2 !! name).
    + rewrite bool_decide_false by (by intros [? ?]). split_and!; [done| |by destruct (acc.2 !! name)].
      setoid_rewrite elem_of_cons. split; [naive_solver|]. intros [?|(s' & [->|?] & Hd)]; [by left| |right; by exists s'].
      rewrite E in Hd. by apply bool_decide_eq_true in Hd as [? ?].
Qed.

Lemma filter_all {A} (f : A → bool) l : length (List.filter f l) = length l ↔ Forall (λ x, f x = true) l.
Proof.
  induction l as [|x l IH]; cbn; [done|]. pose proof (filter_length_le f l). rewrite Forall_cons, <-IH.
  destruct (f x); cbn; [|lia]. split; [|lia]. intros ?. split; [done|lia].
Qed.

(** ** Properties *)

(** Construction wires every part to the same origins: whatever is
    routed, or chosen as the primary origin, is enabled and has a client
    under its ID, so a routed request never meets an unknown origin; the
    paginated searcher exists exactly when there is a cursor secret and an
    origin, and asks the same origins; the limits are positive. *)
Theorem NewHandler_wired `{!URL.GoURL, !PageAdapter.BodyCodec} iface cfg h :
  NewHandler iface cfg = Ok h →
  (∀ colls o, o ∈ Router.Route (h_router h) colls →
     Router.o_Enabled o = true ∧ is_Some (h_origins h !! Router.o_ID o)) ∧
  (∀ o, primaryOrigin h = Some o → Router.o_Enabled o = true ∧ is_Some (h_origins h !! Router.o_ID o)) ∧
  match h_searcher h with
  | None => hc_CursorSecret cfg = "" ∨ h_origins h = ∅
  | Some p => hc_CursorSecret cfg ≠ "" ∧ dom (Pagination.origins p) = dom (h_origins h)
  end ∧
  (∀ id c, h_origins h !! id = Some c → Router.o_ID (oc_Origin (cl_origin c)) = id ∧ (0 < cl_maxResponseBytes c)%Z) ∧
  (0 < h_maxConcurrent h ∧ 0 < h_aggregateTimeout h ∧ 0 < h_defaultPageSize h ∧ 0 < h_maxPageSize h)%Z.
Proof.
  unfold NewHandler. destruct (foldl addOrigin _ _) as [[clients router]|e] eqn:E; cbn; [|done].
  destruct (buildSearcher iface cfg clients) as [searcher|e] eqn:Es; cbn; [|done]. apply buildSearcher_dom in Es.
  intros [= <-].
  assert (Hw : wired clients router).
  { eapply wired_add; [|exact E]. split; [|intros id c Hc; by rewrite lookup_empty in Hc].
    constructor; cbn; [constructor| |constructor]. intros k l Hk. by rewrite lookup_empty in Hk. }
  destruct Hw as [Hk Hid]. cbn. split_and!; [clear Es|clear Es|exact Es|done|clear Es..]; try (unfold orDefault, OriginAuth.second; case_match; bool_to_prop; lia).
  - intros colls o Ho. by destruct (Route_knows _ _ _ _ Hk Ho) as [[? ?] _].
  - intros o. unfold primaryOrigin. cbn [h_router].
    pose proof (Forall_filter _ Router.o_Enabled _ (kn_all _ _ Hk)) as Hall. unfold Router.EnabledOrigins.
    destruct (List.filter Router.o_Enabled (Router.allOrigins router)) as [|o0 rest]; [done|]. intros [= <-].
    apply Forall_cons in Hall as [Ho0 Hall]. revert o0 Ho0.
    induction Hall as [|x rest Hx Hall IH]; intros o0 Ho0; cbn [foldl]; [done|]. apply IH. unfold better. by case_match.
Qed.

(** A queryable is advertised exactly when every origin that answered
    declares it, with the definition of the first one. *)
Theorem intersectQueryables_spec schemas base path :
  Forall (λ s, NoDup (propsOf s).*1) schemas → schemas ≠ [] →
  ∃ props, index "properties" (intersectQueryables schemas base path) = VObj props ∧ NoDup props.*1 ∧
    ∀ name def, (name, def) ∈ props ↔
      (∀ s, s ∈ schemas → is_Some (get name (propsOf s))) ∧
      first_some (λ s, get name (propsOf s)) schemas = Some def.
Proof.
  intros Hnd Hne. exists (range (keepProps schemas)). split_and!.
  - unfold intersectQueryables. rewrite bool_decide_false by done. by destruct (String.eqb base "").
  - apply NoDup_range.
  - intros name def. rewrite elem_of_range. unfold keepProps, countProps.
    destruct (foldl_countProps schemas (∅, ∅) name Hnd) as (Hn & Hd2 & Hf3). cbv zeta in *.
    destruct (foldl _ (∅, ∅) schemas) as [counts firstSeen]. cbn [fst snd] in *.
    clear Hd2. rewrite lookup_empty in Hn. rewrite lookup_empty in Hf3. cbn in Hn. rewrite map_lookup_imap.
    assert (Hall : (∀ s, s ∈ schemas → is_Some (get name (propsOf s))) ↔
      length (List.filter (declares name) schemas) = length schemas).
    { rewrite filter_all, Forall_forall. unfold declares. by setoid_rewrite bool_decide_eq_true. }
    rewrite Hall, Hf3. clear Hall. split.
    + destruct (counts !! name) as [n|] eqn:Ec; cbn in *; [|done]. subst n.
      destruct (Nat.eqb_spec (length (List.filter (declares name) schemas)) (length schemas)) as [Hl|]; [|done].
      intros [= <-]. split; [done|].
      destruct (first_some _ schemas) as [d|] eqn:Ef; [done|]. exfalso.
      destruct schemas as [|s schemas]; [done|]. apply filter_all, Forall_cons in Hl as [Hs _].
      unfold declares in Hs. apply bool_decide_eq_true in Hs as [d Hd]. cbn in Ef. by rewrite Hd in Ef.
    + intros [Hl Hf]. destruct (counts !! name) as [n|] eqn:Ec; cbn in *.
      * subst n. by rewrite Hl, Nat.eqb_refl, Hf.
      * destruct schemas; [done|]. cbn in *. lia.
Qed.

(** The advertised conformance is honest: a class is listed exactly when
    the proxy supports it and every origin that answered lists it; the list
    is sorted. *)
Theorem conformance_honest fetch h :
  (∀ class, class ∈ advertisedConformance fetch h ↔
     class ∈ ProxyConformanceFor (h_caps h) ∧
     ∀ id c classes, h_origins h !! id = Some c → fetch c = Fanout.Returned (Some classes) → class ∈ classes) ∧
  sorted_by ltb (advertisedConformance fetch h).
Proof.
  set (sets := omap id (Fanout.fanOut fetch (λ _ _, None) (clientsOf h))).
  assert (Hsets : ∀ o, o ∈ sets ↔ ∃ id c, h_origins h !! id = Some c ∧ fetch c = Fanout.Returned (Some o)).
  { intros o. unfold sets, Fanout.fanOut, clientsOf. rewrite list_elem_of_omap. unfold id.
    setoid_rewrite list_elem_of_fmap. split.
    - intros (oc & (c & -> & Hc) & Ho). unfold Fanout.slot in Ho.
      destruct (proj1 (list_elem_of_fmap _ _ _) Hc) as ([id' c'] & -> & Hin%elem_of_range). cbn in Ho |- *.
      exists id', c'. split; [done|]. destruct (fetch c'); [by subst|done].
    - intros (id' & c & Hc & Hf). exists (Some o). split; [|done]. exists c. unfold Fanout.slot. rewrite Hf.
      split; [done|]. apply list_elem_of_fmap. exists (id', c). split; [done|]. by apply elem_of_range. }
  assert (Hadv : advertisedConformance fetch h = Intersect (ProxyConformanceFor (h_caps h)) sets).
  { unfold advertisedConformance. fold sets. destruct (Nat.eqb_spec (size (h_origins h)) 0) as [Hz|_]; [|by destruct sets].
    apply map_size_empty_inv in Hz. destruct sets as [|o l]; [done|].
    destruct (proj1 (Hsets o)) as (id' & c & Hc & _); [left|]. by rewrite Hz, lookup_empty in Hc. }
  rewrite Hadv. destruct (Intersect_spec (ProxyConformanceFor (h_caps h)) sets) as (Hi & Hs & _).
  split; [|done]. intros class. rewrite Hi. setoid_rewrite Hsets. naive_solver.
Qed.

Variable reverseProxyOnce : string → Proxy.request → Proxy.outcome.

(** The origin whose answer counts: the first routed one that neither fails
    nor answers 404. *)
Definition passes (req : Proxy.request) (o : Router.Origin) : bool :=
  match reverseProxyOnce (Router.o_ID o) (requestFor req o) with
  | Proxy.Aborted => false
  | Proxy.Returned (Err _) => true
  | Proxy.Returned (Ok resp) => (resp_Status resp =? 404)%Z
  end.

Lemma single_resource_first h req description :
  handleSingleResource reverseProxyOnce h req description =
  match List.find (λ o, negb (passes req o)) (Router.RouteCollection (h_router h) (Proxy.fr_Collection req)) with
  | None => Reply (Ok (notFoundResponse description))
  | Some o =>
      match reverseProxyOnce (Router.o_ID o) (requestFor req o) with
      | Proxy.Returned (Ok resp) =>
          if (resp_Status resp =? 200)%Z && (1 <? size (h_origins h)) then
            match Proxy.injectOriginMetadata (Router.o_ID o) (Router.o_BaseURL o) resp with
            | None => NilPanic
            | Some resp => Reply (Ok resp)
            end
          else Reply (Ok resp)
      | _ => Abort
      end
  end.
Proof.
  unfold handleSingleResource. generalize (1 <? size (h_origins h)) as annotate. intros annotate.
  generalize (Router.RouteCollection (h_router h) (Proxy.fr_Collection req)) as l. intros l.
  enough (Ht : tryOrigins reverseProxyOnce annotate req description l = match List.find (λ o, negb (passes req o)) l with
    | None => Reply (Ok (notFoundResponse description))
    | Some o => match reverseProxyOnce (Router.o_ID o) (requestFor req o) with
      | Proxy.Returned (Ok resp) =>
          if (resp_Status resp =? 200)%Z && annotate then
            match Proxy.injectOriginMetadata (Router.o_ID o) (Router.o_BaseURL o) resp with
            | None => NilPanic | Some resp => Reply (Ok resp) end
          else Reply (Ok resp)
      | _ => Abort end end) by (rewrite <-Ht; by destruct l).
  induction l as [|o l IH]; cbn [tryOrigins List.find]; [done|]. unfold passes at 1.
  destruct (reverseProxyOnce _ _) as [|[resp|e]] eqn:E; cbn [negb]; [by rewrite E| |exact IH].
  destruct (resp_Status resp =? 404)%Z eqn:E4; cbn [negb]; [exact IH|]. rewrite E.
  by destruct (resp_Status resp =? 200)%Z, annotate.
Qed.

(** *** Who closes the connection *)

(** The pass-through alone aborts: a handler over one that never does never
    does. *)
Section Aborts.
Context `{GoTime, !Crypto, !Cursor.CursorCodec, !PageCache.PageCodec, !Pagination.QueryCodec,
  !Pagination.ContextCodec, Store St, !Geo.GeoLib, !Parser.SearchCodec}.
Hypothesis Hrp : ∀ id req, reverseProxyOnce id req ≠ Proxy.Aborted.

Lemma lift_answers id req : lift (reverseProxyOnce id req) ≠ Abort.
Proof. pose proof (Hrp id req). by destruct (reverseProxyOnce id req) as [|[]]. Qed.

Lemma single_answers h req description : handleSingleResource reverseProxyOnce h req description ≠ Abort.
Proof.
  rewrite single_resource_first. destruct (List.find _ _) as [o|] eqn:E; [|done].
  apply List.find_some in E as [_ E]. unfold passes in E. pose proof (Hrp (Router.o_ID o) (requestFor req o)).
  destruct (reverseProxyOnce _ _) as [|[resp|e]]; [done| |done]. repeat case_match; done.
Qed.

Lemma searched_answers describe baseURL client schedule now h principal r sr (st : St) req :
  (searched (SearchHandler.handleSearch describe (λ o sr, reverseProxyOnce (Router.o_ID o) (withSearchReq sr req))
     baseURL client schedule now h principal r sr st)).1 ≠ Abort.
Proof.
  unfold SearchHandler.handleSearch. destruct (Router.Route _ _) as [|o [|o' os]]; cbn.
  - by repeat case_match.
  - apply lift_answers.
  - destruct (SearchHandler.h_searcher h); [destruct (SearchHandler.paginatedBranch _ _ _ _ _ _ _) as [[|[| [] |]]]; done|].
    cbn. by repeat case_match.
Qed.

Lemma Handle_answers b now h principal req (st : St) :
  (Handle reverseProxyOnce b now h principal req st).1 ≠ Abort.
Proof.
  unfold Handle. destruct (Proxy.fr_RequestType req); cbn [fst].
  - unfold handleGenericProxy. destruct (primaryOrigin h); [apply lift_answers|done].
  - unfold handleLanding, jsonReply. by case_match.
  - unfold handleConformance, jsonReply. by case_match.
  - unfold handleGetCollections, proxyTo. repeat case_match; try done. apply lift_answers.
  - apply single_answers.
  - unfold handleItems, SearchHandler.handleItems. destruct (String.eqb _ _); [done|].
    destruct (parseSearchRequest req); [apply searched_answers|done].
  - apply single_answers.
  - unfold handleSearch. destruct (parseSearchRequest req); [apply searched_answers|done].
  - unfold handleQueryables. destruct (queryablesClients _ _) as [|c [|c' cs]]; [done|apply lift_answers|].
    cbv zeta. repeat case_match; done.
  - unfold handleQueryables. destruct (queryablesClients _ _) as [|c [|c' cs]]; [done|apply lift_answers|].
    cbv zeta. repeat case_match; done.
  - done.
Qed.
End Aborts.

End Facts.

Module Witness.

#[local] Existing Instance URL.PlainURL.
#[local] Instance toyJSON : JSON := {| value_Marshal _ := Some "{}"; value_Unmarshal _ := None |}.
#[local] Instance toyDoc : DocCodec := {| doc_Marshal _ := Some "{}"; error_Marshal code _ := code |}.

Definition origin (id : string) (priority : Z) (searchable : bool) (prefix : string) : OriginConfig :=
  mkOriginConfig
    (Router.mkOrigin id ("https://" +:+ id) true [] [] priority false searchable prefix false false false ∅ "")
    (OriginAuth.mkAuthConfig "" "" "" "" "" "" false None None ∅) None None 0 100 0 false
    (PageAdapter.mkConfig "" "" "").
Definition config (os : list OriginConfig) : HandlerConfig := mkHandlerConfig os 0 0 "" 0 0 (mkCaps false false) None "key" None.
#[local] Instance noBody : PageAdapter.BodyCodec := {| PageAdapter.body_Marshal _ := None |}.
Definition iface (c : OriginClient) : Pagination.OriginClient := Pagination.mkClient (λ _, Ok (None, ∅)) (Router.o_BaseURL (oc_Origin (cl_origin c))).
Definition two : list OriginConfig := [origin "a" 1 true ""; origin "b" 10 true ""].
Definition get_ (path coll : string) (rt : RequestType) : Proxy.request :=
  Proxy.mkFedRequest (mkRequest "GET" path "" ∅ "") "" false None "" coll "" rt None.

(** The handler a configuration builds. *)
Definition built (os : list OriginConfig) : option Handler :=
  match NewHandler iface (config os) with Ok h => Some h | Err _ => None end.

Lemma NewHandler_wired_witness :
  ∃ h, NewHandler iface (config two) = Ok h ∧ Router.o_ID <$> Router.Route (h_router h) [] = ["a"; "b"] ∧ is_Some (h_searcher h) ∧
    ∀ colls o, o ∈ Router.Route (h_router h) colls → is_Some (h_origins h !! Router.o_ID o).
Proof.
  destruct (NewHandler iface (config two)) as [h|e] eqn:E; [|exfalso; vm_compute in E; discriminate].
  assert (H : match built two with
    | Some h' => Router.o_ID <$> Router.Route (h_router h') [] = ["a"; "b"] ∧ is_Some (h_searcher h')
    | None => False end) by (split; vm_compute; [reflexivity|eexists; reflexivity]).
  unfold built in H. rewrite E in H. destruct H as [Hr Hs].
  exists h. split; [reflexivity|]. split; [exact Hr|]. split; [exact Hs|].
  intros colls o Ho. exact (proj2 (proj1 (NewHandler_wired iface (config two) h E) colls o Ho)).
Defined.

Definition schemaOf (names : list string) : list (string * value) :=
  [("properties", VObj ((λ n, (n, VStr n)) <$> names))].

Lemma intersectQueryables_spec_witness :
  ∃ props, index "properties" (intersectQueryables [schemaOf ["x"; "y"]; schemaOf ["y"; "z"]] "" "/queryables") = VObj props ∧
    (("y", VStr "y") ∈ props) ∧ ¬ ("x", VStr "x") ∈ props.
Proof.
  destruct (intersectQueryables_spec [schemaOf ["x"; "y"]; schemaOf ["y"; "z"]] "" "/queryables") as (props & Hp & _ & Hs).
  - apply (bool_decide_unpack _). vm_compute. exact I.
  - discriminate.
  - exists props. split; [exact Hp|]. split.
    + apply Hs. split; [|reflexivity]. intros s Hin.
      apply elem_of_cons in Hin as [->|Hin]; [by eexists|].
      apply elem_of_cons in Hin as [->|Hin]; [by eexists|by apply elem_of_nil in Hin].
    + intros [Hall _]%Hs. destruct (Hall (schemaOf ["y"; "z"])) as [d Hd]; [right; left|discriminate Hd].
Defined.

(** Every origin that fails makes the resource look absent. *)
Lemma outage_is_404 :
  (λ h, handleGetItem (λ _ _, Proxy.Returned (Err (Proxy.UpstreamFailed "down"))) h
          (get_ "/collections/c/items/i" "c" RequestTypeItem)) <$> built two =
  Some (Reply (Ok (notFoundResponse "Item not found"))).
Proof. vm_compute. reflexivity. Qed.

(** The primary origin has the largest priority number; candidates for a
    collection come in the order of the map, whatever their priorities. *)
Lemma priorities :
  (λ h, (Router.o_ID <$> primaryOrigin h, Router.o_ID <$> Router.RouteCollection (h_router h) "c")) <$> built two =
  Some (Some "b", ["a"; "b"]).
Proof. vm_compute. reflexivity. Qed.

(** A single origin that is neither searchable nor has a collection list is
    not in the router: listing collections dereferences nil. *)
Lemma unsearchable_panics :
  (λ h, handleGetCollections (λ _ _, Proxy.Aborted) (λ _, "") (λ _, Fanout.Returned (Ok [])) (λ _, Some "{}") h
          (get_ "/collections" "" RequestTypeCollections)) <$> built [origin "a" 1 false ""] = Some NilPanic.
Proof. vm_compute. reflexivity. Qed.

(** The queryables of a prefixed collection are asked for under the prefixed
    name, which the origin does not know; the item handlers strip it. *)
Lemma queryables_keep_prefix :
  (λ h, handleQueryables
          (λ id r, Proxy.Returned (Ok (mkResponse 200 ∅ (URLPath (Proxy.fr_Request r)))))
          (λ _ _, Fanout.Returned None) h
          (get_ "/collections/p-c/queryables" "p-c" RequestTypeCollectionQueryables)) <$> built [origin "a" 1 true "p-"] =
    Some (Reply (Ok (mkResponse 200 ∅ "/collections/p-c/queryables"))) ∧
  URLPath (Proxy.fr_Request (requestFor (get_ "/collections/p-c/items/i" "p-c" RequestTypeItem)
    (oc_Origin (origin "a" 1 true "p-")))) = "/collections/c/items/i".
Proof. vm_compute. done. Qed.

End Witness.

End Catalog.
