(* ===== verification/Opa.v ===== *)
(** * The embedded policy engine ([internal/middleware/authz/opa.go],
      [opa_embedded.go])

    How the result of a Rego evaluation becomes an authorization decision:
    the allow signal, the reasons and the constraints, and how policies are
    loaded and reloaded.

    Parameters: the Rego compiler and evaluator ([Rego]), the JSON encoding
    of [AuthzInput] ([InputCodec]), and the policy files ([readFile]).  A
    number of a result is a [json.Number]; it is [VInt] here when [Int64]
    accepts its text and [VFloat] otherwise. *)

From S2P Require Import Prelude GoLib Stac Cursor Middleware Auth Cql2 Authz.
From Stdlib Require Import Ascii.
Import Strings Values Stac Middleware Cql2 Geo Authz.

Module Opa.

(** ** Constraints *)

(** The strings of a list; other elements are skipped, and anything that is
    not a list counts as empty. *)
Definition stringsIn (v : value) : list string :=
  match v with VArr l => omap as_string l | _ => [] end.

Definition toInt (v : value) : Z :=
  match v with VInt z => z | VFloat f => int64_of_float f | _ => 0 end.

Definition parseGeofence (g : list (string * value)) : GeofenceConstraint :=
  mkGeofence (index "allowed_area" g) (index "denied_area" g)
    (match index "filter_mode" g with VBool b => b | _ => false end)
    (default "" (as_string (index "geometry_property" g))).

Definition parseOPAConstraints (raw : list (string * value)) : AuthzConstraints :=
  mkConstraints (stringsIn (index "allowed_collections" raw)) (stringsIn (index "denied_collections" raw))
    (parseGeofence <$> as_object (index "geofence" raw))
    (toInt (index "max_results" raw))
    (default [] (as_object (index "required_filters" raw)))
    (default "" (as_string (index "cql2_filter" raw)))
    (index "cql2_filter_json" raw)
    false.

(** ** Results *)

Inductive opaError := InputFailed | EvalFailed | MissingAllow (query : string).

(** The package's own map, or its [result] member when that one carries
    [allow]. *)
Definition unwrap (v : list (string * value)) : list (string * value) :=
  match index "result" v with
  | VObj r => if bool_decide (is_Some (get "allow" r)) then r else v
  | _ => v
  end.

(** The decision so far and whether [allow] was seen. *)
Definition addExpression (acc : AuthzDecision * bool) (value : value) : AuthzDecision * bool :=
  let '(d, seen) := acc in
  match value with
  | VBool b => (mkDecision b (Reasons d) (Constraints d) (Final d), true)
  | VObj v =>
      let v := unwrap v in
      let '(allowed, seen) := match index "allow" v with VBool b => (b, true) | _ => (Allowed d, seen) end in
      (mkDecision allowed (Reasons d ++ stringsIn (index "reasons" v))
         (match index "constraints" v with VObj c => Some (parseOPAConstraints c) | _ => Constraints d end)
         (Final d), seen)
  | _ => acc
  end.

Definition parseEmbeddedResult (expressions : list value) (query : string) : result opaError AuthzDecision :=
  let '(d, seen) := foldl addExpression (mkDecision false [] None false, false) expressions in
  if negb seen then Err (MissingAllow query) else
  Ok (match Reasons d with
      | [] => mkDecision (Allowed d) [if Allowed d then "allowed by policy" else "denied by policy"]
                (Constraints d) (Final d)
      | _ => d
      end).

(** ** The enforcer *)

Class Rego := {
  prepared : Type;
  PrepareForEval : string → gmap string string → option prepared;    (* query, modules *)
  Eval : prepared → list (string * value) → option (list (list value));
}.

Class InputCodec := { input_Marshal : AuthzInput → option bytes }.

Record EmbeddedOPAConfig := mkOPAConfig {
  oc_Name : string;
  oc_PolicyPath : string;
  oc_PolicyPaths : list string;
  oc_Query : string;
  oc_Modules : gmap string string;
}.

Definition dq : string := String "034" "".
Definition nl : string := String "010" "".

Definition defaultPolicy : string :=
  nl +:+ "package stac.authz" +:+ nl +:+ nl +:+
  "default allow = false" +:+ nl +:+ nl +:+
  "result = {" +:+ nl +:+
  "    " +:+ dq +:+ "allow" +:+ dq +:+ ": allow," +:+ nl +:+
  "    " +:+ dq +:+ "reasons" +:+ dq +:+ ": reasons," +:+ nl +:+
  "    " +:+ dq +:+ "constraints" +:+ dq +:+ ": constraints" +:+ nl +:+
  "}" +:+ nl +:+ nl +:+
  "reasons[msg] {" +:+ nl +:+ "    allow" +:+ nl +:+
  "    msg := " +:+ dq +:+ "allowed by operator policy" +:+ dq +:+ nl +:+ "}" +:+ nl +:+ nl +:+
  "reasons[msg] {" +:+ nl +:+ "    not allow" +:+ nl +:+
  "    msg := " +:+ dq +:+ "denied by default fail-closed policy (no operator policy supplied)" +:+ dq +:+ nl +:+
  "}" +:+ nl +:+ nl +:+ "constraints = {}" +:+ nl.

Section Enforcer.
Context `{!Rego, !InputCodec, !JSON}.

Record EmbeddedOPAEnforcer := mkEnforcer {
  e_query : prepared;
  e_name : string;
  e_policyPath : string;
  e_queryString : string;
  e_missingAllowWarned : bool;
}.

(** The loop over [PolicyPaths]; [None] when a file cannot be read. *)
Definition loadModule (readFile : string → option string) (modules : option (gmap string string)) (path : string)
    : option (gmap string string) :=
  m ← modules; content ← readFile path; Some (<[path := content]> m).

Definition collectModules (readFile : string → option string) (cfg : EmbeddedOPAConfig)
    : option (gmap string string) :=
  let paths := (if String.eqb (oc_PolicyPath cfg) "" then [] else [oc_PolicyPath cfg]) ++ oc_PolicyPaths cfg in
  files ← foldl (loadModule readFile) (Some ∅) paths;
  let modules := oc_Modules cfg ∪ files in
  Some (if bool_decide (modules = ∅) then {["default.rego" := defaultPolicy]} else modules).

Definition queryOf (cfg : EmbeddedOPAConfig) : string :=
  if String.eqb (oc_Query cfg) "" then "data.stac.authz" else oc_Query cfg.

Definition prepareQuery (query : string) (modules : gmap string string) : option prepared := PrepareForEval query modules.

Definition NewEmbeddedOPAEnforcer (readFile : string → option string) (cfg : EmbeddedOPAConfig)
    : option EmbeddedOPAEnforcer :=
  modules ← collectModules readFile cfg;
  q ← prepareQuery (queryOf cfg) modules;
  Some (mkEnforcer q (oc_Name cfg) (oc_PolicyPath cfg) (queryOf cfg) false).

Definition structToMap (input : AuthzInput) : option (list (string * value)) :=
  data ← input_Marshal input; v ← value_Unmarshal data; as_object v.

(** The decision, and the enforcer with its once-only warning latched. *)
Definition Authorize (e : EmbeddedOPAEnforcer) (input : AuthzInput)
    : result opaError AuthzDecision * EmbeddedOPAEnforcer :=
  match structToMap input with
  | None => (Err InputFailed, e)
  | Some m =>
      match Eval (e_query e) m with
      | None => (Err EvalFailed, e)
      | Some [] => (Ok (mkDecision false ["no policy result"] None false), e)
      | Some (r :: _) =>
          match parseEmbeddedResult r (e_queryString e) with
          | Ok d => (Ok d, e)
          | Err err => (Err err, mkEnforcer (e_query e) (e_name e) (e_policyPath e) (e_queryString e) true)
          end
      end
  end.

(** Recompiles from the one policy file; [None] is an error, which leaves
    the enforcer as it was. *)
Definition ReloadPolicy (readFile : string → option string) (e : EmbeddedOPAEnforcer)
    : option EmbeddedOPAEnforcer :=
  if String.eqb (e_policyPath e) "" then Some e else
  content ← readFile (e_policyPath e);
  q ← prepareQuery (e_queryString e) {[e_policyPath e := content]};
  Some (mkEnforcer q (e_name e) (e_policyPath e) (e_queryString e) (e_missingAllowWarned e)).

(** As the [Enforcer] of the middleware. *)
Definition enforcer (e : EmbeddedOPAEnforcer) (input : AuthzInput) : option AuthzDecision :=
  match (Authorize e input).1 with Ok d => Some d | Err _ => None end.
End Enforcer.

(** ** What a policy says *)

(** The allow signal of one expression of the result. *)
Definition allowSignal (v : value) : option bool :=
  match v with
  | VBool b => Some b
  | VObj m => match index "allow" (unwrap m) with VBool b => Some b | _ => None end
  | _ => None
  end.

Definition constraintsOf (v : value) : option AuthzConstraints :=
  match v with
  | VObj m => match index "constraints" (unwrap m) with VObj c => Some (parseOPAConstraints c) | _ => None end
  | _ => None
  end.

Lemma addExpression_spec d seen v :
  let '(d', seen') := addExpression (d, seen) v in
  Allowed d' = default (Allowed d) (allowSignal v) ∧
  Constraints d' = match constraintsOf v with Some c => Some c | None => Constraints d end ∧
  seen' = (seen || bool_decide (is_Some (allowSignal v))).
Proof.
  destruct v as [| b | z | f | s | l | m]; cbn; rewrite ?orb_false_r, ?orb_true_r; try done.
  destruct (index "allow" (unwrap m)); cbn; rewrite ?orb_false_r, ?orb_true_r;
    destruct (index "constraints" (unwrap m)); done.
Qed.

Lemma last_cons_default {A} (x : A) l : last (x :: l) = Some (default x (last l)).
Proof. rewrite last_cons. by destruct (last l). Qed.

Lemma foldl_addExpression es d seen :
  let '(d', seen') := foldl addExpression (d, seen) es in
  Allowed d' = default (Allowed d) (last (omap allowSignal es)) ∧
  Constraints d' = match last (omap constraintsOf es) with Some c => Some c | None => Constraints d end ∧
  seen' = (seen || nonEmpty (omap allowSignal es)).
Proof.
  revert d seen. induction es as [|v es IH]; intros d seen; cbn -[addExpression allowSignal constraintsOf].
  { by rewrite orb_false_r. }
  pose proof (addExpression_spec d seen v) as Hv.
  destruct (addExpression (d, seen) v) as [d1 seen1]. destruct Hv as (Ha & Hc & Hs).
  specialize (IH d1 seen1). destruct (foldl _ _ es) as [d' seen']. destruct IH as (IHa & IHc & IHs).
  split_and!.
  - rewrite IHa, Ha. destruct (allowSignal v) as [b|]; [|done]. rewrite last_cons_default.
    by destruct (last (omap allowSignal es)).
  - rewrite IHc, Hc. destruct (constraintsOf v) as [c|]; [|done]. rewrite last_cons_default.
    by destruct (last (omap constraintsOf es)).
  - rewrite IHs, Hs. by destruct (allowSignal v), seen; cbn; rewrite ?orb_true_r.
Qed.

Lemma parseEmbeddedResult_spec es q :
  match parseEmbeddedResult es q with
  | Ok d => last (omap allowSignal es) = Some (Allowed d) ∧ Constraints d = last (omap constraintsOf es) ∧
            Reasons d ≠ []
  | Err err => err = MissingAllow q ∧ omap allowSignal es = []
  end.
Proof.
  unfold parseEmbeddedResult.
  pose proof (foldl_addExpression es (mkDecision false [] None false) false) as Hf.
  destruct (foldl _ _ es) as [d seen]. destruct Hf as (Ha & Hc & Hs). cbn in Ha, Hc, Hs.
  destruct seen; cbn.
  - assert (last (omap allowSignal es) = Some (Allowed d)) as Hl.
    { rewrite Ha. destruct (omap allowSignal es) as [|b l]; [done|]. by rewrite last_cons_default. }
    assert (Constraints d = last (omap constraintsOf es)) as Hc'.
    { rewrite Hc. by destruct (last (omap constraintsOf es)). }
    destruct (Reasons d) eqn:Er; cbn; rewrite ?Er; split_and!; done.
  - split; [done|]. by destruct (omap allowSignal es).
Qed.

(** *** The contract of a policy result, on the raw JSON

    Stated on the members of the result itself, without the parser. *)

(** The object an expression speaks through: its own map, or the [result]
    member when that is an object with an [allow] member. *)
Inductive speaks : value → list (string * value) → Prop :=
| speaks_result m r : get "result" m = Some (VObj r) → get "allow" r ≠ None → speaks (VObj m) r
| speaks_self m : (∀ r, get "result" m = Some (VObj r) → get "allow" r = None) → speaks (VObj m) m.

Inductive saysAllow : value → bool → Prop :=
| says_bool b : saysAllow (VBool b) b
| says_member v m b : speaks v m → get "allow" m = Some (VBool b) → saysAllow v b.

Inductive saysConstraints : value → list (string * value) → Prop :=
| says_constraints v m c : speaks v m → get "constraints" m = Some (VObj c) → saysConstraints v c.

(** The last expression that says anything of a kind says [x]. *)
Definition lastSays {A} (says : value → A → Prop) (es : list value) (x : A) : Prop :=
  ∃ before v after, es = before ++ v :: after ∧ says v x ∧ ∀ w y, w ∈ after → ¬ says w y.

(** A search that obeys a raw constraints object.  An [allowed_collections]
    without a string in it constrains nothing. *)
Record obeys `{!GeoLib, !Cql2Geo, !ParseFloat, !Cql2Lib, !JSON} (raw : list (string * value)) (inject : bool)
    (sr sr' : SearchRequest) : Prop := {
  ob_allowed : ∀ l, get "allowed_collections" raw = Some (VArr l) → (∃ x, VStr x ∈ l) →
    Collections sr' ≠ [] ∧ ∀ x, x ∈ Collections sr' → VStr x ∈ l;
  ob_denied : ∀ l x, get "denied_collections" raw = Some (VArr l) → VStr x ∈ l → x ∉ Collections sr';
  ob_requested : Collections sr ≠ [] → Collections sr' ≠ [] ∧ ∀ x, x ∈ Collections sr' → x ∈ Collections sr;
  ob_limit : ∀ n, get "max_results" raw = Some (VInt n) → (0 < n)%Z → (0 < Limit sr' ≤ n)%Z;
  ob_filter : inject = true → ∀ f, get "cql2_filter" raw = Some (VStr f) → f ≠ "" → get "cql2_filter_json" raw = None →
    ∃ p e', cql2_Parse f = Some p ∧ parseUserCQL2 (Filter sr') = Ok e' ∧ ∀ item, optHolds e' item → holds p item;
}.

Lemma speaks_unwrap m r : speaks (VObj m) r ↔ r = unwrap m.
Proof.
  unfold unwrap, index. split.
  - inversion 1 as [m' r' Hr Ha|m' Hr]; subst.
    + rewrite Hr. cbn. rewrite bool_decide_true; [done|]. by destruct (get "allow" r).
    + destruct (get "result" r) as [[]|] eqn:E; cbn; try done. rewrite bool_decide_false; [done|].
      rewrite (Hr _ eq_refl). by intros [? ?].
  - intros ->. destruct (get "result" m) as [v|] eqn:E; [destruct v as [| | | | | |r]|]; cbn; try (apply speaks_self; congruence).
    case_bool_decide as Hd; [apply speaks_result; [done|by destruct Hd as [? ->]]|].
    apply speaks_self. intros r' [= <-]%(eq_trans (eq_sym E)). destruct (get "allow" r); [|done]. destruct Hd. by eexists.
Qed.

Lemma get_index k m v : v ≠ VNil → get k m = Some v ↔ index k m = v.
Proof. unfold index. destruct (get k m) as [w|]; cbn; [split; congruence|]. split; [done|by intros <-]. Qed.

Lemma saysAllow_spec v b : saysAllow v b ↔ allowSignal v = Some b.
Proof.
  split.
  - inversion 1 as [|v' m b' Hs Ha]; subst; [done|]. inversion Hs; subst; cbn;
      apply speaks_unwrap in Hs as <-; apply get_index in Ha as ->; done.
  - destruct v as [|b'| | | | |m]; cbn; try done; [intros [= ->]; constructor|].
    destruct (index "allow" (unwrap m)) eqn:Ei; try done. intros [= ->]. eapply says_member; [by apply speaks_unwrap|].
    by apply get_index.
Qed.

Lemma saysConstraints_spec v c : saysConstraints v c → constraintsOf v = Some (parseOPAConstraints c).
Proof.
  inversion 1 as [v' m c' Hs Hc]; subst. inversion Hs; subst; cbn; apply speaks_unwrap in Hs as <-;
    apply get_index in Hc as ->; done.
Qed.

Lemma constraintsOf_says v k : constraintsOf v = Some k → ∃ c, saysConstraints v c.
Proof.
  destruct v as [| | | | | |m]; cbn; try done. destruct (index "constraints" (unwrap m)) eqn:Ei; try done. intros _.
  eexists. econstructor; [by apply speaks_unwrap|]. by apply get_index.
Qed.

(** The last of the values a list of expressions carries. *)
Lemma last_omap {A B} (f : A → option B) l y :
  last (omap f l) = Some y ↔ ∃ before v after, l = before ++ v :: after ∧ f v = Some y ∧ ∀ w, w ∈ after → f w = None.
Proof.
  split.
  - induction l as [|x l IH] using rev_ind; [done|]. rewrite omap_app, last_app. cbn.
    destruct (f x) as [z|] eqn:Ef; cbn.
    + intros [= ->]. exists l, x, []. split_and!; [done|done|]. intros w Hw. by apply elem_of_nil in Hw.
    + intros (b & v & a & -> & Hv & Ha)%IH. exists b, v, (a ++ [x]). split_and!; [by rewrite <-app_assoc|done|].
      intros w [Hw| ->%list_elem_of_singleton]%elem_of_app; auto.
  - intros (b & v & a & -> & Hv & Ha). rewrite omap_app. cbn. rewrite Hv, last_app. cbn.
    replace (omap f a) with (@nil B); [done|]. symmetry.
    induction a as [|w a IH]; [done|]. cbn. rewrite (Ha w) by left. apply IH. intros w' Hw'. apply Ha. by right.
Qed.

Lemma lastSays_allow es b : lastSays saysAllow es b ↔ last (omap allowSignal es) = Some b.
Proof.
  rewrite last_omap. unfold lastSays. split; intros (bf & v & af & -> & Hv & Ha); exists bf, v, af; split_and!; try done.
  - by apply saysAllow_spec.
  - intros w Hw. destruct (allowSignal w) as [y|] eqn:E; [|done]. by apply saysAllow_spec, Ha in E.
  - by apply saysAllow_spec.
  - intros w y Hw Hs%saysAllow_spec. by rewrite (Ha w Hw) in Hs.
Qed.

Lemma lastSays_constraints es c :
  lastSays saysConstraints es c → last (omap constraintsOf es) = Some (parseOPAConstraints c).
Proof.
  intros (bf & v & af & -> & Hv & Ha). apply last_omap. exists bf, v, af. split_and!; [done|by apply saysConstraints_spec|].
  intros w Hw. destruct (constraintsOf w) as [k|] eqn:E; [|done]. apply constraintsOf_says in E as [c' Hc']. by destruct (Ha w c').
Qed.

Lemma elem_of_stringsIn x l : x ∈ stringsIn (VArr l) ↔ VStr x ∈ l.
Proof.
  cbn. rewrite list_elem_of_omap. split; [|intros ?; by exists (VStr x)]. intros ([] & Hv & Hs); cbn in Hs; by simplify_eq.
Qed.

Section Obeys.
Context `{!GeoLib, !Cql2Geo, !ParseFloat, !JSON, !Cql2Lib, !Cql2Laws}.

(** A search released under the parsed constraints obeys the raw ones. *)
Lemma released_obeys cfg r i sr raw sr' c' :
  info_SearchReq i = Some sr →
  constrainRequest cfg r (Some i) (Some (parseOPAConstraints raw)) = Ok (Some sr', c') →
  obeys raw (CQL2InjectionEnabled cfg && checked (FilterExtensionCheck cfg) r i) sr sr'.
Proof.
  intros Hsr Hk. destruct (constrainRequest_released _ _ _ _ _ _ _ Hsr Hk) as ([Ha Hd Hr Hm] & _ & _ & Hf). clear Hk.
  cbn in Ha, Hd, Hm. split; [| |done| |].
  - intros l Hl%get_index [x Hx]; [|done]. rewrite Hl in Ha. apply elem_of_stringsIn in Hx.
    destruct Ha as [Hne Hin]; [intros E; by rewrite E in Hx; apply elem_of_nil in Hx|]. split; [done|].
    intros y Hy. by apply elem_of_stringsIn, Hin.
  - intros l x Hl%get_index Hx Hin; [|done]. rewrite Hl in Hd. by apply (Hd x Hin), elem_of_stringsIn.
  - intros n Hn%get_index; [|done]. by rewrite Hn in Hm.
  - intros Hinj f Hft%get_index Hne Hj; [|done]. rewrite Hinj in Hf. destruct Hf as (user & pol & req & e' & _ & Hp & _ & He & Hall).
    unfold parsePolicyCQL2 in Hp. cbn in Hp. unfold index at 1 in Hp. rewrite Hj, Hft in Hp. cbn in Hp.
    rewrite (proj2 (String.eqb_neq _ _) Hne) in Hp. cbn in Hp. apply bind_ok in Hp as (p & Hp & [= <-]).
    unfold orElse in Hp. destruct (cql2_Parse f) as [p'|]; [|done]. injection Hp as ->.
    exists p, e'. split_and!; [done|done|]. intros item Hi%Hall. apply Hi.
Qed.
End Obeys.

(** A decision, written the way a policy returns it. *)
Definition renderGeofence (g : GeofenceConstraint) : value :=
  VObj [("allowed_area", AllowedArea g); ("denied_area", DeniedArea g); ("filter_mode", VBool (FilterMode g));
        ("geometry_property", VStr (GeometryProperty g))].

Definition renderConstraints (c : AuthzConstraints) : list (string * value) :=
  [("allowed_collections", VArr (VStr <$> AllowedCollections c));
   ("denied_collections", VArr (VStr <$> DeniedCollections c));
   ("max_results", VInt (MaxResults c));
   ("cql2_filter", VStr (CQL2Filter c));
   ("cql2_filter_json", CQL2FilterJSON c);
   ("required_filters", VObj (RequiredFilters c))] ++
  match Geofence c with Some g => [("geofence", renderGeofence g)] | None => [] end.

Definition renderDecision (d : AuthzDecision) : value :=
  VObj [("result", VObj ([("allow", VBool (Allowed d)); ("reasons", VArr (VStr <$> Reasons d))] ++
    match Constraints d with Some c => [("constraints", VObj (renderConstraints c))] | None => [] end))].

Lemma strings_fmap (l : list string) : omap as_string (VStr <$> l) = l.
Proof. induction l as [|s l IH]; [done|]. cbn. by f_equal. Qed.

Lemma parse_renderConstraints c :
  GeofencePushedDown c = false → parseOPAConstraints (renderConstraints c) = c.
Proof.
  intros Hp. destruct c as [ac dc [[aa da fm gp]|] mr rf cf cj pd]; cbn in Hp; subst pd;
    unfold parseOPAConstraints, renderConstraints, index; cbn; by rewrite !strings_fmap.
Qed.
#[local] Arguments renderConstraints : simpl never.
#[local] Arguments parseOPAConstraints : simpl never.

(** ** Properties *)

(** A policy result means what the contract says: rendering a decision
    as the documented result object and parsing it gives the decision back,
    reasons and constraints included. *)
Theorem opa_roundtrip d query :
  Reasons d ≠ [] → Final d = false → (∀ c, Constraints d = Some c → GeofencePushedDown c = false) →
  parseEmbeddedResult [renderDecision d] query = Ok d.
Proof.
  destruct d as [al rs cs fin]. cbn. intros Hr -> Hc. unfold parseEmbeddedResult, renderDecision.
  destruct cs as [c|]; cbn; rewrite strings_fmap.
  - rewrite (parse_renderConstraints c) by auto. by destruct rs.
  - by destruct rs.
Qed.


(** ** Witnesses *)

Module Witness.
#[local] Existing Instance Authz.Witness.json.
#[local] Existing Instance Authz.Witness.geoLib.
#[local] Existing Instance Authz.Witness.cql2Geo.
#[local] Existing Instance Authz.Witness.parseFloat.
#[local] Existing Instance Authz.Witness.cql2Lib.
#[local] Existing Instance Authz.Witness.cql2Laws.
#[local] Instance inputCodec : InputCodec := {| input_Marshal _ := Some "downtown" |}.

Definition onlyA : AuthzConstraints := mkConstraints ["a"] [] None 10 [] "" VNil false.
Definition yes : AuthzDecision := mkDecision true ["member"] (Some onlyA) false.
Definition no : AuthzDecision := mkDecision false ["suspended"] None false.

(** A policy in two files: members may read [a], and a deny list that
    overrides it. *)
#[local] Instance rego : Rego := {|
  prepared := gmap string string;
  PrepareForEval _ modules := Some modules;
  Eval modules _ :=
    Some (match modules !! "deny.rego", modules !! "main.rego" with
          | Some _, _ => [[renderDecision no]]
          | None, Some _ => [[renderDecision yes]]
          | None, None => []
          end) |}.

Definition files (path : string) : option string :=
  if String.eqb path "main.rego" then Some "members" else if String.eqb path "deny.rego" then Some "all" else None.
Definition main (paths : list string) : EmbeddedOPAConfig := mkOPAConfig "opa" "main.rego" paths "" ∅.

Definition request : httpRequest := mkRequest "GET" "/search" "" ∅ "10.0.0.1:1".
Definition search (colls : list string) : SearchRequest :=
  mkSearchRequest colls [] [] "" "" 50 "" "" "" [] VNil "" "" [] None "" "" "".
Definition info (colls : list string) : STACInfo := mkSTACInfo "" "" RequestTypeSearch (Some (search colls)).
Definition next (sr : option SearchRequest) : response :=
  mkResponse 200 ∅ (match sr with Some sr => String.concat "," (Collections sr) | None => "" end).
Definition httpConfig (e : EmbeddedOPAEnforcer) : HTTPConfig := mkHTTPConfig (enforcer e) true false None None.
Definition handle (e : EmbeddedOPAEnforcer) (colls : list string) :=
  authzHandler (httpConfig e) ∅ "" "" request (Some (info colls)) None next.
Definition loaded : EmbeddedOPAEnforcer :=
  mkEnforcer {["main.rego" := "members"]} "opa" "main.rego" "data.stac.authz" false.

Lemma opa_roundtrip_witness :
  renderDecision yes ≠ renderDecision no ∧ parseEmbeddedResult [renderDecision yes] "q" = Ok yes.
Proof.
  split; [discriminate|]. apply (opa_roundtrip yes "q"); [discriminate|reflexivity|].
  intros c [= <-]. reflexivity.
Defined.


(** A reload compiles the main policy file alone: the other files of the
    policy, here one that denies everyone, no longer apply. *)
Lemma reload_drops_files :
  (λ e, handle e ["a"]) <$> NewEmbeddedOPAEnforcer files (main ["deny.rego"]) = Some (Err (errDenied "suspended")) ∧
  (λ e, handle e ["a"]) <$> (NewEmbeddedOPAEnforcer files (main ["deny.rego"]) ≫= ReloadPolicy files) =
    Some (Ok (mkResponse 200 ∅ "a")).
Proof. split; vm_compute; reflexivity. Qed.

(** An allow-list that is empty, or not a list, does not restrict
    anything. *)
Lemma empty_allow_list_unrestricted :
  Forall (λ v, HasConstraints (Some (mkDecision true [] (Some (parseOPAConstraints [("allowed_collections", v)]))
                 false)) = false ∧
               applyConstraints (search ["x"]) (parseOPAConstraints [("allowed_collections", v)]) =
                 Ok (search ["x"], parseOPAConstraints [("allowed_collections", v)]))
    [VArr []; VStr "a"; VArr [VInt 1]].
Proof. repeat constructor. Qed.

(** The wildcard of the documented examples is an ordinary name: a search
    of any collection is refused, and one of none asks for a collection
    called [*]. *)
Lemma star_is_a_name :
  let c := parseOPAConstraints [("allowed_collections", VArr [VStr "*"])] in
  applyConstraints (search ["a"]) c = Err tt ∧ applyConstraints (search []) c = Ok (search ["*"], c).
Proof. split; vm_compute; reflexivity. Qed.

(** A package whose [result] carries no boolean allow is an error, not a
    silent denial. *)
Lemma missing_allow_is_error :
  parseEmbeddedResult [VObj [("result", VObj [("reasons", VArr [VStr "x"])])]] "q" = Err (MissingAllow "q") ∧
  parseEmbeddedResult [VObj [("result", VObj [("allow", VStr "yes")]); ("allow", VBool true)]] "q" =
    Err (MissingAllow "q").
Proof. split; vm_compute; reflexivity. Qed.
End Witness.

End Opa.
