(* ===== verification/Pipeline.v ===== *)
(** * The request pipeline ([internal/server/router.go], the chain built by
      [run] in [cmd/stac-proxy/main.go])

    The router mounts the health probes outside and every other route behind
    the body limit, the classifier, the search parser and the operator's
    middlewares, in the order [run] appends them: logging, CORS,
    authentication, rate limiting, authorization, response cache and URL
    remapping around the federation handler.

    An [http.Handler] is a function of the headers already on its writer,
    the request with its context values and the state the tiers keep.  A
    tier that hands its own writer on passes its headers; one that captures
    the inner response calls the inner handler on an empty header map and
    copies what it left.

    A handler may panic: the panic unwinds the tiers, none of which
    recovers, up to the router's [Recoverer], which answers in their place
    with the headers set so far, unless the panic is [ErrAbortHandler]: then
    the connection is closed.

    Parameters: the route matcher, the CORS handler (which answers a
    preflight itself and otherwise sets headers and hands the request on),
    the client-address middlewares and the [Recoverer] of the chi libraries,
    the fresh request ID, and the inner handlers, functions of a state of
    their own. *)

From S2P Require Import Prelude GoLib Stac Cursor Store Httpx Middleware Auth Cql2 Authz Query Cache Remap RateLimit Config Parser.
From Stdlib Require Import Ascii.
Import Strings Values Header Middleware Cql2 Geo.

Module Pipeline.

(** ** Handlers *)

(** The values the tiers attach to the request's context. *)
Record context := mkContext {
  x_info : option STACInfo;
  x_principal : option Auth.Principal;
  x_decision : option Authz.AuthzDecision;
  x_requestID : string;
  x_clientIP : string;
}.

Record request := mkReq { q_http : httpRequest; q_body : option bytes; q_ctx : context }.

Definition withCtx (x : context) (q : request) : request := mkReq (q_http q) (q_body q) x.
Definition withInfo (i : option STACInfo) (q : request) : request :=
  let x := q_ctx q in withCtx (mkContext i (x_principal x) (x_decision x) (x_requestID x) (x_clientIP x)) q.
Definition withPrincipal (p : Auth.Principal) (q : request) : request :=
  let x := q_ctx q in withCtx (mkContext (x_info x) (Some p) (x_decision x) (x_requestID x) (x_clientIP x)) q.
Definition withDecision (d : Authz.AuthzDecision) (q : request) : request :=
  let x := q_ctx q in withCtx (mkContext (x_info x) (x_principal x) (Some d) (x_requestID x) (x_clientIP x)) q.
Definition withRequestID (id : string) (q : request) : request :=
  let x := q_ctx q in withCtx (mkContext (x_info x) (x_principal x) (x_decision x) id (x_clientIP x)) q.
Definition withBody (b : option bytes) (q : request) : request := mkReq (q_http q) b (q_ctx q).

(** The state: the limiter's buckets, the cache's store, and what the inner
    handler keeps. *)
Record world (Li St I : Type) := mkWorld { w_limiter : Li; w_store : St; w_inner : I }.
#[global] Arguments mkWorld {Li St I}.
#[global] Arguments w_limiter {Li St I}.
#[global] Arguments w_store {Li St I}.
#[global] Arguments w_inner {Li St I}.

Section Pipeline.
Context `{!Crypto, !MapRange, !JSON, !GeoLib, !Cql2Geo, !ParseFloat, !Authz.Cql2Lib, !Parser.SearchCodec}.
Context `{!Cache.EntryCodec, Store St, RateLimit.Limiter Li} {I : Type}.

Abbreviation World := (world Li St I).

(** A handler left a response, panicked after it had set the headers [w]
    on its writer and written nothing, or aborted the connection. *)
Inductive outcome := Done (r : response) | Panicked (w : header) | Aborted.

Definition handler : Type := header → request → World → outcome * World.
Definition middleware : Type := handler → handler.

(** A tier that captured the inner response goes on with it; a panic passes
    through, and leaves the tier's own writer as it was. *)
Definition captured (w : header) (f : response → World → outcome * World) (o : outcome * World) : outcome * World :=
  match o with
  | (Done cap, s) => f cap s
  | (Panicked _, s) => (Panicked w, s)
  | (Aborted, s) => (Aborted, s)
  end.

(** Copies a captured response to the writer. *)
Definition emit (w : header) (cap : response) : response :=
  mkResponse (resp_Status cap) (Cache.copyHeaders (resp_Header cap) w) (resp_Body cap).

(** ** The operator's middlewares *)

Inductive corsOutcome := Preflight (resp : response) | Passed (w : header).

Definition corsMW (cors : header → httpRequest → corsOutcome) : middleware := λ next w q s,
  match cors w (q_http q) with Preflight resp => (Done resp, s) | Passed w => next w q s end.

Definition loggingMW (fresh : string) : middleware := λ next w q s,
  let id := if String.eqb (x_requestID (q_ctx q)) "" then fresh else x_requestID (q_ctx q) in
  next (Set_ "X-Request-ID" id w) (withRequestID id q) s.

Definition authMW (cfg : Auth.Config) : middleware := λ next w q s,
  match Auth.authenticate cfg (q_http q) with
  | Err e => (Done (writeJSONError w e), s)
  | Ok p => next w (withPrincipal p q) s
  end.

Definition rateMW (cfg : RateLimit.Config) (now : Z) : middleware := λ next w q s,
  let '(o, l) := RateLimit.rateHandler cfg now w (x_principal (q_ctx q)) (x_clientIP (q_ctx q)) (q_http q)
                   (w_limiter s) in
  let s := mkWorld l (w_store s) (w_inner s) in
  match o with
  | RateLimit.Forwarded w => next w q s
  | RateLimit.Refused w e => (Done (writeJSONError w e), s)
  end.

(** The decision the inner tiers see: that of the enforcer with the
    constraints push-down left. *)
Definition decisionOf (cfg : Authz.HTTPConfig) (allow : gset string) (q : request)
    (constraints : option Authz.AuthzConstraints) : Authz.AuthzDecision :=
  let x := q_ctx q in
  match Authz.Enforcer cfg (Authz.BuildAuthzInput allow (RateLimit.ClientIP (x_clientIP x) (q_http q))
          (x_requestID x) (q_http q) (x_info x) (x_principal x)) with
  | Some d => Authz.mkDecision (Authz.Allowed d) (Authz.Reasons d) constraints (Authz.Final d)
  | None => Authz.mkDecision false [] constraints false
  end.

Definition withSearch (sr : option Stac.SearchRequest) (q : request) : request :=
  match x_info (q_ctx q) with
  | Some i => withInfo (Some (mkSTACInfo (info_Collection i) (info_ItemID i) (info_RequestType i) sr)) q
  | None => q
  end.

Definition authzMW (cfg : Authz.HTTPConfig) (allow : gset string) : middleware := λ next w q s,
  let x := q_ctx q in
  match Authz.authorizeRequest cfg allow (RateLimit.ClientIP (x_clientIP x) (q_http q)) (x_requestID x)
          (q_http q) (x_info x) (x_principal x) with
  | Err e => (Done (writeJSONError w e), s)
  | Ok (sr, constraints) =>
      captured w (λ cap s,
        (Done match Authz.enforceResponse (x_info x) constraints cap with
              | Err e => writeJSONError w e
              | Ok resp => emit w resp
              end, s))
        (next ∅ (withSearch sr (withDecision (decisionOf cfg allow q constraints) q)) s)
  end.

(** The writer calls that leave a response. *)
Definition answerOf (r : response) : Cache.answer :=
  (resp_Header r, [Httpx.EvWriteHeader (resp_Status r); Httpx.EvWrite (resp_Body r)]).

(** The handler of [Cache.v], around a handler with state of its own: the
    inner handler runs on a miss and when the cache steps aside.  A panic
    leaves nothing to store. *)
Definition cacheMW (cfg : Cache.Config) (now : Z) : middleware := λ next w q s,
  let x := q_ctx q in
  match Cache.consult now w (x_info x) (x_decision x) (x_principal x) (q_http q) (w_store s) with
  | (Cache.Aside, _) => next w q s
  | (Cache.Served resp, st) => (Done resp, mkWorld (w_limiter s) st (w_inner s))
  | (Cache.Fetch req, st) =>
      captured w (λ r s,
        let cap := Cache.capture (answerOf r) in
        (Done (Cache.missed w cap),
         mkWorld (w_limiter s) (Cache.storeResponse cfg now req cap (w_store s)) (w_inner s)))
        (next ∅ q (mkWorld (w_limiter s) st (w_inner s)))
  end.

Definition remapMW (rules : list Remap.Rule) : middleware := λ next w q s,
  match rules with
  | [] => next w q s
  | _ => captured w (λ cap s, (Done (emit w (Remap.remapResponse rules cap)), s)) (next ∅ q s)
  end.

(** ** The chain *)

(** What [run] builds; an absent block adds no tier. *)
Record chainConfig := mkChain {
  cc_cors : option (header → httpRequest → corsOutcome);
  cc_auth : option Auth.Config;
  cc_rate : option RateLimit.Config;
  cc_authz : option Authz.HTTPConfig;
  cc_cache : option Cache.Config;
  cc_remap : option (list Remap.Rule);
}.

Definition tier {A} (f : A → middleware) (o : option A) : middleware :=
  match o with Some a => f a | None => λ next, next end.

Definition httpMiddlewares (c : chainConfig) (now : Z) (fresh : string) (allow : gset string) : list middleware :=
  [loggingMW fresh; tier corsMW (cc_cors c); tier authMW (cc_auth c); tier (λ r, rateMW r now) (cc_rate c);
   tier (λ z, authzMW z allow) (cc_authz c); tier (λ r, cacheMW r now) (cc_cache c); tier remapMW (cc_remap c)].

(** Middlewares registered first run first. *)
Definition chain (ms : list middleware) (h : handler) : handler := foldr (λ m h, m h) h ms.

(** The federation handler has no access to the tiers' state. *)
Definition lift (inner : header → request → I → outcome * I) : handler := λ w q s,
  let '(r, i) := inner w q (w_inner s) in (r, mkWorld (w_limiter s) (w_store s) i).

(** ** The router *)

Definition DefaultMaxBodyBytes : Z := 1048576.

(** Reads beyond the limit fail: the body is unreadable. *)
Definition bodyLimitMiddleware (limit : Z) (body : option bytes) : option bytes :=
  match body with
  | Some b => if (limit <? Httpx.blen b)%Z then None else Some b
  | None => None
  end.

Record RouterConfig := mkRouterConfig {
  rc_MaxBodyBytes : Z;
  rc_assets : bool;            (* an asset handler is configured *)
  rc_health : bool;            (* a health checker is configured *)
  rc_ClientIP : Config.ClientIPConfig;
}.

Definition bodyCap (cfg : RouterConfig) (body : option bytes) : option bytes :=
  let limit := if (rc_MaxBodyBytes cfg =? 0)%Z then DefaultMaxBodyBytes else rc_MaxBodyBytes cfg in
  if (0 <? limit)%Z then bodyLimitMiddleware limit body else body.

Definition healthRoutes : list (string * string) :=
  [("GET", "/health"); ("GET", "/health/live"); ("GET", "/health/ready")].
Definition stacRoutes : list (string * string) :=
  [("GET", "/"); ("GET", "/conformance"); ("GET", "/collections"); ("GET", "/collections/{collectionId}");
   ("GET", "/collections/{collectionId}/items"); ("GET", "/collections/{collectionId}/items/{itemId}");
   ("GET", "/search"); ("POST", "/search"); ("GET", "/queryables");
   ("GET", "/collections/{collectionId}/queryables")].
Definition assetRoutes : list (string * string) :=
  [("GET", "/assets/{originId}/{ref}"); ("HEAD", "/assets/{originId}/{ref}")].

(** The routes [NewRouter] registers. *)
Definition routes (cfg : RouterConfig) : list (string * string) :=
  (if rc_health cfg then healthRoutes else []) ++ stacRoutes ++ (if rc_assets cfg then assetRoutes else []).

(** *** The client's address *)

(** The middlewares of chi, by the address they store; none is the empty
    string. *)
Class ClientIPLib := {
  ClientIPFromRemoteAddr : httpRequest → string;
  ClientIPFromHeader : string → httpRequest → string;
  ClientIPFromXFF : list string → httpRequest → string;
  ClientIPFromXFFTrustedProxies : Z → httpRequest → string;
}.

Definition clientIPMiddleware `{!ClientIPLib} (cfg : Config.ClientIPConfig) : httpRequest → string :=
  if String.eqb (Config.ci_Source cfg) "header" then ClientIPFromHeader (Config.ci_Header cfg)
  else if String.eqb (Config.ci_Source cfg) "xff" then ClientIPFromXFF (Config.ci_TrustedProxies cfg)
  else if String.eqb (Config.ci_Source cfg) "xff_trusted_count"
  then ClientIPFromXFFTrustedProxies (Config.ci_TrustedCount cfg)
  else ClientIPFromRemoteAddr.

Section Serve.
Context `{!ClientIPLib}.
Variables (cfg : RouterConfig) (mux : matcher) (rawPath : string)
  (health : string → httpRequest → response) (unmatched : httpRequest → response) (parseErrorText : Parser.parseError → string)
  (recoverer : header → httpRequest → response) (ms : list middleware) (stac : handler)
  (asset : string → string → handler).

(** The path the router matches. *)
Definition routePath (r : httpRequest) : string := if String.eqb rawPath "" then URLPath r else rawPath.

(** The endpoint of a pattern: the asset handler takes the URL parameters,
    every other route delegates to the one inner handler. *)
Definition endpoint (pattern : string) (params : gmap string string) : handler :=
  if bool_decide (pattern ∈ assetRoutes.*2)
  then asset (URLParam params "originId") (URLParam params "ref") else stac.

(** The group's endpoints, behind its middlewares. *)
Definition serveGroup (pattern : string) (params : gmap string string) (q : request) (s : World) : outcome * World :=
  let q := withBody (bodyCap cfg (q_body q)) q in
  let info := stacInfoClassifier mux rawPath (q_http q) in
  match Parser.searchParserMiddleware info (q_http q) (q_body q) with
  | Err e => (Done (httpError ∅ (parseErrorText e) 400), s)
  | Ok (info, body) => chain ms (endpoint pattern params) ∅ (withBody body (withInfo info q)) s
  end.

(** The outermost tier that matters: what a panic comes to. *)
Definition Recoverer (r : httpRequest) (o : outcome * World) : outcome * World :=
  match o with (Panicked w, s) => (Done (recoverer w r), s) | _ => o end.

(** Routes outside the group, and requests no route matches, see none of
    its middlewares. *)
Definition serveHTTP (r : httpRequest) (body : option bytes) (s : World) : outcome * World :=
  match mux (Method r) (routePath r) with
  | None => (Done (unmatched r), s)
  | Some (pattern, params) =>
      if bool_decide ((Method r, pattern) ∈ healthRoutes) then (Done (health pattern r), s)
      else Recoverer r
             (serveGroup pattern params
                (mkReq r body (mkContext None None None "" (clientIPMiddleware (rc_ClientIP cfg) r))) s)
  end.
End Serve.

(** ** What reaches the inner handler *)

(** [q'] is [q] as the inner handler sees it once every configured tier has
    let it through, starting from the limiter [l]. *)
Record admitted (c : chainConfig) (now : Z) (allow : gset string) (l : Li) (q q' : request) : Prop := {
  ad_http : q_http q' = q_http q;
  ad_body : q_body q' = q_body q;
  ad_info : ∀ i, x_info (q_ctx q) = Some i → ∃ sr, (is_Some sr ↔ is_Some (info_SearchReq i)) ∧
    x_info (q_ctx q') = Some (mkSTACInfo (info_Collection i) (info_ItemID i) (info_RequestType i) sr);
  ad_auth : ∀ a, cc_auth c = Some a → ∃ p, Auth.authenticate a (q_http q) = Ok p ∧ x_principal (q_ctx q') = Some p;
  ad_anon : cc_auth c = None → x_principal (q_ctx q') = x_principal (q_ctx q);
  ad_rate : ∀ r, cc_rate c = Some r → ∃ w w' l',
    RateLimit.rateHandler r now w (x_principal (q_ctx q')) (x_clientIP (q_ctx q)) (q_http q) l =
      (RateLimit.Forwarded w', l');
  ad_authz : ∀ z, cc_authz c = Some z → ∃ d,
    Authz.Enforcer z (Authz.BuildAuthzInput allow (RateLimit.ClientIP (x_clientIP (q_ctx q)) (q_http q))
      (x_requestID (q_ctx q')) (q_http q) (x_info (q_ctx q)) (x_principal (q_ctx q'))) = Some d ∧
    Authz.Allowed d = true ∧
    (∀ i sr k, x_info (q_ctx q) = Some i → info_SearchReq i = Some sr → Authz.Constraints d = Some k →
      ∃ sr', x_info (q_ctx q') =
        Some (mkSTACInfo (info_Collection i) (info_ItemID i) (info_RequestType i) (Some sr')) ∧
        Authz.constrained k sr sr' ∧ ∃ k', Authz.constrainRequest z (q_http q) (Some i) (Some k) = Ok (Some sr', k')) ∧
    (Authz.Constraints d = None → x_info (q_ctx q') = x_info (q_ctx q));
}.

(** Two handlers that cannot be told apart on the requests of [P]. *)
Definition agree (P : request → World → Prop) (h h' : handler) : Prop := ∀ w q s, P q s → h w q s = h' w q s.

Lemma agree_remap P rules h h' : agree P h h' → agree P (remapMW rules h) (remapMW rules h').
Proof. intros Ha w q s HP. unfold remapMW. destruct rules; by rewrite Ha. Qed.

Lemma agree_cache (P : request → Prop) cfg now h h' :
  agree (λ q _, P q) h h' → agree (λ q _, P q) (cacheMW cfg now h) (cacheMW cfg now h').
Proof.
  intros Ha w q s HP. unfold cacheMW.
  destruct (Cache.consult _ _ _ _ _ _ _) as [[|resp|req] st]; [by apply Ha|done|]. by rewrite Ha.
Qed.

Lemma agree_tier {A} (f : A → middleware) P o h h' :
  (∀ a, agree P h h' → agree P (f a h) (f a h')) → agree P h h' → agree P (tier f o h) (tier f o h').
Proof. destruct o; cbn; auto. Qed.

Lemma agree_authz P Q z allow h h' :
  (∀ q s sr k, P q s →
     Authz.authorizeRequest z allow (RateLimit.ClientIP (x_clientIP (q_ctx q)) (q_http q)) (x_requestID (q_ctx q))
       (q_http q) (x_info (q_ctx q)) (x_principal (q_ctx q)) = Ok (sr, k) →
     Q (withSearch sr (withDecision (decisionOf z allow q k) q)) s) →
  agree Q h h' → agree P (authzMW z allow h) (authzMW z allow h').
Proof.
  intros HQ Ha w q s HP. unfold authzMW. destruct (Authz.authorizeRequest _ _ _ _ _ _ _) as [[sr k]|] eqn:Ez; [|done].
  by rewrite (Ha _ _ _ (HQ q s sr k HP Ez)).
Qed.

Lemma agree_rate P Q r now h h' :
  (∀ q s w w' l, P q s → RateLimit.rateHandler r now w (x_principal (q_ctx q)) (x_clientIP (q_ctx q)) (q_http q)
     (w_limiter s) = (RateLimit.Forwarded w', l) → Q q (mkWorld l (w_store s) (w_inner s))) →
  agree Q h h' → agree P (rateMW r now h) (rateMW r now h').
Proof.
  intros HQ Ha w q s HP. unfold rateMW.
  destruct (RateLimit.rateHandler _ _ _ _ _ _ _) as [[w'|w' e] l] eqn:Er; [|done].
  apply Ha. by eapply HQ.
Qed.

Lemma agree_auth P Q a h h' :
  (∀ q s p, P q s → Auth.authenticate a (q_http q) = Ok p → Q (withPrincipal p q) s) →
  agree Q h h' → agree P (authMW a h) (authMW a h').
Proof.
  intros HQ Ha w q s HP. unfold authMW. destruct (Auth.authenticate _ _) as [p|] eqn:Ep; [|done].
  apply Ha. by apply HQ.
Qed.

(** The tiers so far left everything but the principal and the request ID
    alone. *)
Record passed (c : chainConfig) (q q' : request) : Prop := {
  pa_http : q_http q' = q_http q;
  pa_body : q_body q' = q_body q;
  pa_info : x_info (q_ctx q') = x_info (q_ctx q);
  pa_ip : x_clientIP (q_ctx q') = x_clientIP (q_ctx q);
  pa_auth : ∀ a, cc_auth c = Some a → ∃ p, Auth.authenticate a (q_http q) = Ok p ∧ x_principal (q_ctx q') = Some p;
  pa_anon : cc_auth c = None → x_principal (q_ctx q') = x_principal (q_ctx q);
}.

Definition rated (c : chainConfig) (now : Z) (l : Li) (q : request) : Prop :=
  ∀ r, cc_rate c = Some r → ∃ w w' l',
    RateLimit.rateHandler r now w (x_principal (q_ctx q)) (x_clientIP (q_ctx q)) (q_http q) l =
      (RateLimit.Forwarded w', l').

Lemma passed_admitted c now allow l q q' z sr k :
  cc_authz c = Some z → passed c q q' → rated c now l q' →
  Authz.authorizeRequest z allow (RateLimit.ClientIP (x_clientIP (q_ctx q')) (q_http q')) (x_requestID (q_ctx q'))
    (q_http q') (x_info (q_ctx q')) (x_principal (q_ctx q')) = Ok (sr, k) →
  admitted c now allow l q (withSearch sr (withDecision (decisionOf z allow q' k) q')).
Proof.
  intros Hz [Hh Hb Hi Hip Ha Hno] Hr Hok. pose proof (Authz.authorizeRequest_search _ _ _ _ _ _ _ _ _ Hok) as Hsome.
  apply Authz.authorizeRequest_Ok in Hok as (_ & d & Hd & Hal & Hcr & Hc).
  set (q2 := withSearch _ _).
  assert (q_http q2 = q_http q' ∧ q_body q2 = q_body q' ∧ x_principal (q_ctx q2) = x_principal (q_ctx q') ∧
          x_requestID (q_ctx q2) = x_requestID (q_ctx q')) as (E1 & E2 & E3 & E4).
  { unfold q2, withSearch; cbn. by destruct (x_info (q_ctx q')). }
  split; rewrite ?E1, ?E2, ?E3, ?E4; try done.
  - intros i Hi0. rewrite Hi, Hi0 in Hsome. exists sr. split; [done|]. unfold q2, withSearch; cbn. by rewrite Hi, Hi0.
  - intros r0 Hr0. destruct (Hr r0 Hr0) as (w & w' & l' & Hl). rewrite Hh, Hip in Hl. eauto.
  - intros z' [= <-]%(eq_trans (eq_sym Hz)). exists d. rewrite Hh, Hip, Hi in Hd. split_and!; [done|done| |].
    + intros i sr0 k0 Hi0 Hsr Hk. rewrite Hi, Hi0 in Hc. destruct (Hc i sr0 k0 eq_refl Hsr Hk) as (sr1 & -> & Hcon).
      exists sr1. rewrite Hh, Hi, Hi0, Hk in Hcr. split_and!; [|done|by eexists]. unfold q2, withSearch; cbn. by rewrite Hi, Hi0.
    + intros Hk. rewrite Hi, Hk in Hcr. unfold q2, withSearch; cbn. rewrite Hi.
      destruct (x_info (q_ctx q)) as [i|]; [|done]. unfold Authz.constrainRequest in Hcr. cbn in Hcr.
      destruct i as [a b c0 [sr0|]]; cbn in *; by simplify_eq.
Qed.

Lemma chain_agree c now fresh allow q l h h' :
  agree (λ q' _, admitted c now allow l q q') h h' →
  agree (λ q' s, q' = q ∧ w_limiter s = l) (chain (httpMiddlewares c now fresh allow) h)
    (chain (httpMiddlewares c now fresh allow) h').
Proof.
  intros Hin.
  set (inside := chain [tier (λ r, cacheMW r now) (cc_cache c); tier remapMW (cc_remap c)]).
  assert (agree (λ q' _, admitted c now allow l q q') (inside h) (inside h')) as Hinside.
  { cbn. apply agree_tier; [intros; by apply agree_cache|].
    apply agree_tier; [intros; by apply agree_remap|done]. }
  assert (agree (λ q' _, passed c q q' ∧ rated c now l q')
            (tier (λ z, authzMW z allow) (cc_authz c) (inside h))
            (tier (λ z, authzMW z allow) (cc_authz c) (inside h'))) as Hz.
  { destruct (cc_authz c) as [z|] eqn:Ez; cbn.
    - eapply agree_authz; [|exact Hinside]. intros q' s sr k [Hp Hr] Hok. by eapply passed_admitted.
    - intros w q' s [[Hh Hb Hi Hip Ha Hno] Hr]. apply Hinside. split; try done; [| |by rewrite Ez].
      { intros i Hi0. exists (info_SearchReq i). split; [done|]. rewrite Hi, Hi0. by destruct i. }
      intros r Er. destruct (Hr r Er) as (w0 & w' & l' & Hl). rewrite Hh, Hip in Hl. eauto. }
  assert (agree (λ q' s, passed c q q' ∧ w_limiter s = l)
            (tier (λ r, rateMW r now) (cc_rate c) (tier (λ z, authzMW z allow) (cc_authz c) (inside h)))
            (tier (λ r, rateMW r now) (cc_rate c) (tier (λ z, authzMW z allow) (cc_authz c) (inside h')))) as Hr.
  { destruct (cc_rate c) as [r|] eqn:Er; cbn.
    - eapply agree_rate; [|exact Hz]. intros q' s w w' l' [Hp Hl] Hok. split; [done|].
      intros r' [= <-]%(eq_trans (eq_sym Er)). rewrite <-Hl. eauto.
    - intros w q' s [Hp _]. apply Hz. split; [done|]. intros r' Hr'. by rewrite Er in Hr'. }
  intros w q' s [-> Hl]. unfold chain, httpMiddlewares. cbn [foldr].
  unfold loggingMW. set (id' := if String.eqb _ _ then _ else _).
  assert (∀ w, tier authMW (cc_auth c) (tier (λ r, rateMW r now) (cc_rate c)
                 (tier (λ z, authzMW z allow) (cc_authz c) (inside h))) w (withRequestID id' q) s =
               tier authMW (cc_auth c) (tier (λ r, rateMW r now) (cc_rate c)
                 (tier (λ z, authzMW z allow) (cc_authz c) (inside h'))) w (withRequestID id' q) s) as Ha.
  { intros w'. destruct (cc_auth c) as [a|] eqn:Ea; cbn.
    - unfold authMW. destruct (Auth.authenticate a _) as [p|] eqn:Ep; [|done]. apply Hr. split; [|done].
      split; try done; [intros a' [= <-]%(eq_trans (eq_sym Ea)); by exists p|by rewrite Ea].
    - apply Hr. split; [|done]. split; try done. intros a Ha. by rewrite Ea in Ha. }
  destruct (cc_cors c) as [f|]; cbn; [|apply Ha]. unfold corsMW. destruct (f _ _); [done|]. apply Ha.
Qed.

(** A handler that neither reads nor writes the cache's store. *)
Definition blind (h : handler) (q : request) : Prop :=
  ∀ w l i, ∃ o l' i', ∀ st, h w q (mkWorld l st i) = (o, mkWorld l' st i').

Lemma blind_captured w g h q : blind h q →
  ∀ w' l i, ∃ o l' i', ∀ st, captured w (λ r s, (Done (g r), s)) (h w' q (mkWorld l st i)) = (o, mkWorld l' st i').
Proof.
  intros Hb w' l i. destruct (Hb w' l i) as ([r|w0|] & l' & i' & Hh);
    [exists (Done (g r)), l', i'|exists (Panicked w), l', i'|exists Aborted, l', i']; intros st; by rewrite Hh.
Qed.

Lemma blind_lift inner q : blind (lift inner) q.
Proof. intros w l i. unfold lift; cbn. destruct (inner w q i) as [r i']. by exists r, l, i'. Qed.

Lemma blind_remap rules h q : blind h q → blind (remapMW rules h) q.
Proof. intros Hb w l i. unfold remapMW. destruct rules as [|rule rules]; [apply Hb|by apply blind_captured]. Qed.

(** The cache steps aside for constrained decisions. *)
Lemma blind_cache cfg now h q :
  Authz.HasConstraints (x_decision (q_ctx q)) = true → blind h q → blind (cacheMW cfg now h) q.
Proof.
  intros Hc Hb w l i. destruct (Hb w l i) as (r & l' & i' & Hh). exists r, l', i'. intros st.
  unfold cacheMW, Cache.consult, Cache.bypass. rewrite Hc. destruct (x_info (q_ctx q)); cbn; apply Hh.
Qed.

Lemma blind_authz z allow h q :
  (∀ sr k, Authz.authorizeRequest z allow (RateLimit.ClientIP (x_clientIP (q_ctx q)) (q_http q)) (x_requestID (q_ctx q))
     (q_http q) (x_info (q_ctx q)) (x_principal (q_ctx q)) = Ok (sr, k) →
     blind h (withSearch sr (withDecision (decisionOf z allow q k) q))) →
  blind (authzMW z allow h) q.
Proof.
  intros Hb w l i. unfold authzMW.
  destruct (Authz.authorizeRequest _ _ _ _ _ _ _) as [[sr k]|e]; [|by exists (Done (writeJSONError w e)), l, i].
  by apply (blind_captured w (λ cap, match Authz.enforceResponse (x_info (q_ctx q)) k cap with
    Err e => writeJSONError w e | Ok resp => emit w resp end)), Hb.
Qed.

Lemma blind_rate rc now h q : blind h q → blind (rateMW rc now h) q.
Proof.
  intros Hb w l i. unfold rateMW; cbn. destruct (RateLimit.rateHandler _ _ _ _ _ _ _) as [[w'|w' e] l'].
  - apply Hb.
  - by exists (Done (writeJSONError w' e)), l', i.
Qed.

(** ** No tier closes the connection *)

(** A handler that answers or panics, but never aborts. *)
Definition answers (h : handler) : Prop := ∀ w q s, (h w q s).1 ≠ Aborted.

Lemma answers_captured w f o :
  o.1 ≠ Aborted → (∀ r s, (f r s).1 ≠ Aborted) → (captured w f o).1 ≠ Aborted.
Proof. destruct o as [[]]; cbn; auto. Qed.

Lemma answers_tier {A} (f : A → middleware) o h :
  (∀ a h, answers h → answers (f a h)) → answers h → answers (tier f o h).
Proof. intros Hf Hh. destruct o; cbn; auto. Qed.

Lemma answers_chain c now fresh allow h : answers h → answers (chain (httpMiddlewares c now fresh allow) h).
Proof.
  intros Hh w q s. cbn. unfold loggingMW. apply answers_tier; [|apply answers_tier; [|apply answers_tier;
    [|apply answers_tier; [|apply answers_tier; [|apply answers_tier; [|done]]]]]]; clear; intros a h Hh w q s.
  - unfold corsMW. destruct (a _ _); [done|apply Hh].
  - unfold authMW. destruct (Auth.authenticate _ _); [apply Hh|done].
  - unfold rateMW. destruct (RateLimit.rateHandler _ _ _ _ _ _ _) as [[]]; [apply Hh|done].
  - unfold authzMW. destruct (Authz.authorizeRequest _ _ _ _ _ _ _) as [[]|]; [by apply answers_captured|done].
  - unfold cacheMW. destruct (Cache.consult _ _ _ _ _ _ _) as [[]]; [apply Hh|done|by apply answers_captured].
  - unfold remapMW. destruct a; [apply Hh|by apply answers_captured].
Qed.

(** The principal the authorization tier sees. *)
Definition principalOf (c : chainConfig) (q : request) : result jsonError (option Auth.Principal) :=
  match cc_auth c with
  | Some a => p ← Auth.authenticate a (q_http q); Ok (Some p)
  | None => Ok (x_principal (q_ctx q))
  end.

Definition requestIDOf (fresh : string) (q : request) : string :=
  if String.eqb (x_requestID (q_ctx q)) "" then fresh else x_requestID (q_ctx q).

(** The policy input of a request behind the chain's outer tiers. *)
Definition inputOf (allow : gset string) (fresh : string) (q : request) (p : option Auth.Principal) : Authz.AuthzInput :=
  Authz.BuildAuthzInput allow (RateLimit.ClientIP (x_clientIP (q_ctx q)) (q_http q)) (requestIDOf fresh q)
    (q_http q) (x_info (q_ctx q)) p.

(** Through the authorization tier the store stays out of play, unless the
    policy allowed the request without constraints. *)
Lemma authz_blind `{!Authz.Cql2Laws} z allow h q :
  (∀ q', Authz.HasConstraints (x_decision (q_ctx q')) = true → blind h q') →
  blind (authzMW z allow h) q ∨
  ∃ d, Authz.Enforcer z (Authz.BuildAuthzInput allow (RateLimit.ClientIP (x_clientIP (q_ctx q)) (q_http q))
         (x_requestID (q_ctx q)) (q_http q) (x_info (q_ctx q)) (x_principal (q_ctx q))) = Some d ∧
       Authz.Allowed d = true ∧ Authz.HasConstraints (Some d) = false.
Proof.
  intros Hb. set (input := Authz.BuildAuthzInput _ _ _ _ _ _).
  destruct (Authz.Enforcer z input) as [d|] eqn:Ed;
    [|left; apply blind_authz; intros sr k Hok; unfold Authz.authorizeRequest in Hok; fold input in Hok;
      rewrite Ed in Hok; by destruct (_ && _)].
  destruct (Authz.Allowed d && negb (Authz.HasConstraints (Some d))) eqn:Eb.
  { right. exists d. by bool_to_prop. }
  left. apply blind_authz. intros sr k Hok. apply Hb. unfold withSearch; cbn.
  assert (Authz.HasConstraints (Some (decisionOf z allow q k)) = true) as Hd.
  { unfold decisionOf. fold input. rewrite Ed. unfold Authz.authorizeRequest in Hok. fold input in Hok.
    rewrite Ed in Hok. destruct (bool_decide _ && _); [done|]. destruct (Authz.Allowed d) eqn:Eal; [|done].
    cbn in Hok, Eb. rewrite negb_false_iff in Eb. 
    pose proof (Authz.constrainRequest_constrains z _ _ d sr k Hok Eb) as Hk. by rewrite Eal in Hk. }
  by destruct (x_info (q_ctx q)).
Qed.

(** The endpoint of the route a request matches is all the router asks of
    the inner handlers, on the requests the tiers admit. *)
Lemma serveHTTP_agree `{!ClientIPLib} cfg mux rawPath health unmatched text recoverer c now fresh allow
    stac stac' asset asset' r body s :
  (∀ pattern params info body' q',
     mux (Method r) (routePath rawPath r) = Some (pattern, params) →
     Parser.searchParserMiddleware (stacInfoClassifier mux rawPath r) r (bodyCap cfg body) = Ok (info, body') →
     admitted c now allow (w_limiter s)
       (mkReq r body' (mkContext info None None "" (clientIPMiddleware (rc_ClientIP cfg) r))) q' →
     ∀ w s', endpoint stac asset pattern params w q' s' = endpoint stac' asset' pattern params w q' s') →
  let ms := httpMiddlewares c now fresh allow in
  serveHTTP cfg mux rawPath health unmatched text recoverer ms stac asset r body s =
  serveHTTP cfg mux rawPath health unmatched text recoverer ms stac' asset' r body s.
Proof.
  intros Hin ms. unfold serveHTTP. destruct (mux _ _) as [[pattern params]|]; [|done].
  case_bool_decide; [done|]. f_equal. unfold serveGroup. cbv zeta. cbn [withBody q_http q_body].
  destruct (Parser.searchParserMiddleware _ _ _) as [[info body']|] eqn:Ep; [|done].
  refine (chain_agree c now fresh allow
            (mkReq r body' (mkContext info None None "" (clientIPMiddleware (rc_ClientIP cfg) r))) (w_limiter s)
            _ _ _ _ _ _ (conj eq_refl eq_refl)).
  intros w q' s' Had. by apply (Hin pattern params info body' q').
Qed.

(** ** Properties *)

(** C4: Nothing reaches the federation or asset handler that a configured
    tier did not let through: two inner handlers that agree on the admitted
    requests cannot be told apart through the router.  An admitted request
    is the client's, with a body within the limit; its search was parsed
    before authorization; it carries the principal the authentication chain
    established, the limiter let that principal's key through, the policy
    allowed exactly this input, and its search obeys the policy's
    constraints. *)
Theorem pipeline_gate `{!ClientIPLib} cfg mux rawPath health unmatched text recoverer c now fresh allow
    stac stac' asset asset' r body s :
  (∀ info body' q', Parser.searchParserMiddleware (stacInfoClassifier mux rawPath r) r (bodyCap cfg body) =
       Ok (info, body') →
     admitted c now allow (w_limiter s)
       (mkReq r body' (mkContext info None None "" (clientIPMiddleware (rc_ClientIP cfg) r))) q' →
     ∀ w s' id ref, stac w q' s' = stac' w q' s' ∧ asset id ref w q' s' = asset' id ref w q' s') →
  let ms := httpMiddlewares c now fresh allow in
  serveHTTP cfg mux rawPath health unmatched text recoverer ms stac asset r body s =
  serveHTTP cfg mux rawPath health unmatched text recoverer ms stac' asset' r body s.
Proof.
  intros Hin. apply serveHTTP_agree. intros pattern params info body' q' _ Hp Had w s'. unfold endpoint.
  case_bool_decide; by apply (Hin info body' q' Hp Had w s' (URLParam params "originId") (URLParam params "ref")).
Qed.

(** C9: The response cache never mixes answers to constrained requests: the
    authorization tier runs outside it, so a request goes through with the
    store neither read nor written, unless the policy allowed the request of
    the authenticated principal without selecting collections, bounding the
    results, filtering by property or naming an area to stay within.  (A
    geofence with a denied area only does not keep a request from the cache,
    [denied_only_cached]; it is applied to the response outside it.) *)
Theorem constrained_uncached `{!Authz.Cql2Laws} c now fresh allow inner w q l i z :
  cc_authz c = Some z →
  (∃ r l' i', ∀ st, chain (httpMiddlewares c now fresh allow) (lift inner) w q (mkWorld l st i) = (r, mkWorld l' st i')) ∨
  (∃ p d, principalOf c q = Ok p ∧ Authz.Enforcer z (inputOf allow fresh q p) = Some d ∧
     Authz.Allowed d = true ∧ ∀ cs, Authz.Constraints d = Some cs → Authz.unrestricted cs).
Proof.
  intros Hz. set (rest := chain [tier (λ r, rateMW r now) (cc_rate c); authzMW z allow;
    tier (λ r, cacheMW r now) (cc_cache c); tier remapMW (cc_remap c)] (lift inner)).
  assert (∀ q', blind rest q' ∨ ∃ d,
    Authz.Enforcer z (Authz.BuildAuthzInput allow (RateLimit.ClientIP (x_clientIP (q_ctx q')) (q_http q'))
      (x_requestID (q_ctx q')) (q_http q') (x_info (q_ctx q')) (x_principal (q_ctx q'))) = Some d ∧
    Authz.Allowed d = true ∧ Authz.HasConstraints (Some d) = false) as Hrest.
  { intros q'. destruct (authz_blind z allow (chain [tier (λ r, cacheMW r now) (cc_cache c); tier remapMW (cc_remap c)]
      (lift inner)) q') as [Hb|?]; [| |by right].
    - intros q2 Hc. cbn. assert (blind (tier remapMW (cc_remap c) (lift inner)) q2).
      { destruct (cc_remap c); cbn; [apply blind_remap|]; apply blind_lift. }
      destruct (cc_cache c); cbn; [by apply blind_cache|done].
    - left. unfold rest; cbn. destruct (cc_rate c); cbn; [by apply blind_rate|done]. }
  unfold chain, httpMiddlewares. cbn [foldr]. unfold loggingMW. fold (requestIDOf fresh q). rewrite Hz. cbn [tier].
  change (tier (λ r, rateMW r now) (cc_rate c) _) with rest.
  set (q1 := withRequestID _ q). set (w1 := Set_ _ _ w).
  destruct (cc_cors c) as [f|]; cbn [tier]; [unfold corsMW; destruct (f w1 (q_http q1)) as [resp|w2]; [by left; exists (Done resp), l, i|]|];
    unfold principalOf; (destruct (cc_auth c) as [a|] eqn:Ea; cbn [tier];
      [unfold authMW; change (q_http q1) with (q_http q);
       destruct (Auth.authenticate a (q_http q)) as [p|e]; [|by left; eexists _, l, i]|]);
    [destruct (Hrest (withPrincipal p q1)) as [Hb|(d & Hd & ?)]|destruct (Hrest q1) as [Hb|(d & Hd & ?)]
    |destruct (Hrest (withPrincipal p q1)) as [Hb|(d & Hd & ?)]|destruct (Hrest q1) as [Hb|(d & Hd & ?)]];
    try (by left; apply Hb); right; eexists _, d; (split; [reflexivity|]); rewrite <-Authz.HasConstraints_false; by split.
Qed.

(** CORS preflights do not get as far as the CORS tier: the router answers
    an OPTIONS request itself, since no route has that method and the tiers
    of the group wrap its routes only. *)
Lemma preflight_unreachable `{!ClientIPLib} cfg mux rawPath health unmatched text recoverer ms stac asset r body s :
  (∀ m path pattern params, mux m path = Some (pattern, params) → (m, pattern) ∈ routes cfg) →
  Method r = "OPTIONS" →
  serveHTTP cfg mux rawPath health unmatched text recoverer ms stac asset r body s = (Done (unmatched r), s).
Proof.
  intros Hmux Hm. unfold serveHTTP. rewrite Hm. destruct (mux _ _) as [[pattern params]|] eqn:Em; [|done].
  apply Hmux, (list_elem_of_fmap_2 fst) in Em.
  assert (bool_decide ("OPTIONS" ∈ (routes cfg).*1) = false) as Hno by by destruct cfg as [? [] []].
  by apply bool_decide_eq_false in Hno.
Qed.

End Pipeline.

(** ** Witnesses *)

Module Witness.
#[local] Existing Instance Authz.Witness.json.
#[local] Existing Instance Authz.Witness.geoLib.
#[local] Existing Instance Authz.Witness.cql2Geo.
#[local] Existing Instance Authz.Witness.parseFloat.
#[local] Existing Instance Authz.Witness.cql2Lib.
#[local] Existing Instance Authz.Witness.cql2Laws.
#[local] Existing Instance Parser.Witness.toyCodec.
#[local] Existing Instance Cache.Witness.plainHash.
#[local] Existing Instance Cache.Witness.okCodec.
#[local] Existing Instance StoreProperties.assoc_LRU.

(** A limiter that counts calls down. *)
#[local] Instance counter : RateLimit.Limiter nat := {|
  RateLimit.Allow _ _ _ n :=
    match n with O => (Ok (false, RateLimit.mkInfo 1 0 0 1), O) | S n => (Ok (true, RateLimit.mkInfo 1 0 0 0), n) end |}.

Abbreviation Mem := (Memory.MemoryStore (L:=StoreProperties.assocLRU)).
Abbreviation World := (world nat Mem unit).

Definition user (id : string) : Auth.Principal := Auth.mkPrincipal id "user" "" "" [] [] ∅ [] "" 0.
Definition keyed : Auth.Provider :=
  Auth.mkProvider "key" None (λ r, Ok (if String.eqb (Get (ReqHeader r) "X-Api-Key") "k" then Some (user "al") else None)).
Definition onlyA : Authz.AuthzConstraints := Authz.mkConstraints ["a"] [] None 10 [] "" VNil false.
Definition policy : Authz.HTTPConfig :=
  Authz.mkHTTPConfig (λ _, Some (Authz.mkDecision true [] (Some onlyA) false)) true false None None.
Definition full : chainConfig :=
  mkChain None (Some (Auth.mkConfig false [keyed]))
    (Some (RateLimit.mkConfig (RateLimit.mkQuota 1 1 1) false)) (Some policy)
    (Some Cache.Witness.cfg) (Some []).

Definition mux (method path : string) : option (string * gmap string string) :=
  if String.eqb path "/search" && (String.eqb method "GET" || String.eqb method "POST") then Some ("/search", ∅)
  else if String.eqb path "/collections/b/items/x" && String.eqb method "GET"
  then Some ("/collections/{collectionId}/items/{itemId}", <["collectionId" := "b"]> {["itemId" := "x"]})
  else None.
Definition router : RouterConfig := mkRouterConfig 0 false true (Config.mkClientIP "" "" [] 0).
#[local] Instance noAddress : ClientIPLib := {|
  ClientIPFromRemoteAddr _ := ""; ClientIPFromHeader _ _ := ""; ClientIPFromXFF _ _ := "";
  ClientIPFromXFFTrustedProxies _ _ := "" |}.
Definition plain (code : Z) (body : string) : response := mkResponse code ∅ body.

(** Answers with the caller and the collections asked for. *)
Definition echo : handler (St:=Mem) (Li:=nat) (I:=unit) := λ w q s,
  (Done (plain 200 (match x_principal (q_ctx q), x_info (q_ctx q) with
              | Some p, Some i => Auth.p_ID p +:+ ":" +:+
                  match info_SearchReq i with Some sr => String.concat "," (Stac.Collections sr) | None => "" end
              | _, _ => "?"
              end)), s).

(** The same, unless the caller is not the one user with a key or another
    collection than [a] is asked for. *)
Definition trap : handler (St:=Mem) (Li:=nat) (I:=unit) := λ w q s,
  match x_principal (q_ctx q), x_info (q_ctx q) with
  | Some p, Some (mkSTACInfo _ _ _ (Some sr)) =>
      if String.eqb (Auth.p_ID p) "al" && forallb (String.eqb "a") (Stac.Collections sr) then echo w q s
      else (Done (plain 500 "leak"), s)
  | _, _ => (Done (plain 500 "leak"), s)
  end.

Definition get (headers : header) (path query : string) : httpRequest :=
  mkRequest "GET" path query headers "10.0.0.1:4711".
Definition withKey : header := {["X-Api-Key" := ["k"]]}.
Definition start : World := mkWorld 5 (Memory.NewMemoryStore 8) tt.
Definition serve (h : handler (St:=Mem) (Li:=nat) (I:=unit)) (r : httpRequest) (s : World)
    : outcome * World :=
  serveHTTP router mux "" (λ _ _, plain 200 "up") (λ _, plain 404 "none") (λ _, "bad") (λ w _, mkResponse 500 w "")
    (httpMiddlewares full 0 "id" ∅) h (λ _ _, h) r (Some "") s.
Definition statusOf (o : outcome) : Z := match o with Done r => resp_Status r | _ => 0 end.
Definition bodyOf (o : outcome) : bytes := match o with Done r => resp_Body r | _ => "" end.

Lemma pipeline_gate_witness :
  bodyOf (serve echo (get withKey "/search" "collections=a,b") start).1 = "al:a" ∧
  statusOf (serve echo (get ∅ "/search" "collections=a,b") start).1 = 401%Z ∧
  serve echo (get withKey "/search" "collections=a,b") start = serve trap (get withKey "/search" "collections=a,b") start.
Proof.
  split_and!; [vm_compute; reflexivity..|].
  refine (pipeline_gate router mux "" (λ _ _, plain 200 "up") (λ _, plain 404 "none") (λ _, "bad")
    (λ w _, mkResponse 500 w "") full 0 "id" ∅ echo trap (λ _ _, echo) (λ _ _, trap) (get withKey "/search" "collections=a,b") (Some "") start _).
  intros info body' q' Hp [_ _ _ Ha _ _ Hz] w s' id ref.
  destruct (Ha _ eq_refl) as (p & Hp' & Hpr). injection Hp' as <-.
  injection Hp as <- _. destruct (Hz _ eq_refl) as (d & Hd & _ & Hs & _). injection Hd as <-.
  destruct (Hs _ _ _ eq_refl eq_refl eq_refl) as (sr' & Hi & Hc & _). destruct Hc as [Hc _ _ _].
  assert (forallb (String.eqb "a") (Stac.Collections sr') = true) as Hall.
  { apply forallb_forall. intros x Hx%list_elem_of_In. destruct Hc as [_ Hc]; [done|].
    apply Hc, list_elem_of_singleton in Hx as ->. reflexivity. }
  split; unfold trap; rewrite Hpr, Hi; cbv beta match; by rewrite Hall.
Defined.

(** The constrained search goes through without touching a store that holds
    anything. *)
Definition constrainedQuery : request :=
  mkReq (get withKey "/search" "collections=a") None
    (mkContext (Some (mkSTACInfo "" "" RequestTypeSearch (Some (Authz.withCollections ["a"] Stac.emptySearchRequest)))) None None "" "").

Lemma constrained_uncached_witness :
  ∃ r l' i', ∀ st : Mem, chain (httpMiddlewares full 0 "id" ∅) (lift (λ w q u, (Done (plain 200 "x"), u))) ∅
    constrainedQuery (mkWorld 5 st tt) = (r, mkWorld l' st i').
Proof.
  destruct (constrained_uncached (St:=Mem) full 0 "id" ∅ (λ w q u, (Done (plain 200 "x"), u)) ∅ constrainedQuery 5 tt policy)
    as [Hu|(p & d & _ & [= <-] & _ & Hc)]; [reflexivity|exact Hu|].
  discriminate (Authz.ur_allowed _ (Hc onlyA eq_refl)).
Defined.

(** A decision with a geofence that only denies an area counts as
    unconstrained: the cache is asked and would be filled. *)
Lemma denied_only_cached :
  let cs := Authz.mkConstraints [] [] (Some (Authz.mkGeofence VNil (VObj []) true "")) 0 [] "" VNil false in
  let d := Some (Authz.mkDecision true [] (Some cs) false) in
  Authz.HasConstraints d = false ∧
  match (Cache.consult 0 ∅ (Some (mkSTACInfo "" "" RequestTypeSearch None)) d None
           (get ∅ "/search" "") (Memory.NewMemoryStore 8 : Mem)).1 with Cache.Fetch _ => True | _ => False end.
Proof. by split. Qed.

(** The collection allow-list binds searches only: an item of another
    collection is served to the same caller. *)
Lemma item_ignores_allowed_collections :
  statusOf (serve echo (get withKey "/search" "collections=b") start).1 = 403%Z ∧
  statusOf (serve echo (get withKey "/collections/b/items/x" "") start).1 = 200%Z.
Proof. split; vm_compute; reflexivity. Qed.

(** Behind the authentication tier an anonymous request has a principal: a
    policy that tells anonymous callers by the absence of one never fires. *)
Lemma anonymous_has_principal :
  let c := mkChain None (Some (Auth.mkConfig true [keyed])) None (Some policy) None None in
  let q := mkReq (get ∅ "/search" "") None (mkContext None None None "" "") in
  principalOf c q = Ok (Some Auth.AnonymousPrincipal) ∧
  Authz.pi_ID <$> Authz.in_Principal (inputOf ∅ "id" q (Some Auth.AnonymousPrincipal)) = Some "anonymous".
Proof. split; reflexivity. Qed.
End Witness.

End Pipeline.
