(* ===== verification/Wiring.v ===== *)
(** * Assembly ([cmd/stac-proxy/main.go])

    How [main] and [run] turn a validated configuration into the handler, the
    tiers of [Pipeline] and the server: the extraction of middleware blocks,
    the authentication providers, the stores and limiters, the capabilities
    of the origins, the federation handler, and the warning about an open
    server.  With it the constructors of the components that [main] calls:
    CORS and remapping rules from a configuration block, the Redis client,
    the HTTP server and the conformance probe.

    Parameters: the files of the host, what the origins answer to the boot
    probe, the regular expressions and durations of the Go library, the CORS
    handler of chi, the keys a JWKS client serves, and the classes of the
    components.  A nil dereference is an error here.  The timeouts, names and
    discovery intervals of an origin have no field in the origin's model. *)

From S2P Require Import Prelude GoLib Breaker Stac Fanout Merger Cursor Store PageCache PageAdapter Pagination Router Httpx.
From S2P Require Import Middleware Auth Cql2 Authz Query Cache Remap RateLimit SearchHandler Config Validation Jwks.
From S2P Require Import AuthProviders Parser OriginAuth OriginClient Proxy Catalog Opa Pipeline.
From Stdlib Require Import Ascii SpecFloat.
Import Strings Values Header Stac Middleware Auth AuthProviders Config Validation.

Module Wiring.
#[local] Open Scope Z_scope.

(** ** Reading a block *)

Abbreviation block := (list (string * value)).

Definition getStringConfig (m : block) (key : string) : string := default "" (as_string (index key m)).
Definition getBoolConfig (m : block) (key : string) : bool :=
  match index key m with VBool b => b | _ => false end.
Definition getStringSliceConfig (m : block) (key : string) : list string :=
  match index key m with VArr l => omap as_string l | _ => [] end.

(** Go compares the number with 2^62 as a float. *)
Definition intFromAny (v : value) : option Z :=
  match v with
  | VInt z => Some z
  | VFloat f =>
      if match f with S754_nan => true | _ => false end ||
         SFltb f (float64_of_int (- 2 ^ 62)) || SFltb (float64_of_int (2 ^ 62)) f
      then None else Some (int64_of_float f)
  | _ => None
  end.

(** The configuration of the first block of a name; a block may have none. *)
Definition rawCfg (name : string) (cfg : Config) : option block :=
  mw ← List.find (λ mw, String.eqb (mw_Name mw) name) (c_Middleware cfg); mw_Config mw.

Definition parseBasicUser (acc : result string (list Basic.BasicUser)) (item : value)
    : result string (list Basic.BasicUser) :=
  out ← acc;
  match as_object item with
  | None => Err "users: expected map"
  | Some m =>
      Ok (out ++ [Basic.mkUser (getStringConfig m "username") (getStringConfig m "password_hash")
                    (getStringSliceConfig m "roles") (default [] (as_object (index "attributes" m)))])
  end.

Definition parseBasicUsers (raw : value) : result string (list Basic.BasicUser) :=
  match raw with
  | VArr l => foldl parseBasicUser (Ok []) l
  | VNil => Ok []
  | _ => Err "expected list"
  end.

(** An entry is enabled unless it says otherwise. *)
Definition keyEntry (m : block) : APIKeyEntry :=
  mkKeyEntry (getStringConfig m "key") (getStringConfig m "name") (getStringConfig m "description")
    (getStringSliceConfig m "roles") (getStringSliceConfig m "groups") (getStringSliceConfig m "collections")
    (match index "enabled" m with VBool b => b | _ => true end).

Definition parseAPIKey (acc : result string (gmap string APIKeyEntry)) (item : value)
    : result string (gmap string APIKeyEntry) :=
  out ← acc;
  match as_object item with
  | None => Err "keys: expected map"
  | Some m =>
      let e := keyEntry m in
      if String.eqb (k_Key e) "" then Err "keys: missing required field 'key'" else Ok (<[k_Key e := e]> out)
  end.

Definition parseAPIKeys (raw : value) : result string (gmap string APIKeyEntry) :=
  match raw with
  | VArr l => foldl parseAPIKey (Ok ∅) l
  | VNil => Ok ∅
  | _ => Err "expected list"
  end.

(** ** Origins *)

Definition originRetryPolicy (c : option RetryConfig) : option OriginClient.RetryPolicy :=
  (λ c, OriginClient.mkRetryPolicy (ry_MaxRetries c) (ry_InitialBackoff c) (ry_MaxBackoff c) (ry_RetryOn c)) <$> c.

Definition originBreakerPolicy (c : option CircuitBreakerConfig) : option OriginClient.BreakerPolicy :=
  (λ c, OriginClient.mkBreakerPolicy (match cb_Enabled c with Some b => negb b | None => false end)
          (cb_FailureThreshold c) (cb_OpenDuration c) (cb_MaxOpenDuration c) (cb_HalfOpenProbes c)) <$> c.

Definition originPaginationSpec (c : option PaginationConfig) : PageAdapter.Config :=
  match c with
  | None => PageAdapter.mkConfig "" "" ""
  | Some c => PageAdapter.mkConfig (pg_Adapter c) (pg_OffsetParam c) (pg_TokenParam c)
  end.

Definition originAuthConfig (c : option OriginAuthConfig) : OriginAuth.AuthConfig :=
  match c with
  | None => OriginAuth.mkAuthConfig "none" "" "" "" "" "" false None None ∅
  | Some c =>
      OriginAuth.mkAuthConfig (a_Type c) (a_Username c) (a_Password c) (a_Token c)
        (a_APIKeyHeader c) (a_APIKeyValue c) (a_APIKeyInQuery c)
        ((λ o, OriginAuth.mkOAuth2Config (oa_TokenURL o) (oa_ClientID o) (oa_ClientSecret o) (oa_Scopes o)
                 (oa_Audience o)) <$> a_OAuth2 c)
        ((λ w, OriginAuth.mkSigV4Config (sv_Region w) (sv_Service w) (sv_AccessKey w) (sv_SecretKey w)) <$> a_AWSSigV4 c)
        (a_CustomHeaders c)
  end.

(** The classes an upstream advertises; [get] answers with a status and a
    body, [decode] reads a conformance document. *)
Definition FetchConformance (get : string → option (Z * bytes)) (decode : bytes → option (list string))
    (baseURL : string) : option (list string) :=
  '(status, body) ← get (TrimRightSlash baseURL +:+ "/conformance");
  if status =? 200 then decode body else None.

Definition ProbeFilterExtension (get : string → option (Z * bytes)) (decode : bytes → option (list string))
    (baseURL : string) : option bool :=
  classes ← FetchConformance get decode baseURL; Some (HasFilterExtension classes).

Definition resolveOriginCapabilities (probe : string → option (list string)) (baseURL : string)
    (cfgFilter cfgSpatial : bool) : bool * bool :=
  if cfgFilter && cfgSpatial then (true, true) else
  match probe baseURL with
  | None => (cfgFilter, cfgSpatial)
  | Some classes =>
      let filter := cfgFilter || HasFilterExtension classes in
      (filter, cfgSpatial || (filter && HasSpatialFunctions classes))
  end.

Definition originOf (probe : string → option (list string)) (o : Config.OriginConfig) : OriginClient.OriginConfig :=
  let '(filter, spatial) :=
    resolveOriginCapabilities probe (og_BaseURL o) (og_SupportsFilterExtension o) (og_SupportsSpatialFilter o) in
  OriginClient.mkOriginConfig
    (Router.mkOrigin (og_ID o) (og_BaseURL o) (og_Enabled o) (og_Collections o) (og_ExcludeCollections o)
       (og_Priority o) (og_ReadOnly o) (og_Searchable o) (og_CollectionPrefix o) filter spatial
       (og_ForwardUserIdentity o) (og_CollectionMapping o) (og_RewriteAssets o))
    (originAuthConfig (og_Auth o)) (originRetryPolicy (og_Retry o)) (originBreakerPolicy (og_CircuitBreaker o))
    (og_MaxIdleConnsPerHost o) (og_MaxResponseBytes o) (og_AssetSignTTL o) (og_AutoDiscover o)
    (originPaginationSpec (og_Pagination o)).

(** The upstream of a single-origin deployment. *)
Definition primaryOf (probe : string → option (list string)) (u : UpstreamConfig) : OriginClient.OriginConfig :=
  let '(filter, spatial) :=
    resolveOriginCapabilities probe (u_URL u) (u_SupportsFilterExtension u) (u_SupportsSpatialFilter u) in
  OriginClient.mkOriginConfig
    (Router.mkOrigin "primary" (u_URL u) true [] [] 100 false true "" filter spatial false ∅ "")
    (OriginAuth.mkAuthConfig "" "" "" "" "" "" false None None ∅) None None 0 0 0 false (PageAdapter.mkConfig "" "" "").

Definition computeConformanceCaps (cfg : Config) (origins : list OriginClient.OriginConfig) : ConformanceCaps :=
  mkCaps (default false (c_Authz cfg ≫= az_CQL2Injection))
    (match origins with
     | [] => false
     | _ => forallb (λ o, Router.o_SupportsFilterExtension (OriginClient.oc_Origin o)) origins
     end).

(** ** Stores *)

Inductive storeKind := MemoryKind (maxSize : Z) | RedisKind (prefix : string).

Definition DefaultKeyPrefix : string := "stacproxy:".
Definition NSResponseCache : string := "rc:".
Definition NSPageCache : string := "pg:".
Definition NSRateLimit : string := "rl:".

Definition redisKeyPrefix (cfg : Config) : string :=
  match c_Redis cfg with
  | Some r => if String.eqb (rd_KeyPrefix r) "" then DefaultKeyPrefix else rd_KeyPrefix r
  | None => DefaultKeyPrefix
  end.

(** The cache and the store it writes to; [rdb]: a Redis client was built. *)
Definition buildPageCache (cfg : Config) (rdb : bool) : option (PageCache.Cache * storeKind) :=
  fc ← c_Federation cfg;
  if String.eqb (f_CursorSecret fc) "" then None else
  if negb (default true (f_PageCache fc ≫= pc_Enabled)) then None else
  let maxEntries := match f_PageCache fc with
                    | Some pc => if 0 <? pc_MaxEntries pc then pc_MaxEntries pc else 1024
                    | None => 1024
                    end in
  let ttl := match f_PageCache fc with
             | Some pc => if 0 <? pc_TTL pc then pc_TTL pc else 60 * minute
             | None => 60 * minute
             end in
  let redis := match f_PageCache fc with Some pc => String.eqb (pc_Store pc) "redis" | None => false end in
  let store := if redis && rdb then RedisKind (redisKeyPrefix cfg +:+ NSPageCache) else MemoryKind maxEntries in
  match PageCache.New true ttl (f_CursorSecret fc) with
  | Ok (Some c) => Some (c, store)
  | _ => None
  end.

(** [NewFromConfigWithStore] with the store [main] hands over. *)
Definition cacheFromConfig (m : block) (store : option storeKind) : result string (Cache.Config * storeKind) :=
  let cfg := Cache.mkConfig None [] 0 in
  match store with
  | Some s => Ok (cfg, s)
  | None =>
      let storeType := match as_string (index "store" m) with
                       | Some v => if String.eqb v "" then "memory" else v
                       | None => "memory"
                       end in
      if String.eqb storeType "memory"
      then Ok (cfg, MemoryKind (match index "max_size" m with VInt z => z | _ => 10000 end))
      else if String.eqb storeType "redis" then Err "cache store selected but no store was provided"
      else Err "unknown cache store type"
  end.

Definition buildCacheHTTPMiddleware (cfg : Config) (rdb : bool) : result string (option (Cache.Config * storeKind)) :=
  match rawCfg "cache" cfg with
  | None => Ok None
  | Some m =>
      let store := if String.eqb (StoreSelection (Some m)) "redis" && rdb
                   then Some (RedisKind (redisKeyPrefix cfg +:+ NSResponseCache)) else None in
      c ← cacheFromConfig m store; Ok (Some c)
  end.

(** The limiter's store: [MemoryKind 0] is the in-memory limiter with its
    default size. *)
Definition buildRateLimitHTTPMiddleware (parseDuration : string → option Z) (cfg : Config) (rdb : bool)
    : option (RateLimit.Config * storeKind) :=
  m ← rawCfg "rate_limit" cfg;
  let requests := default 1000 (intFromAny (index "requests" m)) in
  let window := default (60 * minute) (as_string (index "window" m) ≫= parseDuration) in
  let burst := default 50 (intFromAny (index "burst" m)) in
  let burst := if burst <=? 0 then 50 else burst in
  let quota := RateLimit.mkQuota requests window burst in
  if String.eqb (StoreSelection (Some m)) "redis" && rdb
  then Some (RateLimit.mkConfig quota (match index "failure_mode" m with VStr s => String.eqb s "closed" | _ => false end),
             RedisKind (redisKeyPrefix cfg +:+ NSRateLimit))
  else Some (RateLimit.mkConfig quota false, MemoryKind 0).

(** ** Redis *)

Record redisOptions := mkRedisOptions {
  ro_Addr : string; ro_Username : string; ro_Password : string; ro_DB : Z;
  ro_PoolSize : Z; ro_MinIdleConns : Z; ro_DialTimeout : Z; ro_ReadTimeout : Z; ro_WriteTimeout : Z;
  ro_MaxRetries : Z; ro_ContextTimeoutEnabled : bool; ro_TLS : option RedisTLSConfig;
}.

(** ** CORS *)

Record corsOptions := mkCorsOptions {
  AllowedOrigins : list string; AllowedMethods : list string; AllowedHeaders : list string;
  ExposedHeaders : list string; AllowCredentials : bool; MaxAge : Z;
}.

Definition defaultAllowedMethods : list string := ["GET"; "HEAD"; "POST"; "OPTIONS"].
Definition defaultAllowedHeaders : list string :=
  ["Authorization"; "Content-Type"; "Accept"; "Range"; "If-None-Match"; "If-Modified-Since"].
Definition defaultMaxAgeSeconds : Z := 600.

Definition stringList (m : block) (key : string) : result string (list string) :=
  match index key m with
  | VNil => Ok []
  | VArr l => foldr (λ item acc, match as_string item with
                                 | Some s => rest ← acc; Ok (s :: rest)
                                 | None => Err "cors: must be a string"
                                 end) (Ok []) l
  | _ => Err "cors: must be a list of strings"
  end.

Definition corsFromConfig (m : block) : result string corsOptions :=
  origins ← stringList m "allowed_origins";
  methods ← stringList m "allowed_methods";
  headers ← stringList m "allowed_headers";
  exposed ← stringList m "exposed_headers";
  let allowCreds := getBoolConfig m "allow_credentials" in
  maxAge ← match index "max_age" m with
           | VInt z => Ok z
           | VFloat f => Ok (int64_of_float f)
           | VNil => Ok defaultMaxAgeSeconds
           | _ => Err "cors: max_age must be a number of seconds"
           end;
  if allowCreds && existsb (String.eqb "*") origins
  then Err "cors: allow_credentials cannot be true with wildcard allowed_origins '*'"
  else Ok (mkCorsOptions origins (match methods with [] => defaultAllowedMethods | _ => methods end)
             (match headers with [] => defaultAllowedHeaders | _ => headers end) exposed allowCreds maxAge).

(** ** The server *)

Record httpServer := mkHTTPServer {
  hs_Addr : string; hs_ReadTimeout : Z; hs_ReadHeaderTimeout : Z; hs_WriteTimeout : Z; hs_IdleTimeout : Z;
  hs_MaxHeaderBytes : Z; hs_TLS : bool;
}.

(** [keyPair]: [tls.LoadX509KeyPair] reads the two files. *)
Definition newServer (keyPair : string → string → bool) (s : ServerConfig) : result string httpServer :=
  let t := s_Timeouts s in
  if tls_Enabled (s_TLS s) && negb (keyPair (tls_CertFile (s_TLS s)) (tls_KeyFile (s_TLS s)))
  then Err "failed to load TLS config"
  else Ok (mkHTTPServer (s_Host s +:+ ":" +:+ Remap.FormatInt (s_Port s))
             (orZ (30 * second) (t_Read t)) (orZ (10 * second) (t_ReadHeader t)) (orZ (60 * second) (t_Write t))
             (orZ (120 * second) (t_Idle t)) (orZ DefaultMaxHeaderBytes (s_MaxHeaderBytes s)) (tls_Enabled (s_TLS s))).

(** ** The open-server warning *)

Definition serverIsUnauthenticated (cfg : Config) : bool :=
  match c_Authz cfg ≫= az_OPA with
  | Some _ => false
  | None =>
      match List.find (λ mw, String.eqb (mw_Name mw) "auth") (c_Middleware cfg) with
      | Some mw => match cfgIndex (mw_Config mw) "allow_anonymous" with VBool b => b | _ => true end
      | None => true
      end
  end.

(** ** Building *)

(** A rule's pattern compiled: whether a URL matches, and what replaces its
    matches by a template. *)
Record regexp := mkRegexp { re_MatchString : string → bool; re_ReplaceAllString : string → string → string }.

(** A readiness probe: the name, the URL and the transport it goes
    through. *)
Record originCheck := mkCheck { ck_Name : string; ck_URL : string; ck_Client : list OriginClient.layer }.

(** What [run] has before it listens. *)
Record deployment := mkDeployment {
  dp_handler : Catalog.Handler;
  dp_checks : list originCheck;
  dp_redis : option redisOptions;
  dp_pages : option storeKind;
  dp_chain : Pipeline.chainConfig;
  dp_limiter : option storeKind;
  dp_store : option storeKind;
  dp_router : Pipeline.RouterConfig;
  dp_server : httpServer;
  dp_open : bool;
}.

(** ** Construction *)

Definition is_Ok {E A} (r : result E A) : Prop := ∃ a, r = Ok a.

Lemma bind_is_Ok {E A B} (r : result E A) (f : A → B) : is_Ok (x ← r; Ok (f x)) ↔ is_Ok r.
Proof. destruct r; cbn; split; intros [? ?]; try done; by eexists. Qed.

Lemma Forall2_all {A B} (R : A → B → Prop) l k (P : A → Prop) (Q : B → Prop) :
  Forall2 R l k → (∀ x y, R x y → P x ↔ Q y) → (l ≠ [] ∧ ∀ x, x ∈ l → P x) ↔ (k ≠ [] ∧ ∀ y, y ∈ k → Q y).
Proof.
  intros Hlk HPQ. rewrite <-!Forall_forall.
  assert (l = [] ↔ k = []) as Hnil by (split; intros ->; by inversion Hlk).
  assert (Forall P l ↔ Forall Q k) as ->; [|naive_solver].
  clear Hnil. induction Hlk; [done|]. rewrite !Forall_cons. naive_solver.
Qed.

Lemma prefixes_disjoint (p ns ns' k k' : string) :
  String.length ns = String.length ns' → ns ≠ ns' → (p +:+ ns) +:+ k ≠ (p +:+ ns') +:+ k'.
Proof.
  intros Hlen Hne Heq. apply Hne. clear Hne. induction p as [|c p IH]; cbn in Heq; [|by injection Heq as ?%IH].
  revert ns' Hlen Heq. induction ns as [|a ns IH]; intros [|b ns'] Hlen Heq; try done.
  cbn in Hlen, Heq. injection Hlen as Hlen. injection Heq as -> Heq. by rewrite (IH ns').
Qed.

Section Construction.
Context `{!URL.GoURL, !PageAdapter.BodyCodec, !MapRange} (iface : OriginClient.OriginClient → Pagination.OriginClient).

Definition o_of (o : OriginClient.OriginConfig) : Router.Origin := OriginClient.oc_Origin o.

Lemma addOrigin_Err os e : foldl Catalog.addOrigin (Err e) os = Err e.
Proof. by induction os. Qed.

(** The loop over the origins succeeds when every client does. *)
Lemma addOrigin_ok os acc :
  is_Ok (foldl Catalog.addOrigin (Ok acc) os) ↔
  Forall (λ o, Router.o_Enabled (o_of o) = true → is_Ok (OriginClient.NewOriginClientWithContext o)) os.
Proof.
  revert acc. induction os as [|o os IH]; intros [m r]; cbn [foldl].
  - split; [constructor|by eexists].
  - rewrite Forall_cons. unfold Catalog.addOrigin at 2. cbn. fold (o_of o).
    destruct (Router.o_Enabled (o_of o)); cbn; [|rewrite IH; naive_solver].
    destruct (OriginClient.NewOriginClientWithContext o) as [c|e]; cbn.
    + rewrite IH. unfold is_Ok. naive_solver.
    + rewrite addOrigin_Err. unfold is_Ok. naive_solver.
Qed.

(** With distinct IDs the clients are those of the enabled origins. *)
Lemma addOrigin_clients os m r m' r' :
  foldl Catalog.addOrigin (Ok (m, r)) os = Ok (m', r') →
  NoDup ((λ o, Router.o_ID (o_of o)) <$> os) →
  (∀ id c, m' !! id = Some c →
     m !! id = Some c ∨ ∃ o, o ∈ os ∧ Router.o_Enabled (o_of o) = true ∧ Router.o_ID (o_of o) = id ∧
       OriginClient.NewOriginClientWithContext o = Ok c) ∧
  (∀ id, id ∉ ((λ o, Router.o_ID (o_of o)) <$> os) → m' !! id = m !! id) ∧
  (∀ o, o ∈ os → Router.o_Enabled (o_of o) = true →
     ∃ c, m' !! Router.o_ID (o_of o) = Some c ∧ OriginClient.NewOriginClientWithContext o = Ok c).
Proof.
  revert m r. induction os as [|o os IH]; intros m r; cbn [foldl].
  { intros [= <- <-] _. split_and!; [by left|done|by intros o ?%not_elem_of_nil]. }
  cbn [fmap list_fmap]. intros Hf [Hni Hnd]%NoDup_cons. unfold Catalog.addOrigin at 2 in Hf. cbn in Hf. fold (o_of o) in Hf.
  destruct (Router.o_Enabled (o_of o)) eqn:Ee; cbn in Hf.
  - destruct (OriginClient.NewOriginClientWithContext o) as [c|e] eqn:Ec; cbn in Hf; [|by rewrite addOrigin_Err in Hf].
    destruct (IH _ _ Hf Hnd) as (H1' & H2' & H3'). split_and!.
    + intros id c' [Hm|(o' & ? & ?)]%H1'; [|right; exists o'; split; [by right|done]].
      destruct (decide (id = Router.o_ID (o_of o))) as [->|Hne].
      * rewrite lookup_insert_eq in Hm. injection Hm as <-. right. exists o. by split; [left|].
      * left. by rewrite lookup_insert_ne in Hm.
    + intros id [Hne Hn]%not_elem_of_cons. rewrite H2' by done. by rewrite lookup_insert_ne.
    + intros o' [->|Hin]%elem_of_cons Hen; [|by apply H3'].
      exists c. rewrite H2' by done. by rewrite lookup_insert_eq.
  - destruct (IH _ _ Hf Hnd) as (H1' & H2' & H3'). split_and!.
    + intros id c' [Hm|(o' & ? & ?)]%H1'; [by left|right; exists o'; split; [by right|done]].
    + intros id [Hne Hn]%not_elem_of_cons. by apply H2'.
    + intros o' [->|Hin]%elem_of_cons Hen; [congruence|by apply H3'].
Qed.

Definition knownAdapter (c : OriginClient.OriginClient) : Prop :=
  is_Ok (PageAdapter.New (OriginClient.oc_Pagination (OriginClient.cl_origin c))).

Lemma searcherOf_ok c : knownAdapter c → is_Ok (Catalog.searcherOf iface c).
Proof.
  intros [a Ha]. unfold Catalog.searcherOf, Pagination.NewOriginClientSearcher. rewrite Ha. cbn.
  destruct (_ || _); by eexists.
Qed.

Lemma addSearcher_ok l acc :
  Forall (λ kv, knownAdapter kv.2) l → is_Ok (foldl (Catalog.addSearcher iface) (Ok acc) l).
Proof.
  revert acc. induction l as [|kv l IH]; intros acc; cbn; [by eexists|]. intros [Hkv Hl]%Forall_cons.
  destruct (searcherOf_ok _ Hkv) as [s ->]. cbn. by apply IH.
Qed.

Lemma NewHandler_ok hc :
  NoDup ((λ o, Router.o_ID (o_of o)) <$> Catalog.hc_Origins hc) →
  Forall (λ o, is_Ok (PageAdapter.New (OriginClient.oc_Pagination o))) (Catalog.hc_Origins hc) →
  (is_Ok (Catalog.NewHandler iface hc) ↔
   Forall (λ o, Router.o_Enabled (o_of o) = true → is_Ok (OriginClient.NewOriginClientWithContext o)) (Catalog.hc_Origins hc)).
Proof.
  intros Hnd Had. rewrite <-(addOrigin_ok _ (∅, Router.NewCollectionRouter)). unfold Catalog.NewHandler.
  destruct (foldl Catalog.addOrigin _ _) as [[clients router]|e] eqn:E; cbn; [|by split; intros [? ?]].
  split; [by eexists|intros _]. destruct (addOrigin_clients _ _ _ _ _ E Hnd) as (Hcl & _ & _).
  assert (is_Ok (Catalog.buildSearcher iface hc clients)) as [sr ->]; [|by eexists].
  unfold Catalog.buildSearcher. destruct (String.eqb_spec (Catalog.hc_CursorSecret hc) "") as [|Hs]; cbn; [by eexists|].
  destruct (negb _); [|by eexists]. destruct (addSearcher_ok (range clients) ∅) as [os ->].
  - apply Forall_forall. intros [id c] [Hc|(o & Hin & _ & _ & Hc)]%elem_of_range%Hcl; [by rewrite lookup_empty in Hc|].
    unfold knownAdapter. cbn. rewrite (proj1 (Catalog.client_origin _ _ Hc)).
    rewrite Forall_forall in Had. by apply Had.
  - cbn. unfold Pagination.NewPaginatedSearcher. rewrite (proj2 (String.eqb_neq _ _) Hs). by eexists.
Qed.

Lemma NewHandler_origins hc h :
  Catalog.NewHandler iface hc = Ok h → NoDup ((λ o, Router.o_ID (o_of o)) <$> Catalog.hc_Origins hc) →
  Forall (λ o, Router.o_Enabled (o_of o) = true) (Catalog.hc_Origins hc) →
  ∀ oc, oc ∈ Catalog.hc_Origins hc ↔ ∃ id c, Catalog.h_origins h !! id = Some c ∧ OriginClient.cl_origin c = oc.
Proof.
  unfold Catalog.NewHandler. intros ([clients router] & E & (sr & _ & [= <-])%bind_ok)%bind_ok Hnd Hen oc. cbn.
  destruct (addOrigin_clients _ _ _ _ _ E Hnd) as (Hin & _ & Hout). rewrite Forall_forall in Hen. split.
  - intros Ho. destruct (Hout oc Ho (Hen oc Ho)) as (c & Hc & [? _]%Catalog.client_origin). eauto.
  - intros (id & c & [Hc|(o & Ho & _ & _ & [Hco _]%Catalog.client_origin)]%Hin & <-); [by rewrite lookup_empty in Hc|].
    by rewrite Hco.
Qed.

(** A capability of every origin of the handler, which has one. *)
Definition allOrigins (p : Router.Origin → bool) (h : Catalog.Handler) : bool :=
  match Catalog.OriginIDs h with
  | [] => false
  | ids => forallb (λ id, match Catalog.h_origins h !! id with
                          | Some c => p (OriginClient.oc_Origin (OriginClient.cl_origin c))
                          | None => false
                          end) ids
  end.

Lemma allOrigins_spec p h ocs :
  (∀ oc, oc ∈ ocs ↔ ∃ id c, Catalog.h_origins h !! id = Some c ∧ OriginClient.cl_origin c = oc) →
  allOrigins p h = true ↔ ocs ≠ [] ∧ ∀ oc, oc ∈ ocs → p (o_of oc) = true.
Proof.
  intros Hocs. unfold allOrigins.
  assert (∀ id, id ∈ Catalog.OriginIDs h ↔ is_Some (Catalog.h_origins h !! id)) as Hids.
  { intros id. unfold Catalog.OriginIDs. rewrite list_elem_of_fmap. split.
    - intros ([id' c] & -> & Hin%elem_of_range). by exists c.
    - intros [c Hc]. exists (id, c). split; [done|]. by apply elem_of_range. }
  destruct (Catalog.OriginIDs h) as [|id0 ids] eqn:E.
  - split; [done|]. intros [Hne _]. destruct ocs as [|oc ocs]; [done|].
    destruct (proj1 (Hocs oc)) as (id & c & Hc & _); [by left|]. exfalso. by apply (not_elem_of_nil id), Hids.
  - rewrite <-E in Hids |- *. rewrite forallb_forall. split.
    + intros Hall. split.
      * assert (is_Some (Catalog.h_origins h !! id0)) as [c Hc] by (apply Hids; rewrite E; left).
        intros ->. apply (not_elem_of_nil (OriginClient.cl_origin c)), Hocs. eauto.
      * intros oc (id & c & Hc & <-)%Hocs. specialize (Hall id). rewrite Hc in Hall. apply Hall.
        apply list_elem_of_In, Hids. by exists c.
    + intros [_ Hall] id [c Hc]%list_elem_of_In%Hids. rewrite Hc. apply Hall, Hocs. eauto.
Qed.

Lemma client_ok o :
  is_Ok (OriginClient.NewOriginClientWithContext o) ↔
  is_Some (URL.url_Parse (Router.o_BaseURL (o_of o))) ∧ is_Ok (OriginAuth.BuildAuthProvider (OriginClient.oc_Auth o)).
Proof.
  unfold OriginClient.NewOriginClientWithContext, o_of. destruct (URL.url_Parse _) as [u|].
  - destruct (OriginAuth.BuildAuthProvider _) as [a|e]; cbn; split.
    + intros _. split; by eexists.
    + intros _. by eexists.
    + by intros [? ?].
    + by intros [_ [? ?]].
  - split; [by intros [? ?]|by intros [[? ?] _]].
Qed.

(** An origin that signs for AWS without naming a region. *)
Definition regionless (o : Config.OriginConfig) : Prop :=
  ∃ a w, og_Auth o = Some a ∧ a_Type a = "aws_sigv4" ∧ a_AWSSigV4 a = Some w ∧ sv_Region w = "".

Lemma originAuth_ok `{!NetLib} ap o : originOK ap o →
  (is_Ok (OriginAuth.BuildAuthProvider (originAuthConfig (og_Auth o))) ↔ ¬ regionless o).
Proof.
  intros Ho. unfold regionless. destruct (og_Auth o) as [a|] eqn:Ea.
  2: { split; [by intros _ (? & ? & ? & _)|by eexists]. }
  destruct (oo_auth _ _ Ho a Ea) as (Hty & _ & _ & _ & Hoa).
  assert (is_Ok (OriginAuth.BuildAuthProvider (originAuthConfig (Some a))) ↔
    ¬ (a_Type a = "aws_sigv4" ∧ ∃ w, a_AWSSigV4 a = Some w ∧ sv_Region w = "")) as ->; [|naive_solver].
  unfold OriginAuth.BuildAuthProvider, OriginAuth.providersOf. cbn [originAuthConfig OriginAuth.a_Type OriginAuth.a_OAuth2 OriginAuth.a_AWSSigV4].
  unfold validAuthTypes in Hty. rewrite !elem_of_cons, elem_of_nil in Hty.
  destruct Hty as [Hty|[Hty|[Hty|[Hty|[Hty|[Hty|[Hty|[]]]]]]]]; rewrite Hty in *;
    try (split; [by intros _ [? _]|intros _; cbn; eauto; by eexists]).
  - destruct (Hoa eq_refl) as (oa & -> & Hu & Hc). cbn. unfold OriginAuth.NewOAuth2AuthProvider. cbn.
    rewrite (proj2 (String.eqb_neq _ _) Hu), (proj2 (String.eqb_neq _ _) Hc).
    split; [by intros _ [? _]|by eexists].
  - destruct (a_AWSSigV4 a) as [w|]; cbn; [|split; [by intros _ [_ (? & ? & _)]|by eexists]].
    unfold OriginAuth.NewAWSSigV4Provider. cbn. destruct (String.eqb_spec (sv_Region w) "") as [Hr|Hr]; cbn.
    + split; [by intros [? ?]|]. intros Hn. exfalso. apply Hn. split; [done|]. by exists w.
    + split; [|by eexists]. by intros _ [_ (? & [= <-] & ?)].
Qed.

Lemma adapter_ok `{!NetLib} ap o : originOK ap o → is_Ok (PageAdapter.New (originPaginationSpec (og_Pagination o))).
Proof.
  intros Ho. destruct (og_Pagination o) as [p|] eqn:Ep; [|by eexists].
  pose proof (oo_adapter _ _ Ho p Ep) as Ha. unfold PageAdapter.New. cbn.
  rewrite !elem_of_cons, elem_of_nil in Ha.
  destruct Ha as [->|[->|[->|[->|[->|[->|[]]]]]]]; by eexists.
Qed.

End Construction.

Section Build.
Context `{!Crypto, !URL.GoURL, !Remap.URLPrinter, !MapRange, !Bcrypt, !JWT, !OIDC, !X509, !PageAdapter.BodyCodec}.
Context `{!JSON, !Opa.Rego, !Opa.InputCodec}.

(** The host, the network at boot and the library functions. *)
Variables (readFile : string → option bytes) (appendCerts : bytes → option CertPool)
  (keyPair : string → string → bool) (unmarshalKeys : bytes → option (list APIKeyEntry)) (random : bytes)
  (jwksAnswers : Bearer.BearerProvider → string → result authError Jwks.cachedKey)
  (parseDuration : string → option Z) (compile : string → option regexp)
  (chiCors : corsOptions → header → httpRequest → Pipeline.corsOutcome)
  (probe : string → option (list string)) (now : Z)
  (iface : OriginClient.OriginClient → Pagination.OriginClient).

(** [nil] on failure. *)
Definition loadCAPool (path : string) : option CertPool := readFile path ≫= appendCerts.

Definition buildTLSConfig (t : RedisTLSConfig) : result string RedisTLSConfig :=
  if negb (String.eqb (rt_CAFile t) "") && negb (bool_decide (is_Some (loadCAPool (rt_CAFile t))))
  then Err "tls ca_file"
  else if (negb (String.eqb (rt_CertFile t) "") || negb (String.eqb (rt_KeyFile t) "")) &&
          negb (keyPair (rt_CertFile t) (rt_KeyFile t))
  then Err "load tls cert/key pair"
  else Ok t.

Definition defaultDialTimeout : Z := 2 * second.
Definition defaultReadTimeout : Z := 250000000.
Definition defaultWriteTimeout : Z := 250000000.

Definition redisNew (r : RedisConfig) : result string redisOptions :=
  if String.eqb (rd_Addr r) "" then Err "redis: addr is required" else
  let mk := mkRedisOptions (rd_Addr r) (rd_Username r) (rd_Password r) (rd_DB r) (rd_PoolSize r) (rd_MinIdleConns r)
    (Catalog.orDefault defaultDialTimeout (rd_DialTimeout r)) (Catalog.orDefault defaultReadTimeout (rd_ReadTimeout r))
    (Catalog.orDefault defaultWriteTimeout (rd_WriteTimeout r)) (-1) true in
  if rt_Enabled (rd_TLS r) then tc ← buildTLSConfig (rd_TLS r); Ok (mk (Some tc)) else Ok (mk None).

(** A failing ping is only logged. *)
Definition buildRedisClient (cfg : Config) : result string (option redisOptions) :=
  match c_Redis cfg with
  | None => Ok None
  | Some r => if negb (SelectsRedis cfg) then Ok None else opts ← redisNew r; Ok (Some opts)
  end.

(** *** Authentication *)

Definition buildAuthProvider (m : block) : result string builtin :=
  let pType := getStringConfig m "type" in
  if String.eqb pType "bearer" || String.eqb pType "jwt" then
    let secret := getStringConfig m "secret" in
    p ← Bearer.NewBearerProvider (Bearer.mkBearerConfig "bearer" (getStringConfig m "issuer") (getStringConfig m "audience")
          (getStringConfig m "jwks_url") None (if String.eqb secret "" then None else Some secret) 0 false);
    Ok (BBearer p (jwksAnswers p))
  else if String.eqb pType "api_key" then
    keys ← parseAPIKeys (index "keys" m);
    let path := getStringConfig m "keys_file" in
    match NewAPIKeyProvider (mkAPIKeyConfig "api_key" (getStringConfig m "header_name") (getStringConfig m "query_param")
            (if String.eqb path "" then None else Some (readFile path ≫= unmarshalKeys)) keys
            (getStringConfig m "hmac_secret") (getBoolConfig m "allow_query_param")) random with
    | Some p => Ok (BAPIKey p)
    | None => Err "failed to load API keys"
    end
  else if String.eqb pType "oidc" then
    p ← Oidc.NewOIDCProvider (Oidc.mkOIDCConfig "oidc" (getStringConfig m "issuer_url") (getStringConfig m "audience") None
          (getBoolConfig m "allow_insecure_http") None);
    Ok (BOIDC p)
  else if String.eqb pType "basic" then
    users ← parseBasicUsers (index "users" m);
    Ok (BBasic (Basic.NewBasicAuthProvider (Basic.mkBasicConfig "basic" (getStringConfig m "realm") users 0)))
  else if String.eqb pType "mtls" then
    let caFile := getStringConfig m "trusted_ca_file" in
    pool ← (if String.eqb caFile "" then Ok None
            else match loadCAPool caFile with Some pool => Ok (Some pool) | None => Err "mtls trusted_ca_file" end);
    p ← Mtls.NewMTLSProvider (Mtls.mkMTLSConfig "mtls" pool (getBoolConfig m "require_client_ca") None);
    Ok (BMTLS p)
  else if String.eqb pType "" then Err "missing required field 'type'"
  else Err "unknown auth provider type".

Definition addProvider (acc : result string (list builtin)) (pCfg : value) : result string (list builtin) :=
  providers ← acc;
  match as_object pCfg with
  | None => Err "auth.providers: expected map"
  | Some m => p ← buildAuthProvider m; Ok (providers ++ [p])
  end.

Definition buildAuthHTTPMiddleware (cfg : Config) : result string (option Auth.Config) :=
  match rawCfg "auth" cfg with
  | None => Ok None
  | Some m =>
      let allowAnonymous := match index "allow_anonymous" m with VBool b => b | _ => true end in
      providers ← match index "providers" m with VArr l => foldl addProvider (Ok []) l | _ => Ok [] end;
      Ok (Some (Auth.mkConfig allowAnonymous (build <$> providers)))
  end.

(** *** CORS, remapping and signing *)

Definition buildCorsHTTPMiddleware (cfg : Config) : result string (option (header → httpRequest → Pipeline.corsOutcome)) :=
  match rawCfg "cors" cfg with
  | None => Ok None
  | Some m => opts ← corsFromConfig m; Ok (Some (chiCors opts))
  end.

(** The loop of [compileRules]. *)
Definition compileRule (acc : result string (list Remap.Rule)) (rc : Remap.RuleConfig) : result string (list Remap.Rule) :=
  rules ← acc;
  match compile (Remap.rc_Match rc) with
  | None => Err "invalid rule"
  | Some re => Ok (rules ++ [Remap.mkRule (re_MatchString re) (re_ReplaceAllString re (Remap.rc_Replace rc))
                               (Remap.rc_Sign rc) (Remap.rc_SignTTL rc) None])
  end.

Definition strFromMap (m : block) (key : string) : string := default "" (as_string (index key m)).

Definition ruleConfigs (m : block) : list Remap.RuleConfig :=
  match index "rules" m with
  | VArr l => (λ r, Remap.mkRuleConfig (strFromMap r "match") (strFromMap r "replace") false 0) <$> omap as_object l
  | _ => []
  end.

Definition buildRemapHTTPMiddleware (cfg : Config) : result string (option (list Remap.Rule)) :=
  match rawCfg "url_remap" cfg with
  | None => Ok None
  | Some m => rules ← foldl compileRule (Ok []) (ruleConfigs m); Ok (Some rules)
  end.

(** The first block with a secret, when an origin signs. *)
Definition signingSecret (mw : MiddlewareConfig) : option string :=
  if String.eqb (mw_Name mw) "url_remap" then
    secret ← as_string (cfgIndex (mw_Config mw) "secret"); if String.eqb secret "" then None else Some secret
  else None.

Definition buildAssetSigner (cfg : Config) : option Remap.HMACSigner :=
  f ← c_Federation cfg;
  if existsb (λ o, String.eqb (og_RewriteAssets o) "sign") (f_Origins f)
  then Remap.NewHMACSigner <$> head (omap signingSecret (c_Middleware cfg))
  else None.

(** The signer as the handler calls it; a signer of [NewHMACSigner] holds a
    secret. *)
Definition signWith (s : Remap.HMACSigner) (url : string) (ttl : Z) : string := default url (Remap.Sign s now url ttl).

(** *** The federation handler *)

Definition enabledOrigins (f : FederationConfig) : list OriginClient.OriginConfig :=
  originOf probe <$> List.filter og_Enabled (f_Origins f).

(** [handler.OriginClient(id).HealthClient()]; without a client the default
    one probes. *)
Definition checkOf (h : Catalog.Handler) (name : string) (o : OriginClient.OriginConfig) : originCheck :=
  let r := OriginClient.oc_Origin o in
  mkCheck name (Router.o_BaseURL r)
    (match Catalog.h_origins h !! Router.o_ID r with Some c => OriginClient.cl_health c | None => [] end).

Definition buildSingleOriginAsFederation (cfg : Config) : result string (Catalog.Handler * list originCheck) :=
  match c_Upstream cfg with
  | None => Err "single mode requires upstream config"
  | Some u =>
      let origin := primaryOf probe u in
      h ← Catalog.NewHandler iface (Catalog.mkHandlerConfig [origin] 0 0 (s_PublicBaseURL (c_Server cfg)) 0 0
            (computeConformanceCaps cfg [origin]) None "" None);
      Ok (h, [checkOf h "upstream" origin])
  end.

Definition buildFederationHandler (cfg : Config) (rdb : bool) : result string (Catalog.Handler * list originCheck) :=
  if negb (IsFederation cfg) then buildSingleOriginAsFederation cfg else
  match c_Federation cfg with
  | None => Err "nil pointer dereference"
  | Some f =>
      let origins := enabledOrigins f in
      h ← Catalog.NewHandler iface (Catalog.mkHandlerConfig origins (f_MaxConcurrent f) (f_AggregateTimeout f)
            (s_PublicBaseURL (c_Server cfg)) (f_DefaultPageSize f) (f_MaxPageSize f) (computeConformanceCaps cfg origins)
            (signWith <$> buildAssetSigner cfg) (f_CursorSecret f) (fst <$> buildPageCache cfg rdb));
      Ok (h, (λ o, checkOf h (Router.o_ID (OriginClient.oc_Origin o)) o) <$> origins)
  end.

(** *** Authorization *)

Definition buildAuthzHTTPMiddleware (cfg : Config) (h : Catalog.Handler) : result string (option Authz.HTTPConfig) :=
  match c_Authz cfg ≫= az_OPA with
  | None => Ok None
  | Some opa =>
      if negb (op_Embedded opa) then Err "authz.opa.embedded must be true; only embedded OPA is supported" else
      match Opa.NewEmbeddedOPAEnforcer readFile (Opa.mkOPAConfig "embedded-opa" (op_PolicyPath opa) (op_RegoFiles opa) "" ∅) with
      | None => Err "policy"
      | Some enf =>
          let allFilter := allOrigins Router.o_SupportsFilterExtension h in
          let allSpatial := allOrigins Router.o_SupportsSpatialFilter h in
          Ok (Some (Authz.mkHTTPConfig (Opa.enforcer enf) true (default false (c_Authz cfg ≫= az_CQL2Injection))
                (Some (λ _ _, allFilter)) (Some (λ _ _, allSpatial))))
      end
  end.

(** *** [run] *)

Definition assemble (cfg : Config) : result string deployment :=
  redis ← buildRedisClient cfg;
  let rdb := bool_decide (is_Some redis) in
  '(h, checks) ← buildFederationHandler cfg rdb;
  cors ← buildCorsHTTPMiddleware cfg;
  auth ← buildAuthHTTPMiddleware cfg;
  let rate := buildRateLimitHTTPMiddleware parseDuration cfg rdb in
  authz ← buildAuthzHTTPMiddleware cfg h;
  cache ← buildCacheHTTPMiddleware cfg rdb;
  remap ← buildRemapHTTPMiddleware cfg;
  server ← newServer keyPair (c_Server cfg);
  Ok (mkDeployment h checks redis (if IsFederation cfg then snd <$> buildPageCache cfg rdb else None)
        (Pipeline.mkChain cors auth (fst <$> rate) authz (fst <$> cache) remap)
        (snd <$> rate) (snd <$> cache)
        (Pipeline.mkRouterConfig (s_MaxBodyBytes (c_Server cfg)) true true (s_ClientIP (c_Server cfg))) server (serverIsUnauthenticated cfg)).

(** ** [main] *)

Record flags := mkFlags {
  fl_config : string; fl_version : bool; fl_validate : bool; fl_healthcheck : bool; fl_healthAddr : string }.

Inductive outcome := Exit (code : Z) | Serving (d : deployment).

(** [get]: the status a GET is answered with. *)
Definition runHealthcheck (get : string → option Z) (url : string) : Z :=
  match get url with
  | None => 1
  | Some status => if (status <? 200) || (300 <=? status) then 1 else 0
  end.

Definition defaultHealthAddr : string := "http://127.0.0.1:8080/health".

(** The port of the configuration, unless the flag names an address. *)
Definition healthcheckAddr (load : string → result loadError Config) (fl : flags) : string :=
  if String.eqb (fl_healthAddr fl) defaultHealthAddr && negb (String.eqb (fl_config fl) "") then
    match load (fl_config fl) with
    | Ok cfg => if s_Port (c_Server cfg) =? 0 then fl_healthAddr fl
                else "http://127.0.0.1:" +:+ Remap.FormatInt (s_Port (c_Server cfg)) +:+ "/health"
    | Err _ => fl_healthAddr fl
    end
  else fl_healthAddr fl.

Definition main `{!NetLib} (load : string → result loadError Config) (get : string → option Z) (fl : flags) : outcome :=
  if fl_version fl then Exit 0
  else if fl_healthcheck fl then Exit (runHealthcheck get (healthcheckAddr load fl))
  else match load (fl_config fl) with
       | Err _ => Exit 1
       | Ok cfg =>
           match Validate cfg with
           | Err _ => Exit 1
           | Ok _ =>
               if fl_validate fl then Exit 0
               else match assemble cfg with Ok d => Serving d | Err _ => Exit 1 end
           end
       end.

(** ** The parts of a deployment *)

Record assembled (cfg : Config) (d : deployment) : Prop := {
  as_redis : buildRedisClient cfg = Ok (dp_redis d);
  as_handler : buildFederationHandler cfg (bool_decide (is_Some (dp_redis d))) = Ok (dp_handler d, dp_checks d);
  as_auth : buildAuthHTTPMiddleware cfg = Ok (Pipeline.cc_auth (dp_chain d));
  as_authz : buildAuthzHTTPMiddleware cfg (dp_handler d) = Ok (Pipeline.cc_authz (dp_chain d));
  as_limiter : dp_limiter d = snd <$> buildRateLimitHTTPMiddleware parseDuration cfg (bool_decide (is_Some (dp_redis d)));
  as_cache : ∃ c, buildCacheHTTPMiddleware cfg (bool_decide (is_Some (dp_redis d))) = Ok c ∧ dp_store d = snd <$> c;
  as_pages : dp_pages d = if IsFederation cfg then snd <$> buildPageCache cfg (bool_decide (is_Some (dp_redis d))) else None;
  as_open : dp_open d = serverIsUnauthenticated cfg;
}.

Lemma assemble_inv cfg d : assemble cfg = Ok d → assembled cfg d.
Proof.
  unfold assemble. intros (redis & Hr & Hd)%bind_ok. apply bind_ok in Hd as ([h checks] & Hh & Hd).
  apply bind_ok in Hd as (cors & Hc & Hd). apply bind_ok in Hd as (auth & Ha & Hd).
  apply bind_ok in Hd as (authz & Hz & Hd). apply bind_ok in Hd as (cache & Hca & Hd).
  apply bind_ok in Hd as (remap & Hre & Hd). apply bind_ok in Hd as (server & Hs & Hd).
  injection Hd as <-. split; cbn; eauto.
Qed.

(** *** The authentication chain *)

(** Every provider of the built chain is one of the five. *)
Lemma buildAuth_inv cfg a : buildAuthHTTPMiddleware cfg = Ok (Some a) →
  ∃ m bs, rawCfg "auth" cfg = Some m ∧ Providers a = build <$> bs ∧
    AllowAnonymous a = match index "allow_anonymous" m with VBool b => b | _ => true end.
Proof.
  unfold buildAuthHTTPMiddleware. destruct (rawCfg "auth" cfg) as [m|]; [|done].
  intros (bs & _ & [= <-])%bind_ok. by exists m, bs.
Qed.

Lemma walk_unclaimed bs r : Forall (λ p, claims p r = false) (build <$> bs) → walk (build <$> bs) r = NoOne.
Proof.
  induction bs as [|b bs IH]; cbn; [done|]. intros [Hb Hbs]%Forall_cons.
  rewrite (proj1 (build_strict b r) Hb). by apply IH.
Qed.

Lemma find_rawCfg name cfg :
  rawCfg name cfg = (List.find (λ mw, String.eqb (mw_Name mw) name) (c_Middleware cfg) ≫= mw_Config).
Proof. done. Qed.

(** C27: The open-server warning is exact about the configuration.  For every
    request that claims no credential, the warning is logged exactly when no
    policy is configured (whatever a policy, if there is one, would decide)
    and the authentication tier, if there is one, lets the request through
    anonymously. *)
Theorem open_warning_exact cfg d r :
  assemble cfg = Ok d →
  (∀ a p, Pipeline.cc_auth (dp_chain d) = Some a → p ∈ Providers a → claims p r = false) →
  (dp_open d = true ↔
   Pipeline.cc_authz (dp_chain d) = None ∧
   ∀ a, Pipeline.cc_auth (dp_chain d) = Some a → ∃ p, Auth.authenticate a r = Ok p).
Proof.
  intros [_ _ Ha Hz _ _ _ Ho]%assemble_inv Hr. rewrite Ho. clear Ho.
  unfold buildAuthzHTTPMiddleware in Hz. unfold serverIsUnauthenticated.
  destruct (c_Authz cfg ≫= az_OPA) as [opa|].
  { split; [done|]. intros [Hn _]. rewrite Hn in Hz. destruct (op_Embedded opa); [|done]. cbn in Hz.
    by case_match. }
  injection Hz as <-. transitivity (∀ a, Pipeline.cc_auth (dp_chain d) = Some a → AllowAnonymous a = true).
  - destruct (Pipeline.cc_auth (dp_chain d)) as [a|] eqn:Ea.
    + apply buildAuth_inv in Ha as (m & bs & Hm & _ & Hal). rewrite find_rawCfg in Hm.
      destruct (List.find _ _) as [mw|]; [|done]. cbn in Hm. rewrite Hm. cbn. rewrite <-Hal.
      split; [by intros ? ? [= <-]|by intros Hall; apply Hall].
    + split; [done|]. intros _. unfold buildAuthHTTPMiddleware in Ha. rewrite find_rawCfg in Ha.
      destruct (List.find _ _) as [mw|]; [|done]. cbn in Ha.
      destruct (mw_Config mw) as [m|]; [|done]. by apply bind_ok in Ha as (? & _ & ?).
  - assert (∀ a, Pipeline.cc_auth (dp_chain d) = Some a →
      (AllowAnonymous a = true ↔ ∃ p, Auth.authenticate a r = Ok p)) as Hiff; [|split].
    + intros a Ea. rewrite Ea in Ha. apply buildAuth_inv in Ha as (m & bs & _ & Hp & _).
      unfold Auth.authenticate. rewrite Hp, walk_unclaimed.
      * destruct (AllowAnonymous a); split; try done; [by eexists|by intros [? ?]].
      * rewrite <-Hp. apply Forall_forall. intros p Hin. by apply (Hr a).
    + intros Hall. split; [done|]. intros a Ea. apply Hiff; auto.
    + intros [_ Hall] a Ea. apply Hiff; auto.
Qed.

(** *** Redis *)

Lemma rawCfg_elem name cfg m : rawCfg name cfg = Some m →
  ∃ mw, mw ∈ c_Middleware cfg ∧ mw_Name mw = name ∧ mw_Config mw = Some m.
Proof.
  rewrite find_rawCfg. destruct (List.find _ _) as [mw|] eqn:E; [|done]. intros Hm.
  apply List.find_some in E as [Hin%list_elem_of_In Hn%String.eqb_eq]. by exists mw.
Qed.

(** A block that selects Redis makes the configuration select it. *)
Lemma block_selects name cfg m : name ∈ ["cache"; "rate_limit"] →
  rawCfg name cfg = Some m → StoreSelection (Some m) = "redis" → SelectsRedis cfg = true.
Proof.
  intros Hn (mw & Hin & <- & Hm)%rawCfg_elem Hs. unfold SelectsRedis. apply orb_true_iff. left.
  apply existsb_exists. exists mw. split; [by apply list_elem_of_In|].
  rewrite Hm, Hs, andb_true_r. by apply oneOf_true.
Qed.

Lemma redis_built `{!NetLib} cfg opts : WellFormed cfg → buildRedisClient cfg = Ok opts →
  (is_Some opts ↔ SelectsRedis cfg = true).
Proof.
  intros Hwf. unfold buildRedisClient. destruct (c_Redis cfg) as [r|] eqn:Er.
  - destruct (SelectsRedis cfg); cbn; [intros (o & _ & [= <-])%bind_ok|intros [= <-]]; split; try done; by intros [? ?].
  - intros [= <-]. split; [by intros [? ?]|]. intros Hs. by apply (proj2 (wf_stores _ Hwf)) in Hs.
Qed.

(** A validated deployment keeps in Redis what its configuration puts
    there: the client exists exactly when a component selects Redis, so none
    falls back to memory, and the keys of the response cache, the page cache
    and the rate limiter never coincide. *)
Theorem redis_stores `{!NetLib} cfg d :
  WellFormed cfg → assemble cfg = Ok d →
  let at_ ns := RedisKind (redisKeyPrefix cfg +:+ ns) in
  (is_Some (dp_redis d) ↔ SelectsRedis cfg = true) ∧
  (∀ m, rawCfg "cache" cfg = Some m → StoreSelection (Some m) = "redis" → dp_store d = Some (at_ NSResponseCache)) ∧
  (∀ m, rawCfg "rate_limit" cfg = Some m → StoreSelection (Some m) = "redis" → dp_limiter d = Some (at_ NSRateLimit)) ∧
  (∀ s, dp_pages d = Some s → pageCacheRedis cfg = true → s = at_ NSPageCache) ∧
  (∀ ns ns' p k k', ns ≠ ns' → {[ns; ns']} ⊆ ({[NSResponseCache; NSPageCache; NSRateLimit]} : gset string) →
     (p +:+ ns) +:+ k ≠ (p +:+ ns') +:+ k').
Proof.
  intros Hwf [Hr _ _ _ Hl (c & Hc & Hs) Hp _]%assemble_inv at_.
  pose proof (redis_built cfg _ Hwf Hr) as Hsel. split; [done|].
  assert (SelectsRedis cfg = true → bool_decide (is_Some (dp_redis d)) = true) as Hrdb.
  { intros Hyes. by apply bool_decide_eq_true, Hsel. }
  split_and!.
  - intros m Hm Hst. rewrite Hs. unfold buildCacheHTTPMiddleware in Hc. rewrite Hm, Hst in Hc.
    rewrite Hrdb in Hc by (eapply (block_selects "cache"); [set_solver|done..]). cbn in Hc. by injection Hc as <-.
  - intros m Hm Hst. rewrite Hl. unfold buildRateLimitHTTPMiddleware. rewrite Hm. cbn. rewrite Hst.
    rewrite Hrdb by (eapply (block_selects "rate_limit"); [set_solver|done..]). done.
  - intros s. rewrite Hp. intros Hs' Hpc. unfold buildPageCache in Hs'.
    rewrite Hrdb in Hs' by (unfold SelectsRedis; rewrite Hpc; by rewrite orb_true_r).
    unfold pageCacheRedis in Hpc. destruct (c_Federation cfg) as [f|]; [|done]. cbn in Hpc, Hs'.
    destruct (f_PageCache f) as [pc|]; [|done]. rewrite Hpc in Hs'.
    by repeat (case_match; simplify_eq/=).
  - intros ns ns' p k k' Hne Hsub.
    assert (ns ∈ ({[NSResponseCache; NSPageCache; NSRateLimit]} : gset string)) as Hin by set_solver.
    assert (ns' ∈ ({[NSResponseCache; NSPageCache; NSRateLimit]} : gset string)) as Hin' by set_solver.
    rewrite !elem_of_union, !elem_of_singleton in Hin, Hin'.
    destruct Hin as [[->| ->]| ->], Hin' as [[->| ->]| ->]; try done; try (by apply prefixes_disjoint).
Qed.

(** *** The handler *)

Lemma originOf_fields o :
  Router.o_ID (o_of (originOf probe o)) = og_ID o ∧ Router.o_BaseURL (o_of (originOf probe o)) = og_BaseURL o ∧
  Router.o_Enabled (o_of (originOf probe o)) = og_Enabled o ∧
  OriginClient.oc_Pagination (originOf probe o) = originPaginationSpec (og_Pagination o) ∧
  OriginClient.oc_Auth (originOf probe o) = originAuthConfig (og_Auth o).
Proof. unfold originOf. by destruct (resolveOriginCapabilities _ _ _ _). Qed.

(** The handler's configuration in federation mode. *)
Lemma enabledOrigins_ids f : NoDup (og_ID <$> f_Origins f) →
  NoDup ((λ o, Router.o_ID (o_of o)) <$> enabledOrigins f).
Proof.
  unfold enabledOrigins. rewrite <-list_fmap_compose. intros Hnd.
  rewrite (list_fmap_ext _ og_ID (List.filter og_Enabled (f_Origins f))) by (intros i o _; apply originOf_fields).
  revert Hnd. induction (f_Origins f) as [|o os IH]; cbn; [done|]. intros [Hni Hnd]%NoDup_cons.
  destruct (og_Enabled o); cbn; [|by apply IH]. apply NoDup_cons. split; [|by apply IH].
  intros (o' & Ho' & Hin)%list_elem_of_fmap. apply Hni, list_elem_of_fmap. exists o'. split; [done|].
  apply list_elem_of_In, List.filter_In in Hin as [Hin _]. by apply list_elem_of_In.
Qed.

Lemma elem_of_enabled f oc : oc ∈ enabledOrigins f ↔ ∃ o, oc = originOf probe o ∧ o ∈ f_Origins f ∧ og_Enabled o = true.
Proof.
  unfold enabledOrigins. rewrite list_elem_of_fmap. setoid_rewrite list_elem_of_In.
  setoid_rewrite List.filter_In. done.
Qed.

(** C26: A validated configuration yields a handler, whatever the origins
    answer to the probe, with one exception the validator misses: an enabled
    origin that signs for AWS without a region. *)
Theorem validated_boots `{!NetLib} cfg rdb :
  WellFormed cfg → (∀ s, is_Some (cfg_url_Parse s) → is_Some (URL.url_Parse s)) →
  ((∃ r, buildFederationHandler cfg rdb = Ok r) ↔
   (c_Mode cfg = "federation" → ∀ f o, c_Federation cfg = Some f → o ∈ f_Origins f → og_Enabled o = true → ¬ regionless o)).
Proof.
  intros Hwf Hparse. change (∃ r, ?x = Ok r) with (is_Ok x). unfold buildFederationHandler, IsFederation.
  destruct (wf_mode _ Hwf) as [(Hm & u & Hu & (_ & url & Hurl & _) & _)|(Hm & f & Hf & Hfo)]; rewrite Hm; cbn [negb String.eqb Ascii.eqb Bool.eqb].
  - unfold buildSingleOriginAsFederation. rewrite Hu. cbv zeta. rewrite bind_is_Ok, NewHandler_ok; cbn [Catalog.hc_Origins].
    + split; [done|intros _]. apply Forall_singleton. intros _. apply client_ok. unfold primaryOf.
      destruct (resolveOriginCapabilities _ _ _ _). cbn. split; [apply Hparse; by eexists|by eexists].
    + apply NoDup_singleton.
    + apply Forall_singleton. unfold primaryOf. destruct (resolveOriginCapabilities _ _ _ _). by eexists.
  - rewrite Hf. cbv zeta. rewrite bind_is_Ok, NewHandler_ok; cbn [Catalog.hc_Origins].
    + pose proof (fo_origins _ Hfo) as Hall. rewrite Forall_forall in Hall. rewrite Forall_forall. split.
      * intros Hok _ f' o [= <-] Hin Hen. destruct (originOf_fields o) as (_ & _ & He & _ & Ha).
        assert (is_Ok (OriginClient.NewOriginClientWithContext (originOf probe o))) as [_ Hc]%client_ok.
        { apply Hok; [|by rewrite He]. apply elem_of_enabled. by exists o. }
        rewrite Ha in Hc. by apply (originAuth_ok _ _ (Hall o Hin)).
      * intros Hreg oc (o & -> & Hin & Hen)%elem_of_enabled _. apply client_ok.
        destruct (originOf_fields o) as (_ & -> & _ & _ & ->). split.
        { destruct (oo_url _ _ (Hall o Hin)) as (_ & url & Hurl & _). apply Hparse. by eexists. }
        apply (originAuth_ok _ _ (Hall o Hin)). by eapply Hreg.
    + apply enabledOrigins_ids, Hfo.
    + apply Forall_forall. intros oc (o & -> & Hin & _)%elem_of_enabled.
      destruct (originOf_fields o) as (_ & _ & _ & -> & _). pose proof (fo_origins _ Hfo) as Hall.
      rewrite Forall_forall in Hall. by eapply adapter_ok, Hall.
Qed.

(** *** Push-down *)

(** The origins a configuration deploys. *)
Definition deployedOrigins (cfg : Config) : list OriginClient.OriginConfig :=
  if IsFederation cfg then from_option enabledOrigins [] (c_Federation cfg)
  else from_option (λ u, [primaryOf probe u]) [] (c_Upstream cfg).

(** An origin's URL with what the operator asserts of it: that it filters,
    that it evaluates spatial predicates. *)
Record assertion := mkAssertion { at_URL : string; at_Filter : bool; at_Spatial : bool }.

Definition assertions (cfg : Config) : list assertion :=
  if IsFederation cfg then
    from_option (λ f, (λ o, mkAssertion (og_BaseURL o) (og_SupportsFilterExtension o) (og_SupportsSpatialFilter o))
                        <$> List.filter og_Enabled (f_Origins f)) [] (c_Federation cfg)
  else from_option (λ u, [mkAssertion (u_URL u) (u_SupportsFilterExtension u) (u_SupportsSpatialFilter u)]) [] (c_Upstream cfg).

Definition advertises (url : string) (P : list string → Prop) : Prop := ∃ classes, probe url = Some classes ∧ P classes.

Definition filters (a : assertion) : Prop :=
  at_Filter a = true ∨ advertises (at_URL a) (λ classes, HasFilterExtension classes = true).

Definition evaluatesSpatial (a : assertion) : Prop :=
  at_Spatial a = true ∨
  advertises (at_URL a) (λ classes, (at_Filter a = true ∨ HasFilterExtension classes = true) ∧ HasSpatialFunctions classes = true).

Lemma resolve_spec a :
  ((resolveOriginCapabilities probe (at_URL a) (at_Filter a) (at_Spatial a)).1 = true ↔ filters a) ∧
  ((resolveOriginCapabilities probe (at_URL a) (at_Filter a) (at_Spatial a)).2 = true ↔ evaluatesSpatial a).
Proof.
  unfold resolveOriginCapabilities, filters, evaluatesSpatial, advertises.
  destruct (at_Filter a), (at_Spatial a), (probe (at_URL a)) as [classes|]; cbn;
    try destruct (HasFilterExtension classes) eqn:?; try destruct (HasSpatialFunctions classes) eqn:?; cbn;
    split; split; try done; naive_solver congruence.
Qed.

(** What the handler believes of its origins is what they assert or advertise. *)
Lemma deployed_capabilities cfg :
  Forall2 (λ oc a, (Router.o_SupportsFilterExtension (o_of oc) = true ↔ filters a) ∧
                   (Router.o_SupportsSpatialFilter (o_of oc) = true ↔ evaluatesSpatial a))
    (deployedOrigins cfg) (assertions cfg).
Proof.
  unfold deployedOrigins, assertions, enabledOrigins. destruct (IsFederation cfg).
  - destruct (c_Federation cfg) as [f|]; cbn; [|constructor]. rewrite Forall2_fmap. apply Forall_Forall2_diag, Forall_forall.
    intros o _. pose proof (resolve_spec (mkAssertion (og_BaseURL o) (og_SupportsFilterExtension o) (og_SupportsSpatialFilter o))) as Hs.
    unfold originOf. cbn in Hs. by destruct (resolveOriginCapabilities _ _ _ _).
  - destruct (c_Upstream cfg) as [u|]; cbn; [|constructor]. apply Forall2_cons. split; [|constructor].
    pose proof (resolve_spec (mkAssertion (u_URL u) (u_SupportsFilterExtension u) (u_SupportsSpatialFilter u))) as Hs.
    unfold primaryOf. cbn in Hs. by destruct (resolveOriginCapabilities _ _ _ _).
Qed.

Lemma handler_origins `{!NetLib} cfg rdb h checks :
  WellFormed cfg → buildFederationHandler cfg rdb = Ok (h, checks) →
  ∀ oc, oc ∈ deployedOrigins cfg ↔ ∃ id c, Catalog.h_origins h !! id = Some c ∧ OriginClient.cl_origin c = oc.
Proof.
  intros Hwf. unfold buildFederationHandler, deployedOrigins, IsFederation.
  destruct (wf_mode _ Hwf) as [(Hm & u & Hu & _)|(Hm & f & Hf & Hfo)]; rewrite Hm; cbn [negb String.eqb Ascii.eqb Bool.eqb].
  - unfold buildSingleOriginAsFederation. rewrite Hu. intros (h' & Hh & [= -> _])%bind_ok.
    eapply (NewHandler_origins _ _ _ Hh); cbn [Catalog.hc_Origins]; [apply NoDup_singleton|]. apply Forall_singleton.
    unfold primaryOf. by destruct (resolveOriginCapabilities _ _ _ _).
  - rewrite Hf. intros (h' & Hh & [= -> _])%bind_ok.
    eapply (NewHandler_origins _ _ _ Hh); cbn [Catalog.hc_Origins]; [apply enabledOrigins_ids, Hfo|].
    apply Forall_forall. intros oc (o & -> & _ & Hen)%elem_of_enabled. by destruct (originOf_fields o) as (_ & _ & -> & _).
Qed.

(** C5: Filters are pushed down only where they are evaluated.  The check
    that lets the authorization tier push a filter, and the one for a
    geofence, whose push-down switches the filtering of the response off,
    hold exactly when some origin is deployed and every deployed origin has
    the capability: the operator asserts it, or the origin advertised it to
    the boot probe, spatial predicates only together with filters.  An origin
    the probe could not reach counts with what is asserted. *)
Theorem pushdown_gate `{!NetLib} cfg d z r i :
  WellFormed cfg → assemble cfg = Ok d → Pipeline.cc_authz (dp_chain d) = Some z →
  (Authz.checked (Authz.FilterExtensionCheck z) r i = true ↔
     assertions cfg ≠ [] ∧ ∀ a, a ∈ assertions cfg → filters a) ∧
  (Authz.checked (Authz.SpatialFilterCheck z) r i = true ↔
     assertions cfg ≠ [] ∧ ∀ a, a ∈ assertions cfg → evaluatesSpatial a).
Proof.
  intros Hwf [_ Hh _ Hz _ _ _ _]%assemble_inv Hcz. rewrite Hcz in Hz.
  pose proof (handler_origins cfg _ _ _ Hwf Hh) as Ho. pose proof (deployed_capabilities cfg) as Hcap.
  assert (Authz.FilterExtensionCheck z = Some (λ _ _, allOrigins Router.o_SupportsFilterExtension (dp_handler d)) ∧
          Authz.SpatialFilterCheck z = Some (λ _ _, allOrigins Router.o_SupportsSpatialFilter (dp_handler d))) as [-> ->].
  { unfold buildAuthzHTTPMiddleware in Hz. destruct (c_Authz cfg ≫= az_OPA); [|done]. destruct (op_Embedded _); [|done].
    cbn in Hz. case_match; [|done]. by injection Hz as <-. }
  cbn [Authz.checked]. rewrite !(allOrigins_spec _ _ _ Ho). split.
  - apply (Forall2_all _ _ _ (λ oc, Router.o_SupportsFilterExtension (o_of oc) = true) filters Hcap). by intros x y [? _].
  - apply (Forall2_all _ _ _ (λ oc, Router.o_SupportsSpatialFilter (o_of oc) = true) evaluatesSpatial Hcap). by intros x y [_ ?].
Qed.

(** *** Single mode *)

(** The federation of the upstream alone, with the federation's defaults; the
    upstream's response cap is not passed on ([single_mode_ignores_cap]). *)
Definition asOrigin (u : UpstreamConfig) : Config.OriginConfig :=
  mkOriginConfig "primary" "" "" (u_URL u) true (u_Timeout u) None None 0
    (Some (mkOriginAuth "" "" "" "" "" "" false None None ∅)) [] [] 100 false true false 0 "" ∅ ""
    (u_SupportsFilterExtension u) (u_SupportsSpatialFilter u) 0 false "" 0 None.

Definition asFederation (cfg : Config) (u : UpstreamConfig) : Config :=
  mkConfig (c_Server cfg) (c_Logging cfg) (c_Middleware cfg) "federation" None
    (Some (federationDefaults (mkFederation [asOrigin u] 0 0 0 0 (u_AllowPrivateOrigin u) "" (c_Federation cfg ≫= f_PageCache))))
    (c_HealthPath cfg) (c_Authz cfg) (c_Redis cfg).

(** The deployment with its probes called [name]. *)
Definition renamed (name : string) (d : deployment) : deployment :=
  mkDeployment (dp_handler d) ((λ c, mkCheck name (ck_URL c) (ck_Client c)) <$> dp_checks d) (dp_redis d) (dp_pages d)
    (dp_chain d) (dp_limiter d) (dp_store d) (dp_router d) (dp_server d) (dp_open d).

Lemma primaryOf_asOrigin u : primaryOf probe u = originOf probe (asOrigin u).
Proof. unfold primaryOf, originOf. cbn. by destruct (resolveOriginCapabilities _ _ _ _). Qed.

Lemma redis_asFederation cfg u : buildRedisClient (asFederation cfg u) = buildRedisClient cfg.
Proof.
  assert (SelectsRedis (asFederation cfg u) = SelectsRedis cfg) as Hs.
  { unfold SelectsRedis, pageCacheRedis. cbn. by destruct (c_Federation cfg). }
  unfold buildRedisClient. cbn. by rewrite Hs.
Qed.

Lemma handler_asFederation cfg u rdb : IsFederation cfg = false → c_Upstream cfg = Some u →
  buildFederationHandler cfg rdb =
  match buildFederationHandler (asFederation cfg u) rdb with
  | Ok (h, checks) => Ok (h, map (λ c, mkCheck "upstream" (ck_URL c) (ck_Client c)) checks)
  | Err e => Err e
  end.
Proof.
  intros Hm Hu. unfold buildFederationHandler at 1. rewrite Hm. cbn [negb]. unfold buildSingleOriginAsFederation. rewrite Hu.
  rewrite primaryOf_asOrigin. unfold buildFederationHandler, asFederation, buildPageCache, buildAssetSigner. cbn -[originOf Catalog.NewHandler].
  unfold Catalog.NewHandler. cbn -[originOf Catalog.addOrigin].
  destruct (Catalog.addOrigin _ _) as [[clients router]|e]; done.
Qed.

(** Single mode is a federation of one: for every configuration in
    single mode the whole deployment, with its handler, router, tiers,
    stores, limiters, server and warning, is the one built in federation mode
    from the upstream as the only origin, except that its probe has another
    name; in particular either both are built or both fail with the same
    error. *)
Theorem single_is_federation cfg u : IsFederation cfg = false → c_Upstream cfg = Some u →
  assemble cfg = renamed "upstream" <$> assemble (asFederation cfg u).
Proof.
  intros Hm Hu. unfold assemble. rewrite redis_asFederation.
  destruct (buildRedisClient cfg) as [redis|e]; [|done]. cbn [mbind result_bind].
  rewrite (handler_asFederation cfg u _ Hm Hu), Hm.
  destruct (buildFederationHandler (asFederation cfg u) _) as [[h checks]|e]; [|done]. cbn [mbind result_bind].
  change (buildCorsHTTPMiddleware (asFederation cfg u)) with (buildCorsHTTPMiddleware cfg).
  change (buildAuthHTTPMiddleware (asFederation cfg u)) with (buildAuthHTTPMiddleware cfg).
  change (buildAuthzHTTPMiddleware (asFederation cfg u) h) with (buildAuthzHTTPMiddleware cfg h).
  change (buildRemapHTTPMiddleware (asFederation cfg u)) with (buildRemapHTTPMiddleware cfg).
  change (c_Server (asFederation cfg u)) with (c_Server cfg).
  destruct (buildCorsHTTPMiddleware cfg); [|done]. cbn [mbind result_bind].
  destruct (buildAuthHTTPMiddleware cfg); [|done]. cbn [mbind result_bind].
  destruct (buildAuthzHTTPMiddleware cfg h); [|done]. cbn [mbind result_bind].
  change (buildCacheHTTPMiddleware (asFederation cfg u)) with (buildCacheHTTPMiddleware cfg).
  destruct (buildCacheHTTPMiddleware cfg _); [|done]. cbn [mbind result_bind].
  destruct (buildRemapHTTPMiddleware cfg); [|done]. cbn [mbind result_bind].
  destruct (newServer keyPair (c_Server cfg)); [|done]. done.
Qed.

End Build.

Module Witness.
#[local] Existing Instance Cache.Witness.plainHash.
#[local] Existing Instance URL.PlainURL.
#[local] Existing Instance Remap.Witness.printPlain.
#[local] Existing Instance AuthProviders.Witness.toyBcrypt.
#[local] Existing Instance AuthProviders.Witness.toyJWT.
#[local] Existing Instance PageAdapter.Witness.noBody.
#[local] Existing Instance Authz.Witness.json.
#[local] Existing Instance Opa.Witness.rego.
#[local] Existing Instance Opa.Witness.inputCodec.
#[local] Existing Instance Validation.Witness.plainNet.
#[local] Instance noOIDC : OIDC := {| Verifier := unit; oidc_NewProvider _ := None; oidc_Verify _ _ := None |}.
#[local] Instance noX509 : X509 := {| CertPool := unit; PeerCertificates _ := []; x509_Verify _ _ := false |}.

(** The upstream [b] advertises spatial filtering; [a] does not answer. *)
Definition probe (url : string) : option (list string) :=
  if String.eqb url "https://b.org" then Some (FilterExtensionConformance ++ SpatialFilterConformance) else None.
Definition iface (c : OriginClient.OriginClient) : Pagination.OriginClient :=
  Pagination.mkClient (λ _, Ok (None, ∅)) (Router.o_BaseURL (OriginClient.oc_Origin (OriginClient.cl_origin c))).
Abbreviation boot :=
  (assemble Opa.Witness.files (λ _, None) (λ _ _, true) (λ _, None) "seed" (λ _ _, Err "no key") (λ _, None)
    (λ _, None) (λ _ w _, Pipeline.Passed w) probe 0 iface).

(** An origin that asserts both capabilities, or neither. *)
Definition origin (id url : string) (asserts : bool) (auth : option OriginAuthConfig) : OriginConfig :=
  mkOriginConfig id "" "" url true 0 None None 0 auth [] [] 0 false true false 0 "" ∅ "" asserts asserts 0
    false "" 0 None.
Definition sigv4 (region : string) : OriginAuthConfig :=
  mkOriginAuth "aws_sigv4" "" "" "" "" "" false None (Some (mkSigV4 region "" "k" "s")) ∅.
Definition redis : RedisConfig := mkRedis "redis:6379" "" "" 0 "" 0 0 0 0 0 (mkRedisTLS false "" "" "" false).
Definition site (origins : list OriginConfig) (mws : list MiddlewareConfig) (authz : option AuthzConfig) : Config :=
  setDefaults (mkConfig (mkServer "" 0 (mkTLS false "" "") (mkTimeouts 0 0 0 0) 0 0 "" (mkClientIP "" "" [] 0))
    (mkLogging "" "") mws "federation" None (Some (mkFederation origins 0 0 0 0 false "0123456789abcdef" None)) ""
    authz (Some redis)).

Definition two (asserts : bool) : list OriginConfig :=
  [origin "a" "https://a.org" asserts None; origin "b" "https://b.org" false None].
Definition authBlock (anon : bool) : MiddlewareConfig :=
  mkMiddleware "auth" (Some [("allow_anonymous", VBool anon);
    ("providers", VArr [VObj [("type", VStr "api_key"); ("keys", VArr [VObj [("key", VStr "k")]])]])]).
Definition stores : list MiddlewareConfig :=
  [mkMiddleware "cache" (Some [("store", VStr "redis")]); mkMiddleware "rate_limit" (Some [("store", VStr "redis")])].
Definition policy : AuthzConfig :=
  mkAuthz (Some (mkOPA "main.rego" true "" 0 [] [] 0 false 0)) (Some true).

Definition request : httpRequest := mkRequest "GET" "/search" "" ∅ "10.0.0.1:1".
(** What the deployment of a configuration says. *)
Definition deployed {A} (f : deployment → A) (cfg : Config) : option A :=
  match boot cfg with Ok d => Some (f d) | Err _ => None end.

Lemma booted {A} (f : deployment → A) cfg v : deployed f cfg = Some v → ∃ d, boot cfg = Ok d ∧ f d = v.
Proof. unfold deployed. destruct (boot cfg) as [d|]; [|done]. intros [= <-]. by exists d. Qed.

Lemma open_warning_exact_witness :
  deployed dp_open (site (two true) [authBlock true] None) = Some true ∧
  deployed dp_open (site (two true) [authBlock false] None) = Some false ∧
  ∃ d, boot (site (two true) [authBlock true] None) = Ok d ∧
    ∀ a, Pipeline.cc_auth (dp_chain d) = Some a → ∃ p, Auth.authenticate a request = Ok p.
Proof.
  split; [vm_compute; reflexivity|]. split; [vm_compute; reflexivity|].
  destruct (booted (λ d, (dp_open d, from_option (λ a, existsb (λ p, claims p request) (Providers a)) true
                                       (Pipeline.cc_auth (dp_chain d)))) (site (two true) [authBlock true] None) (true, false))
    as (d & E & [= Ho Hc]); [vm_compute; reflexivity|].
  exists d. split; [exact E|].
  refine (proj2 (proj1 (open_warning_exact _ _ _ _ _ _ _ _ _ _ _ _ _ d request E _) Ho)).
  intros a p Ha Hp. rewrite Ha in Hc. cbn in Hc. destruct (claims p request) eqn:Ec; [|reflexivity].
  rewrite <-Hc. symmetry. apply existsb_exists. exists p. split; [by apply list_elem_of_In|exact Ec].
Defined.

Lemma redis_stores_witness :
  ∃ d, boot (site (two true) stores None) = Ok d ∧ dp_store d = Some (RedisKind "stacproxy:rc:") ∧
    dp_limiter d = Some (RedisKind "stacproxy:rl:").
Proof.
  assert (Hwf : WellFormed (site (two true) stores None)) by (apply validated; vm_compute; reflexivity).
  destruct (booted (λ _, true) (site (two true) stores None) true) as (d & E & _); [vm_compute; reflexivity|].
  exists d. split; [exact E|].
  destruct (redis_stores _ _ _ _ _ _ _ _ _ _ _ _ _ d Hwf E) as (_ & Hc & Hr & _). split.
  - apply (Hc [("store", VStr "redis")]); reflexivity.
  - apply (Hr [("store", VStr "redis")]); reflexivity.
Defined.

Lemma validated_boots_witness :
  WellFormed (site [origin "a" "https://a.org" false (Some (sigv4 ""))] [] None) ∧
  (∃ r, buildFederationHandler probe 0 iface (site (two false) [] None) false = Ok r) ∧
  ¬ (∃ r, buildFederationHandler probe 0 iface (site [origin "a" "https://a.org" false (Some (sigv4 ""))] [] None) false = Ok r).
Proof.
  assert (Hparse : ∀ s, is_Some (cfg_url_Parse s) → is_Some (URL.url_Parse s)).
  { intros s [u Hu]. cbn in Hu |- *. destruct (URL.parsePlain s); [by eexists|discriminate Hu]. }
  assert (Hwf : WellFormed (site [origin "a" "https://a.org" false (Some (sigv4 ""))] [] None))
    by (apply validated; vm_compute; reflexivity).
  split; [exact Hwf|]. split.
  - apply (validated_boots probe 0 iface (site (two false) [] None) false).
    + apply validated. vm_compute. reflexivity.
    + exact Hparse.
    + intros _ f o [= <-] Ho _ (a & w & Ha & _).
      apply elem_of_cons in Ho as [->|Ho]; [discriminate Ha|].
      apply elem_of_cons in Ho as [->|Ho]; [discriminate Ha|by apply elem_of_nil in Ho].
  - intros Hok. refine (proj1 (validated_boots probe 0 iface _ false Hwf Hparse) Hok eq_refl _ _ eq_refl _ _ _).
    + apply list_elem_of_singleton. reflexivity.
    + reflexivity.
    + eexists _, _. split_and!; reflexivity.
Defined.

(** With [a] asserting, both checks hold; without, neither does: [a] did not
    answer. *)
Lemma pushdown_gate_witness :
  (∃ d z, boot (site (two true) [] (Some policy)) = Ok d ∧ Pipeline.cc_authz (dp_chain d) = Some z ∧
     ∀ i, Authz.checked (Authz.SpatialFilterCheck z) request i = true) ∧
  ∃ d z, boot (site (two false) [] (Some policy)) = Ok d ∧ Pipeline.cc_authz (dp_chain d) = Some z ∧
     ∀ i, Authz.checked (Authz.SpatialFilterCheck z) request i = false.
Proof.
  assert (Hsome : ∀ b, WellFormed (site (two b) [] (Some policy)) ∧
    ∃ d z, boot (site (two b) [] (Some policy)) = Ok d ∧ Pipeline.cc_authz (dp_chain d) = Some z).
  { intros b. split; [apply validated; destruct b; vm_compute; reflexivity|].
    destruct (booted (λ d, bool_decide (is_Some (Pipeline.cc_authz (dp_chain d)))) (site (two b) [] (Some policy)) true)
      as (d & E & [z Hz]%bool_decide_eq_true); [destruct b; vm_compute; reflexivity|].
    exists d, z. split; [exact E|exact Hz]. }
  split.
  - destruct (Hsome true) as (Hwf & d & z & Hd & Hz). exists d, z. split; [exact Hd|]. split; [exact Hz|]. intros i.
    apply (pushdown_gate _ _ _ _ _ _ _ _ _ _ _ _ _ d z request i Hwf Hd Hz). split; [discriminate|].
    intros a Ha. apply elem_of_cons in Ha as [->|Ha]; [left; reflexivity|].
    apply list_elem_of_singleton in Ha as ->. right. eexists. split; [reflexivity|]. split; [right|]; reflexivity.
  - destruct (Hsome false) as (Hwf & d & z & Hd & Hz). exists d, z. split; [exact Hd|]. split; [exact Hz|]. intros i.
    apply not_true_iff_false. intros Hc.
    apply (pushdown_gate _ _ _ _ _ _ _ _ _ _ _ _ _ d z request i Hwf Hd Hz) in Hc as [_ Hc].
    destruct (Hc (mkAssertion "https://a.org" false false)) as [Hs|(classes & Hp & _)]; [left|discriminate Hs|discriminate Hp].
Defined.

(** The validator trims the signing secret, the signer does not: a blank
    secret of an earlier block signs. *)
Lemma blank_secret_signs :
  let cfg := site [mkOriginConfig "a" "" "" "https://a.org" true 0 None None 0 None [] [] 0 false true false 0 "" ∅ ""
                     false false 0 false "sign" 0 None]
               [mkMiddleware "url_remap" (Some [("secret", VStr " ")]); mkMiddleware "url_remap" (Some [("secret", VStr "s3cret")])]
               None in
  WellFormed cfg ∧ buildAssetSigner cfg = Some (Remap.NewHMACSigner " ").
Proof. split; [apply validated; vm_compute; reflexivity|reflexivity]. Qed.

(** Without [allowed_origins] the CORS library allows every origin, so the
    check on credentials does not see this wildcard. *)
Lemma implicit_wildcard_with_credentials :
  AllowedOrigins <$> corsFromConfig [("allow_credentials", VBool true)] = Ok [] ∧
  is_ok (corsFromConfig [("allow_credentials", VBool true); ("allowed_origins", VArr [VStr "*"])]) = false.
Proof. by split. Qed.

(** In single mode the response cap of the configuration is not passed on. *)
Lemma single_mode_ignores_cap :
  OriginClient.oc_MaxResponseBytes (primaryOf probe (mkUpstream "https://b.org" 0 false false 1024 false)) = 0%Z.
Proof. reflexivity. Qed.

Definition upstream : UpstreamConfig := mkUpstream "https://b.org" 0 false false 0 false.
Definition alone : Config :=
  setDefaults (mkConfig (mkServer "" 0 (mkTLS false "" "") (mkTimeouts 0 0 0 0) 0 0 "" (mkClientIP "" "" [] 0))
    (mkLogging "" "") [authBlock false] "single" (Some upstream) None "" (Some policy) None).

Lemma single_is_federation_witness :
  deployed (λ d, (ck_Name <$> dp_checks d, bool_decide (is_Some (Pipeline.cc_authz (dp_chain d))))) alone
    = Some (["upstream"], true) ∧
  deployed (λ d, ck_Name <$> dp_checks d) (asFederation alone (upstreamDefaults upstream)) = Some ["primary"] ∧
  boot alone = renamed "upstream" <$> boot (asFederation alone (upstreamDefaults upstream)).
Proof.
  split; [vm_compute; reflexivity|]. split; [vm_compute; reflexivity|].
  apply single_is_federation; reflexivity.
Defined.

End Witness.
End Wiring.
