(* ===== verification/Lifecycle.v ===== *)
(** * The life of the process ([internal/server/server.go], the end of [run]
      and [main] in [cmd/stac-proxy/main.go])

    Binding, serving, the shutdown signal and the exit, as a step relation
    over the two goroutines involved: [main], which runs the server and then
    the deferred calls, and the one [run] starts to wait for the signal and
    call [Shutdown].

    [net/http] as documented: [Serve] accepts connections until [Shutdown]
    is called, and then returns [ErrServerClosed] at once; [Shutdown] returns
    when no request is in flight, or when its context ends. *)

From S2P Require Import Prelude GoLib Stac Middleware Edge Config Wiring.
From stdpp Require Import relations.
Import Strings Config.

Module Lifecycle.
#[local] Open Scope Z_scope.

(** ** The server *)

Record tlsConfig (C : Type) := mkTLSConfig { tc_Certificates : list C; tc_MinVersion : Z; tc_NextProtos : list string }.
#[global] Arguments mkTLSConfig {C}.

Definition VersionTLS12 : Z := 771.

(** [LoadX509KeyPair]: the certificate of the two files, if they load. *)
Definition loadTLSConfig {C} (LoadX509KeyPair : string → string → option C) (cfg : TLSConfig) : option (tlsConfig C) :=
  cert ← LoadX509KeyPair (tls_CertFile cfg) (tls_KeyFile cfg);
  Some (mkTLSConfig [cert] VersionTLS12 ["h2"; "http/1.1"]).

Record Server := mkServer { srv_http : Wiring.httpServer; srv_listener : option string }.

(** [Start] up to [Serve]: [listen] binds the address. *)
Definition Start (listen : string → option string) (s : Server) : option Server :=
  addr ← listen (Wiring.hs_Addr (srv_http s)); Some (mkServer (srv_http s) (Some addr)).

Definition Addr (s : Server) : string := default (Wiring.hs_Addr (srv_http s)) (srv_listener s).

(** ** Logging *)

Inductive logLevel := LevelDebug | LevelInfo | LevelWarn | LevelError.
Inductive logFormat := TextHandler | JSONHandler.

Definition initLogger (cfg : LoggingConfig) : logLevel * logFormat :=
  (if String.eqb (l_Level cfg) "debug" then LevelDebug
   else if String.eqb (l_Level cfg) "warn" then LevelWarn
   else if String.eqb (l_Level cfg) "error" then LevelError else LevelInfo,
   if String.eqb (l_Format cfg) "console" || String.eqb (l_Format cfg) "text" then TextHandler else JSONHandler).

(** ** The process *)

Section Process.
Context {Req : Type}.

(** How [srv.Start] returned. *)
Inductive runResult := ListenFailed | ServeFailed | ErrServerClosed.

(** Where [main] is: before and in [Serve], in the deferred calls of [run],
    gone. *)
Inductive mainAt := Binding | Serving | Unwinding (r : runResult) | Exited (code : Z).
Inductive watcherAt := Waiting | Draining (deadline : Z) | Drained (err : bool).

Definition shutdownTimeout : Z := 30 * 1000000000.

Record process := mkProcess {
  p_main : mainAt;
  p_watcher : watcherAt;
  p_server : Server;
  p_cancelled : bool;              (* a signal arrived *)
  p_closing : bool;                (* [Shutdown] was called *)
  p_accepted : list Req;
  p_inflight : list Req;
  p_answered : list Req;
  p_dropped : list Req;            (* in flight when the process ended *)
  p_health : Health.HealthChecker (Check:=Wiring.originCheck);
  p_redis : bool;                  (* the shared client is open *)
  p_clock : Z;
}.

(** The exit code [main] gives a result of [run]. *)
Definition exitCode (r : runResult) : Z := match r with ErrServerClosed => 0 | _ => 1 end.

Definition withMain (m : mainAt) (p : process) : process :=
  mkProcess m (p_watcher p) (p_server p) (p_cancelled p) (p_closing p) (p_accepted p) (p_inflight p) (p_answered p) (p_dropped p)
    (p_health p) (p_redis p) (p_clock p).

(** The deferred calls of [run], the last line of [main], and the end of the
    requests still running. *)
Definition unwind (r : runResult) (p : process) : process :=
  mkProcess (Exited (exitCode r)) (p_watcher p) (p_server p) (p_cancelled p) (p_closing p) (p_accepted p) [] (p_answered p)
    (p_dropped p ++ p_inflight p) (Health.Stop (p_health p)) false (p_clock p).

(** The process ends with [main]. *)
Definition alive (p : process) : Prop := ∀ code, p_main p ≠ Exited code.

Inductive step (p : process) : process → Prop :=
| step_listen listen srv : p_main p = Binding → Start listen (p_server p) = Some srv →
    step p (mkProcess Serving (p_watcher p) srv (p_cancelled p) (p_closing p)
      (p_accepted p) (p_inflight p) (p_answered p) (p_dropped p) (p_health p) (p_redis p) (p_clock p))
| step_listen_failed listen : p_main p = Binding → Start listen (p_server p) = None → step p (withMain (Unwinding ListenFailed) p)
| step_accept r : p_main p = Serving → p_closing p = false →
    step p (mkProcess Serving (p_watcher p) (p_server p) (p_cancelled p) (p_closing p) (p_accepted p ++ [r])
      (p_inflight p ++ [r]) (p_answered p)
      (p_dropped p) (p_health p) (p_redis p) (p_clock p))
| step_answer l1 r l2 : alive p → p_inflight p = l1 ++ r :: l2 →
    step p (mkProcess (p_main p) (p_watcher p) (p_server p) (p_cancelled p) (p_closing p) (p_accepted p) (l1 ++ l2) (p_answered p ++ [r])
      (p_dropped p) (p_health p) (p_redis p) (p_clock p))
| step_signal : alive p →
    step p (mkProcess (p_main p) (p_watcher p) (p_server p) true (p_closing p) (p_accepted p) (p_inflight p) (p_answered p) (p_dropped p)
      (p_health p) (p_redis p) (p_clock p))
| step_shutdown : alive p → p_cancelled p = true → p_watcher p = Waiting →
    step p (mkProcess (p_main p) (Draining (p_clock p + shutdownTimeout)) (p_server p) (p_cancelled p) true (p_accepted p) (p_inflight p)
      (p_answered p) (p_dropped p) (p_health p) (p_redis p) (p_clock p))
| step_drained d : alive p → p_watcher p = Draining d → p_inflight p = [] →
    step p (mkProcess (p_main p) (Drained false) (p_server p) (p_cancelled p) (p_closing p) (p_accepted p) (p_inflight p) (p_answered p)
      (p_dropped p) (p_health p) (p_redis p) (p_clock p))
| step_deadline d : alive p → p_watcher p = Draining d → d ≤ p_clock p →
    step p (mkProcess (p_main p) (Drained true) (p_server p) (p_cancelled p) (p_closing p) (p_accepted p) (p_inflight p) (p_answered p)
      (p_dropped p) (p_health p) (p_redis p) (p_clock p))
| step_closed : p_main p = Serving → p_closing p = true → step p (withMain (Unwinding ErrServerClosed) p)
| step_serve_failed : p_main p = Serving → step p (withMain (Unwinding ServeFailed) p)
| step_tick t : p_clock p ≤ t →
    step p (mkProcess (p_main p) (p_watcher p) (p_server p) (p_cancelled p) (p_closing p) (p_accepted p) (p_inflight p) (p_answered p)
      (p_dropped p) (p_health p) (p_redis p) t)
| step_exit r : p_main p = Unwinding r → step p (unwind r p).

(** [run] when it calls [srv.Start]: the deployment is built, its checks are
    registered and the checker is started. *)
Definition boot (d : Wiring.deployment) (now : Z) : process :=
  mkProcess Binding Waiting (mkServer (Wiring.dp_server d) None) false false [] [] [] []
    (Health.Start (foldl (λ h c, Health.AddCheck c h) Health.NewHealthChecker (Wiring.dp_checks d)))
    (bool_decide (is_Some (Wiring.dp_redis d))) now.

(** ** Invariant *)

Record lifeInv (p : process) : Prop := {
  li_accepted : p_accepted p ≡ₚ p_answered p ++ p_inflight p ++ p_dropped p;
  li_signal : p_closing p = true → p_cancelled p = true;
  li_watcher : p_watcher p = Waiting ↔ p_closing p = false;
  li_closed : p_main p = Unwinding ErrServerClosed ∨ p_main p = Exited 0 → p_closing p = true;
  li_dropped : alive p → p_dropped p = [];
  li_drained : p_watcher p = Drained false → p_inflight p = [] ∧ p_dropped p = [];
  li_checker : is_Some (Health.checker (p_health p));
  li_exited : ∀ code, p_main p = Exited code →
    (code = 0 ∨ code = 1) ∧ p_inflight p = [] ∧ Health.stopped (p_health p) = true ∧ p_redis p = false;
}.

Lemma lifeInv_boot d now : lifeInv (boot d now).
Proof.
  split; cbn; try done; [by intros [|]|].
  unfold Health.Start, Health.build. destruct (Health.checker (foldl _ _ _)) eqn:E; [rewrite E|cbn]; by eexists.
Qed.

(** A step that keeps [main] where it was keeps the process alive. *)
Lemma alive_at p q : p_main p = q → (∀ code, q ≠ Exited code) → alive p.
Proof. intros Hq Hne code Hcode. apply (Hne code). congruence. Qed.

Lemma Stop_stopped {Check} (h : Health.HealthChecker (Check:=Check)) : is_Some (Health.checker h) →
  Health.stopped (Health.Stop h) = true ∧ is_Some (Health.checker (Health.Stop h)).
Proof. intros [c Hc]. unfold Health.Stop. rewrite Hc. cbn. split; [done|rewrite ?Hc; by eexists]. Qed.

Lemma lifeInv_step p p' : lifeInv p → step p p' → lifeInv p'.
Proof.
  intros [Ha Hs Hw Hc Hd Hdr Hk Hx] Hstep.
  destruct Hstep.
  all: split; cbn in *; try done; try (by auto); try (by intros [|]).
  all: try (intros Hal; apply Hd; (exact Hal || by eapply alive_at)).
  - rewrite Ha. solve_Permutation.
  - intros Hd'. destruct Hw as [_ Hw]. rewrite Hw in Hd' by done. done.
  - rewrite Ha, H0. solve_Permutation.
  - intros Hd'. destruct (Hdr Hd') as [Hi _]. rewrite Hi in H0. by destruct l1.
  - intros code Hcode. by destruct (H code).
  - split; [done|]. intros Hcl. apply Hw in Hcl. congruence.
  - split; [done|]. intros Hcl. apply Hw in Hcl. congruence.
  - rewrite Ha. solve_Permutation.
  - intros [|[= Hr]]; [done|]. apply Hc. left. rewrite H. by destruct r.
  - intros Hal. by destruct (Hal (exitCode r)).
  - intros Hd'. destruct (Hdr Hd') as [-> ->]. done.
  - by apply Stop_stopped.
  - intros code [= <-]. repeat split; [by destruct r; [right|right|left]|by apply Stop_stopped].
Qed.

Lemma lifeInv_run p p' : lifeInv p → rtc step p p' → lifeInv p'.
Proof. intros Hp Hrun. induction Hrun; eauto using lifeInv_step. Qed.

(** C18: whatever the interleaving of requests, signals and the two goroutines:
    every request the server accepted is answered, still running, or was cut
    off by the end of the process, and none twice; the process exits with
    code 0 or 1, and with 0 only after a signal and a call of [Shutdown];
    when it has exited the health checker was stopped and the redis client
    closed; and a [Shutdown] that returned without error left no request
    running and none is ever lost. *)
Theorem shutdown_contract d now p : rtc step (boot d now) p →
  p_accepted p ≡ₚ p_answered p ++ p_inflight p ++ p_dropped p ∧
  (∀ code, p_main p = Exited code →
    (code = 0 ∨ code = 1) ∧ (code = 0 → p_cancelled p = true ∧ p_closing p = true) ∧
    p_inflight p = [] ∧ Health.stopped (p_health p) = true ∧ p_redis p = false) ∧
  (p_watcher p = Drained false → p_accepted p ≡ₚ p_answered p ∧ p_inflight p = [] ∧ p_dropped p = []).
Proof.
  intros Hrun. destruct (lifeInv_run _ _ (lifeInv_boot d now) Hrun) as [Ha Hs Hw Hc Hd Hdr Hk Hx].
  split; [done|]. split.
  - intros code Hcode. destruct (Hx code Hcode) as (Hcd & Hrest). split; [done|]. split; [|done].
    intros ->. split; [apply Hs|]; apply Hc; by right.
  - intros Hd'. destruct (Hdr Hd') as [Hi Hp]. rewrite Hi, Hp in Ha. by rewrite !app_nil_r in Ha.
Qed.

(** The drain is not awaited: from every reachable state in which requests
    are being served, a signal, the call of [Shutdown], the return of
    [Serve] and the deferred calls end the process with code 0, at the same
    instant and with every running request cut off. *)
Theorem drain_not_awaited d now p : rtc step (boot d now) p →
  p_main p = Serving → p_closing p = false →
  ∃ p', rtc step p p' ∧ p_main p' = Exited 0 ∧ p_clock p' = p_clock p ∧
    p_answered p' = p_answered p ∧ p_dropped p' = p_inflight p.
Proof.
  intros Hrun Hm Hcl. destruct (lifeInv_run _ _ (lifeInv_boot d now) Hrun) as [Ha Hs Hw Hc Hd Hdr Hk Hx].
  assert (alive p) as Hal by (by eapply alive_at).
  eexists. split; [|split; [|split; [|split]]].
  - eapply rtc_l; [by apply step_signal|].
    eapply rtc_l; [apply step_shutdown; [exact Hal|done|by apply Hw]|].
    eapply rtc_l; [by apply step_closed|].
    apply rtc_once. by apply step_exit.
  - done.
  - done.
  - done.
  - cbn. by rewrite (Hd Hal).
Qed.
End Process.

Module Witness.
(** Two requests, the first answered; a signal; the second answered within
    the drain, after which [Shutdown] returns and the process exits. *)
Lemma drained_run d : ∃ p, rtc step (boot d 0) p ∧ p_main p = Exited 0 ∧ p_watcher p = Drained false ∧ p_accepted p = ["a"; "b"].
Proof.
  eexists. split.
  { unfold boot. eapply rtc_l; [apply (step_listen _ (λ _, Some "0.0.0.0:8080")); reflexivity|cbn].
    eapply rtc_l; [apply (step_accept _ "a"); reflexivity|cbn].
    eapply rtc_l; [apply (step_accept _ "b"); reflexivity|cbn].
    eapply rtc_l; [apply (step_answer _ [] "a" ["b"]); [intros ? [=]|reflexivity]|cbn].
    eapply rtc_l; [apply step_signal; intros ? [=]|cbn].
    eapply rtc_l; [apply step_shutdown; [intros ? [=]|reflexivity..]|cbn].
    eapply rtc_l; [apply (step_answer _ [] "b" []); [intros ? [=]|reflexivity]|cbn].
    eapply rtc_l; [eapply step_drained; [intros ? [=]|reflexivity..]|cbn].
    eapply rtc_l; [apply step_closed; reflexivity|cbn].
    eapply rtc_l; [apply step_exit; reflexivity|cbn].
    apply rtc_refl. }
  repeat split.
Qed.

(** That run, from the deployment of a configuration with redis. *)
Lemma shutdown_contract_witness : ∃ d p, p_redis (boot (Req:=string) d 0) = true ∧ rtc step (boot d 0) p ∧
  p_main p = Exited 0 ∧ p_accepted p = ["a"; "b"] ∧ p_accepted p ≡ₚ p_answered p ∧
  Health.stopped (p_health p) = true ∧ p_redis p = false.
Proof.
  destruct (Wiring.Witness.booted (λ d, bool_decide (is_Some (Wiring.dp_redis d)))
    (Wiring.Witness.site (Wiring.Witness.two true) Wiring.Witness.stores None) true) as (d & _ & Hredis); [vm_compute; reflexivity|].
  destruct (drained_run d) as (p & Hrun & Hm & Hw & Hacc). exists d, p.
  destruct (shutdown_contract d 0 p Hrun) as (_ & Hex & Hdr).
  destruct (Hex 0 Hm) as (_ & _ & _ & Hst & Hre). destruct (Hdr Hw) as (Hans & _).
  by repeat split.
Defined.
End Witness.
End Lifecycle.
