(* ===== verification/System.v ===== *)
(** * The whole server

    A deployment of [Wiring] behind the router of [Pipeline]: the federation
    handler of [Catalog] and the asset endpoint of [Proxy] are the inner
    handlers of the chain, and the origins are reached over [wire].  The
    theorems are about a request from the socket to the origins and back.

    Parameters: those of the composed files, gathered in [environment]. *)

From S2P Require Import Prelude GoLib Breaker Stac Fanout Merger Cursor Store PageCache PageAdapter Pagination Router Httpx.
From S2P Require Import Middleware Auth Cql2 Authz Query Cache Remap RateLimit Edge SearchHandler Config Parser.
From S2P Require Import OriginAuth OriginClient Proxy Catalog Pipeline Wiring.
Import Strings Values Header Stac Merger Middleware.

Module System.

(** What surrounds the program while it serves one request. *)
Record environment := mkEnv {
  e_now : Z;
  e_later : Z;                          (* the clock after a token fetch *)
  e_fresh : string;                     (* a new request ID *)
  e_mux : matcher;
  e_rawPath : string;
  e_host : string;
  e_tls : bool;
  e_canceled : bool;                    (* the client has gone *)
  e_probe : Wiring.originCheck → option Z;              (* the status a probe is answered with *)
  e_health : list (string * bool) → httpRequest → response;   (* the health library, on the checks *)
  e_unmatched : httpRequest → response;
  e_text : Parser.parseError → string;
  e_recoverer : header → httpRequest → response;
  e_marshal : SearchRequest → option bytes;
  e_token : OriginAuth.tokenReply;
  e_wire : OriginAuth.outRequest → result string Proxy.upstream;
  e_backends : Catalog.backends;
}.

Section System.
Context `{!MapRange, !SearchHandler.DocCodec, !JSON, GoTime, !Crypto, !Cursor.CursorCodec, !PageCache.PageCodec,
  !Pagination.QueryCodec, !Pagination.ContextCodec, Store PSt, !Geo.GeoLib, !Parser.SearchCodec}.
Context `{!URL.GoURL, !Proxy.URLPrint, !OriginAuth.Signer, !Pipeline.ClientIPLib}.
Context `{!Cql2.Cql2Geo, !Cql2.ParseFloat, !Authz.Cql2Lib, !Cache.EntryCodec, Store St, RateLimit.Limiter Li}.

Abbreviation World := (Pipeline.world Li St PSt).

(** ** The inner handlers *)

Definition reverseProxy (env : environment) (h : Catalog.Handler) : string → Proxy.request → Proxy.outcome :=
  Proxy.reverseProxyOnce (e_marshal env) true (e_now env) (e_later env) (e_token env) (e_wire env) (Catalog.h_proxy h).

(** The request [ServeHTTP] builds from the context's STAC shape. *)
Definition fedRequest (env : environment) (q : Pipeline.request) (i : STACInfo) : Proxy.request :=
  Proxy.mkFedRequest (Pipeline.q_http q) (e_host env) (e_tls env) (Pipeline.q_body q)
    (Pipeline.x_requestID (Pipeline.q_ctx q)) (info_Collection i) (info_ItemID i) (info_RequestType i) (info_SearchReq i).

Definition principalID (q : Pipeline.request) : option string :=
  Auth.p_ID <$> Pipeline.x_principal (Pipeline.q_ctx q).

Definition stacHandler (env : environment) (h : Catalog.Handler) (w : header) (q : Pipeline.request) (st : PSt)
    : Pipeline.outcome * PSt :=
  let '(o, st) := Catalog.ServeHTTP (reverseProxy env h) (e_backends env) (e_now env) h (principalID q) w
                    (Pipeline.x_info (Pipeline.q_ctx q)) (fedRequest env q) st in
  (match o with
   | Catalog.Wrote resp => Pipeline.Done resp
   | Catalog.Crashed => Pipeline.Panicked w
   | Catalog.Closed => Pipeline.Aborted
   end, st).

(** The asset endpoint writes to the client as it goes; one that has gone
    gets nothing, which the server turns into an empty 200. *)
Definition assetHandler (env : environment) (h : Catalog.Handler) (id ref : string) (w : header)
    (q : Pipeline.request) (st : PSt) : Pipeline.outcome * PSt :=
  (Pipeline.Done
     match Proxy.ServeAssetHTTP (e_now env) (e_later env) (e_token env) (e_wire env) (e_canceled env) (Catalog.h_proxy h)
             (Pipeline.q_http q) (Pipeline.x_requestID (Pipeline.q_ctx q)) id ref with
     | Proxy.AssetError status msg => httpError w msg status
     | Proxy.ClientGone => mkResponse 200 w ""
     | Proxy.Streamed resp => mkResponse (resp_Status resp) (resp_Header resp ∪ w) (resp_Body resp)
     end, st).

(** The probes: liveness is constant, health and readiness are what the
    library makes of the checks registered at construction. *)
Definition healthHandler (env : environment) (d : Wiring.deployment) (pattern : string) (r : httpRequest) : response :=
  if String.eqb pattern "/health/live" then Health.LivenessHandler ∅ else
  let checker := foldl (λ h c, Health.AddCheck c h) Health.NewHealthChecker (Wiring.dp_checks d) in
  e_health env ((λ c, (Wiring.ck_Name c, Health.originUp (e_probe env c))) <$> (Health.HealthHandler checker).1) r.

(** ** The server *)

Definition serve (allow : gset string) (env : environment) (d : Wiring.deployment) (r : httpRequest)
    (body : option bytes) (s : World) : Pipeline.outcome * World :=
  Pipeline.serveHTTP (Wiring.dp_router d) (e_mux env) (e_rawPath env) (healthHandler env d) (e_unmatched env)
    (e_text env) (e_recoverer env) (Pipeline.httpMiddlewares (Wiring.dp_chain d) (e_now env) (e_fresh env) allow)
    (Pipeline.lift (stacHandler env (Wiring.dp_handler d)))
    (λ id ref, Pipeline.lift (assetHandler env (Wiring.dp_handler d) id ref)) r body s.

(** ** Exchanging the origins *)

(** The environment with other answers of the origins over the wire and to
    the fan-out's searches, and the deployment with another paginator. *)
Definition withBackends (b : Catalog.backends) (client : Router.Origin → SearchRequest → SearchHandler.clientReply)
    : Catalog.backends :=
  Catalog.mkBackends (Catalog.b_describe b) client (Catalog.b_schedule b) (Catalog.b_baseURL b) (Catalog.b_collections b)
    (Catalog.b_marshalColls b) (Catalog.b_queryables b) (Catalog.b_conformance b).

Definition withOrigins (wire : OriginAuth.outRequest → result string Proxy.upstream)
    (client : Router.Origin → SearchRequest → SearchHandler.clientReply) (env : environment) : environment :=
  mkEnv (e_now env) (e_later env) (e_fresh env) (e_mux env) (e_rawPath env) (e_host env) (e_tls env) (e_canceled env)
    (e_probe env) (e_health env) (e_unmatched env) (e_text env) (e_recoverer env) (e_marshal env) (e_token env) wire
    (withBackends (e_backends env) client).

Definition handlerWith (pages : option Pagination.PaginatedSearcher) (h : Catalog.Handler) : Catalog.Handler :=
  Catalog.mkHandler (Catalog.h_proxy h) (Catalog.h_router h) (Catalog.h_maxConcurrent h) (Catalog.h_aggregateTimeout h)
    (Catalog.h_defaultPageSize h) (Catalog.h_maxPageSize h) (Catalog.h_caps h) pages.

Definition withPages (pages : option Pagination.PaginatedSearcher) (d : Wiring.deployment) : Wiring.deployment :=
  Wiring.mkDeployment (handlerWith pages (Wiring.dp_handler d)) (Wiring.dp_checks d) (Wiring.dp_redis d)
    (Wiring.dp_pages d) (Wiring.dp_chain d) (Wiring.dp_limiter d) (Wiring.dp_store d) (Wiring.dp_router d)
    (Wiring.dp_server d) (Wiring.dp_open d).

(** Two behaviours of the origins that differ only on searches outside [P].
    On the wire a search is the body of a POST to the origin's search
    endpoint; the fan-out asks the routed origins under the names they use,
    and the paginator asks for pages of it. *)
Record indistinct (P : SearchRequest → Prop) (env : environment) (h : Catalog.Handler)
    (wire wire' : OriginAuth.outRequest → result string Proxy.upstream)
    (client client' : Router.Origin → SearchRequest → SearchHandler.clientReply)
    (pages pages' : option Pagination.PaginatedSearcher) : Prop := {
  in_wire : ∀ id c out sr, Catalog.h_origins h !! id = Some c → P sr →
    OriginAuth.out_Method out = "POST" →
    URL.Scheme (OriginAuth.out_URL out) = URL.Scheme (OriginClient.cl_baseURL c) →
    URL.Host (OriginAuth.out_URL out) = URL.Host (OriginClient.cl_baseURL c) →
    URL.Path (OriginAuth.out_URL out) = Proxy.singleJoiningSlash (URL.Path (OriginClient.cl_baseURL c)) "/search" →
    is_Some (OriginAuth.out_Body out) → OriginAuth.out_Body out = e_marshal env sr → wire' out = wire out;
  in_client : ∀ o sr sr', P sr → o ∈ Router.Route (Catalog.h_router h) (Collections sr) →
    SearchHandler.fanned (Catalog.b_schedule (e_backends env) (Router.Route (Catalog.h_router h) (Collections sr))) sr sr' →
    client' o sr' = client o sr';
  in_pages : match pages, pages' with
             | Some s, Some s' => Pagination.sameOrigins P s s'
             | None, None => True
             | _, _ => False
             end;
}.

(** The page sizes of a handler and its paginator, as [NewHandler] sets them. *)
Definition sized (pages : option Pagination.PaginatedSearcher) (h : Catalog.Handler) : Prop :=
  (0 < Catalog.h_defaultPageSize h)%Z ∧ (0 < Catalog.h_maxPageSize h)%Z ∧
  ∀ s, pages = Some s → Pagination.maxPageSize s = Catalog.h_maxPageSize h.

Lemma NewHandler_sized `{!PageAdapter.BodyCodec} iface cfg h :
  Catalog.NewHandler iface cfg = Ok h → sized (Catalog.h_searcher h) h.
Proof.
  unfold Catalog.NewHandler. intros ([clients router] & _ & Hh)%bind_ok. apply bind_ok in Hh as (searcher & Hs & [= <-]).
  cbn. assert (∀ d n : Z, (0 < d → 0 < Catalog.orDefault d n)%Z) as Hpos.
  { intros d n Hd. unfold Catalog.orDefault. case_match; bool_to_prop; lia. }
  split; [by apply Hpos|]. split; [by apply Hpos|]. intros s ->.
  unfold Catalog.buildSearcher in Hs. case_match; [|done]. apply bind_ok in Hs as (os & _ & Hs).
  unfold Pagination.NewPaginatedSearcher in Hs. case_match; [|done]. case_match; simplify_eq. cbn.
  by rewrite (proj2 (Z.leb_gt _ _) (Hpos 1000 _ ltac:(lia)))%Z.
Qed.

Lemma clampPage_limit h sr :
  (0 < Catalog.h_defaultPageSize h)%Z → (0 < Catalog.h_maxPageSize h)%Z →
  let sr' := SearchHandler.clampPage (Catalog.searchPart h) sr in
  (0 < Limit sr' ≤ Catalog.h_maxPageSize h)%Z ∧ ((0 < Limit sr)%Z → (Limit sr' ≤ Limit sr)%Z).
Proof.
  intros Hd Hm. unfold SearchHandler.clampPage. cbn.
  destruct (Z.leb_spec (Limit sr) 0); cbn; case_match; bool_to_prop; lia.
Qed.

Section Exchange.
Variables (P : SearchRequest → Prop) (env : environment) (h : Catalog.Handler)
  (wire wire' : OriginAuth.outRequest → result string Proxy.upstream)
  (client client' : Router.Origin → SearchRequest → SearchHandler.clientReply)
  (pages pages' : option Pagination.PaginatedSearcher).
Hypothesis Hin : indistinct P env h wire wire' client client' pages pages'.

(** The pass-through sends a search as its body. *)
Lemma reverseProxy_same id req sr :
  Proxy.fr_SearchReq req = Some sr → Proxy.isSearchLike (Proxy.fr_RequestType req) = true → P sr →
  reverseProxy (withOrigins wire' client' env) (handlerWith pages' h) id req =
  reverseProxy (withOrigins wire client env) (handlerWith pages h) id req.
Proof.
  intros Hs Hl HP. unfold reverseProxy, Proxy.reverseProxyOnce. cbn.
  destruct (Proxy.ph_origins _ !! id) as [c|] eqn:Ec; [|done].
  destruct (Proxy.buildOutboundRequest (e_marshal env) c req) as [out|e] eqn:Eb; [|done].
  destruct (OriginAuth.ApplyAuth _ _ _ _ _).1 as [out'|e] eqn:Ea; cbn; [|done].
  assert (Proxy.outbound (e_marshal env) (e_now env) (e_later env) (e_token env) c req = Ok out') as Ho.
  { unfold Proxy.outbound. by rewrite Eb. }
  destruct (Proxy.outbound_search _ _ _ _ _ _ _ _ Hs Hl Ho) as (Hm & Hb & Hsc & Hh & Hpa).
  rewrite (in_wire _ _ _ _ _ _ _ _ _ Hin id c out' sr); try done.
  rewrite Hb. unfold Proxy.buildOutboundRequest in Eb. rewrite Hs, Hl in Eb.
  destruct (e_marshal env sr); [by eexists|done].
Qed.

(** The searches [handleSearch] derives from its request. *)
Definition covers (sr : SearchRequest) : Prop :=
  let sr := SearchHandler.clampPage (Catalog.searchPart h) sr in P sr ∧ P (SearchHandler.hashReq sr).

Hypothesis Hsized : sized pages h.

Lemma search_same {R} describe (rp rp' : Router.Origin → SearchRequest → R) baseURL now principal r sr (st : PSt) :
  covers sr → (∀ o sr, P sr → rp' o sr = rp o sr) →
  SearchHandler.handleSearch describe rp' baseURL client' (Catalog.b_schedule (e_backends env)) now (Catalog.searchPart (handlerWith pages' h)) principal r sr st =
  SearchHandler.handleSearch describe rp baseURL client (Catalog.b_schedule (e_backends env)) now (Catalog.searchPart (handlerWith pages h)) principal r sr st.
Proof.
  intros [HP HP'] Hrp. unfold SearchHandler.handleSearch.
  set (sr1 := SearchHandler.clampPage (Catalog.searchPart h) sr) in *.
  change (SearchHandler.clampPage (Catalog.searchPart (handlerWith pages' h)) sr) with sr1.
  change (SearchHandler.clampPage (Catalog.searchPart (handlerWith pages h)) sr) with sr1.
  cbn [Catalog.searchPart SearchHandler.h_router SearchHandler.h_searcher handlerWith Catalog.h_router Catalog.h_searcher].
  pose proof (in_client _ _ _ _ _ _ _ _ _ Hin) as Hcl.
  destruct (Router.Route (Catalog.h_router h) (Collections sr1)) as [|o [|o' os]] eqn:Er; [done|by rewrite Hrp|].
  pose proof (in_pages _ _ _ _ _ _ _ _ _ Hin) as Hp. destruct Hsized as (Hd & Hmax & Hpages).
  destruct pages as [s|], pages' as [s'|]; try done.
  - unfold SearchHandler.paginatedBranch. rewrite (Pagination.Search_same P s s'); try done.
    change (0 < Limit sr1 ≤ Pagination.maxPageSize s)%Z. rewrite (Hpages s eq_refl). by apply clampPage_limit.
  - do 4 f_equal. unfold SearchHandler.fanOutSearch, Fanout.fanOut. apply list_fmap_ext. intros i x Hx.
    unfold Fanout.slot, SearchHandler.searchOrigin. rewrite (Hcl x sr1); [done|done|rewrite Er; by eapply list_elem_of_lookup_2|].
    rewrite Er. apply SearchHandler.adaptedReq_fanned.
Qed.

(** The search and items handlers. *)
Lemma Handle_same now principal req sr (st : PSt) :
  Proxy.fr_SearchReq req = Some sr → Proxy.isSearchLike (Proxy.fr_RequestType req) = true →
  covers sr →
  (Proxy.fr_RequestType req = RequestTypeItems → Proxy.fr_Collection req ≠ "" →
   covers (Authz.withCollections [Proxy.fr_Collection req] sr)) →
  Catalog.Handle (reverseProxy (withOrigins wire' client' env) (handlerWith pages' h))
    (withBackends (e_backends env) client') now (handlerWith pages' h) principal req st =
  Catalog.Handle (reverseProxy (withOrigins wire client env) (handlerWith pages h))
    (withBackends (e_backends env) client) now (handlerWith pages h) principal req st.
Proof.
  intros Hs Hl Hc Hc'.
  assert (∀ o sr, P sr →
    reverseProxy (withOrigins wire' client' env) (handlerWith pages' h) (Router.o_ID o) (Catalog.withSearchReq sr req) =
    reverseProxy (withOrigins wire client env) (handlerWith pages h) (Router.o_ID o) (Catalog.withSearchReq sr req)) as Hrp.
  { intros o sr0 HP. by apply (reverseProxy_same _ _ sr0). }
  unfold Catalog.Handle. destruct (Proxy.fr_RequestType req) eqn:Et; try done.
  - unfold Catalog.handleItems, Catalog.parseSearchRequest, SearchHandler.handleItems. rewrite Hs.
    destruct (String.eqb_spec (Proxy.fr_Collection req) ""); [done|]. f_equal. apply search_same; auto.
  - unfold Catalog.handleSearch, Catalog.parseSearchRequest. rewrite Hs. f_equal. by apply search_same.
Qed.
Lemma stacHandler_same w q i sr (st : PSt) :
  Pipeline.x_info (Pipeline.q_ctx q) = Some i → info_SearchReq i = Some sr →
  Proxy.isSearchLike (info_RequestType i) = true → covers sr →
  (info_RequestType i = RequestTypeItems → info_Collection i ≠ "" → covers (Authz.withCollections [info_Collection i] sr)) →
  stacHandler (withOrigins wire' client' env) (handlerWith pages' h) w q st =
  stacHandler (withOrigins wire client env) (handlerWith pages h) w q st.
Proof.
  intros Hi Hs Ht Hc Hc'. unfold stacHandler, Catalog.ServeHTTP. rewrite Hi.
  cbn [withOrigins e_backends e_now].
  by rewrite (Handle_same _ _ (fedRequest (withOrigins wire' client' env) q i) sr).
Qed.
End Exchange.

(** ** Constraints, end to end *)

(** What a decision's constraints make of the collections and the filter. *)
Definition bounded (z : Authz.HTTPConfig) (r : httpRequest) (i : STACInfo) (sr : SearchRequest)
    (k : option Authz.AuthzConstraints) (sr' : SearchRequest) : Prop :=
  match k with
  | Some k =>
      Authz.constrained k sr sr' ∧
      Authz.filtered (Authz.CQL2InjectionEnabled z && Authz.checked (Authz.FilterExtensionCheck z) r i)
        (Authz.checked (Authz.SpatialFilterCheck z) r i) k sr sr'
  | None => Collections sr' = Collections sr ∧ Filter sr' = Filter sr ∧ FilterLang sr' = FilterLang sr
  end.

(** A search the policy releases for the client's request: the caller is the
    authenticated one (none without the authentication tier), the policy
    allowed exactly this caller's parsed request, and the search is the
    client's with a limit no larger, within the page size, and with the
    constraints of that decision: its collections and limit obey them, and
    with CQL2 injection its filter is the conjunction of the client's, the
    policy's, the required ones and the pushed-down geofence.  A decision
    without constraints releases the client's collections and filter
    unchanged. *)
Definition released (z : Authz.HTTPConfig) (allow : gset string) (env : environment) (d : Wiring.deployment)
    (r : httpRequest) (body : option bytes) (sr' : SearchRequest) : Prop :=
  ∃ i sr p rid dec body',
    Parser.searchParserMiddleware (stacInfoClassifier (e_mux env) (e_rawPath env) r) r
      (Pipeline.bodyCap (Wiring.dp_router d) body) = Ok (Some i, body') ∧
    info_SearchReq i = Some sr ∧
    match Pipeline.cc_auth (Wiring.dp_chain d) with
    | Some a => ∃ p', Auth.authenticate a r = Ok p' ∧ p = Some p'
    | None => p = None
    end ∧
    Authz.Enforcer z (Authz.BuildAuthzInput allow
      (RateLimit.ClientIP (Pipeline.clientIPMiddleware (Pipeline.rc_ClientIP (Wiring.dp_router d)) r) r)
      rid r (Some i) p) = Some dec ∧
    Authz.Allowed dec = true ∧
    Authz.untouched sr sr' ∧ (0 < Limit sr' ≤ Catalog.h_maxPageSize (Wiring.dp_handler d))%Z ∧
    ((0 < Limit sr)%Z → (Limit sr' ≤ Limit sr)%Z) ∧ bounded z r i sr (Authz.Constraints dec) sr'.

(** The search parser leaves a search on the routes of searches. *)
Lemma parsed_search i r body info body' :
  info_SearchReq i = None → Proxy.isSearchLike (info_RequestType i) = true →
  Parser.searchParserMiddleware (Some i) r body = Ok (info, body') →
  ∃ sr, info = Some (Parser.withSearchReq sr i) ∧
    (info_RequestType i = RequestTypeItems → info_Collection i ≠ "" → Collections sr = [info_Collection i]).
Proof.
  intros Hn Ht. unfold Parser.searchParserMiddleware. rewrite Hn, bool_decide_false by (by intros [? ?]).
  destruct (Parser.ParseSearchRequestFromHTTP r body) as [parsed b].
  destruct (info_RequestType i) eqn:Er; try done; intros (sr & _ & [= <- <-])%bind_ok; eexists; (split; [done|]); [|done].
  intros _ Hc. unfold Parser.scopeTo. by destruct (String.eqb_spec (info_Collection i) "").
Qed.

Lemma classified_fresh mux rawPath r i :
  stacInfoClassifier mux rawPath r = Some i →
  info_SearchReq i = None ∧
  ∃ pattern params, mux (Method r) (Pipeline.routePath rawPath r) = Some (pattern, params) ∧
    Values.get pattern routePatternTypes = Some (info_RequestType i).
Proof.
  unfold stacInfoClassifier, Pipeline.routePath. destruct (mux _ _) as [[pattern params]|]; [|done].
  destruct (Values.get pattern routePatternTypes) as [rt|] eqn:E; [|done]. intros [= <-]. split; [done|].
  by exists pattern, params.
Qed.

(** What the handler may change in a search keeps it within the policy. *)
Lemma constrained_within k sr sr' sr'' :
  Authz.constrained k sr sr' →
  Collections sr'' ≠ [] ∨ Collections sr' = [] → (∀ x, x ∈ Collections sr'' → x ∈ Collections sr') →
  ((0 < Limit sr')%Z → (0 < Limit sr'' ≤ Limit sr')%Z) →
  Authz.constrained k sr sr''.
Proof.
  intros [Ha Hd Hr Hm] Hne Hsub Hl. split.
  - intros Hk. destruct (Ha Hk). split; [naive_solver|]. eauto.
  - eauto.
  - intros Hk. destruct (Hr Hk). split; [naive_solver|]. eauto.
  - intros Hk. specialize (Hm Hk). lia.
Qed.

Lemma bounded_same z r i sr k sr' sr'' :
  bounded z r i sr k sr' →
  Collections sr'' = Collections sr' → Filter sr'' = Filter sr' → FilterLang sr'' = FilterLang sr' →
  ((0 < Limit sr')%Z → (0 < Limit sr'' ≤ Limit sr')%Z) → bounded z r i sr k sr''.
Proof.
  intros Hb Hc Hf Hfl Hl. destruct k as [k|]; cbn in *; [|by rewrite Hc, Hf, Hfl]. destruct Hb as [Hb Hfi]. split.
  - eapply constrained_within; [exact Hb| | |done]; rewrite Hc; [destruct (Collections sr'); auto|done].
  - unfold Authz.filtered in *. by rewrite Hf, Hfl.
Qed.

(** What the handler makes of a search: the page limits applied, with or
    without the pagination fields. *)
Lemma clamp_released z r i sr k h sr' :
  (0 < Catalog.h_defaultPageSize h)%Z → (0 < Catalog.h_maxPageSize h)%Z →
  Authz.untouched sr sr' → ((0 < Limit sr)%Z → (0 < Limit sr' ≤ Limit sr)%Z) → bounded z r i sr k sr' →
  let sr'' := SearchHandler.clampPage (Catalog.searchPart h) sr' in
  ∀ sr3, sr3 = sr'' ∨ sr3 = SearchHandler.hashReq sr'' →
  Authz.untouched sr sr3 ∧ (0 < Limit sr3 ≤ Catalog.h_maxPageSize h)%Z ∧
  ((0 < Limit sr)%Z → (Limit sr3 ≤ Limit sr)%Z) ∧ bounded z r i sr k sr3.
Proof.
  intros Hd Hm Hu Hl Hb sr'' sr3 Hsr3. destruct (clampPage_limit h sr' Hd Hm) as [Hp Hle].
  assert (Limit sr3 = Limit sr'' ∧ Collections sr3 = Collections sr' ∧ Filter sr3 = Filter sr' ∧
    FilterLang sr3 = FilterLang sr' ∧ Authz.untouched sr sr3) as (El & Ec & Ef & Efl & Eu) by (by destruct Hsr3 as [->| ->]).
  fold sr'' in Hp, Hle. rewrite El. split_and!; [done|lia|lia| |].
  - intros Hs. specialize (Hl Hs). lia.
  - eapply bounded_same; try done. rewrite El. intros Hpos. specialize (Hle Hpos). lia.
Qed.

(** On the items route the collection of the path is the one asked for. *)
Lemma bounded_items z r i sr k sr' coll :
  Collections sr = [coll] → bounded z r i sr k sr' → bounded z r i sr k (Authz.withCollections [coll] sr').
Proof.
  intros Hcoll Hb. destruct k as [k|]; cbn in *; [|by rewrite <-Hcoll; naive_solver]. destruct Hb as [Hb Hf]. split; [|done].
  destruct (Authz.cn_requested _ _ _ Hb) as [Hne Hsub]; [by rewrite Hcoll|]. rewrite Hcoll in Hsub.
  eapply constrained_within; [exact Hb|by left| |done].
  intros x. cbn. rewrite list_elem_of_singleton. intros ->. destruct (Collections sr') as [|y l]; [done|].
  assert (y = coll) as <- by (apply list_elem_of_singleton, Hsub; left). left.
Qed.

(** ** Every request is answered *)

(** No origin's answer exceeds the limit of its client or breaks off. *)
Definition orderly (env : environment) (d : Wiring.deployment) : Prop :=
  ∀ id c out up, Catalog.h_origins (Wiring.dp_handler d) !! id = Some c → e_wire env out = Ok up →
    (0 < OriginClient.cl_maxResponseBytes c)%Z ∧ Proxy.up_Status up ≠ 0%Z ∧
    (Httpx.blen (Proxy.bodyOf (Proxy.up_Chunks up)) ≤ OriginClient.cl_maxResponseBytes c)%Z ∧
    Proxy.up_Broken up = false.

Lemma reverseProxy_answers env d id req :
  orderly env d → reverseProxy env (Wiring.dp_handler d) id req ≠ Proxy.Aborted.
Proof.
  intros Hw. unfold reverseProxy, Proxy.reverseProxyOnce.
  destruct (Proxy.ph_origins _ !! id) as [c|] eqn:Ec; [|done].
  destruct (Proxy.buildOutboundRequest _ c req) as [out|]; [|done].
  destruct (OriginAuth.ApplyAuth _ _ _ _ _).1 as [out'|]; cbn; [|done].
  destruct (e_wire env out') as [up|] eqn:Eu; [|done].
  destruct (Hw id c out' up Ec Eu) as (Hm & Hs & Hl & Hb). by apply Proxy.receive_fits.
Qed.

(** C17: Every request is answered: whatever the client sends and whatever
    the origins answer, as long as no answer exceeds its limit or breaks off
    in the middle of its body, the server writes a response.  A panic below
    the tiers does not get past the router, and the connection is closed only
    for an answer above the limit or one that breaks off (as the witness
    shows it then is). *)
Theorem serve_answers allow env d r body (s : World) :
  orderly env d → ∃ resp, (serve allow env d r body s).1 = Pipeline.Done resp.
Proof.
  intros Hw. unfold serve, Pipeline.serveHTTP. destruct (e_mux env _ _) as [[pattern params]|]; [|by eexists].
  case_bool_decide; [by eexists|]. unfold Pipeline.serveGroup. cbv zeta.
  destruct (Parser.searchParserMiddleware _ _ _) as [[info body']|]; [|by eexists].
  match goal with |- ∃ _, (Pipeline.Recoverer _ _ (Pipeline.chain _ ?h ?w ?q s)).1 = _ =>
    assert (Pipeline.answers h) as Hh end.
  { intros w q s'. unfold Pipeline.endpoint. case_bool_decide; unfold Pipeline.lift; cbn; [done|].
    unfold stacHandler, Catalog.ServeHTTP. destruct (Pipeline.x_info (Pipeline.q_ctx q)) as [i|]; [|done].
    match goal with |- context [Catalog.Handle ?rp ?bk ?now ?h ?p ?rq ?st] =>
      pose proof (Catalog.Handle_answers rp (λ a b, reverseProxy_answers env d a b Hw) bk now h p rq st) as Ha;
      destruct (Catalog.Handle rp bk now h p rq st) as [[| |[resp|e]] st'] end; done. }
  apply (Pipeline.answers_chain (Wiring.dp_chain d) (e_now env) (e_fresh env) allow) in Hh.
  match goal with |- ∃ _, (Pipeline.Recoverer _ _ (_ ?w ?q s)).1 = _ => specialize (Hh w q s) end.
  destruct (Pipeline.chain _ _ _ _ s) as [[resp|w|] s']; cbn; [by eexists|by eexists|done].
Qed.

(** C2: The policy bounds the origins: two behaviours of the origins
    that agree on the searches the policy releases cannot be told apart by
    the client, whatever it sends, on every search and items route and
    through every tier, cached page, single-origin pass-through, fan-out and
    page fetch.  So no origin is ever asked for a search that an
    unauthenticated caller sent, that the policy refused, or that exceeds
    the constraints it set: in collections, in limit, or, with CQL2
    injection, in filter.  The pass-through posts the search itself to the
    origin's search endpoint; the fan-out asks routed origins for it under
    renamed collections; a page fetch asks for it with its own limit, at the
    endpoint or at a continuation URL below a configured base. *)
Theorem origins_see_released `{!Authz.Cql2Laws} allow env d z r body (s : World) i wire wire' client client' pages pages' :
  Pipeline.cc_authz (Wiring.dp_chain d) = Some z →
  stacInfoClassifier (e_mux env) (e_rawPath env) r = Some i → Proxy.isSearchLike (info_RequestType i) = true →
  sized pages (Wiring.dp_handler d) →
  indistinct (released z allow env d r body) env (Wiring.dp_handler d) wire wire' client client' pages pages' →
  serve allow (withOrigins wire' client' env) (withPages pages' d) r body s =
  serve allow (withOrigins wire client env) (withPages pages d) r body s.
Proof.
  intros Hz Hi Ht Hsz Hin. unfold serve. cbn [withOrigins withPages e_mux e_rawPath e_health e_unmatched e_text e_recoverer
    e_now e_fresh Wiring.dp_router Wiring.dp_chain Wiring.dp_handler].
  destruct (classified_fresh _ _ _ _ Hi) as (Hn & pattern & params & Hm & Hrt).
  apply Pipeline.serveHTTP_agree. intros pattern' params' info body' q' Hm' Hp Had w s'.
  rewrite Hm in Hm'. injection Hm' as <- <-. unfold Pipeline.endpoint. rewrite bool_decide_false; [|].
  2:{ cbn. rewrite !elem_of_cons, elem_of_nil. intros [->|[->|[]]]; cbn in Hrt; injection Hrt as Hrt; by rewrite <-Hrt in Ht. }
  pose proof Hp as Hparse. rewrite Hi in Hp. destruct (parsed_search _ _ _ _ _ Hn Ht Hp) as (sr & -> & Hcoll).
  destruct Had as [Hh Hb Hinf Ha Han _ Haz]. cbn in Hh, Hinf, Ha, Han, Haz.
  destruct (Hinf _ eq_refl) as ([sr1|] & Hsome & Hi'); [|by destruct (proj2 Hsome) as [? ?]; [by eexists|]].
  destruct (Haz z Hz) as (dec & Hdec & Hal & Hk & Hfree).
  assert (Authz.untouched sr sr1 ∧ ((0 < Limit sr)%Z → (0 < Limit sr1 ≤ Limit sr)%Z) ∧
    bounded z r (Parser.withSearchReq sr i) sr (Authz.Constraints dec) sr1) as (Hu & Hl & Hbd).
  { destruct (Authz.Constraints dec) as [k|] eqn:Ek.
    - destruct (Hk _ _ k eq_refl eq_refl eq_refl) as (sr' & [= ->]%(eq_trans (eq_sym Hi')) & Hcon & k' & Hcr).
      destruct (Authz.constrainRequest_released z r (Parser.withSearchReq sr i) sr k sr' k' eq_refl Hcr) as (_ & Hu & Hl & Hf). done.
    - specialize (Hfree eq_refl). rewrite Hfree in Hi'. injection Hi' as <-. done. }
  assert (∀ sr2, Authz.untouched sr sr2 → ((0 < Limit sr)%Z → (0 < Limit sr2 ≤ Limit sr)%Z) →
    bounded z r (Parser.withSearchReq sr i) sr (Authz.Constraints dec) sr2 →
    covers (released z allow env d r body) (Wiring.dp_handler d) sr2) as Hcov.
  { intros sr2 Hu2 Hl2 Hb2. destruct Hsz as (Hd & Hmx & _).
    pose proof (clamp_released _ _ _ _ _ _ _ Hd Hmx Hu2 Hl2 Hb2) as Hrel.
    split; (exists (Parser.withSearchReq sr i), sr; do 4 eexists;
      split_and!; [exact Hparse|done| |exact Hdec|done|apply Hrel..]; auto);
      destruct (Pipeline.cc_auth (Wiring.dp_chain d)) as [a|]; [by destruct (Ha a eq_refl) as (p & Hp1 & ->); exists p|by apply Han|
        by destruct (Ha a eq_refl) as (p & Hp1 & ->); exists p|by apply Han]. }
  unfold Pipeline.lift.
  rewrite (stacHandler_same _ _ _ _ _ _ _ _ _ Hin Hsz w q' _ sr1 _ Hi'); [done|done|done|by apply Hcov|].
  intros Hitems Hne. cbn in Hitems, Hne. apply Hcov; [done|done|]. apply bounded_items; auto.
Qed.

End System.

(** ** Witnesses *)

Module Witness.
#[local] Existing Instance Authz.Witness.json.
#[local] Existing Instance Authz.Witness.geoLib.
#[local] Existing Instance Authz.Witness.cql2Geo.
#[local] Existing Instance Authz.Witness.parseFloat.
#[local] Existing Instance Authz.Witness.cql2Lib.
#[local] Existing Instance Authz.Witness.cql2Laws.
#[local] Existing Instance Parser.Witness.toyCodec.
#[local] Existing Instance Cache.Witness.plainHash.
#[local] Existing Instance Cache.Witness.okCodec.
#[local] Existing Instance StoreProperties.assoc_LRU.
#[local] Existing Instance Catalog.Witness.toyDoc.
#[local] Existing Instance Pagination.Witness.rawTime.
#[local] Existing Instance Pagination.Witness.noJSON.
#[local] Existing Instance Pagination.Witness.noPage.
#[local] Existing Instance Pagination.Witness.noQuery.
#[local] Existing Instance Pagination.Witness.noCtx.
#[local] Existing Instance URL.PlainURL.
#[local] Existing Instance Proxy.Witness.plainPrint.
#[local] Existing Instance Proxy.Witness.toySigner.
#[local] Existing Instance Pipeline.Witness.noAddress.
#[local] Existing Instance Pipeline.Witness.counter.

Abbreviation Mem := (Memory.MemoryStore (L:=StoreProperties.assocLRU)).
Abbreviation World := (Pipeline.world nat Mem Mem).

(** One origin behind an API key, a limiter and a policy that allows ten open
    items of the collection [a]. *)
Definition openA : Authz.AuthzConstraints := Authz.mkConstraints ["a"] [] None 10 [] "O" VNil false.
Definition policy : Authz.HTTPConfig :=
  Authz.mkHTTPConfig (λ _, Some (Authz.mkDecision true [] (Some openA) false)) true true None None.
Definition chain : Pipeline.chainConfig :=
  Pipeline.mkChain None (Some (Auth.mkConfig false [Pipeline.Witness.keyed]))
    (Some (RateLimit.mkConfig (RateLimit.mkQuota 1 1 1) false)) (Some policy) (Some Cache.Witness.cfg) (Some []).
Definition handler : Catalog.Handler :=
  Catalog.mkHandler (Proxy.mkHandler {["a" := Proxy.Witness.client]} "" None)
    (Router.Register Proxy.Witness.origin Router.NewCollectionRouter) 10 60 100 1000 (mkCaps false false) None.
Definition deployment : Wiring.deployment :=
  Wiring.mkDeployment handler [] None None chain None None Pipeline.Witness.router
    (Wiring.mkHTTPServer ":8080" 1 1 1 1 1 false) false.

(** On the wire a search is [a] if it names nothing else, asks for at most
    ten items and none that is not open; the origin echoes it. *)
Definition shut : list (string * value) := Authz.Witness.feature "x" Authz.Witness.City "public" "shut".
Definition finds (filter : value) (item : list (string * value)) : bool :=
  match Authz.parseUserCQL2 filter with
  | Ok (Some e) => match Cql2.EvalCQL2 e item with Ok b => b | Err _ => false end
  | _ => true
  end.
Definition marshal (sr : SearchRequest) : option bytes :=
  Some (if forallb (String.eqb "a") (Collections sr) && (Limit sr <=? 10)%Z && negb (finds (Filter sr) shut)
        then "a" else "leak").
Definition wire (out : OriginAuth.outRequest) : result string Proxy.upstream :=
  Ok (Proxy.mkUpstream 200 ∅ [default "" (OriginAuth.out_Body out)] false).
(** The same, unless anything but [a] is asked for. *)
Definition trap (out : OriginAuth.outRequest) : result string Proxy.upstream :=
  if bool_decide (OriginAuth.out_Body out = Some "a") then wire out else Err "leak".

Definition backends : Catalog.backends :=
  Catalog.mkBackends (λ _, "") (λ _ _, Err (ErrFetch "down")) (λ _, []) (λ _, "")
    (λ _, Fanout.Returned (Ok [])) (λ _, None) (λ _ _, Fanout.Returned None) (λ _, Fanout.Returned None).
Definition env : environment :=
  mkEnv 0 0 "id" Pipeline.Witness.mux "" "proxy" true false (λ _, Some 200%Z)
    (λ _ _, Pipeline.Witness.plain 200 "up")
    (λ _, Pipeline.Witness.plain 404 "none") (λ _, "bad") (λ w _, mkResponse 500 w "") marshal OriginAuth.TransportError wire backends.
Definition start : World := Pipeline.mkWorld 5 (Memory.NewMemoryStore 8) (Memory.NewMemoryStore 8).
Definition search : httpRequest := Pipeline.Witness.get Pipeline.Witness.withKey "/search" "collections=a,b".

Abbreviation served w := (serve ∅ (withOrigins w (λ _ _, Err (ErrFetch "down")) env) (withPages None deployment) search
  (Some "") start).

Lemma origins_see_released_witness :
  Pipeline.Witness.bodyOf (served wire).1 = "a" ∧ served trap = served wire.
Proof.
  split; [vm_compute; reflexivity|].
  refine (origins_see_released ∅ env deployment policy search (Some "") start
    (mkSTACInfo "" "" RequestTypeSearch None) wire trap (λ _ _, Err (ErrFetch "down")) (λ _ _, Err (ErrFetch "down"))
    None None _ _ _ _ _); [reflexivity..|split_and!; [reflexivity..|discriminate]|].
  split; [|reflexivity|exact I].
  intros id c out sr _ (i & sr0 & p & rid & dec & body' & _ & _ & _ & Hd & _ & _ & _ & _ & Hk) _ _ _ _ _ Hb.
  injection Hd as <-. destruct Hk as [[Ha _ _ Hl] Hf]. destruct Ha as [_ Ha]; [discriminate|].
  specialize (Hl ltac:(reflexivity)). cbn in Hl.
  assert (forallb (String.eqb "a") (Collections sr) = true) as Hall.
  { apply forallb_forall. intros x Hx%list_elem_of_In%Ha. apply list_elem_of_singleton in Hx as ->. reflexivity. }
  assert (finds (Filter sr) shut = false) as Hshut.
  { destruct Hf as (user & pol & req & e' & _ & Hpol & _ & He & Hall'). injection Hpol as <-.
    unfold finds. rewrite He. assert (¬ Authz.optHolds e' shut) as Hno.
    { intros (_ & Hp & _)%Hall'. vm_compute in Hp. discriminate Hp. }
    destruct e' as [e'|]; [|destruct (Hno I)]. unfold Authz.optHolds, Cql2.holds in Hno.
    destruct (Cql2.EvalCQL2 e' shut) as [[]|]; [by destruct Hno|reflexivity..]. }
  change (e_marshal env sr) with (marshal sr) in Hb. unfold marshal in Hb.
  rewrite Hall, Hshut, (proj2 (Z.leb_le _ _)) in Hb by lia. unfold trap. by rewrite Hb.
Defined.

(** A short answer; a nil document in its place would crash the handler of
    single resources, and the router answers for it. *)
Definition short (out : OriginAuth.outRequest) : result string Proxy.upstream := Ok (Proxy.mkUpstream 200 ∅ ["ok"] false).

Lemma serve_answers_witness :
  (∃ resp, (served short).1 = Pipeline.Done resp) ∧ Pipeline.Witness.bodyOf (served short).1 = "ok" ∧
  (served (λ _, Ok (Proxy.mkUpstream 200 ∅ ["above four"] false))).1 = Pipeline.Aborted ∧
  (served (λ _, Ok (Proxy.mkUpstream 200 ∅ ["ok"] true))).1 = Pipeline.Aborted.
Proof.
  split; [|split_and!; vm_compute; reflexivity].
  apply (serve_answers ∅ (withOrigins short (λ _ _, Err (ErrFetch "down")) env) (withPages None deployment) search
    (Some "") start).
  intros id c out up Hc [= <-].
  change (({["a" := Proxy.Witness.client]} : gmap string OriginClient.OriginClient) !! id = Some c) in Hc.
  apply lookup_singleton_Some in Hc as [_ <-].
  split; [reflexivity|]. split; [discriminate|]. split; [vm_compute; discriminate|reflexivity].
Defined.
End Witness.

End System.
